(* ===== verification/_CoqProject ===== *)
-Q . S2P
Prelude.v
Types.v
Paths.v
Cache.v
Tree.v
Runtime.v
ReadPlan.v
Messages.v
Frame.v
Wire.v
Commit.v
Mount.v
IpcState.v
Routing.v
Report.v
Server.v
Router.v
Content.v
FuseAdapter.v
FuseNamespace.v
Effect.v
Fs.v
Materialize.v
ModelFs.v
MaterializeSample.v
MaterializeSafety.v
MaterializeCorrect.v
MaterializeReplace.v
MaterializeServer.v
Host.v
Client.v
ClientServer.v
Connections.v
Duplex.v
MaterializeProtocol.v
Progress.v
ServerRefines.v
Ffi.v
FfiProps.v
Handles.v
Publish.v
Programs.v
RuntimeTests.v
IpcTests.v
FfiTests.v
