(* ===== verification/Prelude.v ===== *)
(** * fuse-promise: a verification library

    fuse-promise lets a provider process promise a tree of files: a daemon shows
    the tree under a FUSE mount, asks the provider for bytes when somebody reads,
    and can copy (materialize) promised files to real ones.  This library models
    the Rust sources as executable functions and proves what makes them correct.

    ** The program and the files that model it

    - [crates/fuse-promise-runtime/src/lib.rs], the daemon's in-memory state:
      [Types] (statuses, ids, attributes, policies), [Paths] (normalized promise
      paths, and the part of [std::path] in use), [Tree] ([PromiseBuilder],
      [PromiseTree]), [Cache] ([ReadCache] down to its byte ranges), [Runtime]
      (providers, committed promises, inodes, directories, marks), [ReadPlan]
      (how a read is served) and [Content] (which bytes are the right ones).
    - [crates/fuse-promise-ipc/src/lib.rs], the control socket: [Messages]
      (requests, responses, conversions, error maps), [Frame] (length-prefixed
      frames), [Wire] (a codec for all messages, in the layout that [bincode]
      documents), [Commit] (a builder sent as a request), [Mount] (visible paths),
      [Report] (status and inspection), [IpcState] (routes and pending reads),
      [Routing] (provider reads interleaved with other threads), [Router]
      ([route_provider_read] as a function, and the interface of provider reads),
      [Server] (one client connection, from its first frame to its end), and
      materialization: [Effect] (stateful code that fails), [Fs] (the calls of
      the file system and their laws), [Materialize] (the operation itself),
      [ModelFs] and [MaterializeSample] (a file system to run it on),
      [MaterializeSafety], [MaterializeCorrect], [MaterializeReplace] and
      [MaterializeServer] (what it guarantees).  [Host] has the directories and
      the socket (and their checks in the runtime crate), [Client] the client
      functions, [ClientServer] both ends of a connection together, [Duplex] two
      threads on an open connection, where a read of what has not arrived waits,
      and [MaterializeProtocol] the two ends of a materialization as such threads;
      [Progress] has the progress reports of a materialization, [Connections]
      many connections at once, and [ServerRefines] one connection as a run of
      many.
    - [crates/fuse-promise-daemon/src/fuse_adapter.rs], the FUSE file system:
      [FuseAdapter] (operations and reading) and [FuseNamespace] (directories).
    - [crates/fuse-promise-ffi/src/lib.rs], the C interface: [Ffi] (every
      exported function, over a memory of bytes), [FfiProps] (what a C caller
      and a provider's callback can rely on) and [Handles] (contexts, providers
      and builders as addresses, with their shared [Arc]).  [Publish] puts the
      whole chain together, from a C program's commit to a read of its file.
    - [crates/fuse-promise-daemon/src/main.rs] and [tools/fpctl/src/main.rs], the
      two programs, with [crates/fuse-promise-ffi/build.rs]: [Programs].
    - the unit tests of the three library crates: [RuntimeTests], [IpcTests] and
      [FfiTests] translate all 66 of them and run them on the model.  That they
      pass is evidence that the definitions behave as the code does where its
      authors checked it; the theorems do not depend on it.

    A [struct] is a [Record] with prefixed field names, an [enum] an [Inductive],
    a method [T::f] the definition [T_f] or [f].  [Result] is [result] with the
    bind of the question mark operator; a method on [&mut self] returns the new
    state beside its result, on the error paths too.  Integers are [Z] with their
    checks and wrap-around written out, strings and paths are lists of bytes,
    [BTreeMap]s are [gmap]s whose iteration order is recovered by sorting.

    ** How the parts interact

    A client connection ([Server]) registers providers and commits promises into
    the [Runtime] and hands answers of providers to [IpcState].  The FUSE threads
    ([FuseAdapter]) and materialization plan a read in the runtime and wait for
    the provider in [route_provider_read]; while they wait, other threads change
    the shared state.  [Routing] gives the interleavings of the readers, and
    [Connections] those of the connection threads, of which [Server] with its
    materializations is one ([ServerRefines]); the clients of a provider read are
    proved against the class [RouterOk], which [Router] discharges for every
    behaviour of the other threads.  [Server] is proved against an interface of
    the materialization handler, which
    [MaterializeServer] discharges; materialization is proved against the laws
    [FileSystemOk] of the file system, which [ModelFs] shows to be consistent.
    [bincode] is the class [Bincode] with the laws [BincodeOk] (decoding undoes
    encoding) and [BincodeCompact] (an answer takes little more room than its
    bytes), which the codecs of [Wire] meet.
    A C program calls [Ffi], which calls [Client], which writes frames that
    [Server] reads: [served] in [ClientServer] says that a client function and the
    daemon have each read exactly what the other wrote.  The loop of a
    materialization in [Client] and its handler in [Materialize] are written
    against the classes [ClientEnd] and [DaemonEnd] of a connection's two
    operations, so that the same definitions run on a stream that is given and on
    the waiting ends of [Duplex]; [converge] says that two such threads, whoever
    takes a turn, come to an end at which both have returned.

    ** What the theorems show

    - State: every history of runtime operations keeps the invariant of the
      runtime; builders build the tree their calls describe; lookups, listings
      and inodes agree; disconnecting a provider is permanent.
    - Bytes: the cache refines a partial map from offsets to bytes; planning
      covers the requested range; a FUSE read returns the promised bytes, all of
      them when the provider answers fully, and its errors are classified.
    - Concurrency: no provider read is lost or answered twice, an answer fits its
      request, a disconnect wakes all waiting readers; every route, and every live
      provider whose registration did not fail half way, belongs to one open
      connection, under every interleaving of the connection threads; what is
      computed for one connection without interruption, materializations
      included, is one of these interleavings.
    - Protocol: frames, requests and commits round-trip; nothing happens before
      the handshake; only the owner of a provider commits for it; closing a
      connection disconnects its providers.
    - Materialization: a success has copied the whole subtree with bytes and
      metadata and marked it; a failure leaves nothing behind and nothing
      changed; overwriting replaces a file atomically, and other links keep the
      old one; client and daemon agree on every report, a refusal of the caller's
      cancels the operation, and neither waits for the other forever; the
      counters of the reports only grow, stay within the totals and end at them.
      (What is left behind is bounded for a file system that is reliable; where
      a call fails for reasons of its own, an empty file may stay, see
      [open_materialize_output].)
    - End to end: a commit through the client functions, or through the C
      interface, returns the visible path of the promise that the daemon now has;
      a committed file is found by walking that path, and a read of it returns
      the bytes of the provider's callback, up to [MAX_PROVIDER_READ_LEN] at a
      time, while other threads do anything but answer that read or fail the
      reads of its provider.
    - C interface: no call, materialization included, faults on arguments that
      respect the contract; handles keep their types and share their context
      safely; a provider's thread answers every request, whatever its callback
      does, with something that fits in a frame and that the daemon accepts; a
      builder is consumed exactly by a successful commit; which status a caller
      sees.
    - Start-up: directories are private to the user; a daemon offers commits only
      when it has mounted; command lines that are not understood send nothing.

    Where the errors of the FUSE operations differ from the table in
    [docs/runtime.md], the theorems state what the code does, and say so: [open]
    of a file whose provider is gone succeeds, a read of a directory of a promise
    is [EINVAL], and a read whose provider has no route is [ENOENT].

    ** Fuel and bounds

    Loops that are not structural take fuel that is computed from the data and
    shown to suffice: one unit per byte in [Cache] and in the write loop of
    [Materialize] (every round moves the offset), the longest path in
    [PromiseTree_subtree_nodes], one unit per byte of input in [Server], in the
    progress loop of [Client] and in the provider's thread of [Ffi] (every round
    reads a frame).  Where
    ids come from 64-bit counters, theorems assume that the counters do not reach
    [u64::MAX], which is stated as room for a number of further operations.

    ** Not modelled

    The kernel, the file system, [bincode], [fuser], sockets, the allocator and
    the scheduling of threads are parameters with laws or inputs.  Poisoned locks
    do not occur, since no code panics while holding one.  Numbers are those of a
    64-bit target.  A callback of a provider that unwinds is modelled as caught by
    the [catch_unwind] around it; with current compilers unwinding out of a function
    of the C ABI aborts the process instead.  The counts of an [Arc] are those of
    the standard library.  [release] and the unmounting of the FUSE adapter, which
    only pass on to [fuser], have no model. *)

From stdpp Require Export base decidable list gmap sorting.
From Stdlib Require Export ZArith Lia.
From Stdlib Require Strings.Byte String DecimalString DecimalN DecimalPos.

Export String.StringSyntax.

Open Scope Z_scope.

(** ** Bytes and strings

    A Rust [u8] is a [Byte.byte]; [Vec<u8>], [&str], [String], [OsString] and
    [PathBuf] are lists of bytes.  [bs "..."] writes a literal. *)

Abbreviation byte := Byte.byte.
Abbreviation str := (list byte).

Definition bs (s : String.string) : str := String.list_byte_of_string s.
Arguments bs s%_string_scope.

Definition byte_val (b : byte) : Z := Z.of_N (Byte.to_N b).

Definition byte_of (z : Z) : byte :=
  default Byte.x00 (Byte.of_N (Z.to_N z)).

#[export] Instance byte_eq_decision : EqDecision byte := Byte.byte_eq_dec.

#[export] Instance byte_countable : Countable byte.
Proof.
  refine (inj_countable Byte.to_N Byte.of_N _).
  apply Byte.of_to_N.
Defined.

(** The bytes ['/'], ['.'] and NUL. *)
Definition slash : byte := Byte.x2f.
Definition dot : byte := Byte.x2e.
Definition nul : byte := Byte.x00.

(** ** Fixed-width unsigned integers

    [u32], [u64] and [usize] values are integers in range; the target is a
    64-bit one, so [usize] and [u64] have the same range.  Arithmetic with a
    name in Rust ([checked_add], [saturating_sub], ...) has the same name
    here; a plain [+=] is the wrapping operation of a release build. *)

Definition u16_max : Z := 65535.
Definition u32_max : Z := 4294967295.
Definition u64_max : Z := 18446744073709551615.
Definition usize_max : Z := u64_max.
Definition u128_max : Z := 340282366920938463463374607431768211455.
Definition i64_max : Z := 9223372036854775807.
Definition i64_min : Z := -9223372036854775808.

Definition in_u32 (x : Z) : Prop := 0 <= x <= u32_max.
Definition in_u64 (x : Z) : Prop := 0 <= x <= u64_max.

Definition checked_add (a b : Z) : option Z :=
  if a + b <=? u64_max then Some (a + b) else None.

Definition checked_sub (a b : Z) : option Z :=
  if b <=? a then Some (a - b) else None.

Definition saturating_add (a b : Z) : Z := Z.min u64_max (a + b).
Definition saturating_sub (a b : Z) : Z := Z.max 0 (a - b).
Definition wrapping_add (a b : Z) : Z := (a + b) mod (u64_max + 1).

Definition u32_try_from (x : Z) : option Z :=
  if x <=? u32_max then Some x else None.

Definition usize_try_from (x : Z) : option Z :=
  if x <=? usize_max then Some x else None.

(** [!mask] on a [u32]. *)
Definition u32_not (mask : Z) : Z := Z.lxor u32_max mask.

(** [v.len()] of a vector or a string, as a [usize]. *)
Definition len {A} (l : list A) : Z := Z.of_nat (length l).

(** ** Fallible results

    [Result<A, E>] of Rust, with [?] as the monadic bind. *)

Inductive result (E A : Type) : Type :=
| Ok (a : A)
| Err (e : E).

Arguments Ok {E A} a.
Arguments Err {E A} e.

#[export] Instance result_eq_decision {E A} `{EqDecision E, EqDecision A} :
  EqDecision (result E A).
Proof. solve_decision. Defined.

#[export] Instance result_ret {E} : MRet (result E) := fun A a => Ok a.

#[export] Instance result_bind {E} : MBind (result E) :=
  fun A B f m => match m with Ok a => f a | Err e => Err e end.

#[export] Instance result_fmap {E} : FMap (result E) :=
  fun A B f m => match m with Ok a => Ok (f a) | Err e => Err e end.

Definition ok_or {E A} (o : option A) (e : E) : result E A :=
  match o with Some a => Ok a | None => Err e end.

Definition ok {E A} (m : result E A) : option A :=
  match m with Ok a => Some a | Err _ => None end.

Definition map_err {E F A} (f : E -> F) (m : result E A) : result F A :=
  match m with Ok a => Ok a | Err e => Err (f e) end.

Definition is_ok {E A} (m : result E A) : bool :=
  match m with Ok _ => true | Err _ => false end.

(** [iter.map(f).collect::<Result<Vec<_>, _>>()]: the first error wins. *)
Fixpoint collect {E A B} (f : A -> result E B) (l : list A) : result E (list B) :=
  match l with
  | [] => Ok []
  | x :: l => y ← f x; ys ← collect f l; Ok (y :: ys)
  end.

(** [iter.find_map(f)]. *)
Fixpoint find_map {A B} (f : A -> option B) (l : list A) : option B :=
  match l with
  | [] => None
  | x :: l => match f x with Some y => Some y | None => find_map f l end
  end.

(** ** Slices *)

(** [&bytes[start..end]] of an in-range slice. *)
Definition slice {A} (l : list A) (start end_ : Z) : list A :=
  take (Z.to_nat (end_ - start)) (drop (Z.to_nat start) l).

(** [buf[start..start + src.len()].copy_from_slice(src)]. *)
Definition copy_into {A} (buf : list A) (start : Z) (src : list A) : list A :=
  take (Z.to_nat start) buf ++ src ++ drop (Z.to_nat start + length src) buf.

(** Lookup of a vector at an integer index. *)
Definition zlookup {A} (l : list A) (i : Z) : option A :=
  if decide (0 <= i) then l !! Z.to_nat i else None.

(** [std::str::from_utf8(bytes).is_ok()], the test behind [to_str] on paths and
    OS strings. *)
Definition cont_byte (b : byte) : bool := (128 <=? byte_val b) && (byte_val b <=? 191).

Fixpoint utf8_valid (s : str) : bool :=
  match s with
  | [] => true
  | b0 :: s0 =>
      let v := byte_val b0 in
      if v <=? 127 then utf8_valid s0
      else match s0 with
      | [] => false
      | b1 :: s1 =>
          let w := byte_val b1 in
          if (194 <=? v) && (v <=? 223) then cont_byte b1 && utf8_valid s1
          else match s1 with
          | [] => false
          | b2 :: s2 =>
              if (224 <=? v) && (v <=? 239) then
                cont_byte b1 && cont_byte b2 &&
                (if v =? 224 then 160 <=? w else true) &&
                (if v =? 237 then w <=? 159 else true) && utf8_valid s2
              else match s2 with
              | [] => false
              | b3 :: s3 =>
                  (240 <=? v) && (v <=? 244) &&
                  cont_byte b1 && cont_byte b2 && cont_byte b3 &&
                  (if v =? 240 then 144 <=? w else true) &&
                  (if v =? 244 then w <=? 143 else true) && utf8_valid s3
              end
          end
      end
  end.

(** [OsStr::to_str] / [Path::to_str]. *)
Definition to_str (s : str) : option str := if utf8_valid s then Some s else None.

(** [String::from_utf8_lossy], behind [to_string_lossy]: a maximal invalid
    prefix of a sequence becomes one U+FFFD.  [utf8_head s] is the length of the
    sequence [s] starts with and whether it is valid; a missing byte counts as
    a NUL. *)
Definition nth_byte (s : str) (i : nat) : byte := default Byte.x00 (s !! i).

Definition utf8_head (s : str) : bool * nat :=
  let v := byte_val (nth_byte s 0) in
  let w := byte_val (nth_byte s 1) in
  if v <=? 127 then (true, 1%nat)
  else if (194 <=? v) && (v <=? 223) then
    if cont_byte (nth_byte s 1) then (true, 2%nat) else (false, 1%nat)
  else if (224 <=? v) && (v <=? 239) then
    if cont_byte (nth_byte s 1) && (if v =? 224 then 160 <=? w else true) &&
       (if v =? 237 then w <=? 159 else true)
    then if cont_byte (nth_byte s 2) then (true, 3%nat) else (false, 2%nat)
    else (false, 1%nat)
  else if (240 <=? v) && (v <=? 244) then
    if cont_byte (nth_byte s 1) && (if v =? 240 then 144 <=? w else true) &&
       (if v =? 244 then w <=? 143 else true)
    then if cont_byte (nth_byte s 2)
         then if cont_byte (nth_byte s 3) then (true, 4%nat) else (false, 3%nat)
         else (false, 2%nat)
    else (false, 1%nat)
  else (false, 1%nat).

Definition replacement : str := [Byte.xef; Byte.xbf; Byte.xbd].

Fixpoint lossy (fuel : nat) (s : str) : str :=
  match fuel, s with
  | S fuel, _ :: _ =>
      let '(valid, n) := utf8_head s in
      (if valid then take n s else replacement) ++ lossy fuel (drop n s)
  | _, _ => []
  end.

Definition to_string_lossy (s : str) : str := lossy (length s) s.

(** ** Decimal printing, [format!("{}", n)] *)

Definition u64_to_string (n : Z) : str :=
  String.list_byte_of_string (DecimalString.NilZero.string_of_uint (N.to_uint (Z.to_N n))).

(** ** Ordered keys and B-tree maps

    [BTreeMap<K, V>] and [BTreeSet<K>] are [gmap] and [gset]; iteration, which
    Rust performs in ascending key order, is [btree_items], [btree_values] and
    [btree_set_items]. *)

Class OrdKey (K : Type) := {
  key_le : relation K;
  key_le_dec :: RelDecision key_le;
  key_le_trans :: Transitive key_le;
  key_le_total :: Total key_le;
  key_le_antisymm :: AntiSymm (=) key_le;
}.

(** Byte-wise lexicographic order, the [Ord] of [String]. *)
Fixpoint str_leb (a b : str) : bool :=
  match a, b with
  | [], _ => true
  | _ :: _, [] => false
  | x :: a, y :: b =>
      if (byte_val x <? byte_val y) then true
      else if (byte_val y <? byte_val x) then false
      else str_leb a b
  end.

Definition str_le (a b : str) : Prop := str_leb a b = true.

#[export] Instance str_le_dec : RelDecision str_le :=
  fun a b => bool_eq_dec (str_leb a b) true.

Definition item_le {K A} `{OrdKey K} : relation (K * A) :=
  fun x y => key_le x.1 y.1.

#[export] Instance item_le_dec {K A} `{OrdKey K} : RelDecision (@item_le K A _) :=
  fun x y => key_le_dec x.1 y.1.

Definition btree_items {K A} `{Countable K, OrdKey K} (m : gmap K A) : list (K * A) :=
  merge_sort item_le (map_to_list m).

Definition btree_values {K A} `{Countable K, OrdKey K} (m : gmap K A) : list A :=
  (btree_items m).*2.

Definition btree_set_items {K} `{Countable K, OrdKey K} (s : gset K) : list K :=
  merge_sort key_le (elements s).

(** [vec.sort_by_key(key)] (a stable sort). *)
Section sort_by_key.
Context {A : Type} (key : A -> Z).

Fixpoint insert_by_key (x : A) (l : list A) : list A :=
  match l with
  | [] => [x]
  | y :: l => if key x <=? key y then x :: y :: l else y :: insert_by_key x l
  end.

Definition sort_by_key (l : list A) : list A := foldr insert_by_key [] l.
End sort_by_key.

(** ** Automation *)

Create HintDb fp.
Create Rewrite HintDb fp.

(** [case_bool]: split on an integer or boolean test of the goal, with the
    equation turned into a (in)equality. *)
Ltac case_bool :=
  match goal with
  | |- context [?a <=? ?b] => destruct (Z.leb_spec a b)
  | |- context [?a <? ?b] => destruct (Z.ltb_spec a b)
  | |- context [?a =? ?b] => destruct (Z.eqb_spec a b)
  end.

Ltac case_bool_in H :=
  match type of H with
  | context [?a <=? ?b] => destruct (Z.leb_spec a b)
  | context [?a <? ?b] => destruct (Z.ltb_spec a b)
  | context [?a =? ?b] => destruct (Z.eqb_spec a b)
  end.

(** [inv_ok H] takes a successful run of a chain of [?]s apart. *)
Lemma bind_Ok {E A B} (m : result E A) (f : A -> result E B) b :
  (x ← m; f x) = Ok b <-> exists a, m = Ok a /\ f a = Ok b.
Proof. destruct m; cbn; naive_solver. Qed.

Lemma bind_Err {E A B} (m : result E A) (f : A -> result E B) e :
  (x ← m; f x) = Err e <-> m = Err e \/ exists a, m = Ok a /\ f a = Err e.
Proof. destruct m; cbn; naive_solver. Qed.

Lemma fmap_Ok {E A B} (m : result E A) (f : A -> B) b :
  f <$> m = Ok b <-> exists a, m = Ok a /\ f a = b.
Proof. destruct m; cbn; naive_solver. Qed.

Lemma ok_or_Ok {E A} (o : option A) (e : E) a :
  ok_or o e = Ok a <-> o = Some a.
Proof. destruct o; cbn; naive_solver. Qed.

Lemma ok_or_Err {E A} (o : option A) (e e' : E) :
  ok_or o e = Err e' <-> o = None /\ e = e'.
Proof. destruct o; cbn; naive_solver. Qed.

Lemma map_err_Ok {E F A} (f : E -> F) (m : result E A) a :
  map_err f m = Ok a <-> m = Ok a.
Proof. destruct m; cbn; naive_solver. Qed.

Ltac inv_ok :=
  repeat match goal with
  | H : (mbind _ _) = Ok _ |- _ =>
      let H1 := fresh H in apply bind_Ok in H as (? & H1 & H)
  | H : ok_or _ _ = Ok _ |- _ => apply ok_or_Ok in H
  | H : map_err _ _ = Ok _ |- _ => apply map_err_Ok in H
  | H : Ok _ = Ok _ |- _ => injection H as H
  | H : Err _ = Ok _ |- _ => discriminate H
  | H : Ok _ = Err _ |- _ => discriminate H
  | H : (if ?b then _ else _) = Ok _ |- _ => destruct b eqn:?; try discriminate H
  end.

Lemma collect_Ok {E A B} (f : A -> result E B) l ys :
  collect f l = Ok ys <-> Forall2 (fun x y => f x = Ok y) l ys.
Proof.
  revert ys. induction l as [|x l IH]; intros ys; cbn.
  - split; [intros [= <-]; constructor | by inversion 1].
  - rewrite bind_Ok. setoid_rewrite bind_Ok. split.
    + intros (y & Hy & ys' & Hys & [= <-]). constructor; [done|]. by apply IH.
    + inversion 1 as [|? y ? ys' Hy Hys]; subst.
      exists y; split; [done|]. exists ys'; split; [by apply IH|done].
Qed.

Lemma Forall2_elem_l {A B} (R : A -> B -> Prop) l k x : Forall2 R l k -> x ∈ l -> exists y, y ∈ k /\ R x y.
Proof.
  induction 1 as [|a b l k Hab H IH]; intros Hx; [by apply not_elem_of_nil in Hx|].
  apply elem_of_cons in Hx as [->|Hx]; [exists b; split; [by left|done]|].
  destruct (IH Hx) as (y & Hy & Hr). exists y. split; [by right|done].
Qed.

Lemma Forall2_elem_r {A B} (R : A -> B -> Prop) l k y : Forall2 R l k -> y ∈ k -> exists x, x ∈ l /\ R x y.
Proof. intros H%Forall2_flip Hy. by destruct (Forall2_elem_l _ _ _ _ H Hy) as (x & ? & ?); exists x. Qed.

Lemma collect_total {E A B} (f : A -> result E B) (g : A -> B) l :
  (forall x, x ∈ l -> f x = Ok (g x)) -> collect f l = Ok (g <$> l).
Proof.
  intros Hf. apply collect_Ok. induction l as [|x l IH]; constructor.
  - apply Hf. left.
  - apply IH. intros y Hy. apply Hf. by right.
Qed.

Lemma find_map_Some {A B} (f : A -> option B) l y :
  find_map f l = Some y -> exists x, x ∈ l /\ f x = Some y.
Proof.
  induction l as [|x l IH]; cbn; [done|].
  destruct (f x) eqn:Hx.
  - intros [= ->]. exists x. split; [left|done].
  - intros (z & Hz & Hfz)%IH. exists z. split; [by right|done].
Qed.

Lemma find_map_None {A B} (f : A -> option B) l :
  find_map f l = None <-> forall x, x ∈ l -> f x = None.
Proof.
  induction l as [|x l IH]; cbn.
  - split; [|done]. intros _ x Hx. by apply elem_of_nil in Hx.
  - destruct (f x) eqn:Hx.
    + split; [done|]. intros H. specialize (H x (list_elem_of_here _ _)). congruence.
    + rewrite IH. split.
      * intros H y [->|?]%elem_of_cons; auto.
      * intros H y Hy. apply H. by right.
Qed.

(** A search that can only succeed with one value finds it. *)
Lemma find_map_unique {A B} (f : A -> option B) l x y :
  x ∈ l -> f x = Some y ->
  (forall x' y', x' ∈ l -> f x' = Some y' -> y' = y) ->
  find_map f l = Some y.
Proof.
  intros Hx Hfx Huniq. destruct (find_map f l) as [y'|] eqn:Hf.
  - apply find_map_Some in Hf as (x' & Hx' & Hfx'). by rewrite (Huniq _ _ Hx' Hfx').
  - rewrite find_map_None in Hf. rewrite (Hf x Hx) in Hfx. done.
Qed.

(** ** Machine arithmetic *)

Lemma checked_add_Some a b c :
  checked_add a b = Some c <-> c = a + b /\ a + b <= u64_max.
Proof. unfold checked_add. case_bool; naive_solver lia. Qed.

Lemma checked_add_in a b : a + b <= u64_max -> checked_add a b = Some (a + b).
Proof. intros. by apply checked_add_Some. Qed.

Lemma checked_sub_in a b : b <= a -> checked_sub a b = Some (a - b).
Proof. unfold checked_sub. case_bool; [done|lia]. Qed.

Lemma usize_try_from_in x : x <= u64_max -> usize_try_from x = Some x.
Proof. unfold usize_try_from, usize_max. case_bool; [done|lia]. Qed.

Lemma u32_try_from_in x : x <= u32_max -> u32_try_from x = Some x.
Proof. unfold u32_try_from. case_bool; [done|lia]. Qed.

Lemma wrapping_add_in a b : 0 <= a + b <= u64_max -> wrapping_add a b = a + b.
Proof. intros. unfold wrapping_add. apply Z.mod_small. lia. Qed.

Lemma len_nonneg {A} (l : list A) : 0 <= len l.
Proof. unfold len. lia. Qed.

Lemma len_app {A} (l k : list A) : len (l ++ k) = len l + len k.
Proof. unfold len. rewrite length_app. lia. Qed.

Lemma len_pos {A} (l : list A) : l <> [] -> 0 < len l.
Proof. destruct l; unfold len; cbn; [done|lia]. Qed.

Lemma len_nil {A} : len (@nil A) = 0.
Proof. done. Qed.

Lemma len_cons {A} (x : A) l : len (x :: l) = 1 + len l.
Proof. unfold len. cbn [length]. lia. Qed.

Lemma len_pos_inv {A} (l : list A) : 0 < len l -> l <> [].
Proof. intros H ->. by apply Z.lt_irrefl in H. Qed.

#[export] Hint Rewrite @len_nil @len_cons @len_app @length_app @length_take @length_drop
  @length_replicate @length_fmap : fp.
#[export] Hint Resolve len_nonneg : fp.

(** ** Slices and integer-indexed lookup *)

Lemma zlookup_Some {A} (l : list A) i x :
  zlookup l i = Some x -> 0 <= i < len l.
Proof.
  unfold zlookup, len. case_decide; [|done].
  intros ?%lookup_lt_Some. lia.
Qed.

Lemma zlookup_is_Some {A} (l : list A) i :
  is_Some (zlookup l i) <-> 0 <= i < len l.
Proof.
  split; [intros [x Hx]; by eapply zlookup_Some|].
  unfold zlookup, len. intros. rewrite decide_True by lia.
  apply lookup_lt_is_Some. lia.
Qed.

Lemma zlookup_app {A} (l k : list A) i :
  0 <= i ->
  zlookup (l ++ k) i = if i <? len l then zlookup l i else zlookup k (i - len l).
Proof.
  unfold zlookup, len. intros. case_bool.
  - rewrite !decide_True by lia. apply lookup_app_l. lia.
  - rewrite !decide_True by lia. rewrite lookup_app_r by lia. f_equal. lia.
Qed.

Lemma zlookup_take {A} (l : list A) n i :
  zlookup (take n l) i = if i <? Z.of_nat n then zlookup l i else None.
Proof.
  unfold zlookup. case_decide; case_bool; try done.
  - by rewrite lookup_take_lt by lia.
  - rewrite lookup_take_ge by lia. done.
Qed.

Lemma zlookup_drop {A} (l : list A) n i :
  0 <= i -> zlookup (drop n l) i = zlookup l (Z.of_nat n + i).
Proof.
  unfold zlookup. intros. rewrite !decide_True by lia.
  rewrite lookup_drop. f_equal. lia.
Qed.

Lemma zlookup_nonneg {A} (l : list A) i :
  0 <= i -> zlookup l i = l !! Z.to_nat i.
Proof. unfold zlookup. intros. by rewrite decide_True. Qed.

(** Two vectors with the same length and the same elements are equal. *)
Lemma zlookup_ext {A} (l k : list A) :
  len l = len k -> (forall i, 0 <= i < len l -> zlookup l i = zlookup k i) -> l = k.
Proof.
  unfold len. intros Hlen H. apply list_eq_same_length with (length l); [lia|done|].
  intros i x y Hi Hx Hy. specialize (H (Z.of_nat i)).
  rewrite !zlookup_nonneg, Nat2Z.id in H by lia.
  rewrite H in Hx by lia. congruence.
Qed.

Lemma len_slice {A} (l : list A) s e :
  0 <= s -> s <= e <= len l -> len (slice l s e) = e - s.
Proof. unfold len, slice. rewrite length_take, length_drop. lia. Qed.

Lemma zlookup_slice {A} (l : list A) s e i :
  0 <= s -> 0 <= i < e - s -> zlookup (slice l s e) i = zlookup l (s + i).
Proof.
  unfold slice. intros. rewrite zlookup_take. case_bool; [|lia].
  rewrite zlookup_drop by lia. f_equal. lia.
Qed.

Lemma len_copy_into {A} (buf : list A) s src :
  0 <= s -> s + len src <= len buf -> len (copy_into buf s src) = len buf.
Proof.
  unfold len, copy_into. rewrite !length_app, length_take, length_drop. lia.
Qed.

Lemma zlookup_copy_into {A} (buf : list A) s src i :
  0 <= s -> s + len src <= len buf -> 0 <= i ->
  zlookup (copy_into buf s src) i =
    if (s <=? i) && (i <? s + len src) then zlookup src (i - s) else zlookup buf i.
Proof.
  intros Hs Hlen Hi. unfold copy_into. unfold len in *.
  rewrite zlookup_app by lia. unfold len. rewrite length_take.
  replace (Z.of_nat (Z.to_nat s `min` length buf)) with s by lia.
  destruct (Z.ltb_spec i s); destruct (Z.leb_spec s i); try lia; cbn.
  - rewrite zlookup_take. case_bool; [done|lia].
  - rewrite zlookup_app by lia. unfold len.
    destruct (Z.ltb_spec (i - s) (Z.of_nat (length src)));
      destruct (Z.ltb_spec i (s + Z.of_nat (length src))); try lia; [done|].
    rewrite zlookup_drop by lia. f_equal. lia.
Qed.

Lemma zlookup_out {A} (l : list A) i : ~ (0 <= i < len l) -> zlookup l i = None.
Proof. rewrite <- zlookup_is_Some. apply eq_None_not_Some. Qed.

Lemma zlookup_nil {A} i : zlookup (@nil A) i = None.
Proof. apply zlookup_out. unfold len. cbn. lia. Qed.

(** Copying overlays the source on the buffer. *)
Lemma zlookup_overlay {A} (buf : list A) s src i :
  0 <= s -> s + len src <= len buf ->
  zlookup (copy_into buf s src) i =
    match zlookup src (i - s) with Some x => Some x | None => zlookup buf i end.
Proof.
  intros Hs Hlen. destruct (decide (0 <= i)) as [Hi|Hi].
  - rewrite zlookup_copy_into by done.
    destruct (Z.leb_spec s i), (Z.ltb_spec i (s + len src)); cbn;
      try (by rewrite (zlookup_out src) by lia).
    destruct (proj2 (zlookup_is_Some src (i - s))) as [x ->]; [lia|done].
  - rewrite !zlookup_out; [done|lia..].
Qed.

Lemma slice_zlookup_ext {A} (l k : list A) s e :
  0 <= s -> s <= e <= len k -> len l = e - s ->
  (forall i, s <= i < e -> zlookup l (i - s) = zlookup k i) -> l = slice k s e.
Proof.
  intros Hs He Hl H. apply zlookup_ext; rewrite ?len_slice by lia; [done|].
  intros i Hi. rewrite zlookup_slice by lia.
  specialize (H (s + i)). replace (s + i - s) with i in H by lia. apply H. lia.
Qed.

(** ** The byte-wise order on strings *)

Lemma byte_val_inj a b : byte_val a = byte_val b -> a = b.
Proof.
  unfold byte_val. intros H%N2Z.inj.
  pose proof (Byte.of_to_N a) as Ha. pose proof (Byte.of_to_N b) as Hb. congruence.
Qed.

Lemma byte_val_range b : 0 <= byte_val b <= 255.
Proof. unfold byte_val. pose proof (Byte.to_N_bounded b). lia. Qed.

Lemma byte_of_val b : byte_of (byte_val b) = b.
Proof. unfold byte_of, byte_val. by rewrite N2Z.id, Byte.of_to_N. Qed.

Lemma str_leb_refl a : str_leb a a = true.
Proof. induction a as [|x a IH]; cbn; [done|]. case_bool; [lia|done]. Qed.

Lemma str_leb_trans a b c : str_leb a b = true -> str_leb b c = true -> str_leb a c = true.
Proof.
  revert b c. induction a as [|x a IH]; intros [|y b] [|z c]; cbn; try done.
  repeat case_bool; try lia; try done.
  intros. by apply (IH b).
Qed.

Lemma str_leb_total a b : str_leb a b = true \/ str_leb b a = true.
Proof.
  revert b. induction a as [|x a IH]; intros [|y b]; cbn; auto.
  repeat case_bool; try lia; auto.
Qed.

Lemma str_leb_antisymm a b : str_leb a b = true -> str_leb b a = true -> a = b.
Proof.
  revert b. induction a as [|x a IH]; intros [|y b]; cbn; try done.
  repeat case_bool; try lia; try done.
  intros. f_equal; [apply byte_val_inj; lia | by apply IH].
Qed.

(** A string is below every extension of itself. *)
Lemma str_leb_app a b : str_leb a (a ++ b) = true.
Proof. induction a as [|x a IH]; cbn; [done|]. case_bool; [lia|done]. Qed.

#[export] Instance str_ord : OrdKey str := {
  key_le := str_le;
  key_le_dec := str_le_dec;
  key_le_trans := str_leb_trans;
  key_le_total := str_leb_total;
  key_le_antisymm := str_leb_antisymm;
}.

#[export] Instance Z_ord : OrdKey Z.
Proof.
  refine {| key_le := Z.le; key_le_dec := Z_le_dec; key_le_trans := Z.le_trans;
            key_le_total := _; key_le_antisymm := Z.le_antisymm |}.
Defined.

(** ** Sorted lists *)

Lemma StronglySorted_filter {A} (R : relation A) (P : A -> Prop) `{!forall x, Decision (P x)} l :
  StronglySorted R l -> StronglySorted R (filter P l).
Proof.
  induction 1 as [|x l Hl IH Hx]; [constructor|]. rewrite filter_cons. case_decide; [|done].
  constructor; [done|]. rewrite Forall_forall in *. intros y [_ Hy]%list_elem_of_filter. auto.
Qed.

Lemma StronglySorted_fmap_elem {A B} (R : relation A) (R' : relation B) (f : A -> B) l :
  (forall x y, x ∈ l -> y ∈ l -> R x y -> R' (f x) (f y)) ->
  StronglySorted R l -> StronglySorted R' (f <$> l).
Proof.
  intros Hf Hl. induction Hl as [|x l Hl IH Hx]; cbn; constructor.
  - apply IH. intros y z Hy Hz. apply Hf; by right.
  - rewrite Forall_fmap. rewrite Forall_forall in *. intros y Hy. apply Hf; [left|by right|auto].
Qed.

(** ** Iteration over B-tree maps and sets *)

Section btree.
Context {K : Type} `{Countable K, !OrdKey K}.

#[local] Instance item_le_trans {A} : Transitive (@item_le K A _).
Proof. intros x y z. apply (transitivity (R := key_le)). Qed.

#[local] Instance item_le_total {A} : Total (@item_le K A _).
Proof. intros x y. apply (total key_le). Qed.

Lemma btree_items_perm {A} (m : gmap K A) : btree_items m ≡ₚ map_to_list m.
Proof. apply merge_sort_Permutation. Qed.

Lemma elem_of_btree_items {A} (m : gmap K A) k v :
  (k, v) ∈ btree_items m <-> m !! k = Some v.
Proof. by rewrite btree_items_perm, elem_of_map_to_list. Qed.

Lemma elem_of_btree_values {A} (m : gmap K A) v :
  v ∈ btree_values m <-> exists k, m !! k = Some v.
Proof.
  unfold btree_values. rewrite list_elem_of_fmap. split.
  - intros ([k v'] & -> & Hk%elem_of_btree_items). by exists k.
  - intros [k Hk%elem_of_btree_items]. by exists (k, v).
Qed.

Lemma btree_items_sorted {A} (m : gmap K A) : StronglySorted item_le (btree_items m).
Proof. apply StronglySorted_merge_sort; apply _. Qed.

Lemma btree_items_NoDup_keys {A} (m : gmap K A) : NoDup (btree_items m).*1.
Proof. rewrite btree_items_perm. apply NoDup_fst_map_to_list. Qed.

Lemma list_to_map_btree_items {A} (m : gmap K A) :
  list_to_map (btree_items m) = m.
Proof.
  rewrite <- (list_to_map_to_list m) at 2. apply list_to_map_proper.
  - apply btree_items_NoDup_keys.
  - apply btree_items_perm.
Qed.

Lemma btree_items_length {A} (m : gmap K A) : length (btree_items m) = size m.
Proof. by rewrite btree_items_perm, length_map_to_list. Qed.

(** Iteration is determined by the map: any key-sorted list of its entries is
    the list of its items. *)
Lemma btree_items_unique {A} (m : gmap K A) l :
  StronglySorted item_le l -> NoDup l.*1 ->
  (forall k v, (k, v) ∈ l <-> m !! k = Some v) -> btree_items m = l.
Proof.
  intros Hs Hnd Hl. apply (StronglySorted_unique_strong item_le); try done.
  - intros [k v] [k' v'] Hx%elem_of_btree_items Hy%Hl Hle Hle'.
    assert (k = k') as -> by by apply (anti_symm key_le). congruence.
  - apply btree_items_sorted.
  - apply NoDup_Permutation.
    + eapply NoDup_fmap_1, btree_items_NoDup_keys.
    + by eapply NoDup_fmap_1.
    + intros [k v]. by rewrite elem_of_btree_items, Hl.
Qed.

Lemma btree_items_fmap {A B} (f : A -> B) (m : gmap K A) :
  btree_items (f <$> m) = (fun kv => (kv.1, f kv.2)) <$> btree_items m.
Proof.
  apply btree_items_unique.
  - eapply StronglySorted_fmap; [|apply btree_items_sorted]. by intros [] [].
  - rewrite <- list_fmap_compose. apply btree_items_NoDup_keys.
  - intros k v. rewrite lookup_fmap, list_elem_of_fmap, fmap_Some. split.
    + intros ([k' v'] & [= -> ->] & ?%elem_of_btree_items). eauto.
    + intros (v' & ?%elem_of_btree_items & ->). by exists (k, v').
Qed.

Lemma elem_of_btree_set_items (s : gset K) k : k ∈ btree_set_items s <-> k ∈ s.
Proof.
  unfold btree_set_items. by rewrite (merge_sort_Permutation key_le), elem_of_elements.
Qed.

Lemma btree_set_items_NoDup (s : gset K) : NoDup (btree_set_items s).
Proof.
  unfold btree_set_items. rewrite (merge_sort_Permutation key_le). apply NoDup_elements.
Qed.

Lemma btree_set_items_sorted (s : gset K) : StronglySorted key_le (btree_set_items s).
Proof. apply StronglySorted_merge_sort; apply _. Qed.
End btree.

(** ** Sorting by key *)

Section sort_lemmas.
Context {A : Type} (key : A -> Z).

Lemma insert_by_key_perm x l : insert_by_key key x l ≡ₚ x :: l.
Proof.
  induction l as [|y l IH]; cbn; [done|]. case_bool; [done|].
  rewrite IH. by constructor.
Qed.

Lemma sort_by_key_perm l : sort_by_key key l ≡ₚ l.
Proof.
  induction l as [|x l IH]; cbn; [done|].
  change (foldr _ _ _) with (sort_by_key key l). by rewrite insert_by_key_perm, IH.
Qed.

(** Sorting establishes any order that separates elements by their keys. *)
Lemma sort_by_key_sorted (R : relation A) l :
  (forall x y, x ∈ l -> y ∈ l -> key x <= key y -> x = y \/ R x y) ->
  NoDup l -> Transitive R ->
  StronglySorted R (sort_by_key key l).
Proof.
  intros HR Hnd Htr.
  induction l as [|x l IH]; cbn; [constructor|].
  change (foldr _ _ _) with (sort_by_key key l).
  apply NoDup_cons in Hnd as [Hx Hnd].
  assert (Hs : StronglySorted R (sort_by_key key l)).
  { apply IH; [|done]. intros y z Hy Hz. apply HR; by right. }
  assert (Hin : forall y, y ∈ sort_by_key key l -> y ∈ x :: l).
  { intros y Hy. rewrite sort_by_key_perm in Hy. by right. }
  assert (Hne : forall y, y ∈ sort_by_key key l -> x <> y).
  { intros y Hy ->. rewrite sort_by_key_perm in Hy. done. }
  assert (Hx' : x ∈ x :: l) by left.
  clear IH Hx Hnd. induction Hs as [|y k Hs IH Hall]; cbn; [repeat constructor|].
  assert (Hy : y ∈ x :: l) by (apply Hin; left).
  rewrite Forall_forall in Hall. case_bool.
  - assert (R x y) by (destruct (HR x y) as [Heq|]; auto; exfalso; eapply Hne; [left|done]).
    repeat constructor; [done|by apply Forall_forall|done|].
    apply Forall_forall. intros z Hz. etrans; [done|]. by apply Hall.
  - constructor.
    + apply IH; intros z Hz; [apply Hin|apply Hne]; by right.
    + apply Forall_forall. intros z. rewrite insert_by_key_perm.
      intros [->|Hz]%elem_of_cons; [|by apply Hall].
      destruct (HR y x) as [Heq|]; auto; [lia|]. exfalso. by apply (Hne y); [left|].
Qed.
End sort_lemmas.

(** ** UTF-8 *)

(** Use every boolean test that holds in the goal. *)
Ltac rewrite_tests :=
  repeat match goal with
  | H : (_ && _) = true |- _ => apply andb_true_iff in H as [H ?]
  end;
  repeat match goal with H : ?b = true |- context [?b] => rewrite H end.

Lemma utf8_valid_head b s :
  utf8_valid (b :: s) = true ->
  exists n, utf8_head (b :: s) = (true, n) /\ (1 <= n)%nat /\
    (n <= length (b :: s))%nat /\ utf8_valid (drop n (b :: s)) = true.
Proof.
  intros Hv. cbn [utf8_valid] in Hv. unfold utf8_head, nth_byte. cbn [lookup list_lookup from_option id].
  destruct (byte_val b <=? 127) eqn:H1; [exists 1%nat; split_and!; (done || (cbn; lia))|].
  destruct s as [|b1 s]; [done|]. cbn [lookup list_lookup from_option id].
  destruct ((194 <=? byte_val b) && (byte_val b <=? 223)) eqn:H2.
  { apply andb_true_iff in Hv as [-> Hs]. exists 2%nat. split_and!; (exact Hs || done || (cbn; lia)). }
  destruct s as [|b2 s]; [done|]. cbn [lookup list_lookup from_option id].
  destruct ((224 <=? byte_val b) && (byte_val b <=? 239)) eqn:H3.
  { apply andb_true_iff in Hv as [Hv Hs]. rewrite_tests. exists 3%nat.
    split_and!; (exact Hs || done || (cbn; lia)). }
  destruct s as [|b3 s]; [done|]. cbn [lookup list_lookup from_option id].
  apply andb_true_iff in Hv as [Hv Hs]. rewrite_tests. exists 4%nat.
  split_and!; (exact Hs || done || (cbn; lia)).
Qed.

Lemma to_string_lossy_utf8 s : utf8_valid s = true -> to_string_lossy s = s.
Proof.
  unfold to_string_lossy. remember (length s) as fuel eqn:Hf. assert (Hle : (length s <= fuel)%nat) by lia.
  clear Hf. revert s Hle. induction fuel as [|fuel IH]; intros [|b s] Hle Hv; cbn [lossy]; try done; [cbn in Hle; lia|].
  destruct (utf8_valid_head b s Hv) as (n & -> & Hn1 & Hn2 & Hd).
  rewrite IH; [by rewrite take_drop| |done]. rewrite length_drop. cbn in *. lia.
Qed.

Lemma utf8_valid_app a b : utf8_valid a = true -> utf8_valid b = true -> utf8_valid (a ++ b) = true.
Proof.
  intros Ha Hb. remember (length a) as n eqn:Hn. assert (Hle : (length a <= n)%nat) by lia. clear Hn.
  revert a Ha Hle. induction n as [|n IH]; intros [|b0 a] Ha Hle; try done; [cbn in Hle; lia|].
  cbn [utf8_valid app] in *. destruct (byte_val b0 <=? 127); [apply IH; [done|cbn in *; lia]|].
  destruct a as [|b1 a]; [done|]. cbn [app].
  destruct ((194 <=? byte_val b0) && (byte_val b0 <=? 223)).
  { apply andb_true_iff in Ha as [-> Ha]. apply IH; [done|cbn in *; lia]. }
  destruct a as [|b2 a]; [done|]. cbn [app].
  destruct ((224 <=? byte_val b0) && (byte_val b0 <=? 239)).
  { apply andb_true_iff in Ha as [-> Ha]. apply IH; [done|cbn in *; lia]. }
  destruct a as [|b3 a]; [done|]. cbn [app]. apply andb_true_iff in Ha as [-> Ha]. apply IH; [done|cbn in *; lia].
Qed.

Lemma utf8_valid_ascii s : Forall (fun b => byte_val b <= 127) s -> utf8_valid s = true.
Proof. induction 1 as [|b s Hb Hs IH]; [done|]. cbn [utf8_valid]. destruct (Z.leb_spec (byte_val b) 127); [done|lia]. Qed.

(** ** Decimal printing *)

Lemma to_uint_nonnil n : N.to_uint n <> Decimal.Nil.
Proof. destruct n; [done|]. apply DecimalPos.Unsigned.to_uint_nonnil. Qed.

Lemma u64_to_string_inj a b :
  0 <= a -> 0 <= b -> u64_to_string a = u64_to_string b -> a = b.
Proof.
  intros Ha Hb H. unfold u64_to_string in H.
  assert (Hs := f_equal String.string_of_list_byte H).
  rewrite !String.string_of_list_byte_of_string in Hs.
  assert (Hu := f_equal DecimalString.NilZero.uint_of_string Hs).
  rewrite !DecimalString.NilZero.usu in Hu by apply to_uint_nonnil.
  injection Hu as Hu. apply (f_equal N.of_uint) in Hu.
  rewrite !DecimalN.Unsigned.of_to in Hu. lia.
Qed.

Lemma string_of_uint_digits d b :
  b ∈ String.list_byte_of_string (DecimalString.NilEmpty.string_of_uint d) -> 48 <= byte_val b <= 57.
Proof.
  induction d; cbn; rewrite ?elem_of_cons; [by intros ?%elem_of_nil|..];
    (intros [->|?]; [vm_compute; split; congruence|auto]).
Qed.

Lemma u64_to_string_digits n b : b ∈ u64_to_string n -> 48 <= byte_val b <= 57.
Proof.
  unfold u64_to_string, DecimalString.NilZero.string_of_uint.
  destruct (N.to_uint _) eqn:E; try apply string_of_uint_digits.
  cbn. intros ->%list_elem_of_singleton. vm_compute; split; congruence.
Qed.

(** A number has as many digits as its size needs. *)
Lemma of_uint_acc_lower d acc :
  (N.pos acc * 10 ^ N.of_nat (Decimal.nb_digits d) <= N.pos (Pos.of_uint_acc d acc))%N.
Proof.
  revert acc. induction d as [|d IH|d IH|d IH|d IH|d IH|d IH|d IH|d IH|d IH|d IH]; intros acc;
    cbn [Decimal.nb_digits Pos.of_uint_acc]; [rewrite N.pow_0_r; lia|..];
    rewrite Nat2N.inj_succ, N.pow_succ_r';
    (match goal with |- (_ <= N.pos (Pos.of_uint_acc _ ?x))%N => specialize (IH x) end);
    eapply N.le_trans; try exact IH; nia.
Qed.

Lemma nb_digits_bound n : (0 < n)%N -> (10 ^ N.of_nat (Decimal.nb_digits (N.to_uint n) - 1) <= n)%N.
Proof.
  intros Hn. assert (Hu : Decimal.unorm (N.to_uint n) = N.to_uint n)
    by (rewrite <- DecimalN.Unsigned.to_of, DecimalN.Unsigned.of_to; done).
  assert (Hof := DecimalN.Unsigned.of_to n). destruct (N.to_uint n) as [|d|d|d|d|d|d|d|d|d|d] eqn:E.
  { by destruct (to_uint_nonnil n). }
  { exfalso. unfold Decimal.unorm in Hu. cbn in Hu. unfold N.of_uint in Hof. cbn in Hof.
    destruct (Decimal.nzhead d) eqn:Hd; try discriminate Hu; [injection Hu as <-; cbn in Hof; lia|].
    by apply DecimalFacts.nzhead_nonzero in Hd. }
  all: cbn [Decimal.nb_digits]; rewrite Nat.sub_1_r; cbn [Nat.pred]; rewrite <- Hof; unfold N.of_uint; cbn [Pos.of_uint];
    (match goal with |- (_ <= N.pos (Pos.of_uint_acc ?y ?x))%N => pose proof (of_uint_acc_lower y x) end); nia.
Qed.

Lemma string_of_uint_length d :
  length (String.list_byte_of_string (DecimalString.NilEmpty.string_of_uint d)) = Decimal.nb_digits d.
Proof. induction d as [|d IH|d IH|d IH|d IH|d IH|d IH|d IH|d IH|d IH|d IH]; cbn; [done|f_equal; exact IH..]. Qed.

Lemma u64_to_string_length n : 0 <= n <= u64_max -> len (u64_to_string n) <= 20.
Proof.
  intros Hn. unfold u64_to_string, DecimalString.NilZero.string_of_uint, len.
  pose proof (to_uint_nonnil (Z.to_N n)) as Hnil.
  destruct (Z.eq_dec n 0) as [->|Hnz]; [vm_compute; congruence|].
  pose proof (nb_digits_bound (Z.to_N n) ltac:(lia)) as Hb.
  set (d := N.to_uint (Z.to_N n)) in *.
  assert (Hd : (Decimal.nb_digits d <= 20)%nat).
  { destruct (decide (Decimal.nb_digits d <= 20)%nat) as [?|Hgt]; [done|exfalso].
    assert (Hp : (10 ^ 20 <= 10 ^ N.of_nat (Decimal.nb_digits d - 1))%N) by (apply N.pow_le_mono_r; lia).
    change (10 ^ 20)%N with 100000000000000000000%N in Hp. unfold u64_max in Hn. lia. }
  destruct d eqn:E; [done|..]; rewrite string_of_uint_length, <- E in *; lia.
Qed.

