(* ===== verification/Types.v ===== *)
(** * Data model of the runtime crate

    The enums, newtypes and structs of [crates/fuse-promise-runtime/src/lib.rs]
    that the other files share.  A struct field [f] of a struct [PromiseNode]
    is the projection [pn_f], and likewise with a short prefix for the other
    structs.  [ProviderId] and [NodeId] are newtypes over [u64]; they are their
    raw value here. *)

From S2P Require Import Prelude.

Definition API_VERSION : Z := 1.
Definition FUSE_ROOT_INODE : Z := 1.
Definition DEFAULT_READ_THROUGH_CHUNK_SIZE : Z := 256 * 1024.

Inductive Status : Type :=
| StatusOk
| InvalidArgument
| Unavailable
| Permission
| NotFound
| AlreadyExists
| ProviderGone
| Io
| Timeout
| Cancelled
| VersionMismatch.

#[export] Instance Status_eq_decision : EqDecision Status.
Proof. solve_decision. Defined.

Definition Status_as_str (s : Status) : str :=
  match s with
  | StatusOk => bs "ok"
  | InvalidArgument => bs "invalid argument"
  | Unavailable => bs "unavailable"
  | Permission => bs "permission denied"
  | NotFound => bs "not found"
  | AlreadyExists => bs "already exists"
  | ProviderGone => bs "provider gone"
  | Io => bs "io error"
  | Timeout => bs "timeout"
  | Cancelled => bs "cancelled"
  | VersionMismatch => bs "version mismatch"
  end.

(** [Result<T>] of the runtime crate. *)
Abbreviation Result := (result Status).

Abbreviation ProviderId := Z (only parsing).
Abbreviation NodeId := Z (only parsing).

Definition ProviderId_from_raw (raw : Z) : option ProviderId :=
  if raw =? 0 then None else Some raw.

Inductive ProviderState : Type := Live | Disconnected.

#[export] Instance ProviderState_eq_decision : EqDecision ProviderState.
Proof. solve_decision. Defined.

Record ProviderSession : Type := mkProviderSession {
  ps_id : ProviderId;
  ps_state : ProviderState;
}.

Inductive NodeKind : Type := File | Directory.

#[export] Instance NodeKind_eq_decision : EqDecision NodeKind.
Proof. solve_decision. Defined.

Record NodeAttr : Type := mkNodeAttr {
  attr_mode : Z;
  attr_size : Z;
  attr_mtime_nsec : Z;
}.

#[export] Instance NodeAttr_eq_decision : EqDecision NodeAttr.
Proof. solve_decision. Defined.

Inductive PromiseState : Type :=
| Available
| PromiseProviderGone
| Materialized.

#[export] Instance PromiseState_eq_decision : EqDecision PromiseState.
Proof. solve_decision. Defined.

Inductive CachePolicy : Type :=
| NoCache
| ReadThrough (chunk_size : Z).

#[export] Instance CachePolicy_eq_decision : EqDecision CachePolicy.
Proof. solve_decision. Defined.

Definition CachePolicy_validated (self : CachePolicy) : Result CachePolicy :=
  match self with
  | NoCache => Ok self
  | ReadThrough chunk_size =>
      if 0 <? chunk_size then Ok self else Err InvalidArgument
  end.

Definition CachePolicy_read_through (chunk_size : Z) : Result CachePolicy :=
  CachePolicy_validated (ReadThrough chunk_size).

Definition CachePolicy_as_str (self : CachePolicy) : str :=
  match self with
  | NoCache => bs "no-cache"
  | ReadThrough _ => bs "read-through"
  end.

Definition CachePolicy_chunk_size (self : CachePolicy) : option Z :=
  match self with
  | NoCache => None
  | ReadThrough chunk_size => if 0 <? chunk_size then Some chunk_size else None
  end.

Record PromiseNode : Type := mkPromiseNode {
  pn_node_id : NodeId;
  pn_inode : Z;
  pn_relative_path : str;
  pn_parent_path : option str;
  pn_name : str;
  pn_provider_node_id : str;
  pn_materialized_path : option str;
  pn_kind : NodeKind;
  pn_attr : NodeAttr;
}.

#[export] Instance PromiseNode_eq_decision : EqDecision PromiseNode.
Proof. solve_decision. Defined.

Record PromiseTree : Type := mkPromiseTree {
  pt_promise_id : str;
  pt_provider_id : ProviderId;
  pt_state : PromiseState;
  pt_nodes : gmap str PromiseNode;
  pt_children : gmap str (gset str);
}.

Record ProviderReadPlan : Type := mkProviderReadPlan {
  prp_provider_id : ProviderId;
  prp_promise_id : str;
  prp_relative_path : str;
  prp_provider_node_id : str;
  prp_offset : Z;
  prp_length : Z;
}.

Record CoalescedProviderReadPlan : Type := mkCoalescedProviderReadPlan {
  cp_provider : ProviderReadPlan;
  cp_response_offset : Z;
  cp_response_length : Z;
}.

Record MaterializedReadPlan : Type := mkMaterializedReadPlan {
  mrp_path : str;
  mrp_offset : Z;
  mrp_length : Z;
}.

(** [CachedReadPlan] has the single field [bytes]. *)
Inductive ReadPlan : Type :=
| RequestPlan (plan : ProviderReadPlan)
| MaterializedPlan (plan : MaterializedReadPlan)
| CachedPlan (bytes : list byte)
| Eof.

Inductive RuntimeEntry : Type :=
| MountRoot
| PromiseNodeEntry (promise_id : str) (node : PromiseNode).

Record DirectoryEntry : Type := mkDirectoryEntry {
  de_name : str;
  de_inode : Z;
  de_kind : NodeKind;
}.

Definition RuntimeEntry_inode (self : RuntimeEntry) : Z :=
  match self with
  | MountRoot => FUSE_ROOT_INODE
  | PromiseNodeEntry _ node => pn_inode node
  end.

Definition RuntimeEntry_kind (self : RuntimeEntry) : NodeKind :=
  match self with
  | MountRoot => Directory
  | PromiseNodeEntry _ node => pn_kind node
  end.

(** A chunk size is a [u32]. *)
Definition policy_typed (p : CachePolicy) : Prop :=
  match p with NoCache => True | ReadThrough cs => in_u32 cs end.

(** A policy that [validated] accepted, the ones a runtime can hold. *)
Definition policy_ok (p : CachePolicy) : Prop :=
  match p with NoCache => True | ReadThrough cs => 0 < cs <= u32_max end.

Lemma CachePolicy_validated_Ok p q :
  policy_typed p -> CachePolicy_validated p = Ok q -> q = p /\ policy_ok p.
Proof.
  destruct p as [|cs]; cbn; [naive_solver|]. intros [_ Hmax].
  case_bool; [intros [= <-]; split; [done|cbn; lia] | done].
Qed.

Lemma CachePolicy_chunk_size_pos p cs :
  CachePolicy_chunk_size p = Some cs -> 0 < cs /\ p = ReadThrough cs.
Proof. destruct p; cbn; [done|]. case_bool; [intros [= <-]; split; [lia|done]|done]. Qed.

Lemma CachePolicy_chunk_size_ok p cs :
  policy_ok p -> CachePolicy_chunk_size p = Some cs -> 0 < cs <= u32_max.
Proof. intros Hok [_ ->]%CachePolicy_chunk_size_pos. done. Qed.
