(* ===== verification/Paths.v ===== *)
(** * Paths

    The part of [std::path] the code uses ([Path::components], [is_absolute],
    [join], [strip_prefix] on Unix) and the path functions at the end of
    [crates/fuse-promise-runtime/src/lib.rs]: [normalize_relative_path],
    [parent_path], [leaf_name], [validate_child_name], [child_path].

    A path is a byte string.  The strings given to these functions are Rust
    [&str]s, so [to_str] on one of their components always succeeds. *)

From S2P Require Import Prelude Types.

(** ** [std::path] on Unix *)

(** [path::Component]; [Prefix] does not occur on Unix. *)
Inductive Component : Type :=
| RootDir
| CurDir
| ParentDir
| Normal (part : str).

Fixpoint split_slash (s : str) : list str :=
  match s with
  | [] => [[]]
  | c :: s =>
      if decide (c = slash) then [] :: split_slash s
      else match split_slash s with
           | p :: ps => (c :: p) :: ps
           | [] => [[c]]
           end
  end.

(** [parts.join("/")]. *)
Fixpoint join_slash (parts : list str) : str :=
  match parts with
  | [] => []
  | [p] => p
  | p :: ps => p ++ slash :: join_slash ps
  end.

(** [Path::is_absolute] ([has_root] on Unix). *)
Definition is_absolute (p : str) : bool :=
  match p with
  | c :: _ => bool_decide (c = slash)
  | [] => false
  end.

Definition parse_single_component (p : str) : option Component :=
  if decide (p = []) then None
  else if decide (p = bs ".") then None
  else if decide (p = bs "..") then Some ParentDir
  else Some (Normal p).

(** [Path::components]: empty and [.] components are dropped, but a leading
    [.] of a relative path is a [CurDir]. *)
Definition components (p : str) : list Component :=
  (if is_absolute p then [RootDir]
   else if decide (head (split_slash p) = Some (bs ".")) then [CurDir] else [])
  ++ omap parse_single_component (split_slash p).

(** [Path::join]. *)
Definition path_join (base p : str) : str :=
  if is_absolute p then p
  else match last base with
       | None => p
       | Some c => if decide (c = slash) then base ++ p else base ++ slash :: p
       end.

(** ** The runtime's path functions *)

Fixpoint normalize_components (cs : list Component) : Result (list str) :=
  match cs with
  | [] => Ok []
  | Normal part :: cs =>
      if decide (part = []) then Err InvalidArgument
      else parts ← normalize_components cs; Ok (part :: parts)
  | CurDir :: cs => normalize_components cs
  | ParentDir :: _ | RootDir :: _ => Err InvalidArgument
  end.

Definition normalize_relative_path (input : str) : Result str :=
  if decide (nul ∈ input) then Err InvalidArgument
  else if is_absolute input then Err InvalidArgument
  else parts ← normalize_components (components input);
       Ok (join_slash parts).

Definition component_text (c : Component) : str :=
  match c with
  | RootDir => []
  | CurDir => bs "."
  | ParentDir => bs ".."
  | Normal part => part
  end.

(** [Path::parent], written without repeated separators. *)
Definition path_parent (p : str) : option str :=
  match last (components p) with
  | None | Some RootDir => None
  | Some _ =>
      Some (match removelast (components p) with
            | [RootDir] => bs "/"
            | cs => join_slash (component_text <$> cs)
            end)
  end.

(** [s.rsplit_once('/')]. *)
Fixpoint rsplit_once_slash (s : str) : option (str * str) :=
  match s with
  | [] => None
  | c :: s =>
      match rsplit_once_slash s with
      | Some (a, b) => Some (c :: a, b)
      | None => if decide (c = slash) then Some ([], s) else None
      end
  end.

Definition parent_path (path : str) : str :=
  match rsplit_once_slash path with
  | Some (parent, _) => parent
  | None => []
  end.

Definition leaf_name (path : str) : str :=
  match rsplit_once_slash path with
  | Some (_, name) => name
  | None => path
  end.

Definition validate_child_name (name : str) : Result () :=
  if decide (name = [] \/ name = bs "." \/ name = bs "..") then Err InvalidArgument
  else if decide ((nul ∈ name) \/ (slash ∈ name)) then Err InvalidArgument
  else Ok tt.

Definition child_path (parent name : str) : str :=
  if decide (parent = []) then name else parent ++ slash :: name.

(** ** Safe paths

    What a normalized relative path is: a [/]-separated list of names that
    the kernel may pass back to [lookup]. *)

Definition safe_component (c : str) : Prop :=
  c <> [] /\ (slash ∉ c) /\ (nul ∉ c) /\ c <> bs "." /\ c <> bs "..".

Definition safe_path (p : str) : Prop :=
  exists parts, Forall safe_component parts /\ p = join_slash parts.

(** ** Splitting and joining *)

Lemma split_slash_not_nil s : split_slash s <> [].
Proof. destruct s as [|c s]; cbn; [done|]. case_decide; [done|]. by destruct (split_slash s). Qed.

Lemma split_slash_no_slash s : Forall (fun p => slash ∉ p) (split_slash s).
Proof.
  induction s as [|c s IH]; cbn.
  - repeat constructor. by intros ?%elem_of_nil.
  - case_decide as Hc.
    + constructor; [by intros ?%elem_of_nil|done].
    + destruct (split_slash s) as [|p ps]; inversion_clear IH; repeat constructor; try done.
      * by intros [<-|?%elem_of_nil]%elem_of_cons.
      * by intros [<-|?]%elem_of_cons.
Qed.

Lemma split_slash_elem s p c : p ∈ split_slash s -> c ∈ p -> c ∈ s.
Proof.
  revert p. induction s as [|d s IH]; intros p; cbn.
  - intros ->%list_elem_of_singleton ?%elem_of_nil. done.
  - case_decide as Hd.
    + intros [->|Hp]%elem_of_cons Hc; [by apply elem_of_nil in Hc|]. right. by eapply IH.
    + pose proof (split_slash_not_nil s). destruct (split_slash s) as [|q qs]; [done|].
      intros [->|Hp]%elem_of_cons Hc.
      * apply elem_of_cons in Hc as [->|Hc]; [left|]. right. apply (IH q); [left|done].
      * right. apply (IH p); [by right|done].
Qed.

Lemma split_slash_app p s :
  slash ∉ p -> split_slash (p ++ slash :: s) = p :: split_slash s.
Proof.
  induction p as [|c p IH]; intros Hp; cbn.
  - by rewrite decide_True.
  - rewrite not_elem_of_cons in Hp. rewrite decide_False by naive_solver.
    by rewrite IH by naive_solver.
Qed.

Lemma split_slash_single p : slash ∉ p -> split_slash p = [p].
Proof.
  induction p as [|c p IH]; intros Hp; cbn; [done|].
  rewrite not_elem_of_cons in Hp. rewrite decide_False by naive_solver.
  by rewrite IH by naive_solver.
Qed.

Lemma split_join parts :
  parts <> [] -> Forall (fun p => slash ∉ p) parts -> split_slash (join_slash parts) = parts.
Proof.
  induction parts as [|p ps IH]; intros Hne Hall; [done|].
  inversion_clear Hall. destruct ps as [|q qs].
  - by apply split_slash_single.
  - cbn -[join_slash]. change (join_slash (p :: q :: qs)) with (p ++ slash :: join_slash (q :: qs)).
    rewrite split_slash_app by done. f_equal. by apply IH.
Qed.

Lemma safe_no_slash parts :
  Forall safe_component parts -> Forall (fun p => slash ∉ p) parts.
Proof. intros H. eapply Forall_impl; [exact H|]. unfold safe_component. naive_solver. Qed.

(** A safe path has exactly one decomposition into components. *)
Lemma join_slash_nil parts : Forall safe_component parts -> join_slash parts = [] -> parts = [].
Proof.
  destruct parts as [|p [|q qs]]; [done| |].
  - inversion_clear 1 as [|? ? [Hp _]]. by intros.
  - intros _ H. by destruct p.
Qed.

Lemma join_slash_inj parts parts' :
  Forall safe_component parts -> Forall safe_component parts' ->
  join_slash parts = join_slash parts' -> parts = parts'.
Proof.
  intros H H' Heq. destruct (decide (parts = [])) as [->|Hne].
  - symmetry in Heq. symmetry. by apply join_slash_nil.
  - destruct (decide (parts' = [])) as [->|Hne'].
    + by apply join_slash_nil in Heq.
    + rewrite <- (split_join parts), <- (split_join parts'), Heq
        by auto using safe_no_slash. done.
Qed.

Lemma join_slash_snoc parts x :
  parts <> [] -> join_slash (parts ++ [x]) = join_slash parts ++ slash :: x.
Proof.
  induction parts as [|p ps IH]; intros Hne; [done|].
  destruct ps as [|q qs]; [done|].
  change (join_slash ((p :: q :: qs) ++ [x])) with (p ++ slash :: join_slash ((q :: qs) ++ [x])).
  rewrite IH by done.
  change (join_slash (p :: q :: qs)) with (p ++ slash :: join_slash (q :: qs)).
  by rewrite <- app_assoc.
Qed.

(** ** Normalization *)

Definition significant (p : str) : Prop := p <> [] /\ p <> bs ".".

#[export] Instance significant_dec p : Decision (significant p).
Proof. unfold significant. apply _. Defined.

(** What normalization keeps of an input: its components that are neither
    empty nor [.]. *)
Definition kept_parts (input : str) : list str := filter significant (split_slash input).

Lemma normalize_components_omap ps :
  normalize_components (omap parse_single_component ps) =
    if decide (bs ".." ∈ ps) then Err InvalidArgument else Ok (filter significant ps).
Proof.
  induction ps as [|p ps IH]; cbn; [by rewrite decide_False by (by intros ?%elem_of_nil)|].
  assert (Hcons : forall q, q <> bs ".." ->
    (if decide (bs ".." ∈ q :: ps) then Err InvalidArgument
     else Ok (filter significant (q :: ps)) : Result (list str)) =
    if decide (bs ".." ∈ ps) then Err InvalidArgument
    else Ok (filter significant (q :: ps))).
  { intros q Hq. repeat case_decide; try done; set_solver. }
  unfold parse_single_component at 1.
  destruct (decide (p = [])) as [->|Hnil]; [|destruct (decide (p = bs ".")) as [->|Hdot]].
  - rewrite Hcons by done. rewrite filter_cons_False by (unfold significant; naive_solver). done.
  - rewrite Hcons by done. rewrite filter_cons_False by (unfold significant; naive_solver). done.
  - destruct (decide (p = bs "..")) as [->|Hdd].
    + by rewrite decide_True by left.
    + rewrite Hcons by done. rewrite filter_cons_True by done.
      cbn [normalize_components]. rewrite decide_False by done.
      rewrite IH. by case_decide.
Qed.

Lemma normalize_components_input input :
  is_absolute input = false ->
  normalize_components (components input) =
    if decide (bs ".." ∈ split_slash input) then Err InvalidArgument
    else Ok (kept_parts input).
Proof.
  intros Habs. unfold components. rewrite Habs.
  rewrite <- normalize_components_omap. by case_decide.
Qed.

(** [normalize_relative_path] decided on the input, branch by branch. *)
Lemma normalize_cases input :
  normalize_relative_path input =
    if decide ((nul ∈ input) \/ is_absolute input = true \/ (bs ".." ∈ split_slash input))
    then Err InvalidArgument else Ok (join_slash (kept_parts input)).
Proof.
  unfold normalize_relative_path. case_decide as Hnul.
  - by rewrite decide_True by auto.
  - destruct (is_absolute input) eqn:Habs.
    + by rewrite decide_True by auto.
    + rewrite normalize_components_input by done. repeat case_decide; naive_solver.
Qed.

Lemma kept_parts_safe input :
  nul ∉ input -> bs ".." ∉ split_slash input -> Forall safe_component (kept_parts input).
Proof.
  intros Hnul Hdd. apply Forall_forall. intros p [[Hne Hdot] Hp]%list_elem_of_filter.
  repeat split; try done.
  - pose proof (split_slash_no_slash input) as H. rewrite Forall_forall in H. by apply H.
  - intros Hn. apply Hnul. by eapply split_slash_elem.
  - by intros ->.
Qed.

Lemma normalize_safe input p : normalize_relative_path input = Ok p -> safe_path p.
Proof.
  rewrite normalize_cases. case_decide; [done|]. intros [= <-].
  exists (kept_parts input). split; [apply kept_parts_safe; naive_solver|done].
Qed.

Lemma join_nul parts : Forall safe_component parts -> nul ∉ join_slash parts.
Proof.
  induction 1 as [|p ps (_ & _ & Hp & _) Hps IH]; cbn; [by intros ?%elem_of_nil|].
  destruct ps; [done|]. rewrite elem_of_app, elem_of_cons. naive_solver.
Qed.

Lemma safe_not_absolute parts : Forall safe_component parts -> is_absolute (join_slash parts) = false.
Proof.
  destruct parts as [|p ps]; [done|]. inversion_clear 1 as [|? ? (Hne & Hs & _) Hps].
  destruct p as [|c p]; [done|]. rewrite not_elem_of_cons in Hs.
  destruct ps; cbn; apply bool_decide_eq_false; naive_solver.
Qed.

Lemma kept_parts_join parts : Forall safe_component parts -> kept_parts (join_slash parts) = parts.
Proof.
  intros Hs. destruct (decide (parts = [])) as [->|Hne].
  - unfold kept_parts. cbn. done.
  - unfold kept_parts. rewrite split_join by auto using safe_no_slash.
    clear Hne. induction Hs as [|p ps (H1 & _ & _ & H2 & _) Hps IH]; [done|].
    rewrite filter_cons_True by done. by f_equal.
Qed.

(** Normalization fixes safe paths. *)
Lemma normalize_safe_id p : safe_path p -> normalize_relative_path p = Ok p.
Proof.
  intros (parts & Hs & ->). rewrite normalize_cases, decide_False, kept_parts_join; [done..|].
  intros [Hn|[Ha|Hd]].
  - by apply join_nul in Hn.
  - rewrite safe_not_absolute in Ha by done. done.
  - destruct (decide (parts = [])) as [->|Hne]; [cbn in Hd; by apply list_elem_of_singleton in Hd|].
    rewrite split_join in Hd by auto using safe_no_slash.
    rewrite Forall_forall in Hs. by destruct (Hs _ Hd) as (_ & _ & _ & _ & ?).
Qed.
#[export] Hint Resolve normalize_safe normalize_safe_id : fp.

(** ** Parents, leaves and children *)

Lemma rsplit_once_none s : slash ∉ s -> rsplit_once_slash s = None.
Proof.
  induction s as [|c s IH]; cbn; [done|].
  intros [Hc Hs]%not_elem_of_cons. rewrite IH by done. by rewrite decide_False.
Qed.

Lemma rsplit_once_app a b : slash ∉ b -> rsplit_once_slash (a ++ slash :: b) = Some (a, b).
Proof.
  intros Hb. induction a as [|c a IH]; cbn.
  - rewrite rsplit_once_none by done. by rewrite decide_True.
  - by rewrite IH.
Qed.

Lemma rsplit_once_Some s a b : rsplit_once_slash s = Some (a, b) -> s = a ++ slash :: b.
Proof.
  revert a b. induction s as [|c s IH]; intros a b; cbn; [done|].
  destruct (rsplit_once_slash s) as [[a' b']|].
  - intros [= <- <-]. cbn. f_equal. by apply IH.
  - case_decide; [|done]. intros [= <- <-]. by subst.
Qed.

Lemma rsplit_join_snoc parts x :
  slash ∉ x ->
  rsplit_once_slash (join_slash (parts ++ [x])) =
    if decide (parts = []) then None else Some (join_slash parts, x).
Proof.
  intros Hx. case_decide as Hne.
  - subst. by apply rsplit_once_none.
  - rewrite join_slash_snoc by done. by apply rsplit_once_app.
Qed.

Lemma parent_path_snoc parts x :
  slash ∉ x -> parent_path (join_slash (parts ++ [x])) = join_slash parts.
Proof.
  intros. unfold parent_path. rewrite rsplit_join_snoc by done.
  case_decide; [by subst|done].
Qed.

Lemma leaf_name_snoc parts x : slash ∉ x -> leaf_name (join_slash (parts ++ [x])) = x.
Proof.
  intros. unfold leaf_name. rewrite rsplit_join_snoc by done.
  case_decide; [by subst|done].
Qed.

Lemma child_path_join parts x :
  Forall safe_component parts ->
  child_path (join_slash parts) x = join_slash (parts ++ [x]).
Proof.
  intros Hs. unfold child_path. case_decide as Hp.
  - apply join_slash_nil in Hp as ->; done.
  - rewrite join_slash_snoc; [done|]. by intros ->.
Qed.

(** A safe path other than the root is the child of its parent. *)
Lemma safe_path_snoc p :
  safe_path p -> p <> [] ->
  exists parts x, Forall safe_component parts /\ safe_component x /\
    p = join_slash (parts ++ [x]).
Proof.
  intros (parts & Hs & ->) Hne. destruct (exists_last (l := parts)) as (ps & x & ->).
  - by intros ->.
  - apply Forall_app in Hs as [Hps Hx]. inversion_clear Hx. eauto.
Qed.

Lemma safe_component_slash x : safe_component x -> slash ∉ x.
Proof. unfold safe_component. naive_solver. Qed.
#[export] Hint Resolve safe_component_slash : fp.

Lemma safe_path_parent p : safe_path p -> safe_path (parent_path p).
Proof.
  intros Hp. destruct (decide (p = [])) as [->|Hne]; [by exists []|].
  destruct (safe_path_snoc p) as (parts & x & Hs & Hx & ->); [done..|].
  rewrite parent_path_snoc by auto with fp. by exists parts.
Qed.

Lemma safe_path_leaf p : safe_path p -> p <> [] -> safe_component (leaf_name p).
Proof.
  intros Hp Hne. destruct (safe_path_snoc p) as (parts & x & Hs & Hx & ->); [done..|].
  by rewrite leaf_name_snoc by auto with fp.
Qed.

Lemma safe_path_nil : safe_path [].
Proof. by exists []. Qed.

Lemma safe_path_child p x : safe_path p -> safe_component x -> safe_path (child_path p x).
Proof.
  intros (parts & Hs & ->) Hx. rewrite child_path_join by done.
  exists (parts ++ [x]). split; [|done]. apply Forall_app. auto.
Qed.

Lemma child_parent_leaf p :
  safe_path p -> p <> [] -> child_path (parent_path p) (leaf_name p) = p.
Proof.
  intros Hp Hne. destruct (safe_path_snoc p) as (parts & x & Hs & Hx & ->); [done..|].
  rewrite parent_path_snoc, leaf_name_snoc by auto with fp. by apply child_path_join.
Qed.

Lemma parent_of_child p x : safe_path p -> safe_component x -> parent_path (child_path p x) = p.
Proof.
  intros (parts & Hs & ->) Hx. rewrite child_path_join by done.
  by rewrite parent_path_snoc by auto with fp.
Qed.

Lemma leaf_of_child p x : safe_path p -> safe_component x -> leaf_name (child_path p x) = x.
Proof.
  intros (parts & Hs & ->) Hx. rewrite child_path_join by done.
  by rewrite leaf_name_snoc by auto with fp.
Qed.

Lemma child_path_nonempty p x : x <> [] -> child_path p x <> [].
Proof. intros. unfold child_path. case_decide; [done|]. by destruct p. Qed.

(** The parent is a strict prefix: shorter, and earlier in the byte order. *)
Lemma parent_path_prefix p : p <> [] -> exists k, p = parent_path p ++ k /\ k <> [].
Proof.
  intros Hne. unfold parent_path. destruct (rsplit_once_slash p) as [[a b]|] eqn:H.
  - apply rsplit_once_Some in H as ->. by exists (slash :: b).
  - by exists p.
Qed.

Lemma parent_path_shorter p : p <> [] -> (length (parent_path p) < length p)%nat.
Proof.
  intros (k & Hk & Hne)%parent_path_prefix. rewrite Hk at 2. rewrite length_app.
  destruct k; [done|cbn; lia].
Qed.

Lemma parent_path_le p : str_leb (parent_path p) p = true.
Proof.
  destruct (decide (p = [])) as [->|(k & Hk & _)%parent_path_prefix]; [done|].
  rewrite Hk at 2. apply str_leb_app.
Qed.

Lemma validate_child_name_Ok name :
  validate_child_name name = Ok tt <-> safe_component name.
Proof.
  unfold validate_child_name, safe_component.
  repeat case_decide; split; intros; try done; naive_solver.
Qed.

#[export] Hint Resolve safe_path_parent safe_path_leaf safe_path_nil safe_path_child : fp.

(** ** Properties *)

(** [normalize_relative_path] accepts exactly the inputs without a NUL
    byte, a leading slash or a [..] component; what it returns is the input
    with its empty and [.] components removed, every component of which is a
    non-empty name without slash or NUL that is neither [.] nor [..]; and
    normalizing again changes nothing. *)
Theorem normalize_relative_path_correct input :
  (normalize_relative_path input = Err InvalidArgument <->
     (nul ∈ input) \/ is_absolute input = true \/ (bs ".." ∈ split_slash input)) /\
  (forall p, normalize_relative_path input = Ok p ->
     p = join_slash (kept_parts input) /\ Forall safe_component (kept_parts input) /\
     normalize_relative_path p = Ok p) /\
  (normalize_relative_path input <> Err InvalidArgument ->
     is_ok (normalize_relative_path input) = true).
Proof.
  rewrite normalize_cases. case_decide as H; (split; [naive_solver|]); (split; [|done]).
  - done.
  - intros p [= <-].
    assert (Hs : Forall safe_component (kept_parts input)) by (apply kept_parts_safe; naive_solver).
    repeat split; [done|]. apply normalize_safe_id. by exists (kept_parts input).
Qed.

(** [parent_path] and [leaf_name] invert [child_path] on normalized
    paths, and every normalized path but the root is the child of its parent
    under its own leaf name. *)
Theorem child_path_parent_leaf_roundtrip p name :
  safe_path p ->
  (validate_child_name name = Ok tt ->
     parent_path (child_path p name) = p /\ leaf_name (child_path p name) = name /\
     safe_path (child_path p name)) /\
  (p <> [] -> child_path (parent_path p) (leaf_name p) = p /\
     validate_child_name (leaf_name p) = Ok tt).
Proof.
  intros Hp. split.
  - intros Hn%validate_child_name_Ok.
    auto using parent_of_child, leaf_of_child, safe_path_child.
  - intros Hne. split; [by apply child_parent_leaf|].
    apply validate_child_name_Ok. by apply safe_path_leaf.
Qed.

Lemma child_path_parent_leaf_roundtrip_witness :
  parent_path (child_path (bs "docs") (bs "a.txt")) = bs "docs" /\
  child_path (parent_path (bs "docs")) (leaf_name (bs "docs")) = bs "docs".
Proof.
  assert (Hs : safe_path (bs "docs")) by (by apply (normalize_safe (bs "./docs/"))).
  pose proof (child_path_parent_leaf_roundtrip (bs "docs") (bs "a.txt") Hs) as [H1 H2].
  split; [apply H1; vm_compute; reflexivity | apply H2; discriminate].
Defined.
