(* ===== verification/Cache.v ===== *)
(** * The read-through cache

    [ReadCache], [CachedFile], [CachedChunk], [CachedRange] of
    [crates/fuse-promise-runtime/src/lib.rs]: per file, chunks keyed by their
    base offset, each holding a sorted list of disjoint byte ranges that are
    merged on insertion.

    Loops over a cursor ([CachedFile::read], [CachedFile::insert]) take fuel;
    every iteration moves the cursor by at least one byte, so one unit of fuel
    per byte, and one more for reading, is enough ([read_loop_fuel],
    [insert_loop_spec]).

    The abstract view of a cached file is a partial map from offsets to bytes
    ([file_at]); the main results are that [insert] overlays the new bytes on
    that map and that [read] returns a range exactly when the map is defined on
    all of it. *)

From S2P Require Import Prelude Types.

Record CacheKey : Type := mkCacheKey {
  ck_promise_id : str;
  ck_relative_path : str;
}.

#[export] Instance CacheKey_eq_decision : EqDecision CacheKey.
Proof. solve_decision. Defined.

#[export] Instance CacheKey_countable : Countable CacheKey.
Proof.
  refine (inj_countable' (fun k => (ck_promise_id k, ck_relative_path k))
    (fun p => mkCacheKey p.1 p.2) _). by intros [].
Defined.

Record CachedRange : Type := mkCachedRange {
  cr_offset : Z;
  cr_bytes : list byte;
}.

Record CachedChunk : Type := mkCachedChunk { cc_ranges : list CachedRange }.
Record CachedFile : Type := mkCachedFile { cf_chunks : gmap Z CachedChunk }.
Record ReadCache : Type := mkReadCache { rc_files : gmap CacheKey CachedFile }.

Definition CachedChunk_default : CachedChunk := mkCachedChunk [].
Definition CachedFile_default : CachedFile := mkCachedFile ∅.
Definition ReadCache_default : ReadCache := mkReadCache ∅.

Definition checked_range_end (offset : Z) (length : Z) : option Z :=
  checked_add offset length.

Definition CachedRange_end (self : CachedRange) : option Z :=
  checked_range_end (cr_offset self) (len (cr_bytes self)).

Definition chunk_base (offset chunk_size : Z) : Z :=
  (offset / chunk_size) * chunk_size.

(** ** [CachedChunk] *)

Fixpoint read_ranges (ranges : list CachedRange) (offset end_ : Z) : option (list byte) :=
  match ranges with
  | [] => None
  | range :: ranges =>
      range_end ← CachedRange_end range;
      if (cr_offset range <=? offset) && (end_ <=? range_end) then
        start ← (checked_sub offset (cr_offset range) ≫= usize_try_from);
        stop ← (checked_sub end_ (cr_offset range) ≫= usize_try_from);
        Some (slice (cr_bytes range) start stop)
      else read_ranges ranges offset end_
  end.

Definition CachedChunk_read (self : CachedChunk) (offset length : Z) : option (list byte) :=
  end_ ← checked_add offset length;
  read_ranges (cc_ranges self) offset end_.

(** The accumulator of the merge loop: [merged_offset], [merged_end],
    [merged_bytes], [retained]. *)
Record MergeState : Type := mkMergeState {
  ms_offset : Z;
  ms_end : Z;
  ms_bytes : list byte;
  ms_retained : list CachedRange;
}.

Definition merge_range (ms : MergeState) (range : CachedRange) : MergeState :=
  match CachedRange_end range with
  | None => ms
  | Some range_end =>
      if (range_end <? ms_offset ms) || (ms_end ms <? cr_offset range) then
        mkMergeState (ms_offset ms) (ms_end ms) (ms_bytes ms) (ms_retained ms ++ [range])
      else
        let next_offset := Z.min (ms_offset ms) (cr_offset range) in
        let next_end := Z.max (ms_end ms) range_end in
        match usize_try_from (next_end - next_offset) with
        | None =>
            mkMergeState (ms_offset ms) (ms_end ms) (ms_bytes ms) (ms_retained ms ++ [range])
        | Some next_len =>
            let next_bytes := replicate (Z.to_nat next_len) Byte.x00 in
            let old_start := default 0 (usize_try_from (cr_offset range - next_offset)) in
            let next_bytes := copy_into next_bytes old_start (cr_bytes range) in
            let merged_start := default 0 (usize_try_from (ms_offset ms - next_offset)) in
            let next_bytes := copy_into next_bytes merged_start (ms_bytes ms) in
            mkMergeState next_offset next_end next_bytes (ms_retained ms)
        end
  end.

Definition CachedChunk_insert (self : CachedChunk) (offset : Z) (bytes : list byte) : CachedChunk :=
  if decide (bytes = []) then self
  else match checked_range_end offset (len bytes) with
       | None => self
       | Some new_end =>
           let ms := foldl merge_range (mkMergeState offset new_end bytes []) (cc_ranges self) in
           mkCachedChunk (sort_by_key cr_offset
             (ms_retained ms ++ [mkCachedRange (ms_offset ms) (ms_bytes ms)]))
       end.

(** ** [CachedFile] *)

Definition chunk_end_of (base chunk_size : Z) : Z :=
  default u64_max (checked_add base chunk_size).

Fixpoint read_loop (fuel : nat) (self : CachedFile) (chunk_size end_ cursor : Z)
    (bytes : list byte) : option (list byte) :=
  match fuel with
  | O => None
  | S fuel =>
      if cursor <? end_ then
        let base := chunk_base cursor chunk_size in
        let chunk_end := chunk_end_of base chunk_size in
        let read_end := Z.min end_ chunk_end in
        read_len ← checked_sub read_end cursor;
        chunk ← cf_chunks self !! base;
        piece ← CachedChunk_read chunk cursor read_len;
        read_loop fuel self chunk_size end_ read_end (bytes ++ piece)
      else Some bytes
  end.

Definition CachedFile_read (self : CachedFile) (offset length chunk_size : Z) :
    option (list byte) :=
  end_ ← checked_add offset length;
  _ ← usize_try_from length;
  read_loop (S (Z.to_nat length)) self chunk_size end_ offset [].

(** [consumed < bytes.len()] is kept by passing the bytes not consumed yet. *)
Fixpoint insert_loop (fuel : nat) (self : CachedFile) (chunk_size cursor : Z)
    (rest : list byte) : CachedFile :=
  match fuel with
  | O => self
  | S fuel =>
      if 0 <? len rest then
        let base := chunk_base cursor chunk_size in
        let chunk_end := chunk_end_of base chunk_size in
        let chunk_remaining := saturating_sub chunk_end cursor in
        let take_ := Z.min (len rest) (default usize_max (usize_try_from chunk_remaining)) in
        if take_ =? 0 then self
        else
          let chunk := default CachedChunk_default (cf_chunks self !! base) in
          let chunk := CachedChunk_insert chunk cursor (take (Z.to_nat take_) rest) in
          insert_loop fuel (mkCachedFile (<[base := chunk]> (cf_chunks self))) chunk_size
            (saturating_add cursor take_) (drop (Z.to_nat take_) rest)
      else self
  end.

Definition CachedFile_insert (self : CachedFile) (offset : Z) (bytes : list byte)
    (chunk_size : Z) : CachedFile :=
  insert_loop (length bytes) self chunk_size offset bytes.

(** ** [ReadCache] *)

Definition ReadCache_clear (self : ReadCache) : ReadCache := mkReadCache ∅.

Definition ReadCache_read (self : ReadCache) (promise_id relative_path : str)
    (offset length chunk_size : Z) : option (list byte) :=
  file ← rc_files self !! mkCacheKey promise_id relative_path;
  CachedFile_read file offset length chunk_size.

Definition ReadCache_insert (self : ReadCache) (promise_id relative_path : str)
    (offset : Z) (bytes : list byte) (chunk_size : Z) : ReadCache :=
  let key := mkCacheKey promise_id relative_path in
  let file := default CachedFile_default (rc_files self !! key) in
  mkReadCache (<[key := CachedFile_insert file offset bytes chunk_size]> (rc_files self)).

(** ** Abstract view and invariant *)

Definition range_stop (r : CachedRange) : Z := cr_offset r + len (cr_bytes r).

Definition range_at (r : CachedRange) (p : Z) : option byte :=
  zlookup (cr_bytes r) (p - cr_offset r).

Definition or_else {A} (a b : option A) : option A :=
  match a with Some x => Some x | None => b end.

Fixpoint ranges_at (rs : list CachedRange) (p : Z) : option byte :=
  match rs with
  | [] => None
  | r :: rs => or_else (range_at r p) (ranges_at rs p)
  end.

Definition chunk_at (c : CachedChunk) (p : Z) : option byte := ranges_at (cc_ranges c) p.

Definition file_at (f : CachedFile) (chunk_size p : Z) : option byte :=
  cf_chunks f !! chunk_base p chunk_size ≫= fun c => chunk_at c p.

Definition cache_at (c : ReadCache) (key : CacheKey) (chunk_size p : Z) : option byte :=
  rc_files c !! key ≫= fun f => file_at f chunk_size p.

Definition range_wf (r : CachedRange) : Prop :=
  0 <= cr_offset r /\ cr_bytes r <> [] /\ range_stop r <= u64_max.

(** Two stored ranges of a chunk never touch. *)
Definition range_before (r1 r2 : CachedRange) : Prop := range_stop r1 < cr_offset r2.

Definition chunk_wf (c : CachedChunk) : Prop :=
  Forall range_wf (cc_ranges c) /\ StronglySorted range_before (cc_ranges c).

Definition file_wf (f : CachedFile) : Prop := map_Forall (fun _ => chunk_wf) (cf_chunks f).

Definition cache_wf (c : ReadCache) : Prop := map_Forall (fun _ => file_wf) (rc_files c).

(** ** Ranges *)

Lemma range_at_is_Some r p : is_Some (range_at r p) <-> cr_offset r <= p < range_stop r.
Proof. unfold range_at, range_stop. rewrite zlookup_is_Some. lia. Qed.

Lemma range_at_Some r p b : range_at r p = Some b -> cr_offset r <= p < range_stop r.
Proof. intros H. apply range_at_is_Some. eauto. Qed.

Lemma range_at_None r p : range_at r p = None <-> ~ (cr_offset r <= p < range_stop r).
Proof. by rewrite <- range_at_is_Some, eq_None_not_Some. Qed.

Lemma range_stop_gt r : range_wf r -> cr_offset r < range_stop r.
Proof. intros (? & Hne%len_pos & ?). unfold range_stop. lia. Qed.

Lemma CachedRange_end_wf r : range_wf r -> CachedRange_end r = Some (range_stop r).
Proof. intros (? & ? & ?). apply checked_add_in. done. Qed.

#[export] Instance range_before_trans_dec r1 r2 : Decision (range_before r1 r2).
Proof. unfold range_before. apply _. Defined.

(** A sorted list of ranges stores at most one byte per offset. *)
Lemma ranges_at_Some rs p b :
  Forall range_wf rs -> StronglySorted range_before rs ->
  ranges_at rs p = Some b <-> exists r, (r ∈ rs) /\ range_at r p = Some b.
Proof.
  intros Hwf Hs. induction Hs as [|r rs Hs IH Hr]; cbn.
  - split; [done|]. intros (r & ?%elem_of_nil & _). done.
  - inversion_clear Hwf as [|? ? Hr0 Hwf']. specialize (IH Hwf').
    destruct (range_at r p) as [b'|] eqn:Hp; cbn.
    + split; [intros [= <-]; exists r; split; [left|done]|].
      intros (r' & [->|Hr']%elem_of_cons & Hp'); [congruence|].
      rewrite Forall_forall in Hr. specialize (Hr r' Hr').
      apply range_at_Some in Hp, Hp'. unfold range_before in Hr. lia.
    + rewrite IH. split.
      * intros (r' & ? & ?). exists r'. split; [by right|done].
      * intros (r' & [->|Hr']%elem_of_cons & Hp'); [congruence|eauto].
Qed.

(** ** Merging one range *)

Definition ms_range (ms : MergeState) : CachedRange := mkCachedRange (ms_offset ms) (ms_bytes ms).

(** Loop invariant of [CachedChunk::insert]: the merged range is well formed,
    and the retained ranges do not touch it. *)
Definition merge_inv (ms : MergeState) : Prop :=
  range_wf (ms_range ms) /\ ms_end ms = range_stop (ms_range ms) /\
  Forall range_wf (ms_retained ms) /\
  Forall (fun r => range_before r (ms_range ms) \/ range_before (ms_range ms) r) (ms_retained ms).

Definition touches (ms : MergeState) (r : CachedRange) : Prop :=
  ms_offset ms <= range_stop r /\ cr_offset r <= ms_end ms.

Lemma merge_range_apart ms r :
  range_wf r -> ~ touches ms r ->
  merge_range ms r =
    mkMergeState (ms_offset ms) (ms_end ms) (ms_bytes ms) (ms_retained ms ++ [r]).
Proof.
  intros Hr Ht. unfold merge_range. rewrite CachedRange_end_wf by done.
  unfold touches in Ht. destruct (Z.ltb_spec (range_stop r) (ms_offset ms)); [done|].
  destruct (Z.ltb_spec (ms_end ms) (cr_offset r)); [done|lia].
Qed.

Lemma len_replicate {A} (n : Z) (x : A) : 0 <= n -> len (replicate (Z.to_nat n) x) = n.
Proof. unfold len. rewrite length_replicate. lia. Qed.

(** Merging a touching range: the result spans both, and the bytes inserted
    last win where they overlap. *)
Lemma merge_range_touching ms r :
  range_wf r -> merge_inv ms -> touches ms r ->
  let ms' := merge_range ms r in
  range_wf (ms_range ms') /\ ms_end ms' = range_stop (ms_range ms') /\
  ms_retained ms' = ms_retained ms /\
  ms_offset ms' = Z.min (ms_offset ms) (cr_offset r) /\
  ms_end ms' = Z.max (ms_end ms) (range_stop r) /\
  forall p, range_at (ms_range ms') p =
    or_else (range_at (ms_range ms) p) (range_at r p).
Proof.
  intros Hr ((Hm0 & Hmne & Hm1) & Hend & _) [Ht1 Ht2].
  unfold merge_range. rewrite CachedRange_end_wf by done.
  destruct (Z.ltb_spec (range_stop r) (ms_offset ms)); [lia|].
  destruct (Z.ltb_spec (ms_end ms) (cr_offset r)); [lia|]. cbn [orb].
  destruct Hr as (Hr0 & Hrne%len_pos & Hr1). apply len_pos in Hmne.
  destruct ms as [mo me mb mr]. unfold ms_range, range_wf, range_stop, range_at in *. cbn in *.
  remember (Z.min mo (cr_offset r)) as no eqn:Hno.
  remember (Z.max me (cr_offset r + len (cr_bytes r))) as ne eqn:Hne.
  rewrite !usize_try_from_in by lia. cbn.
  set (z := replicate (Z.to_nat (ne - no)) Byte.x00).
  assert (Hz : len z = ne - no) by (apply len_replicate; lia).
  set (b1 := copy_into z (cr_offset r - no) (cr_bytes r)).
  assert (Hb1 : len b1 = ne - no) by (unfold b1; rewrite len_copy_into; lia).
  set (b2 := copy_into b1 (mo - no) mb).
  assert (Hb2 : len b2 = ne - no) by (unfold b2; rewrite len_copy_into; lia).
  split_and!; try done; try lia.
  - apply len_pos_inv. lia.
  - intros p. unfold b2. rewrite zlookup_overlay by lia.
    unfold b1. rewrite zlookup_overlay by lia.
    replace (p - no - (mo - no)) with (p - mo) by lia.
    replace (p - no - (cr_offset r - no)) with (p - cr_offset r) by lia.
    unfold or_else. destruct (zlookup mb (p - mo)) eqn:Hx; [done|].
    destruct (zlookup (cr_bytes r) (p - cr_offset r)) eqn:Hy; [done|].
    apply eq_None_not_Some in Hx, Hy. rewrite zlookup_is_Some in Hx, Hy.
    apply zlookup_out. lia.
Qed.

Lemma ranges_at_app rs rs' p : ranges_at (rs ++ rs') p = or_else (ranges_at rs p) (ranges_at rs' p).
Proof. induction rs as [|r rs IH]; cbn; [done|]. rewrite IH. by destruct (range_at r p). Qed.

Lemma ranges_at_None rs p :
  ranges_at rs p = None <-> forall r, r ∈ rs -> range_at r p = None.
Proof.
  induction rs as [|r rs IH]; cbn.
  - split; [|done]. by intros _ r ?%elem_of_nil.
  - destruct (range_at r p) eqn:Hp; cbn.
    + split; [done|]. intros H. rewrite <- Hp. apply H. left.
    + rewrite IH. split; [intros H x [->|?]%elem_of_cons; auto|]. intros H x Hx. apply H. by right.
Qed.

(** The bytes held by the state of the merge loop. *)
Definition stored (ms : MergeState) (p : Z) : option byte :=
  or_else (range_at (ms_range ms) p) (ranges_at (ms_retained ms) p).

(** What one step of the loop does: the invariant is kept, the retained list
    stays sorted, and bytes already stored win over those of the range. *)
Record merge_step (ms : MergeState) (r : CachedRange) (ms' : MergeState) : Prop := {
  step_inv : merge_inv ms';
  step_retained : forall x, x ∈ ms_retained ms' -> (x ∈ ms_retained ms) \/ x = r;
  step_sorted :
    StronglySorted range_before (ms_retained ms) -> StronglySorted range_before (ms_retained ms');
  step_stored : forall p, stored ms' p = or_else (stored ms p) (range_at r p);
}.

Lemma merge_step_touching ms r :
  range_wf r -> merge_inv ms -> Forall (fun x => range_before x r) (ms_retained ms) ->
  touches ms r -> merge_step ms r (merge_range ms r).
Proof.
  intros Hr Hinv Hbefore Ht. rewrite Forall_forall in Hbefore.
  pose proof Hinv as (Hm & Hend & Hret & Hsep). rewrite Forall_forall in Hsep, Hret.
  destruct (merge_range_touching ms r) as (H1 & H2 & H3 & H4 & H5 & H6); try done.
  cbn zeta in *. split; rewrite ?H3; auto.
  - unfold merge_inv. rewrite H3. split_and!; try done; [by apply Forall_forall|].
    apply Forall_forall. intros x Hx. specialize (Hsep x Hx). specialize (Hbefore x Hx).
    pose proof (range_stop_gt x (Hret x Hx)).
    unfold range_before, touches in *. rewrite <- H2, H5. rewrite <- Hend in Hsep.
    change (cr_offset (ms_range ms)) with (ms_offset ms) in Hsep.
    change (cr_offset (ms_range (merge_range ms r))) with (ms_offset (merge_range ms r)). lia.
  - intros p. unfold stored. rewrite H6, H3.
    destruct (range_at (ms_range ms) p), (range_at r p) eqn:Hrp; cbn;
      try (by destruct (ranges_at (ms_retained ms) p)).
    rewrite (proj2 (ranges_at_None _ _)); [done|]. intros x Hx. specialize (Hbefore x Hx).
    apply range_at_Some in Hrp. apply range_at_None. unfold range_before in Hbefore. lia.
Qed.

Lemma merge_step_apart ms r :
  range_wf r -> merge_inv ms -> Forall (fun x => range_before x r) (ms_retained ms) ->
  ~ touches ms r -> merge_step ms r (merge_range ms r).
Proof.
  intros Hr Hinv Hbefore Ht. rewrite Forall_forall in Hbefore.
  pose proof Hinv as (Hm & Hend & Hret & Hsep).
  assert (Hr' : range_before r (ms_range ms) \/ range_before (ms_range ms) r).
  { unfold touches, range_before in *. rewrite Hend in Ht.
    change (cr_offset (ms_range ms)) with (ms_offset ms). lia. }
  rewrite merge_range_apart by done. split; cbn.
  - unfold merge_inv. change (ms_range _) with (ms_range ms). cbn.
    rewrite !Forall_app. split_and!; auto.
  - intros x [?|?%list_elem_of_singleton]%elem_of_app; auto.
  - intros Hss. apply StronglySorted_app. split_and!; [|done|repeat constructor].
    intros x1 x2 Hx1 ->%list_elem_of_singleton. by apply Hbefore.
  - intros p. unfold stored. change (ms_range _) with (ms_range ms). cbn.
    rewrite ranges_at_app. cbn. by destruct (range_at (ms_range ms) p),
      (ranges_at (ms_retained ms) p), (range_at r p).
Qed.

Lemma merge_range_step ms r :
  range_wf r -> merge_inv ms -> Forall (fun x => range_before x r) (ms_retained ms) ->
  merge_step ms r (merge_range ms r).
Proof.
  intros. destruct (decide (ms_offset ms <= range_stop r /\ cr_offset r <= ms_end ms)).
  - by apply merge_step_touching.
  - by apply merge_step_apart.
Qed.

(** The whole loop. *)
Lemma merge_ranges rs ms :
  Forall range_wf rs -> StronglySorted range_before rs -> merge_inv ms ->
  StronglySorted range_before (ms_retained ms) ->
  (forall x y, x ∈ ms_retained ms -> y ∈ rs -> range_before x y) ->
  let ms' := foldl merge_range ms rs in
  merge_inv ms' /\ StronglySorted range_before (ms_retained ms') /\
  forall p, stored ms' p = or_else (stored ms p) (ranges_at rs p).
Proof.
  revert ms. induction rs as [|r rs IH]; intros ms Hwf Hs Hinv Hret Hsep; cbn.
  - split_and!; try done. intros p. by destruct (stored ms p).
  - inversion_clear Hwf as [|? ? Hr Hwf']. apply StronglySorted_inv in Hs as [Hs Hrs].
    rewrite Forall_forall in Hrs.
    destruct (merge_range_step ms r) as [H1 H2 H3 H4]; try done.
    { apply Forall_forall. intros x Hx. apply Hsep; [done|left]. }
    destruct (IH (merge_range ms r)) as (I1 & I2 & I3); auto.
    { intros x y [Hx| ->]%H2 Hy; [|by apply Hrs]. apply Hsep; [done|by right]. }
    split_and!; try done. intros p. rewrite I3, H4. by destruct (stored ms p).
Qed.

(** ** Inserting into and reading from a chunk *)

Lemma sorted_ranges_perm rs rs' p :
  rs ≡ₚ rs' -> Forall range_wf rs -> StronglySorted range_before rs ->
  (forall b, ranges_at rs p = Some b <-> exists r, (r ∈ rs') /\ range_at r p = Some b).
Proof. intros Hp Hwf Hs b. rewrite ranges_at_Some by done. by setoid_rewrite Hp. Qed.

#[export] Instance range_before_trans : Transitive (fun r1 r2 => range_wf r2 /\ range_before r1 r2).
Proof.
  intros x y z [Hy Hxy] [Hz Hyz]. split; [done|]. apply range_stop_gt in Hy.
  unfold range_before in *. lia.
Qed.

Lemma sort_ranges rs :
  Forall range_wf rs -> NoDup rs ->
  (forall x y, x ∈ rs -> y ∈ rs -> x = y \/ range_before x y \/ range_before y x) ->
  StronglySorted range_before (sort_by_key cr_offset rs).
Proof.
  intros Hwf Hnd Hsep. rewrite Forall_forall in Hwf.
  assert (Hs : StronglySorted (fun r1 r2 => range_wf r2 /\ range_before r1 r2)
                 (sort_by_key cr_offset rs)).
  { apply sort_by_key_sorted; [|done|apply _]. intros x y Hx Hy Hle.
    destruct (Hsep x y Hx Hy) as [?|[?|Hyx]]; auto. right.
    pose proof (range_stop_gt y (Hwf y Hy)). unfold range_before in Hyx. lia. }
  induction Hs as [|x l Hs IH Hall]; constructor; [done|].
  eapply Forall_impl; [exact Hall|]. by intros ? [].
Qed.

Lemma StronglySorted_pairwise {A} (R : relation A) l x y :
  StronglySorted R l -> x ∈ l -> y ∈ l -> x = y \/ R x y \/ R y x.
Proof.
  induction 1 as [|z l Hs IH Hz]; [by intros ?%elem_of_nil|]. rewrite Forall_forall in Hz.
  intros [->|Hx]%elem_of_cons [->|Hy]%elem_of_cons; auto.
Qed.

Lemma sorted_ranges_NoDup rs :
  Forall range_wf rs -> StronglySorted range_before rs -> NoDup rs.
Proof.
  intros Hwf Hs. induction Hs as [|r rs Hs IH Hr]; constructor; inversion_clear Hwf as [|? ? Hr0 ?].
  - intros Hin. rewrite Forall_forall in Hr. specialize (Hr r Hin).
    apply range_stop_gt in Hr0. unfold range_before in Hr. lia.
  - auto.
Qed.

Lemma chunk_insert_spec c offset bytes :
  chunk_wf c -> 0 <= offset -> bytes <> [] -> offset + len bytes <= u64_max ->
  chunk_wf (CachedChunk_insert c offset bytes) /\
  forall p, chunk_at (CachedChunk_insert c offset bytes) p =
    or_else (zlookup bytes (p - offset)) (chunk_at c p).
Proof.
  intros [Hwf Hs] Hoff Hne Hend. unfold CachedChunk_insert, checked_range_end.
  rewrite decide_False, checked_add_in by done.
  set (ms0 := mkMergeState offset (offset + len bytes) bytes []).
  assert (Hinv0 : merge_inv ms0) by (split_and!; done || constructor).
  destruct (merge_ranges (cc_ranges c) ms0) as (Hinv & Hret & Hst); try done; [constructor|..].
  { by intros x y ?%elem_of_nil. }
  set (ms := foldl merge_range ms0 (cc_ranges c)) in *.
  destruct Hinv as (Hm & _ & Hrw & Hsep).
  assert (Hall : Forall range_wf (ms_retained ms ++ [ms_range ms])) by (apply Forall_app; auto).
  assert (Hsorted : StronglySorted range_before
                      (sort_by_key cr_offset (ms_retained ms ++ [ms_range ms]))).
  { rewrite Forall_forall in Hsep. apply sort_ranges; [done| |].
    - apply NoDup_app. split_and!; [by apply sorted_ranges_NoDup| |apply NoDup_singleton].
      intros x Hx ->%list_elem_of_singleton. apply range_stop_gt in Hm.
      specialize (Hsep _ Hx). unfold range_before in Hsep. lia.
    - intros x y [Hx|Hx%list_elem_of_singleton]%elem_of_app
        [Hy|Hy%list_elem_of_singleton]%elem_of_app; subst; auto.
      + by apply StronglySorted_pairwise with (ms_retained ms).
      + specialize (Hsep _ Hy). tauto. }
  split; [split; [|done]|].
  - cbn. by rewrite sort_by_key_perm.
  - intros p. unfold chunk_at at 1; cbn. transitivity (stored ms p); [|by rewrite Hst; unfold stored, range_at; cbn; destruct (zlookup bytes (p - offset))].
    apply option_eq. intros b. rewrite ranges_at_Some by (done || by rewrite sort_by_key_perm).
    setoid_rewrite sort_by_key_perm. unfold stored.
    assert (Hrs : ranges_at (ms_retained ms) p = Some b <->
                  exists r, (r ∈ ms_retained ms) /\ range_at r p = Some b) by by apply ranges_at_Some.
    setoid_rewrite elem_of_app. setoid_rewrite list_elem_of_singleton.
    change (mkCachedRange _ _) with (ms_range ms).
    destruct (range_at (ms_range ms) p) as [b0|] eqn:Hb0; cbn [or_else].
    + split; [|intros [= <-]; eauto]. intros (r & [Hr| ->] & Hp); [|congruence].
      rewrite Forall_forall in Hsep. specialize (Hsep r Hr).
      apply range_at_Some in Hb0, Hp. unfold range_before in Hsep. lia.
    + rewrite Hrs. split; [intros (r & [Hr| ->] & Hp); [eauto|congruence]|].
      intros (r & Hr & Hp). eauto.
Qed.

Lemma read_ranges_Some rs offset end_ bytes :
  Forall range_wf rs -> offset <= end_ -> end_ <= u64_max -> 0 <= offset ->
  read_ranges rs offset end_ = Some bytes ->
  exists r, (r ∈ rs) /\ cr_offset r <= offset /\ end_ <= range_stop r /\
    bytes = slice (cr_bytes r) (offset - cr_offset r) (end_ - cr_offset r).
Proof.
  intros Hwf Hle Hmax Hpos. induction Hwf as [|r rs Hr Hwf IH]; cbn; [done|].
  rewrite CachedRange_end_wf by done. cbn.
  destruct (Z.leb_spec (cr_offset r) offset); cbn.
  - destruct (Z.leb_spec end_ (range_stop r)).
    + destruct Hr as (? & _ & ?). rewrite !checked_sub_in by lia. cbn.
      rewrite !usize_try_from_in by lia. cbn. intros [= <-].
      exists r. split_and!; [left|done..].
    + intros (x & ? & ?)%IH. exists x. split; [by right|done].
  - intros (x & ? & ?)%IH. exists x. split; [by right|done].
Qed.

Lemma read_ranges_covered rs r offset end_ :
  Forall range_wf rs -> r ∈ rs -> cr_offset r <= offset -> offset <= end_ -> end_ <= range_stop r ->
  is_Some (read_ranges rs offset end_).
Proof.
  intros Hwf Hr H1 H2 H3. induction Hwf as [|x rs Hx Hwf IH]; cbn; [by apply elem_of_nil in Hr|].
  rewrite CachedRange_end_wf by done. cbn.
  destruct ((cr_offset x <=? offset) && (end_ <=? range_stop x)) eqn:Hc.
  - destruct Hx as (? & _ & ?). apply andb_prop in Hc as [? ?].
    rewrite !checked_sub_in by lia. cbn. rewrite !usize_try_from_in by lia. cbn. eauto.
  - apply elem_of_cons in Hr as [->|Hr]; [|by apply IH]. lia.
Qed.

(** In a well-formed chunk, a stretch of stored offsets lies in one range. *)
Lemma stretch_in_one_range c offset n :
  chunk_wf c -> 0 < n -> (forall i, 0 <= i < n -> is_Some (chunk_at c (offset + i))) ->
  exists r, (r ∈ cc_ranges c) /\ cr_offset r <= offset /\ offset + n <= range_stop r.
Proof.
  intros [Hwf Hs] Hn Hall.
  destruct (Hall 0) as [b Hb]; [lia|]. apply ranges_at_Some in Hb as (r & Hr & Hb); [|done..].
  apply range_at_Some in Hb. exists r. split_and!; [done|lia|].
  destruct (Z.le_gt_cases (offset + n) (range_stop r)) as [|Hgt]; [done|].
  destruct (Hall (range_stop r - offset)) as [b' Hb']; [lia|].
  apply ranges_at_Some in Hb' as (r' & Hr' & Hb'); [|done..]. apply range_at_Some in Hb'.
  rewrite Forall_forall in Hwf. pose proof (range_stop_gt _ (Hwf _ Hr)).
  destruct (StronglySorted_pairwise _ _ r r' Hs Hr Hr') as [<-|Hrr]; [lia|].
  unfold range_before in Hrr. lia.
Qed.

Lemma range_in_chunk_at c r p b :
  chunk_wf c -> r ∈ cc_ranges c -> range_at r p = Some b -> chunk_at c p = Some b.
Proof. intros [Hwf Hs] Hr Hp. apply ranges_at_Some; eauto. Qed.

Lemma chunk_read_spec c offset n bytes :
  chunk_wf c -> 0 <= offset -> 0 < n -> offset + n <= u64_max ->
  CachedChunk_read c offset n = Some bytes <->
  len bytes = n /\ forall i, 0 <= i < n -> chunk_at c (offset + i) = zlookup bytes i.
Proof.
  intros Hc Hoff Hn Hmax. pose proof Hc as [Hwf Hs]. unfold CachedChunk_read.
  rewrite checked_add_in by done. cbn.
  assert (Hsome : forall bytes, read_ranges (cc_ranges c) offset (offset + n) = Some bytes ->
    len bytes = n /\ forall i, 0 <= i < n -> chunk_at c (offset + i) = zlookup bytes i).
  { intros bytes' (r & Hr & H1 & H2 & ->)%read_ranges_Some; [|done || lia..].
    unfold range_stop in H2. split; [rewrite len_slice; lia|].
    intros i Hi. rewrite zlookup_slice by lia.
    destruct (proj2 (range_at_is_Some r (offset + i))) as [b Hb]; [unfold range_stop; lia|].
    rewrite (range_in_chunk_at c r _ b), <- Hb by done. unfold range_at. f_equal. lia. }
  split; [apply Hsome|]. intros [Hlen Hat].
  destruct (stretch_in_one_range c offset n) as (r & Hr & H1 & H2); try done.
  { intros i Hi. rewrite Hat by done. apply zlookup_is_Some. lia. }
  destruct (read_ranges_covered (cc_ranges c) r offset (offset + n)) as [bytes' Hb]; try done; [lia|].
  rewrite Hb. f_equal. destruct (Hsome _ Hb) as [Hlen' Hat'].
  apply zlookup_ext; [lia|]. intros i Hi. rewrite <- Hat, <- Hat' by lia. done.
Qed.

(** ** Chunk arithmetic *)

Lemma chunk_base_le p cs : 0 < cs -> 0 <= p -> 0 <= chunk_base p cs <= p.
Proof. intros. unfold chunk_base. pose proof (Z.mul_div_le p cs). pose proof (Z.div_pos p cs). nia. Qed.

Lemma chunk_base_gt p cs : 0 < cs -> p < chunk_base p cs + cs.
Proof.
  intros. unfold chunk_base. pose proof (Z.div_mod p cs). pose proof (Z.mod_pos_bound p cs). lia.
Qed.

(** All offsets of a chunk have the same base. *)
Lemma chunk_base_same p q cs :
  0 < cs -> chunk_base p cs <= q < chunk_base p cs + cs -> chunk_base q cs = chunk_base p cs.
Proof.
  intros Hcs Hq. unfold chunk_base in *. f_equal. symmetry.
  apply Z.div_unique with (q - p / cs * cs); lia.
Qed.

Lemma chunk_end_of_bounds p cs :
  0 < cs -> 0 <= p < u64_max ->
  p < chunk_end_of (chunk_base p cs) cs <= u64_max /\
  chunk_end_of (chunk_base p cs) cs <= chunk_base p cs + cs.
Proof.
  intros. unfold chunk_end_of, checked_add. pose proof (chunk_base_gt p cs).
  case_bool; cbn; lia.
Qed.

(** ** Files *)

Lemma file_wf_chunk f base c : file_wf f -> cf_chunks f !! base = Some c -> chunk_wf c.
Proof. intros Hf. apply Hf. Qed.

Lemma chunk_default_wf : chunk_wf CachedChunk_default.
Proof. split; constructor. Qed.

(** One unit of fuel per byte left, and one for the exit test, is enough: more
    fuel does not change the result. *)
Lemma read_loop_fuel f cs end_ n m cursor acc :
  0 < cs -> 0 <= cursor -> end_ <= u64_max ->
  (Z.to_nat (end_ - cursor) < n)%nat -> (Z.to_nat (end_ - cursor) < m)%nat ->
  read_loop n f cs end_ cursor acc = read_loop m f cs end_ cursor acc.
Proof.
  intros Hcs. revert m cursor acc. induction n as [|n IH]; intros m cursor acc Hc He Hn Hm; [lia|].
  destruct m as [|m]; [lia|]. cbn. case_bool; [|done].
  destruct (chunk_end_of_bounds cursor cs); [lia..|].
  rewrite checked_sub_in by lia. cbn.
  destruct (cf_chunks f !! chunk_base cursor cs); cbn; [|done].
  destruct (CachedChunk_read _ _ _); cbn; [|done]. apply IH; lia.
Qed.

(** Inside the piece a loop iteration handles, the file is its chunk. *)
Lemma file_at_piece f cs cursor i c :
  0 < cs -> 0 <= cursor < u64_max -> 0 <= i < chunk_end_of (chunk_base cursor cs) cs - cursor ->
  cf_chunks f !! chunk_base cursor cs = Some c ->
  file_at f cs (cursor + i) = chunk_at c (cursor + i).
Proof.
  intros Hcs Hcur Hi Hc. unfold file_at.
  destruct (chunk_end_of_bounds cursor cs); [done..|]. pose proof (chunk_base_le cursor cs).
  rewrite (chunk_base_same cursor (cursor + i)) by lia. by rewrite Hc.
Qed.

Lemma read_loop_spec f cs end_ n cursor acc bytes :
  file_wf f -> 0 < cs -> 0 <= cursor <= end_ -> end_ <= u64_max ->
  (Z.to_nat (end_ - cursor) < n)%nat ->
  read_loop n f cs end_ cursor acc = Some bytes <->
  exists tail, bytes = acc ++ tail /\ len tail = end_ - cursor /\
    forall i, 0 <= i < end_ - cursor -> file_at f cs (cursor + i) = zlookup tail i.
Proof.
  intros Hf Hcs. revert cursor acc. induction n as [|n IH]; intros cursor acc Hcur Hend Hn; [lia|].
  cbn. destruct (Z.ltb_spec cursor end_) as [Hlt|Hge].
  2:{ split; [intros [= <-]; exists []; rewrite app_nil_r; split_and!; [done|rewrite len_nil; lia|lia]|].
      intros (tail & -> & Hlen & _). destruct tail; [by rewrite app_nil_r|].
      rewrite len_cons in Hlen. pose proof (len_nonneg tail). lia. }
  destruct (chunk_end_of_bounds cursor cs) as [He1 He2]; [lia..|].
  set (re := Z.min end_ (chunk_end_of (chunk_base cursor cs) cs)) in *.
  assert (Hre : cursor < re <= end_) by lia.
  rewrite checked_sub_in by lia. cbn. split.
  - intros (c & Hc & (piece & Hpiece & Hloop)%bind_Some)%bind_Some.
    apply chunk_read_spec in Hpiece as [Hl1 Hat1]; [|by eapply file_wf_chunk|lia..].
    apply IH in Hloop as (tail & -> & Hl2 & Hat2); [|lia..].
    exists (piece ++ tail). rewrite <- app_assoc, len_app. split_and!; [done|lia|].
    intros i Hi. rewrite zlookup_app by lia. case_bool.
    + rewrite (file_at_piece f cs cursor i c) by (done || lia). apply Hat1. lia.
    + rewrite <- Hat2 by lia. f_equal. lia.
  - intros (tail & -> & Hlen & Hat).
    assert (exists c, cf_chunks f !! chunk_base cursor cs = Some c) as [c Hc].
    { pose proof (Hat 0) as Hat0. rewrite Z.add_0_r in Hat0. unfold file_at in Hat0.
      destruct (cf_chunks f !! chunk_base cursor cs) as [c|]; [eauto|].
      destruct (proj2 (zlookup_is_Some tail 0)) as [b Hb]; [lia|]. rewrite Hb in Hat0.
      discriminate Hat0. lia. }
    rewrite Hc. cbn. set (k := Z.to_nat (re - cursor)).
    assert (Hk : len (take k tail) = re - cursor /\ len (drop k tail) = end_ - re).
    { unfold len in *. rewrite length_take, length_drop. lia. }
    assert (Hr : CachedChunk_read c cursor (re - cursor) = Some (take k tail)).
    { apply chunk_read_spec; [by eapply file_wf_chunk|lia..|]. split; [lia|].
      intros i Hi. rewrite <- (file_at_piece f cs cursor i c) by (done || lia).
      rewrite zlookup_take. case_bool; [apply Hat; lia|lia]. }
    rewrite Hr. cbn. apply IH; [lia..|]. exists (drop k tail).
    rewrite <- app_assoc, take_drop. split_and!; [done|lia|].
    intros i Hi. rewrite zlookup_drop by lia. rewrite <- Hat by lia. f_equal. lia.
Qed.

Lemma file_read_spec f offset n cs bytes :
  file_wf f -> 0 < cs -> 0 <= offset -> 0 <= n -> offset + n <= u64_max ->
  CachedFile_read f offset n cs = Some bytes <->
  len bytes = n /\ forall i, 0 <= i < n -> file_at f cs (offset + i) = zlookup bytes i.
Proof.
  intros. unfold CachedFile_read. rewrite checked_add_in, usize_try_from_in by lia. cbn [mbind option_bind].
  rewrite read_loop_spec by (done || lia). cbn.
  replace (offset + n - offset) with n by lia. naive_solver.
Qed.

(** ** Insertion *)

Lemma insert_piece_at f cs cursor t bytes :
  file_wf f -> 0 < cs -> 0 <= cursor < u64_max ->
  len bytes = t -> 0 < t <= chunk_end_of (chunk_base cursor cs) cs - cursor ->
  let base := chunk_base cursor cs in
  let c := default CachedChunk_default (cf_chunks f !! base) in
  let f' := mkCachedFile (<[base := CachedChunk_insert c cursor bytes]> (cf_chunks f)) in
  file_wf f' /\
  forall p, file_at f' cs p = or_else (zlookup bytes (p - cursor)) (file_at f cs p).
Proof.
  intros Hf Hcs Hcur Hlen Ht base c f'.
  destruct (chunk_end_of_bounds cursor cs) as [He1 He2]; [done..|]. fold base in He1, He2, Ht.
  assert (Hc : chunk_wf c).
  { unfold c. destruct (cf_chunks f !! base) eqn:Hb; [by eapply file_wf_chunk|apply chunk_default_wf]. }
  destruct (chunk_insert_spec c cursor bytes) as [Hwf Hat]; [done|lia|apply len_pos_inv; lia|lia|].
  split.
  - apply map_Forall_insert_2; [done|]. apply Hf.
  - intros p. unfold file_at, f'; cbn. destruct (decide (chunk_base p cs = base)) as [->|Hne].
    + rewrite lookup_insert_eq. cbn. rewrite Hat. f_equal. unfold c.
      by destruct (cf_chunks f !! base).
    + rewrite lookup_insert_ne by done. rewrite zlookup_out; [done|].
      intros Hp. apply Hne. apply chunk_base_same; [done|].
      pose proof (chunk_base_le cursor cs). fold base. lia.
Qed.

Lemma insert_loop_spec cs n f cursor rest :
  file_wf f -> 0 < cs -> 0 <= cursor -> cursor + len rest <= u64_max -> (length rest <= n)%nat ->
  file_wf (insert_loop n f cs cursor rest) /\
  forall p, file_at (insert_loop n f cs cursor rest) cs p =
    or_else (zlookup rest (p - cursor)) (file_at f cs p).
Proof.
  intros Hf Hcs. revert f cursor rest Hf. induction n as [|n IH]; intros f cursor rest Hf Hcur Hmax Hn.
  - destruct rest; [|cbn in Hn; lia]. split; [done|]. intros p. by rewrite zlookup_nil.
  - cbn. destruct (Z.ltb_spec 0 (len rest)) as [Hpos|Hz].
    2:{ split; [done|]. intros p. by rewrite zlookup_out by lia. }
    destruct (chunk_end_of_bounds cursor cs) as [He1 He2]; [lia..|].
    unfold saturating_sub. rewrite usize_try_from_in by lia. cbn [from_option id].
    set (t := Z.min (len rest) _).
    assert (Ht : 0 < t <= len rest /\ t <= chunk_end_of (chunk_base cursor cs) cs - cursor) by (unfold t; lia).
    clearbody t. destruct (Z.eqb_spec t 0); [lia|].
    destruct (insert_piece_at f cs cursor t (take (Z.to_nat t) rest)) as [Hwf Hat]; try done; try lia.
    { unfold len in *. rewrite length_take. lia. }
    unfold saturating_add. rewrite Z.min_r by lia.
    destruct (IH (mkCachedFile (<[chunk_base cursor cs := CachedChunk_insert
       (default CachedChunk_default (cf_chunks f !! chunk_base cursor cs)) cursor
       (take (Z.to_nat t) rest)]> (cf_chunks f))) (cursor + t) (drop (Z.to_nat t) rest)) as [H1 H2];
      [done|lia| |rewrite length_drop; lia|].
    { unfold len in *. rewrite length_drop. lia. }
    split; [done|]. intros p. rewrite H2, Hat.
    rewrite zlookup_take. destruct (decide (0 <= p - (cursor + t))).
    + rewrite zlookup_drop by lia. case_bool; [lia|]. cbn.
      replace (Z.of_nat (Z.to_nat t) + (p - (cursor + t))) with (p - cursor) by lia. done.
    + rewrite (zlookup_out (drop _ _)) by lia. cbn. case_bool; [done|lia].
Qed.

Lemma file_insert_spec f offset bytes cs :
  file_wf f -> 0 < cs -> 0 <= offset -> offset + len bytes <= u64_max ->
  file_wf (CachedFile_insert f offset bytes cs) /\
  forall p, file_at (CachedFile_insert f offset bytes cs) cs p =
    or_else (zlookup bytes (p - offset)) (file_at f cs p).
Proof. intros. by apply insert_loop_spec. Qed.

Lemma file_default_wf : file_wf CachedFile_default.
Proof. apply map_Forall_empty. Qed.

Lemma cache_default_wf : cache_wf ReadCache_default.
Proof. apply map_Forall_empty. Qed.

(** ** The cache *)

Lemma cache_file_wf c key :
  cache_wf c -> file_wf (default CachedFile_default (rc_files c !! key)).
Proof. intros Hc. destruct (rc_files c !! key) eqn:Hf; [by eapply Hc|apply file_default_wf]. Qed.

Lemma cache_insert_wf c pid path offset bytes cs :
  cache_wf c -> 0 < cs -> 0 <= offset -> offset + len bytes <= u64_max ->
  cache_wf (ReadCache_insert c pid path offset bytes cs).
Proof.
  intros Hc Hcs Hoff Hmax. apply map_Forall_insert_2; [|done].
  apply file_insert_spec; try done. by apply cache_file_wf.
Qed.

Lemma cache_insert_at c pid path offset bytes cs key p :
  cache_wf c -> 0 < cs -> 0 <= offset -> offset + len bytes <= u64_max ->
  cache_at (ReadCache_insert c pid path offset bytes cs) key cs p =
    if decide (key = mkCacheKey pid path)
    then or_else (zlookup bytes (p - offset)) (cache_at c key cs p)
    else cache_at c key cs p.
Proof.
  intros Hc Hcs Hoff Hmax. unfold cache_at, ReadCache_insert; cbn. case_decide as Hk.
  - subst. rewrite lookup_insert_eq. cbn.
    rewrite (proj2 (file_insert_spec _ offset bytes cs (cache_file_wf c _ Hc) Hcs Hoff Hmax)).
    f_equal. destruct (rc_files c !! _); cbn; [done|].
    unfold file_at. cbn. by rewrite lookup_empty.
  - by rewrite lookup_insert_ne by congruence.
Qed.

Lemma cache_read_spec c pid path offset n cs bytes :
  cache_wf c -> 0 < cs -> 0 <= offset -> 0 < n -> offset + n <= u64_max ->
  ReadCache_read c pid path offset n cs = Some bytes <->
  len bytes = n /\
  forall i, 0 <= i < n -> cache_at c (mkCacheKey pid path) cs (offset + i) = zlookup bytes i.
Proof.
  intros Hc Hcs Hoff Hn Hmax. unfold ReadCache_read, cache_at.
  destruct (rc_files c !! _) as [f|] eqn:Hf; cbn.
  - apply file_read_spec; try done; [by eapply Hc|lia].
  - split; [done|]. intros [Hlen Hat]. specialize (Hat 0 ltac:(lia)).
    destruct (proj2 (zlookup_is_Some bytes 0)) as [b Hb]; [lia|]. congruence.
Qed.

(** A read misses only when a byte of the range is not cached. *)
Lemma cache_miss c pid path offset n cs :
  cache_wf c -> 0 < cs -> 0 <= offset -> 0 < n -> offset + n <= u64_max ->
  ReadCache_read c pid path offset n cs = None ->
  exists i, 0 <= i < n /\ cache_at c (mkCacheKey pid path) cs (offset + i) = None.
Proof.
  intros Hc Hcs Hoff Hn Hmax Hr. set (at_ := fun i => cache_at c (mkCacheKey pid path) cs (offset + i)).
  destruct (decide (Exists (fun i => at_ i = None) (seqZ 0 n))) as [He|He].
  - apply Exists_exists in He as (i & Hi%elem_of_seqZ & Hat). exists i. split; [lia|done].
  - exfalso. set (bytes := (fun i => default Byte.x00 (at_ i)) <$> seqZ 0 n).
    rewrite (proj2 (cache_read_spec c pid path offset n cs bytes Hc Hcs Hoff Hn Hmax)) in Hr; [done|].
    split; [unfold bytes, len; rewrite length_fmap, length_seqZ; lia|].
    intros i Hi. change (at_ i = zlookup bytes i). unfold zlookup. rewrite decide_True by lia.
    unfold bytes. rewrite list_lookup_fmap, lookup_seqZ_lt by lia. cbn [fmap option_fmap option_map].
    rewrite Z.add_0_l, Z2Nat.id by lia.
    destruct (at_ i) eqn:Hat; [done|]. destruct He. apply Exists_exists. exists i.
    split; [apply elem_of_seqZ; lia|done].
Qed.

(** ** Soundness for a given content

    [content] is what the bytes of each file are; a cache is sound for it when
    every stored byte is the byte of the file at that offset.  Soundness does
    not depend on the chunk size, which the policy may change while the cache
    keeps its chunks. *)

Section soundness.
Context (content : CacheKey -> Z -> option byte).

Definition chunk_sound (key : CacheKey) (c : CachedChunk) : Prop :=
  forall p b, chunk_at c p = Some b -> content key p = Some b.

Definition file_sound (key : CacheKey) (f : CachedFile) : Prop :=
  map_Forall (fun _ => chunk_sound key) (cf_chunks f).

Definition cache_sound (c : ReadCache) : Prop :=
  map_Forall file_sound (rc_files c).

Definition bytes_sound (key : CacheKey) (offset : Z) (bytes : list byte) : Prop :=
  forall i b, zlookup bytes i = Some b -> content key (offset + i) = Some b.

Lemma bytes_sound_take key offset bytes n :
  bytes_sound key offset bytes -> bytes_sound key offset (take n bytes).
Proof. intros H i b. rewrite zlookup_take. case_bool; [apply H|done]. Qed.

Lemma bytes_sound_drop key offset bytes n :
  bytes_sound key offset bytes -> bytes_sound key (offset + Z.of_nat n) (drop n bytes).
Proof.
  intros H i b Hi. pose proof (zlookup_Some _ _ _ Hi). rewrite zlookup_drop in Hi by lia.
  apply H in Hi. rewrite <- Hi. f_equal. lia.
Qed.

Lemma insert_loop_sound key cs n f cursor rest :
  file_wf f -> file_sound key f -> 0 < cs -> 0 <= cursor -> cursor + len rest <= u64_max ->
  bytes_sound key cursor rest -> file_sound key (insert_loop n f cs cursor rest).
Proof.
  intros Hf Hs Hcs. revert f cursor rest Hf Hs.
  induction n as [|n IH]; intros f cursor rest Hf Hs Hcur Hmax Hb; cbn; [done|].
  destruct (Z.ltb_spec 0 (len rest)) as [Hpos|Hz]; [|done].
  destruct (chunk_end_of_bounds cursor cs) as [He1 He2]; [lia..|].
  unfold saturating_sub. rewrite usize_try_from_in by lia. cbn [from_option id].
  set (t := Z.min (len rest) _).
  assert (Ht : 0 < t <= len rest /\ t <= chunk_end_of (chunk_base cursor cs) cs - cursor) by (unfold t; lia).
  clearbody t. destruct (Z.eqb_spec t 0); [done|].
  assert (Hl : len (take (Z.to_nat t) rest) = t) by (unfold len in *; rewrite length_take; lia).
  destruct (insert_piece_at f cs cursor t (take (Z.to_nat t) rest)) as [Hwf _]; try done; try lia.
  unfold saturating_add. rewrite Z.min_r by lia. apply IH; try done.
  - apply map_Forall_insert_2; [|done]. set (c := default CachedChunk_default _).
    assert (Hc : chunk_wf c /\ chunk_sound key c).
    { unfold c. destruct (cf_chunks f !! _) eqn:Hc; cbn; [|by split; [apply chunk_default_wf|]].
      split; [by eapply Hf|by eapply Hs]. }
    destruct Hc as [Hcw Hcs']. destruct (chunk_insert_spec c cursor (take (Z.to_nat t) rest)) as [_ Hat];
      [done|lia|apply len_pos_inv; lia|lia|].
    intros p b. rewrite Hat. destruct (zlookup _ (p - cursor)) eqn:Hz; cbn; [|apply Hcs'].
    intros [= ->]. apply (bytes_sound_take key cursor) in Hz; [|done]. rewrite <- Hz. f_equal. lia.
  - lia.
  - unfold len in *. rewrite length_drop. lia.
  - apply (bytes_sound_drop _ _ _ (Z.to_nat t)) in Hb. by rewrite Z2Nat.id in Hb by lia.
Qed.

Lemma cache_insert_sound c pid path offset bytes cs :
  cache_wf c -> cache_sound c -> 0 < cs -> 0 <= offset -> offset + len bytes <= u64_max ->
  bytes_sound (mkCacheKey pid path) offset bytes ->
  cache_sound (ReadCache_insert c pid path offset bytes cs).
Proof.
  intros Hw Hs Hcs Hoff Hmax Hb. apply map_Forall_insert_2; [|done].
  apply insert_loop_sound; try done; [by apply cache_file_wf|].
  destruct (rc_files c !! _) eqn:Hf; [by eapply Hs|]. apply map_Forall_empty.
Qed.

Lemma cache_read_sound c pid path offset n cs bytes :
  cache_wf c -> cache_sound c -> 0 < cs -> 0 <= offset -> 0 < n -> offset + n <= u64_max ->
  ReadCache_read c pid path offset n cs = Some bytes ->
  len bytes = n /\ bytes_sound (mkCacheKey pid path) offset bytes.
Proof.
  intros Hw Hs Hcs Hoff Hn Hmax [Hlen Hat]%cache_read_spec; try done. split; [done|].
  intros i b Hi. pose proof (zlookup_Some _ _ _ Hi). rewrite <- Hat in Hi by lia.
  unfold cache_at, file_at in Hi. apply bind_Some in Hi as (f & Hf & (ch & Hch & Hp)%bind_Some).
  by eapply (Hs _ _ Hf _ _ Hch).
Qed.
End soundness.

(** ** Properties *)

(** One [ReadCache::insert] call: key, offset, bytes, and the chunk size the
    policy had at that time. *)
Record InsertCall : Type := mkInsertCall {
  ic_key : CacheKey;
  ic_offset : Z;
  ic_bytes : list byte;
  ic_chunk_size : Z;
}.

Definition insert_call (c : ReadCache) (i : InsertCall) : ReadCache :=
  ReadCache_insert c (ck_promise_id (ic_key i)) (ck_relative_path (ic_key i))
    (ic_offset i) (ic_bytes i) (ic_chunk_size i).

Definition insert_call_ok (content : CacheKey -> Z -> option byte) (i : InsertCall) : Prop :=
  0 < ic_chunk_size i /\ 0 <= ic_offset i /\ ic_offset i + len (ic_bytes i) <= u64_max /\
  bytes_sound content (ic_key i) (ic_offset i) (ic_bytes i).

(** Inserting into a chunk keeps its ranges non-empty, sorted, disjoint
    and non-adjacent, and overlays the new bytes on what the chunk held. *)
Theorem CachedChunk_insert_invariant c offset bytes :
  chunk_wf c -> 0 <= offset -> offset + len bytes <= u64_max ->
  chunk_wf (CachedChunk_insert c offset bytes) /\
  forall p, chunk_at (CachedChunk_insert c offset bytes) p =
    or_else (zlookup bytes (p - offset)) (chunk_at c p).
Proof.
  intros Hc Hoff Hmax. destruct (decide (bytes = [])) as [->|Hne].
  - split; [done|]. intros p. by rewrite zlookup_nil.
  - by apply chunk_insert_spec.
Qed.

Lemma CachedChunk_insert_invariant_witness :
  let c := mkCachedChunk [mkCachedRange 2 (bs "cd"); mkCachedRange 8 (bs "ij")] in
  chunk_at (CachedChunk_insert c 3 (bs "DEFGH")) 5 = Some Byte.x46 /\
  length (cc_ranges (CachedChunk_insert c 3 (bs "DEFGH"))) = 1%nat.
Proof.
  intros c. assert (Hc : chunk_wf c).
  { split; [|apply (bool_decide_unpack _); vm_compute; exact I].
    repeat constructor; vm_compute; congruence. }
  destruct (CachedChunk_insert_invariant c 3 (bs "DEFGH") Hc) as [_ H];
    [lia|vm_compute; congruence|].
  split; [rewrite H; vm_compute; reflexivity | vm_compute; reflexivity].
Defined.

(** C9: the chunked cache of one file refines a partial map from offsets to
    bytes: [insert] overlays the given bytes on the map, and [read] returns a
    range exactly when the map is defined on all of it, with the map's bytes;
    in particular [read] never misses a range that was inserted. *)
Theorem CachedFile_refines_partial_map f offset bytes cs :
  file_wf f -> 0 < cs -> 0 <= offset -> offset + len bytes <= u64_max ->
  let f' := CachedFile_insert f offset bytes cs in
  file_wf f' /\
  (forall o n out, 0 <= o -> 0 <= n -> o + n <= u64_max ->
     CachedFile_read f' o n cs = Some out <->
     len out = n /\ forall i, 0 <= i < n ->
       or_else (zlookup bytes (o + i - offset)) (file_at f cs (o + i)) = zlookup out i) /\
  CachedFile_read f' offset (len bytes) cs = Some bytes.
Proof.
  intros Hf Hcs Hoff Hmax f'. destruct (file_insert_spec f offset bytes cs) as [Hwf Hat]; try done.
  assert (Hread : forall o n out, 0 <= o -> 0 <= n -> o + n <= u64_max ->
     CachedFile_read f' o n cs = Some out <->
     len out = n /\ forall i, 0 <= i < n ->
       or_else (zlookup bytes (o + i - offset)) (file_at f cs (o + i)) = zlookup out i).
  { intros o n out Ho Hn Hon. unfold f'. rewrite file_read_spec by done. by setoid_rewrite Hat. }
  split_and!; [done|exact Hread|]. apply Hread; [done|apply len_nonneg|done|]. split; [done|].
  intros i Hi. replace (offset + i - offset) with i by lia.
  by destruct (proj2 (zlookup_is_Some bytes i) Hi) as [b ->].
Qed.

Lemma CachedFile_refines_partial_map_witness :
  CachedFile_read (CachedFile_insert CachedFile_default 2 (bs "cdefgh") 4) 2 6 4 = Some (bs "cdefgh") /\
  CachedFile_read (CachedFile_insert CachedFile_default 2 (bs "cdefgh") 4) 1 4 4 = None.
Proof.
  destruct (CachedFile_refines_partial_map CachedFile_default 2 (bs "cdefgh") 4) as (_ & _ & H);
    [apply file_default_wf|lia|lia|vm_compute; congruence|].
  split; [exact H | vm_compute; reflexivity].
Defined.

(** Whatever sequence of insertions built the cache, under whatever chunk
    sizes, as long as every insertion recorded bytes of the file at their
    offset, every successful read under any chunk size returns exactly the
    requested number of bytes of the file at the requested offset. *)
Theorem ReadCache_history_sound content calls key offset n cs bytes :
  Forall (insert_call_ok content) calls ->
  0 < cs -> 0 <= offset -> 0 < n -> offset + n <= u64_max ->
  ReadCache_read (foldl insert_call ReadCache_default calls)
    (ck_promise_id key) (ck_relative_path key) offset n cs = Some bytes ->
  len bytes = n /\ forall i, 0 <= i < n -> content key (offset + i) = zlookup bytes i.
Proof.
  intros Hcalls Hcs Hoff Hn Hmax Hread.
  assert (Hinv : cache_wf (foldl insert_call ReadCache_default calls) /\
                 cache_sound content (foldl insert_call ReadCache_default calls)).
  { clear Hread. assert (H0 : cache_wf ReadCache_default /\ cache_sound content ReadCache_default).
    { split; [apply cache_default_wf|apply map_Forall_empty]. }
    revert H0. generalize ReadCache_default. induction Hcalls as [|i l Hi Hl IH]; intros c [Hw Hs]; cbn; [done|].
    destruct Hi as (? & ? & ? & Hb). apply IH. split; [by apply cache_insert_wf|].
    apply cache_insert_sound; try done. by destruct (ic_key i). }
  destruct Hinv as [Hw Hs]. destruct (cache_read_sound content _ _ _ _ _ _ _ Hw Hs Hcs Hoff Hn Hmax Hread)
    as [Hlen Hb].
  split; [done|]. intros i Hi. destruct (proj2 (zlookup_is_Some bytes i)) as [b Hbi]; [lia|].
  rewrite Hbi. specialize (Hb i b Hbi). by destruct key.
Qed.

Lemma ReadCache_history_sound_witness :
  let key := mkCacheKey (bs "promise-1") (bs "a") in
  let content := fun (k : CacheKey) p => zlookup (bs "abcdefgh") p in
  content key 3 = zlookup (bs "cdef") 1.
Proof.
  intros key content.
  assert (Hok : Forall (insert_call_ok content)
            [mkInsertCall key 0 (bs "abcd") 4; mkInsertCall key 2 (bs "cdefgh") 8]).
  { repeat constructor; try (cbn; unfold len; cbn; lia); try (vm_compute; congruence).
    - intros i b Hi. pose proof (zlookup_Some _ _ _ Hi) as Hr. unfold len in Hr; cbn in Hr.
      assert (i = 0 \/ i = 1 \/ i = 2 \/ i = 3) as [->|[->|[->| ->]]] by lia; exact Hi.
    - intros i b Hi. pose proof (zlookup_Some _ _ _ Hi) as Hr. unfold len in Hr; cbn in Hr.
      assert (i = 0 \/ i = 1 \/ i = 2 \/ i = 3 \/ i = 4 \/ i = 5) as [->|[->|[->|[->|[->| ->]]]]] by lia;
        exact Hi. }
  destruct (ReadCache_history_sound content _ key 2 4 8 (bs "cdef") Hok) as [_ H]; try lia;
    [vm_compute; congruence|vm_compute; reflexivity|]. apply (H 1). lia.
Defined.
