(* ===== verification/Tree.v ===== *)
(** * Promise trees and their builder

    [PromiseTree] and [PromiseBuilder] of [crates/fuse-promise-runtime/src/lib.rs].

    [tree_wf] is the well-formedness of the node and child indexes.  The
    recursion of [collect_subtree_nodes] takes fuel; a child's path is longer
    than its parent's, so the length of the longest path bounds the depth
    ([collect_subtree_total]).  [None] stands for exhausted fuel and is shown
    not to occur. *)

From S2P Require Import Prelude Types Paths.

(** ** [PromiseTree] *)

Definition PromiseTree_get (self : PromiseTree) (relative_path : str) : option PromiseNode :=
  ok (normalize_relative_path relative_path) ≫= fun path => pt_nodes self !! path.

(** [for x in l { acc = f(x, acc)?; }], with a fuel check per call. *)
Fixpoint try_fold {A B} (f : A -> B -> option (Result B)) (l : list A) (acc : B) :
    option (Result B) :=
  match l with
  | [] => Some (Ok acc)
  | x :: l =>
      match f x acc with
      | Some (Ok acc) => try_fold f l acc
      | other => other
      end
  end.

Fixpoint collect_subtree_nodes (fuel : nat) (self : PromiseTree) (relative_path : str)
    (nodes : list PromiseNode) : option (Result (list PromiseNode)) :=
  match fuel with
  | O => None
  | S fuel =>
      match pt_nodes self !! relative_path with
      | None => Some (Err NotFound)
      | Some node =>
          let nodes := nodes ++ [node] in
          if decide (pn_kind node = Directory) then
            match pt_children self !! relative_path with
            | None => Some (Err NotFound)
            | Some children =>
                try_fold (collect_subtree_nodes fuel self) (btree_set_items children) nodes
            end
          else Some (Ok nodes)
      end
  end.

Definition longest_path (self : PromiseTree) : nat :=
  max_list (length <$> (btree_items (pt_nodes self)).*1).

Definition PromiseTree_subtree_nodes (self : PromiseTree) (relative_path : str) :
    option (Result (list PromiseNode)) :=
  match normalize_relative_path relative_path with
  | Err e => Some (Err e)
  | Ok root_path =>
      match pt_nodes self !! root_path with
      | None => Some (Err NotFound)
      | Some _ => collect_subtree_nodes (S (longest_path self)) self root_path []
      end
  end.

(** ** [PromiseBuilder] *)

Record PromiseBuilder : Type := mkPromiseBuilder {
  pb_provider_id : ProviderId;
  pb_next_node_id : Z;
  pb_next_inode : Z;
  pb_nodes : gmap str PromiseNode;
  pb_children : gmap str (gset str);
}.

Definition root_node : PromiseNode :=
  mkPromiseNode 1 1 [] None [] [] None Directory (mkNodeAttr 493 0 0).

Definition PromiseBuilder_new (provider_id : ProviderId) : PromiseBuilder :=
  mkPromiseBuilder provider_id 2 2 {[ [] := root_node ]} {[ [] := ∅ ]}.

Definition validate_attr (kind : NodeKind) (attr : NodeAttr) : Result () :=
  if negb (Z.land (attr_mode attr) (u32_not 4095) =? 0) then Err InvalidArgument
  else if attr_mtime_nsec attr <? 0 then Err InvalidArgument
  else if decide (kind = Directory) then
    if negb (attr_size attr =? 0) then Err InvalidArgument else Ok tt
  else Ok tt.

Definition new_node (self : PromiseBuilder) (path parent provider_node_id : str)
    (attr : NodeAttr) (kind : NodeKind) : PromiseNode :=
  mkPromiseNode (pb_next_node_id self) (pb_next_inode self) path (Some parent)
    (leaf_name path) provider_node_id None kind attr.

(** The mutation at the end of [add_node], once every check has passed. *)
Definition insert_node (self : PromiseBuilder) (path parent provider_node_id : str)
    (attr : NodeAttr) (kind : NodeKind) : PromiseBuilder :=
  let node := new_node self path parent provider_node_id attr kind in
  let children := pb_children self in
  let children := <[parent := {[path]} ∪ default ∅ (children !! parent)]> children in
  let children :=
    if decide (kind = Directory)
    then <[path := default ∅ (children !! path)]> children else children in
  mkPromiseBuilder (pb_provider_id self)
    (wrapping_add (pb_next_node_id self) 1) (wrapping_add (pb_next_inode self) 1)
    (<[path := node]> (pb_nodes self)) children.

Definition PromiseBuilder_add_node (self : PromiseBuilder) (relative_path : str)
    (attr : NodeAttr) (provider_node_id : str) (kind : NodeKind) : PromiseBuilder * Result () :=
  if decide (provider_node_id = []) then (self, Err InvalidArgument)
  else match validate_attr kind attr with
  | Err e => (self, Err e)
  | Ok _ =>
  match normalize_relative_path relative_path with
  | Err e => (self, Err e)
  | Ok path =>
  if decide (path = []) then (self, Err InvalidArgument)
  else match pb_nodes self !! path with
  | Some _ => (self, Err AlreadyExists)
  | None =>
  let parent := parent_path path in
  match pb_nodes self !! parent with
  | None => (self, Err NotFound)
  | Some parent_node =>
      if decide (pn_kind parent_node = Directory)
      then (insert_node self path parent provider_node_id attr kind, Ok tt)
      else (self, Err InvalidArgument)
  end end end end.

Definition PromiseBuilder_add_dir (self : PromiseBuilder) (relative_path : str)
    (attr : NodeAttr) (provider_node_id : str) : PromiseBuilder * Result () :=
  PromiseBuilder_add_node self relative_path attr provider_node_id Directory.

Definition PromiseBuilder_add_file (self : PromiseBuilder) (relative_path : str)
    (attr : NodeAttr) (provider_node_id : str) : PromiseBuilder * Result () :=
  PromiseBuilder_add_node self relative_path attr provider_node_id File.

Definition PromiseBuilder_finish (self : PromiseBuilder) (promise_id : str) : PromiseTree :=
  mkPromiseTree promise_id (pb_provider_id self) Available (pb_nodes self) (pb_children self).

(** [PromiseBuilder::nodes]. *)
Definition PromiseBuilder_nodes (self : PromiseBuilder) : list PromiseNode :=
  btree_values (pb_nodes self).

(** ** Well-formed indexes *)

Record tree_wf (nodes : gmap str PromiseNode) (children : gmap str (gset str)) : Prop := {
  twf_root : exists n, nodes !! [] = Some n /\ pn_kind n = Directory /\ pn_parent_path n = None;
  twf_path : forall p n, nodes !! p = Some n -> pn_relative_path n = p /\ safe_path p;
  twf_node : forall p n, nodes !! p = Some n -> p <> [] ->
    pn_parent_path n = Some (parent_path p) /\ pn_name n = leaf_name p /\
    pn_provider_node_id n <> [] /\ validate_attr (pn_kind n) (pn_attr n) = Ok tt;
  twf_parent : forall p n, nodes !! p = Some n -> p <> [] ->
    exists pn, nodes !! parent_path p = Some pn /\ pn_kind pn = Directory;
  twf_dir : forall p n, nodes !! p = Some n -> pn_kind n = Directory -> is_Some (children !! p);
  twf_children : forall p cs, children !! p = Some cs ->
    (exists n, nodes !! p = Some n /\ pn_kind n = Directory) /\
    forall q, q ∈ cs <-> q <> [] /\ parent_path q = p /\ is_Some (nodes !! q);
}.

Definition builder_wf (b : PromiseBuilder) : Prop := tree_wf (pb_nodes b) (pb_children b).

(** [under r p]: [p] is [r] or lies below it. *)
Inductive under (r : str) : str -> Prop :=
| under_refl : under r r
| under_child p : p <> [] -> under r (parent_path p) -> under r p.

(** ** The builder keeps its indexes well formed *)

Lemma builder_new_wf provider_id : builder_wf (PromiseBuilder_new provider_id).
Proof.
  split; cbn.
  - exists root_node. by rewrite lookup_singleton_eq.
  - intros p n [<- <-]%lookup_singleton_Some. split; [done|apply safe_path_nil].
  - intros p n [<- <-]%lookup_singleton_Some. done.
  - intros p n [<- <-]%lookup_singleton_Some. done.
  - intros p n [<- <-]%lookup_singleton_Some _. by rewrite lookup_singleton_eq.
  - intros p cs [<- <-]%lookup_singleton_Some. split.
    + exists root_node. by rewrite lookup_singleton_eq.
    + intros q. split; [set_solver|]. intros (Hq & _ & [n [<- _]%lookup_singleton_Some]). done.
Qed.

(** Every outcome of [add_node]: the five rejections in the order of the
    code, and the insertion. *)
Lemma add_node_cases b rel attr pid kind :
  let '(b', r) := PromiseBuilder_add_node b rel attr pid kind in
  (exists e, r = Err e /\ b' = b) \/
  (exists path pn, r = Ok tt /\ normalize_relative_path rel = Ok path /\ path <> [] /\
     pid <> [] /\ validate_attr kind attr = Ok tt /\ pb_nodes b !! path = None /\
     pb_nodes b !! parent_path path = Some pn /\ pn_kind pn = Directory /\
     b' = insert_node b path (parent_path path) pid attr kind).
Proof.
  unfold PromiseBuilder_add_node. case_decide; [eauto|].
  destruct (validate_attr kind attr) as [[]|] eqn:Hattr; [|eauto].
  destruct (normalize_relative_path rel) as [path|]; [|eauto].
  case_decide; [eauto|]. destruct (pb_nodes b !! path) eqn:Hn; [eauto|].
  destruct (pb_nodes b !! parent_path path) as [pn|] eqn:Hp; [|eauto].
  case_decide; [|eauto]. right. exists path, pn. split_and!; done.
Qed.

Lemma insert_node_nodes b path parent pid attr kind :
  pb_nodes (insert_node b path parent pid attr kind) =
    <[path := new_node b path parent pid attr kind]> (pb_nodes b).
Proof. done. Qed.

Lemma insert_node_children b path pid attr kind p :
  path <> parent_path path ->
  pb_children (insert_node b path (parent_path path) pid attr kind) !! p =
    if decide (p = parent_path path) then Some ({[path]} ∪ default ∅ (pb_children b !! p))
    else if decide (p = path /\ kind = Directory) then Some (default ∅ (pb_children b !! p))
    else pb_children b !! p.
Proof.
  intros Hne. cbn. case_decide as Hk.
  - destruct (decide (p = path)) as [->|Hp].
    + rewrite lookup_insert_eq, lookup_insert_ne by done.
      rewrite decide_False, decide_True by auto. done.
    + rewrite lookup_insert_ne by done. rewrite lookup_insert.
      repeat case_decide; subst; try done; naive_solver.
  - rewrite lookup_insert. repeat case_decide; subst; try done; naive_solver.
Qed.

Lemma parent_path_neq p : p <> [] -> p <> parent_path p.
Proof. intros H%parent_path_shorter Heq. rewrite <- Heq in H. lia. Qed.

Lemma builder_children_None b path :
  builder_wf b -> pb_nodes b !! path = None -> pb_children b !! path = None.
Proof.
  intros Hwf Hn. destruct (pb_children b !! path) as [cs|] eqn:Hc; [|done].
  apply (twf_children _ _ Hwf) in Hc as [(n & Hn' & _) _]. congruence.
Qed.

Lemma insert_node_wf b path pn pid attr kind :
  builder_wf b -> safe_path path -> path <> [] -> pid <> [] -> validate_attr kind attr = Ok tt ->
  pb_nodes b !! path = None -> pb_nodes b !! parent_path path = Some pn -> pn_kind pn = Directory ->
  builder_wf (insert_node b path (parent_path path) pid attr kind).
Proof.
  intros Hwf Hsafe Hne Hpid Hattr Hfresh Hparent Hdir.
  pose proof (parent_path_neq path Hne) as Hpp.
  pose proof (builder_children_None b path Hwf Hfresh) as Hcfresh.
  unfold builder_wf. rewrite insert_node_nodes. set (node := new_node _ _ _ _ _ _).
  split; [|intros p n; rewrite lookup_insert; case_decide; [subst p|]..|].
  - destruct (twf_root _ _ Hwf) as (n & Hn & ?). exists n.
    rewrite lookup_insert_ne; [auto|]. congruence.
  - intros [= <-]. done.
  - by apply (twf_path _ _ Hwf).
  - intros [= <-] _. done.
  - by apply (twf_node _ _ Hwf).
  - intros [= <-] _. exists pn. by rewrite lookup_insert_ne.
  - intros Hn Hp. destruct (twf_parent _ _ Hwf p n Hn Hp) as (m & Hm & ?). exists m.
    rewrite lookup_insert_ne; [auto|]. intros ->. congruence.
  - intros [= <-] Hk. rewrite insert_node_children by done. cbn in Hk.
    rewrite decide_False, decide_True by auto. eauto.
  - intros Hn Hk. rewrite insert_node_children by done. repeat case_decide; eauto.
    by eapply (twf_dir _ _ Hwf).
  - intros p cs. rewrite insert_node_children by done.
    assert (Hin : forall q, is_Some (<[path := node]> (pb_nodes b) !! q)
              <-> q = path \/ is_Some (pb_nodes b !! q)).
    { intros q. rewrite lookup_insert_is_Some. destruct (decide (path = q)); naive_solver. }
    case_decide as Hp; [|case_decide as Hk].
    + intros [= <-]. subst p. destruct (twf_dir _ _ Hwf _ _ Hparent Hdir) as [cs Hcs].
      rewrite Hcs. destruct (twf_children _ _ Hwf _ _ Hcs) as [_ Hel]. split.
      * exists pn. by rewrite lookup_insert_ne.
      * intros q. cbn. rewrite elem_of_union, elem_of_singleton, Hel, Hin. naive_solver.
    + intros [= <-]. destruct Hk as [-> ->]. rewrite Hcfresh. cbn. split.
      * eexists. by rewrite lookup_insert_eq.
      * intros q. rewrite Hin. split; [set_solver|]. intros (Hq & Hqp & [->|[m Hm]]); [congruence|].
        destruct (twf_parent _ _ Hwf q m Hm Hq) as (m' & Hm' & _). congruence.
    + intros Hcs. destruct (twf_children _ _ Hwf _ _ Hcs) as [(n & Hn & Hnk) Hel]. split.
      * exists n. rewrite lookup_insert_ne; [auto|]. congruence.
      * intros q. rewrite Hel, Hin. naive_solver.
Qed.

Lemma add_node_wf b rel attr pid kind :
  builder_wf b -> builder_wf (PromiseBuilder_add_node b rel attr pid kind).1.
Proof.
  intros Hwf. pose proof (add_node_cases b rel attr pid kind) as H.
  destruct (PromiseBuilder_add_node b rel attr pid kind) as [b' r].
  destruct H as [(e & _ & ->)|(path & pn & _ & Hnorm & ? & ? & ? & ? & ? & ? & ->)]; [done|].
  eapply insert_node_wf; eauto. by eapply normalize_safe.
Qed.

(** ** Subtrees *)

Lemma under_length r p : under r p -> (length r <= length p)%nat.
Proof. induction 1 as [|p Hp H IH]; [done|]. apply parent_path_shorter in Hp. lia. Qed.

Lemma under_trans a b c : under a b -> under b c -> under a c.
Proof. intros Hab. induction 1; [done|]. by apply under_child. Qed.

(** The ancestors of a path form a chain. *)
Lemma under_chain a b p : under a p -> under b p -> under a b \/ under b a.
Proof.
  intros Ha. revert b. induction Ha as [|p Hp Ha IH]; intros b Hb; [auto|].
  inversion Hb; subst; [left; by apply under_child|]. by apply IH.
Qed.

Lemma siblings_disjoint a b p :
  a <> [] -> b <> [] -> a <> b -> parent_path a = parent_path b -> under a p -> ~ under b p.
Proof.
  intros Ha Hb Hne Hpar Hap Hbp.
  assert (Hno : forall x y, x <> [] -> x <> y -> parent_path x = parent_path y -> ~ under x y).
  { intros x y Hx%parent_path_shorter Hxy Heq. inversion 1 as [|? ? Hu]; subst; [done|].
    apply under_length in Hu. rewrite <- Heq in Hu. lia. }
  destruct (under_chain a b p Hap Hbp); [by apply (Hno a b)|by apply (Hno b a)].
Qed.

(** A position in a concatenation is a position in one of its lists. *)
Lemma concat_split {A} (ls : list (list A)) l1 x l2 :
  concat ls = l1 ++ x :: l2 ->
  exists i la lb pre, ls !! i = Some (la ++ x :: lb) /\ l1 = pre ++ la.
Proof.
  revert l1. induction ls as [|l ls IH]; intros l1 H; cbn in H; [by destruct l1|].
  apply app_eq_app in H as (k & [[-> H]|[-> H]]).
  - destruct k as [|y k]; cbn in H.
    + destruct (IH [] (eq_sym H)) as (i & la & lb & pre & Hi & Hpre).
      exists (S i), la, lb, (l1 ++ pre). rewrite app_nil_r. split; [done|].
      rewrite <- app_assoc, <- Hpre. by rewrite app_nil_r.
    + injection H as -> ->. exists 0%nat, l1, k, []. done.
  - destruct (IH k H) as (i & la & lb & pre & Hi & ->).
    exists (S i), la, lb, (l ++ pre). by rewrite app_assoc.
Qed.

Lemma try_fold_app {A B} (f : A -> list B -> option (Result (list B))) (P : A -> list B -> Prop) cs acc :
  (forall c acc, c ∈ cs -> exists l, f c acc = Some (Ok (acc ++ l)) /\ P c l) ->
  exists ls, try_fold f cs acc = Some (Ok (acc ++ concat ls)) /\ Forall2 P cs ls.
Proof.
  revert acc. induction cs as [|c cs IH]; intros acc Hf; cbn.
  - exists []. rewrite app_nil_r. by split; [|constructor].
  - destruct (Hf c acc) as (l & -> & Hl); [left|].
    destruct (IH (acc ++ l)) as (ls & -> & Hls).
    { intros c' acc' Hc'. apply Hf. by right. }
    exists (l :: ls). cbn. rewrite app_assoc. by split; [|constructor].
Qed.

Section subtree.
Context (t : PromiseTree) (Hwf : tree_wf (pt_nodes t) (pt_children t)).

(** What the nodes listed for the subtree at [r] are: exactly the nodes at or
    below [r], each once, [r] first and every other node after its parent. *)
Record subtree_list (r : str) (l : list PromiseNode) : Prop := {
  sl_head : exists n l', l = n :: l' /\ pt_nodes t !! r = Some n;
  sl_elem : forall n, n ∈ l <-> pt_nodes t !! pn_relative_path n = Some n /\ under r (pn_relative_path n);
  sl_nodup : NoDup (pn_relative_path <$> l);
  sl_order : forall l1 n l2, l = l1 ++ n :: l2 ->
    pn_relative_path n = r \/ parent_path (pn_relative_path n) ∈ pn_relative_path <$> l1;
}.

Lemma longest_path_bound p n : pt_nodes t !! p = Some n -> (length p <= longest_path t)%nat.
Proof.
  intros Hp. unfold longest_path.
  apply max_list_elem_of_le. apply list_elem_of_fmap. exists p. split; [done|].
  apply list_elem_of_fmap. exists (p, n). split; [done|]. by apply elem_of_btree_items.
Qed.

Lemma node_under_child r n p :
  pt_nodes t !! p = Some n -> under r p -> p <> r ->
  exists q, q <> [] /\ parent_path q = r /\ is_Some (pt_nodes t !! q) /\ under q p.
Proof.
  intros Hn Hu. revert n Hn. induction Hu as [|p Hp Hu IH]; intros n Hn Hne; [done|].
  destruct (twf_parent _ _ Hwf p n Hn Hp) as (m & Hm & _).
  destruct (decide (parent_path p = r)) as [<-|Hr].
  - exists p. split_and!; eauto using under_refl.
  - destruct (IH m Hm Hr) as (q & ? & ? & ? & ?). exists q. split_and!; auto using under_child.
Qed.

Lemma subtree_list_file r n :
  pt_nodes t !! r = Some n -> pn_kind n = File -> subtree_list r [n].
Proof.
  intros Hn Hk. destruct (twf_path _ _ Hwf r n Hn) as [Hr _]. split.
  - by exists n, [].
  - intros m. rewrite list_elem_of_singleton. split.
    + intros ->. rewrite Hr. split; [done|apply under_refl].
    + intros [Hm Hu]. destruct (decide (pn_relative_path m = r)) as [Heq|Hne]; [congruence|].
      destruct (node_under_child r m _ Hm Hu Hne) as (q & Hq & <- & [x Hx] & _).
      destruct (twf_parent _ _ Hwf q x Hx Hq) as (y & Hy & ?). congruence.
  - apply NoDup_singleton.
  - intros [|a l1] m l2 Heq; [injection Heq as <- _; by left|].
    injection Heq as _ Heq. by destruct l1.
Qed.

Lemma children_concat_nodup cs ls :
  Forall2 subtree_list cs ls -> NoDup cs -> (forall c, c ∈ cs -> c <> []) ->
  (forall c c', c ∈ cs -> c' ∈ cs -> parent_path c = parent_path c') ->
  NoDup (pn_relative_path <$> concat ls).
Proof.
  induction 1 as [|c l cs ls Hl Hls IH]; intros Hnd Hne Hpar; [constructor|].
  apply NoDup_cons in Hnd as [Hc Hnd]. cbn. rewrite fmap_app. apply NoDup_app. split_and!.
  - apply (sl_nodup _ _ Hl).
  - intros p (x & -> & Hx)%list_elem_of_fmap (y & Hxy & Hy)%list_elem_of_fmap.
    apply (sl_elem _ _ Hl) in Hx as [_ Hux].
    apply list_elem_of_In, in_concat in Hy as (l' & Hl'%list_elem_of_In & Hy%list_elem_of_In).
    apply list_elem_of_lookup in Hl' as [i Hi].
    destruct (Forall2_lookup_r _ _ _ _ _ Hls Hi) as (c' & Hc'%list_elem_of_lookup_2 & Hsl).
    destruct (proj1 (sl_elem _ _ Hsl y) Hy) as [_ Huy]. rewrite Hxy in Hux.
    apply (siblings_disjoint c c' (pn_relative_path y)); try done.
    + apply Hne. left.
    + apply Hne. by right.
    + by intros ->.
    + apply Hpar; [left|by right].
  - apply IH; [done|intros; apply Hne; by right|intros; apply Hpar; by right].
Qed.

Lemma subtree_list_dir r n cs ls :
  pt_nodes t !! r = Some n -> NoDup cs ->
  (forall q, q ∈ cs <-> q <> [] /\ parent_path q = r /\ is_Some (pt_nodes t !! q)) ->
  Forall2 subtree_list cs ls -> subtree_list r (n :: concat ls).
Proof.
  intros Hn Hnd Hcs Hls. destruct (twf_path _ _ Hwf r n Hn) as [Hr _].
  assert (Hin : forall x, x ∈ concat ls <-> exists c l, (c ∈ cs) /\ subtree_list c l /\ (x ∈ l)).
  { intros x. rewrite list_elem_of_In, in_concat. setoid_rewrite <- list_elem_of_In. split.
    - intros (l & [i Hi]%list_elem_of_lookup & Hx).
      destruct (Forall2_lookup_r _ _ _ _ _ Hls Hi) as (c & Hc%list_elem_of_lookup_2 & Hsl). eauto.
    - intros (c & l & [i Hi]%list_elem_of_lookup & Hsl & Hx).
      destruct (Forall2_lookup_l _ _ _ _ _ Hls Hi) as (l' & Hl'%list_elem_of_lookup_2 & Hsl').
      exists l'. split; [done|]. apply (sl_elem _ _ Hsl'). by apply (sl_elem _ _ Hsl). }
  split.
  - by exists n, (concat ls).
  - intros m. rewrite elem_of_cons, Hin. split.
    + intros [->|(c & l & (Hne & Hp & _)%Hcs & Hsl & Hm)]; [rewrite Hr; auto using under_refl|].
      apply (sl_elem _ _ Hsl) in Hm as [? Hu]. split; [done|].
      apply under_trans with c; [|done]. apply under_child; [done|]. rewrite Hp. apply under_refl.
    + intros [Hm Hu]. destruct (decide (pn_relative_path m = r)) as [Heq|Hne]; [left; congruence|].
      right. destruct (node_under_child r m _ Hm Hu Hne) as (q & Hq & Hp & Hs & Huq).
      assert (Hqc : q ∈ cs) by by apply Hcs.
      apply list_elem_of_lookup in Hqc as [i Hi].
      destruct (Forall2_lookup_l _ _ _ _ _ Hls Hi) as (l & _ & Hsl).
      exists q, l. split_and!; [by eapply list_elem_of_lookup_2|done|]. by apply (sl_elem _ _ Hsl).
  - cbn. apply NoDup_cons. split.
    + intros (x & Hx & (c & l & (Hne & Hp & _)%Hcs & Hsl & Hxl)%Hin)%list_elem_of_fmap.
      apply (sl_elem _ _ Hsl) in Hxl as [_ Hu%under_length].
      rewrite <- Hx, Hr, <- Hp in Hu. apply parent_path_shorter in Hne. lia.
    + apply (children_concat_nodup cs); try done; [by intros c (? & _ & _)%Hcs|].
      intros c c' (_ & <- & _)%Hcs (_ & <- & _)%Hcs. done.
  - intros [|a l1] m l2 Heq; injection Heq as ?; [subst; by left|]. right. subst a.
    destruct (concat_split ls l1 m l2) as (i & la & lb & pre & Hi & ->); [done|].
    destruct (Forall2_lookup_r _ _ _ _ _ Hls Hi) as (c & Hc%list_elem_of_lookup_2 & Hsl).
    apply Hcs in Hc as (_ & Hp & _). cbn. rewrite fmap_app.
    destruct (sl_order _ _ Hsl la m lb eq_refl) as [->|?]; [|set_solver].
    rewrite Hp, Hr. left.
Qed.

(** The traversal never runs out of fuel and lists the subtree. *)
Lemma collect_subtree_total fuel r acc :
  is_Some (pt_nodes t !! r) -> (longest_path t - length r < fuel)%nat ->
  exists l, collect_subtree_nodes fuel t r acc = Some (Ok (acc ++ l)) /\ subtree_list r l.
Proof.
  revert r acc. induction fuel as [|fuel IH]; intros r acc [n Hn] Hfuel; [lia|].
  cbn. rewrite Hn. case_decide as Hk.
  - destruct (twf_dir _ _ Hwf r n Hn Hk) as [cs Hcs]. rewrite Hcs.
    destruct (twf_children _ _ Hwf r cs Hcs) as [_ Hel].
    destruct (try_fold_app (collect_subtree_nodes fuel t) subtree_list
                (btree_set_items cs) (acc ++ [n])) as (ls & -> & Hls).
    { intros c acc' (Hne & Hp & Hs)%elem_of_btree_set_items%Hel. apply IH; [done|].
      apply parent_path_shorter in Hne. rewrite Hp in Hne.
      destruct Hs as [m Hm%longest_path_bound]. lia. }
    exists (n :: concat ls). rewrite <- app_assoc. split; [done|].
    apply (subtree_list_dir r n (btree_set_items cs)); [done|apply btree_set_items_NoDup| |done].
    intros q. by rewrite elem_of_btree_set_items.
  - exists [n]. split; [done|]. apply subtree_list_file; [done|]. by destruct (pn_kind n).
Qed.

Lemma subtree_nodes_list rel l :
  PromiseTree_subtree_nodes t rel = Some (Ok l) -> exists r, normalize_relative_path rel = Ok r /\ subtree_list r l.
Proof.
  unfold PromiseTree_subtree_nodes. destruct (normalize_relative_path rel) as [r|e]; [|done].
  destruct (pt_nodes t !! r) as [n|] eqn:Hn; [|done]. intros H. exists r. split; [done|].
  destruct (collect_subtree_total (S (longest_path t)) r []) as (l' & H' & Hl); [by eauto|lia|].
  rewrite H in H'. by injection H' as ->.
Qed.
End subtree.

(** ** Properties *)

(** One [add_dir] or [add_file] call. *)
Record AddCall : Type := mkAddCall {
  ac_kind : NodeKind;
  ac_path : str;
  ac_attr : NodeAttr;
  ac_provider_node_id : str;
}.

Definition add_call (b : PromiseBuilder) (c : AddCall) : PromiseBuilder * Result () :=
  match ac_kind c with
  | File => PromiseBuilder_add_file b (ac_path c) (ac_attr c) (ac_provider_node_id c)
  | Directory => PromiseBuilder_add_dir b (ac_path c) (ac_attr c) (ac_provider_node_id c)
  end.

(** The builder after a sequence of calls, each of which may have failed. *)
Definition built (provider_id : ProviderId) (calls : list AddCall) : PromiseBuilder :=
  foldl (fun b c => (add_call b c).1) (PromiseBuilder_new provider_id) calls.

Lemma add_call_node b c :
  add_call b c = PromiseBuilder_add_node b (ac_path c) (ac_attr c) (ac_provider_node_id c) (ac_kind c).
Proof. unfold add_call. by destruct (ac_kind c). Qed.

Lemma built_wf provider_id calls : builder_wf (built provider_id calls).
Proof.
  unfold built. pose proof (builder_new_wf provider_id) as H. revert H.
  generalize (PromiseBuilder_new provider_id). induction calls as [|c calls IH]; intros b H; cbn; [done|].
  apply IH. rewrite add_call_node. by apply add_node_wf.
Qed.

(** C27: after any sequence of [add_dir]/[add_file] calls, accepted or not, the
    builder's node and child indexes are well formed (normalized unique paths,
    declared parent directories, child sets that list exactly the children);
    a rejected call changes nothing; an accepted call adds exactly one node,
    under the normalized path, with the given kind, attributes and provider
    node id, and leaves every other node alone. *)
Theorem PromiseBuilder_history_correct provider_id calls c :
  let b := built provider_id calls in
  let '(b', r) := add_call b c in
  tree_wf (pb_nodes b) (pb_children b) /\
  (forall e, r = Err e -> b' = b) /\
  (r = Ok tt -> exists path node,
     normalize_relative_path (ac_path c) = Ok path /\ path <> [] /\
     pb_nodes b !! path = None /\ pb_nodes b' = <[path := node]> (pb_nodes b) /\
     pn_kind node = ac_kind c /\ pn_attr node = ac_attr c /\
     pn_provider_node_id node = ac_provider_node_id c /\ pn_relative_path node = path /\
     pn_materialized_path node = None).
Proof.
  intros b. rewrite add_call_node.
  pose proof (add_node_cases b (ac_path c) (ac_attr c) (ac_provider_node_id c) (ac_kind c)) as H.
  destruct (PromiseBuilder_add_node _ _ _ _ _) as [b' r]. split; [apply built_wf|].
  destruct H as [(e & -> & ->)|(path & pn & -> & Hn & Hne & _ & _ & Hf & _ & _ & ->)]; [done|].
  split; [done|]. intros _. by exists path, (new_node b path (parent_path path)
    (ac_provider_node_id c) (ac_attr c) (ac_kind c)).
Qed.

(** On a well-formed tree, [subtree_nodes] of an existing path terminates
    and returns the nodes at or below that path, each exactly once, the root of
    the subtree first and every other node after its parent; a missing path
    gives [NotFound] and a path that does not normalize [InvalidArgument]. *)
Theorem PromiseTree_subtree_nodes_correct t rel :
  tree_wf (pt_nodes t) (pt_children t) ->
  match normalize_relative_path rel with
  | Err e => PromiseTree_subtree_nodes t rel = Some (Err InvalidArgument)
  | Ok r =>
      (pt_nodes t !! r = None -> PromiseTree_subtree_nodes t rel = Some (Err NotFound)) /\
      (is_Some (pt_nodes t !! r) ->
         exists l, PromiseTree_subtree_nodes t rel = Some (Ok l) /\ subtree_list t r l)
  end.
Proof.
  intros Hwf. unfold PromiseTree_subtree_nodes.
  destruct (normalize_relative_path rel) as [r|e] eqn:Hr.
  - split; [by intros ->|]. intros [n Hn]. rewrite Hn.
    destruct (collect_subtree_total t Hwf (S (longest_path t)) r []) as (l & H & Hl); eauto; lia.
  - rewrite normalize_cases in Hr. case_decide; congruence.
Qed.

Definition sample_calls : list AddCall :=
  [ mkAddCall Directory (bs "docs") (mkNodeAttr 493 0 0) (bs "remote-dir-1");
    mkAddCall File (bs "docs/readme.txt") (mkNodeAttr 420 12 0) (bs "remote-file-1");
    mkAddCall Directory (bs "docs/guides") (mkNodeAttr 493 0 0) (bs "remote-dir-2");
    mkAddCall File (bs "./docs//guides/setup.txt") (mkNodeAttr 420 5 0) (bs "remote-file-2") ].

Lemma PromiseTree_subtree_nodes_correct_witness :
  let t := PromiseBuilder_finish (built 1 sample_calls) (bs "promise-1") in
  exists l, PromiseTree_subtree_nodes t (bs "docs") = Some (Ok l) /\
    (pn_relative_path <$> l) =
      [bs "docs"; bs "docs/guides"; bs "docs/guides/setup.txt"; bs "docs/readme.txt"].
Proof.
  intros t.
  pose proof (PromiseTree_subtree_nodes_correct t (bs "docs") (built_wf 1 sample_calls)) as H.
  change (normalize_relative_path (bs "docs")) with (@Ok Status str (bs "docs")) in H.
  destruct H as [_ H]. destruct H as (l & Hl & _).
  { apply (bool_decide_unpack _). vm_compute. exact I. }
  exists l. split; [exact Hl|].
  assert (Hc : PromiseTree_subtree_nodes t (bs "docs") = Some (Ok l)) by exact Hl.
  vm_compute in Hc. injection Hc as <-. vm_compute. reflexivity.
Defined.
