(* ===== verification/Runtime.v ===== *)
(** * The runtime

    [Runtime] of [crates/fuse-promise-runtime/src/lib.rs]: the provider table,
    the committed promise trees with their inode and child indexes, the cache
    policy and the read cache.  Methods that take [&mut self] return the new
    runtime with their result, on the error paths too.

    [unreachable!()] is the value [Err StatusOk], which no other path returns;
    [lookup_never_unreachable] shows that it is never produced. *)

From S2P Require Import Prelude Types Paths Cache Tree.

Record Runtime : Type := mkRuntime {
  rt_next_provider_id : Z;
  rt_next_promise_id : Z;
  rt_next_node_id : Z;
  rt_next_inode : Z;
  rt_providers : gmap Z ProviderSession;
  rt_promises : gmap str PromiseTree;
  rt_cache_policy : CachePolicy;
  rt_read_cache : ReadCache;
}.

Definition set_next_provider_id (v : Z) (r : Runtime) : Runtime :=
  mkRuntime v (rt_next_promise_id r) (rt_next_node_id r) (rt_next_inode r)
    (rt_providers r) (rt_promises r) (rt_cache_policy r) (rt_read_cache r).
Definition set_next_promise_id (v : Z) (r : Runtime) : Runtime :=
  mkRuntime (rt_next_provider_id r) v (rt_next_node_id r) (rt_next_inode r)
    (rt_providers r) (rt_promises r) (rt_cache_policy r) (rt_read_cache r).
Definition set_next_node_id (v : Z) (r : Runtime) : Runtime :=
  mkRuntime (rt_next_provider_id r) (rt_next_promise_id r) v (rt_next_inode r)
    (rt_providers r) (rt_promises r) (rt_cache_policy r) (rt_read_cache r).
Definition set_next_inode (v : Z) (r : Runtime) : Runtime :=
  mkRuntime (rt_next_provider_id r) (rt_next_promise_id r) (rt_next_node_id r) v
    (rt_providers r) (rt_promises r) (rt_cache_policy r) (rt_read_cache r).
Definition set_providers (v : gmap Z ProviderSession) (r : Runtime) : Runtime :=
  mkRuntime (rt_next_provider_id r) (rt_next_promise_id r) (rt_next_node_id r) (rt_next_inode r)
    v (rt_promises r) (rt_cache_policy r) (rt_read_cache r).
Definition set_promises (v : gmap str PromiseTree) (r : Runtime) : Runtime :=
  mkRuntime (rt_next_provider_id r) (rt_next_promise_id r) (rt_next_node_id r) (rt_next_inode r)
    (rt_providers r) v (rt_cache_policy r) (rt_read_cache r).
Definition set_policy (v : CachePolicy) (r : Runtime) : Runtime :=
  mkRuntime (rt_next_provider_id r) (rt_next_promise_id r) (rt_next_node_id r) (rt_next_inode r)
    (rt_providers r) (rt_promises r) v (rt_read_cache r).
Definition set_read_cache (v : ReadCache) (r : Runtime) : Runtime :=
  mkRuntime (rt_next_provider_id r) (rt_next_promise_id r) (rt_next_node_id r) (rt_next_inode r)
    (rt_providers r) (rt_promises r) (rt_cache_policy r) v.

(** ** Construction and cache policy *)

Definition Runtime_new : Runtime :=
  mkRuntime 1 1 1 (FUSE_ROOT_INODE + 1) ∅ ∅ NoCache ReadCache_default.

Definition Runtime_set_cache_policy (self : Runtime) (cache_policy : CachePolicy) :
    Runtime * Result () :=
  match CachePolicy_validated cache_policy with
  | Err e => (self, Err e)
  | Ok cache_policy =>
      let self := set_policy cache_policy self in
      let self :=
        if decide (cache_policy = NoCache)
        then set_read_cache (ReadCache_clear (rt_read_cache self)) self else self in
      (self, Ok tt)
  end.

Definition Runtime_with_cache_policy (cache_policy : CachePolicy) : Result Runtime :=
  let '(runtime, r) := Runtime_set_cache_policy Runtime_new cache_policy in
  _ ← r; Ok runtime.

(** ** Providers *)

Definition Runtime_has_provider (self : Runtime) (provider_id : ProviderId) : bool :=
  match rt_providers self !! provider_id with
  | Some provider => bool_decide (ps_state provider = Live)
  | None => false
  end.

Definition Runtime_provider (self : Runtime) (provider_id : ProviderId) : option ProviderSession :=
  rt_providers self !! provider_id.

Definition Runtime_register_provider (self : Runtime) : Runtime * ProviderId :=
  let provider_id := rt_next_provider_id self in
  let self := set_next_provider_id (wrapping_add (rt_next_provider_id self) 1) self in
  let self := set_providers
    (<[provider_id := mkProviderSession provider_id Live]> (rt_providers self)) self in
  (self, provider_id).

(** The body of the loop over [self.promises.values_mut()]. *)
Definition mark_provider_gone (provider_id : ProviderId) (promise : PromiseTree) : PromiseTree :=
  if decide (pt_provider_id promise = provider_id /\ pt_state promise = Available)
  then mkPromiseTree (pt_promise_id promise) (pt_provider_id promise) PromiseProviderGone
         (pt_nodes promise) (pt_children promise)
  else promise.

Definition Runtime_unregister_provider (self : Runtime) (provider_id : ProviderId) :
    Runtime * Result () :=
  match rt_providers self !! provider_id with
  | None => (self, Err NotFound)
  | Some provider =>
      let self := set_providers
        (<[provider_id := mkProviderSession (ps_id provider) Disconnected]> (rt_providers self)) self in
      let self := set_promises (mark_provider_gone provider_id <$> rt_promises self) self in
      (self, Ok tt)
  end.

(** ** Commit *)

Definition Runtime_allocate_node_id (self : Runtime) : Runtime * Result NodeId :=
  let raw := rt_next_node_id self in
  match checked_add raw 1 with
  | None => (self, Err InvalidArgument)
  | Some next => (set_next_node_id next self, Ok raw)
  end.

Definition Runtime_allocate_inode (self : Runtime) : Runtime * Result Z :=
  let raw := rt_next_inode self in
  match checked_add raw 1 with
  | None => (self, Err InvalidArgument)
  | Some next => (set_next_inode next self, Ok raw)
  end.

Definition with_ids (node : PromiseNode) (node_id : NodeId) (inode : Z) : PromiseNode :=
  mkPromiseNode node_id inode (pn_relative_path node) (pn_parent_path node) (pn_name node)
    (pn_provider_node_id node) (pn_materialized_path node) (pn_kind node) (pn_attr node).

(** The loop over [tree.nodes.values_mut()], in key order. *)
Fixpoint assign_ids (self : Runtime) (items : list (str * PromiseNode)) :
    Runtime * Result (list (str * PromiseNode)) :=
  match items with
  | [] => (self, Ok [])
  | (path, node) :: items =>
      let '(self, node_id) := Runtime_allocate_node_id self in
      match node_id with
      | Err e => (self, Err e)
      | Ok node_id =>
          let '(self, inode) := Runtime_allocate_inode self in
          match inode with
          | Err e => (self, Err e)
          | Ok inode =>
              let '(self, rest) := assign_ids self items in
              (self, rest ← rest; Ok ((path, with_ids node node_id inode) :: rest))
          end
      end
  end.

Definition Runtime_assign_runtime_ids (self : Runtime) (tree : PromiseTree) :
    Runtime * Result PromiseTree :=
  let '(self, items) := assign_ids self (btree_items (pt_nodes tree)) in
  (self, items ← items;
         Ok (mkPromiseTree (pt_promise_id tree) (pt_provider_id tree) (pt_state tree)
               (list_to_map items) (pt_children tree))).

(** [format!("promise-{}", n)]. *)
Definition promise_name (n : Z) : str := bs "promise-" ++ u64_to_string n.

Definition Runtime_commit_promise (self : Runtime) (builder : PromiseBuilder) :
    Runtime * Result PromiseTree :=
  if negb (Runtime_has_provider self (pb_provider_id builder)) then (self, Err ProviderGone)
  else
    let promise_id := promise_name (rt_next_promise_id self) in
    let self := set_next_promise_id (wrapping_add (rt_next_promise_id self) 1) self in
    let tree := PromiseBuilder_finish builder promise_id in
    let '(self, tree) := Runtime_assign_runtime_ids self tree in
    match tree with
    | Err e => (self, Err e)
    | Ok tree => (set_promises (<[promise_id := tree]> (rt_promises self)) self, Ok tree)
    end.

(** ** Lookup *)

Definition Runtime_promise (self : Runtime) (promise_id : str) : option PromiseTree :=
  rt_promises self !! promise_id.

Definition Runtime_lookup_inode (self : Runtime) (inode : Z) : Result RuntimeEntry :=
  if inode =? FUSE_ROOT_INODE then Ok MountRoot
  else ok_or
    (find_map (fun tree =>
       find_map (fun node =>
         if pn_inode node =? inode then Some (PromiseNodeEntry (pt_promise_id tree) node) else None)
         (btree_values (pt_nodes tree)))
       (btree_values (rt_promises self)))
    NotFound.

Definition Runtime_lookup_child (self : Runtime) (parent_inode : Z) (name : str) :
    Result RuntimeEntry :=
  _ ← validate_child_name name;
  if parent_inode =? FUSE_ROOT_INODE then
    tree ← ok_or (Runtime_promise self name) NotFound;
    node ← ok_or (pt_nodes tree !! []) NotFound;
    Ok (PromiseNodeEntry (pt_promise_id tree) node)
  else
    entry ← Runtime_lookup_inode self parent_inode;
    match entry with
    | MountRoot => Err StatusOk
    | PromiseNodeEntry promise_id parent =>
        if decide (pn_kind parent = Directory) then
          tree ← ok_or (Runtime_promise self promise_id) NotFound;
          let child_relative_path := child_path (pn_relative_path parent) name in
          if match pt_children tree !! pn_relative_path parent with
             | Some children => bool_decide (child_relative_path ∈ children)
             | None => false
             end
          then
            child ← ok_or (pt_nodes tree !! child_relative_path) NotFound;
            Ok (PromiseNodeEntry promise_id child)
          else Err NotFound
        else Err InvalidArgument
    end.

Definition Runtime_read_dir (self : Runtime) (inode : Z) : Result (list DirectoryEntry) :=
  if inode =? FUSE_ROOT_INODE then
    collect (fun tree =>
      root ← ok_or (pt_nodes tree !! []) NotFound;
      Ok (mkDirectoryEntry (pt_promise_id tree) (pn_inode root) Directory))
      (btree_values (rt_promises self))
  else
    entry ← Runtime_lookup_inode self inode;
    match entry with
    | MountRoot => Err StatusOk
    | PromiseNodeEntry promise_id node =>
        if decide (pn_kind node = Directory) then
          tree ← ok_or (Runtime_promise self promise_id) NotFound;
          children ← ok_or (pt_children tree !! pn_relative_path node) NotFound;
          collect (fun child_path =>
            child ← ok_or (pt_nodes tree !! child_path) NotFound;
            Ok (mkDirectoryEntry (pn_name child) (pn_inode child) (pn_kind child)))
            (btree_set_items children)
        else Err InvalidArgument
    end.

Definition Runtime_provider_count (self : Runtime) : Z := Z.of_nat (size (rt_providers self)).
Definition Runtime_promise_count (self : Runtime) : Z := Z.of_nat (size (rt_promises self)).

(** ** Recording reads and materialized nodes *)

Definition Runtime_record_cached_read (self : Runtime) (promise_id relative_path : str)
    (offset : Z) (bytes : list byte) : Runtime * Result () :=
  match CachePolicy_chunk_size (rt_cache_policy self) with
  | None => (self, Ok tt)
  | Some chunk_size =>
      if decide (bytes = []) then (self, Ok tt)
      else
        let checked :=
          tree ← ok_or (Runtime_promise self promise_id) NotFound;
          node ← ok_or (PromiseTree_get tree relative_path) NotFound;
          if decide (pn_kind node = File) then
            length ← ok_or (usize_try_from (len bytes)) InvalidArgument;
            end_ ← ok_or (checked_add offset length) InvalidArgument;
            if attr_size (pn_attr node) <? end_ then Err InvalidArgument
            else Ok (pn_relative_path node)
          else Err InvalidArgument in
        match checked with
        | Err e => (self, Err e)
        | Ok relative_path =>
            (set_read_cache
               (ReadCache_insert (rt_read_cache self) promise_id relative_path offset bytes chunk_size)
               self, Ok tt)
        end
  end.

Definition with_materialized_path (node : PromiseNode) (path : str) : PromiseNode :=
  mkPromiseNode (pn_node_id node) (pn_inode node) (pn_relative_path node) (pn_parent_path node)
    (pn_name node) (pn_provider_node_id node) (Some path) (pn_kind node) (pn_attr node).

Definition Runtime_mark_node_materialized (self : Runtime) (promise_id relative_path : str)
    (materialized_path : str) : Runtime * Result () :=
  match normalize_relative_path relative_path with
  | Err e => (self, Err e)
  | Ok normalized_path =>
  match rt_promises self !! promise_id with
  | None => (self, Err NotFound)
  | Some tree =>
  match pt_nodes tree !! normalized_path with
  | None => (self, Err NotFound)
  | Some node =>
  match to_str materialized_path with
  | None => (self, Err InvalidArgument)
  | Some path =>
      let nodes := <[normalized_path := with_materialized_path node path]> (pt_nodes tree) in
      let tree := mkPromiseTree (pt_promise_id tree) (pt_provider_id tree) (pt_state tree)
                    nodes (pt_children tree) in
      (set_promises (<[promise_id := tree]> (rt_promises self)) self, Ok tt)
  end end end end.

(** ** Operations as data

    The methods that mutate a runtime, so that a history is a list. *)

Inductive RuntimeOp : Type :=
| OpSetCachePolicy (policy : CachePolicy)
| OpRegisterProvider
| OpUnregisterProvider (provider_id : ProviderId)
| OpCommitPromise (builder : PromiseBuilder)
| OpRecordCachedRead (promise_id relative_path : str) (offset : Z) (bytes : list byte)
| OpMarkNodeMaterialized (promise_id relative_path materialized_path : str).

Definition run_op (self : Runtime) (op : RuntimeOp) : Runtime :=
  match op with
  | OpSetCachePolicy policy => (Runtime_set_cache_policy self policy).1
  | OpRegisterProvider => (Runtime_register_provider self).1
  | OpUnregisterProvider id => (Runtime_unregister_provider self id).1
  | OpCommitPromise b => (Runtime_commit_promise self b).1
  | OpRecordCachedRead pid path offset bytes =>
      (Runtime_record_cached_read self pid path offset bytes).1
  | OpMarkNodeMaterialized pid path mpath =>
      (Runtime_mark_node_materialized self pid path mpath).1
  end.

Definition run_ops (self : Runtime) (ops : list RuntimeOp) : Runtime := foldl run_op self ops.

(** Arguments in the range of their Rust types, and builders built by the
    builder's own methods. *)
Definition nodes_typed (nodes : gmap str PromiseNode) : Prop :=
  map_Forall (fun _ n => in_u64 (attr_size (pn_attr n))) nodes.

Definition op_typed (op : RuntimeOp) : Prop :=
  match op with
  | OpCommitPromise b => builder_wf b /\ nodes_typed (pb_nodes b)
  | OpSetCachePolicy policy => policy_typed policy
  | OpRecordCachedRead _ _ offset bytes => in_u64 offset
  | _ => True
  end.

(** ** The invariant *)

Record rt_wf (rt : Runtime) : Prop := {
  rw_provider_id : 1 <= rt_next_provider_id rt <= u64_max;
  rw_promise_id : 1 <= rt_next_promise_id rt <= u64_max;
  rw_node_id : 1 <= rt_next_node_id rt <= u64_max;
  rw_inode : FUSE_ROOT_INODE < rt_next_inode rt <= u64_max;
  rw_providers : forall id s, rt_providers rt !! id = Some s ->
    ps_id s = id /\ 1 <= id < rt_next_provider_id rt;
  rw_promises : forall pid t, rt_promises rt !! pid = Some t ->
    pt_promise_id t = pid /\
    exists k, pid = promise_name k /\ 1 <= k < rt_next_promise_id rt;
  rw_tree : forall pid t, rt_promises rt !! pid = Some t ->
    tree_wf (pt_nodes t) (pt_children t) /\ nodes_typed (pt_nodes t);
  rw_owner : forall pid t, rt_promises rt !! pid = Some t ->
    exists s, rt_providers rt !! pt_provider_id t = Some s /\
      (pt_state t = Available <-> ps_state s = Live);
  rw_node_range : forall pid t p n, rt_promises rt !! pid = Some t -> pt_nodes t !! p = Some n ->
    FUSE_ROOT_INODE < pn_inode n < rt_next_inode rt /\ 1 <= pn_node_id n < rt_next_node_id rt;
  rw_node_inj : forall pid t p n pid' t' p' n',
    rt_promises rt !! pid = Some t -> pt_nodes t !! p = Some n ->
    rt_promises rt !! pid' = Some t' -> pt_nodes t' !! p' = Some n' ->
    (pn_inode n = pn_inode n' \/ pn_node_id n = pn_node_id n') -> pid = pid' /\ p = p';
  rw_policy : policy_ok (rt_cache_policy rt);
  rw_cache : cache_wf (rt_read_cache rt);
}.

(** ** Trees up to ids *)

(** Equal in everything but the node id, the inode and the materialized path. *)
Definition same_shape (n n' : PromiseNode) : Prop :=
  pn_relative_path n' = pn_relative_path n /\ pn_parent_path n' = pn_parent_path n /\
  pn_name n' = pn_name n /\ pn_provider_node_id n' = pn_provider_node_id n /\
  pn_kind n' = pn_kind n /\ pn_attr n' = pn_attr n.

Definition same_nodes (m m' : gmap str PromiseNode) : Prop :=
  forall p, option_Forall2 same_shape (m !! p) (m' !! p).

Lemma same_nodes_back m m' p n' :
  same_nodes m m' -> m' !! p = Some n' -> exists n, m !! p = Some n /\ same_shape n n'.
Proof. intros H Hp. specialize (H p). rewrite Hp in H. inversion H; subst; eauto. Qed.

Lemma same_nodes_fwd m m' p n :
  same_nodes m m' -> m !! p = Some n -> exists n', m' !! p = Some n' /\ same_shape n n'.
Proof. intros H Hp. specialize (H p). rewrite Hp in H. inversion H; subst; eauto. Qed.

Lemma same_nodes_is_Some m m' p : same_nodes m m' -> is_Some (m' !! p) <-> is_Some (m !! p).
Proof. intros H. specialize (H p). inversion H; by rewrite !is_Some_alt. Qed.

Lemma tree_wf_same m m' children : same_nodes m m' -> tree_wf m children -> tree_wf m' children.
Proof.
  intros Hs Hwf. split.
  - destruct (twf_root _ _ Hwf) as (n & Hn & Hk & Hp).
    destruct (same_nodes_fwd _ _ _ _ Hs Hn) as (n' & ? & ? & ? & ? & ? & ? & ?).
    exists n'. split_and!; congruence.
  - intros p n' (n & Hn & Hsh & _)%(same_nodes_back _ _ _ _ Hs).
    rewrite Hsh. by apply (twf_path _ _ Hwf).
  - intros p n' (n & Hn & _ & H1 & H2 & H3 & H4 & H5)%(same_nodes_back _ _ _ _ Hs) Hp.
    rewrite H1, H2, H3, H4, H5. by apply (twf_node _ _ Hwf).
  - intros p n' (n & Hn & _)%(same_nodes_back _ _ _ _ Hs) Hp.
    destruct (twf_parent _ _ Hwf p n Hn Hp) as (q & Hq & Hk).
    destruct (same_nodes_fwd _ _ _ _ Hs Hq) as (q' & ? & ? & ? & ? & ? & ? & ?).
    exists q'. split; congruence.
  - intros p n' (n & Hn & _ & _ & _ & _ & Hk & _)%(same_nodes_back _ _ _ _ Hs) Hd.
    eapply (twf_dir _ _ Hwf); [done|congruence].
  - intros p cs Hcs. destruct (twf_children _ _ Hwf p cs Hcs) as [(n & Hn & Hk) Hel]. split.
    + destruct (same_nodes_fwd _ _ _ _ Hs Hn) as (n' & ? & ? & ? & ? & ? & ? & ?).
      exists n'. split; congruence.
    + intros q. by rewrite Hel, (same_nodes_is_Some _ _ q Hs).
Qed.

Lemma nodes_typed_same m m' : same_nodes m m' -> nodes_typed m -> nodes_typed m'.
Proof.
  intros Hs Ht p n' (n & Hn & _ & _ & _ & _ & _ & Ha)%(same_nodes_back _ _ _ _ Hs).
  rewrite Ha. by apply (Ht p n).
Qed.

(** ** Numbering the nodes of a committed tree *)

Fixpoint number_from (nid ino : Z) (items : list (str * PromiseNode)) : list (str * PromiseNode) :=
  match items with
  | [] => []
  | (p, n) :: items => (p, with_ids n nid ino) :: number_from (nid + 1) (ino + 1) items
  end.

Definition bump_ids (nid ino : Z) (rt : Runtime) : Runtime :=
  set_next_inode ino (set_next_node_id nid rt).

(** [assign_ids] numbers the nodes consecutively, or fails when a counter is
    exhausted; either way only the two counters of the runtime change. *)
Lemma assign_ids_spec rt items :
  let '(rt', r) := assign_ids rt items in
  (exists nid ino, rt' = bump_ids nid ino rt /\
     rt_next_node_id rt <= nid <= Z.max u64_max (rt_next_node_id rt) /\
     rt_next_inode rt <= ino <= Z.max u64_max (rt_next_inode rt)) /\
  (forall items', r = Ok items' ->
     items' = number_from (rt_next_node_id rt) (rt_next_inode rt) items /\
     rt_next_node_id rt' = rt_next_node_id rt + len items /\
     rt_next_inode rt' = rt_next_inode rt + len items).
Proof.
  revert rt. induction items as [|[p n] items IH]; intros rt; cbn.
  - split; [exists (rt_next_node_id rt), (rt_next_inode rt); destruct rt; cbn; split_and!; (done || lia)|].
    intros items' [= <-]. rewrite len_nil. split_and!; [done|lia..].
  - unfold Runtime_allocate_node_id, checked_add. case_bool; cbn.
    2:{ split; [|done]. exists (rt_next_node_id rt), (rt_next_inode rt).
        destruct rt; cbn in *; split_and!; (done || lia). }
    unfold Runtime_allocate_inode, checked_add. cbn. case_bool; cbn.
    2:{ split; [|done]. exists (rt_next_node_id rt + 1), (rt_next_inode rt).
        destruct rt; cbn in *; split_and!; (done || lia). }
    set (rt1 := set_next_inode (rt_next_inode rt + 1) (set_next_node_id (rt_next_node_id rt + 1) rt)).
    specialize (IH rt1). destruct (assign_ids rt1 items) as [rt' r].
    destruct IH as [(nid & ino & -> & ? & ?) IH]. cbn in *. split.
    + exists nid, ino. split_and!; (done || lia).
    + intros items' Hr. destruct r as [rest|]; cbn in Hr; [|done]. injection Hr as <-.
      destruct (IH rest eq_refl) as (-> & ? & ?). rewrite len_cons. split_and!; [done|lia..].
Qed.

Lemma number_from_lookup nid ino items i :
  number_from nid ino items !! i =
    (fun x => (x.1, with_ids x.2 (nid + Z.of_nat i) (ino + Z.of_nat i))) <$> (items !! i).
Proof.
  revert nid ino i. induction items as [|[p n] items IH]; intros nid ino [|i]; cbn; try done.
  - by rewrite !Z.add_0_r.
  - rewrite IH. destruct (items !! i) as [[]|]; cbn; [|done]. do 3 f_equal; lia.
Qed.

Lemma number_from_keys nid ino items : (number_from nid ino items).*1 = items.*1.
Proof.
  revert nid ino. induction items as [|[p n] items IH]; intros nid ino; cbn; [done|]. by rewrite IH.
Qed.

(** The numbered nodes of a tree: each node keeps its shape and gets the ids
    of its position in key order. *)
Lemma numbered_nodes (m : gmap str PromiseNode) nid ino p n' :
  list_to_map (M := gmap str PromiseNode) (number_from nid ino (btree_items m)) !! p = Some n' <->
  exists i n, btree_items m !! i = Some (p, n) /\ n' = with_ids n (nid + Z.of_nat i) (ino + Z.of_nat i).
Proof.
  rewrite <- elem_of_list_to_map by (rewrite number_from_keys; apply btree_items_NoDup_keys).
  rewrite list_elem_of_lookup. setoid_rewrite number_from_lookup.
  setoid_rewrite fmap_Some. split.
  - intros (i & [q n] & Hi & [= -> ->]). eauto.
  - intros (i & n & Hi & ->). exists i, (p, n). done.
Qed.

Lemma numbered_same m nid ino :
  same_nodes m (list_to_map (number_from nid ino (btree_items m))).
Proof.
  intros p. destruct (list_to_map _ !! p) as [n'|] eqn:Hn'.
  - apply numbered_nodes in Hn' as (i & n & Hi%list_elem_of_lookup_2%elem_of_btree_items & ->).
    rewrite Hi. by constructor.
  - destruct (m !! p) as [n|] eqn:Hn; [|constructor].
    apply elem_of_btree_items, list_elem_of_lookup in Hn as [i Hi].
    rewrite (proj2 (numbered_nodes m nid ino p _)) in Hn' by eauto. done.
Qed.

(** ** Every operation keeps the invariant *)

Lemma new_wf : rt_wf Runtime_new.
Proof.
  split; cbn; unfold FUSE_ROOT_INODE, u64_max; try lia; try done;
    try (intros *; rewrite lookup_empty; done).
Qed.

Lemma set_cache_policy_wf rt policy :
  rt_wf rt -> policy_typed policy -> rt_wf (Runtime_set_cache_policy rt policy).1.
Proof.
  intros Hwf Hty. unfold Runtime_set_cache_policy.
  destruct (CachePolicy_validated policy) as [q|] eqn:Hv; [|done].
  apply CachePolicy_validated_Ok in Hv as [-> Hok]; [|done].
  case_decide; destruct Hwf; split; cbn; auto using cache_default_wf.
Qed.

Lemma register_provider_wf rt :
  rt_wf rt -> rt_next_provider_id rt < u64_max -> rt_wf (Runtime_register_provider rt).1.
Proof.
  intros Hwf Hmax. unfold Runtime_register_provider. cbn.
  pose proof (rw_provider_id _ Hwf). rewrite wrapping_add_in by lia.
  destruct Hwf; split; cbn; auto; try lia.
  - intros id s. rewrite lookup_insert. case_decide; [intros [= <-]; cbn; lia|].
    intros Hid. destruct (rw_providers0 id s Hid). split; [done|lia].
  - intros pid t Ht. destruct (rw_owner0 pid t Ht) as (s & Hs & Hl). exists s.
    rewrite lookup_insert_ne; [done|]. intros Heq. rewrite <- Heq in Hs.
    apply rw_providers0 in Hs. lia.
Qed.

Lemma unregister_provider_wf rt id :
  rt_wf rt -> rt_wf (Runtime_unregister_provider rt id).1.
Proof.
  intros Hwf. unfold Runtime_unregister_provider.
  destruct (rt_providers rt !! id) as [s|] eqn:Hs; [|done]. cbn.
  assert (Hback : forall pid t, (mark_provider_gone id <$> rt_promises rt) !! pid = Some t ->
    exists t0, rt_promises rt !! pid = Some t0 /\ t = mark_provider_gone id t0 /\
      pt_promise_id t = pt_promise_id t0 /\ pt_nodes t = pt_nodes t0 /\ pt_children t = pt_children t0 /\
      pt_provider_id t = pt_provider_id t0).
  { intros pid t. rewrite lookup_fmap. intros (t0 & Ht0 & ->)%fmap_Some.
    exists t0. unfold mark_provider_gone. case_decide; done. }
  destruct Hwf; split; cbn; auto.
  - intros id' s'. rewrite lookup_insert. case_decide; [|apply rw_providers0].
    intros [= <-]; subst. cbn. by apply rw_providers0.
  - intros pid t (t0 & Ht0 & _ & -> & _)%Hback. by apply rw_promises0.
  - intros pid t (t0 & Ht0 & _ & _ & -> & -> & _)%Hback. by eapply rw_tree0.
  - intros pid t (t0 & Ht0 & Ht & _ & _ & _ & Hp)%Hback.
    destruct (rw_owner0 pid t0 Ht0) as (s0 & Hs0 & Hl). rewrite Hp.
    subst t. unfold mark_provider_gone in *.
    destruct (decide (id = pt_provider_id t0)) as [->|Hid].
    + rewrite lookup_insert_eq. eexists. split; [done|]. cbn.
      case_decide; cbn; naive_solver.
    + rewrite lookup_insert_ne by done. exists s0.
      rewrite decide_False by naive_solver. auto.
  - intros pid t p n (t0 & Ht0 & _ & _ & -> & _)%Hback. by apply (rw_node_range0 pid t0).
  - intros pid t p n pid' t' p' n' (t0 & Ht0 & _ & _ & -> & _)%Hback Hn
      (t0' & Ht0' & _ & _ & -> & _)%Hback Hn'. by eapply rw_node_inj0.
Qed.

Lemma record_cached_read_cases rt pid path offset bytes :
  let '(rt', r) := Runtime_record_cached_read rt pid path offset bytes in
  rt' = rt \/
  (exists cs t n, CachePolicy_chunk_size (rt_cache_policy rt) = Some cs /\
     rt_promises rt !! pid = Some t /\ PromiseTree_get t path = Some n /\ pn_kind n = File /\
     offset + len bytes <= attr_size (pn_attr n) /\ offset + len bytes <= u64_max /\ r = Ok tt /\
     rt' = set_read_cache (ReadCache_insert (rt_read_cache rt) pid (pn_relative_path n) offset bytes cs) rt).
Proof.
  unfold Runtime_record_cached_read, Runtime_promise.
  destruct (CachePolicy_chunk_size (rt_cache_policy rt)) as [cs|] eqn:Hcs; [|by left].
  case_decide; [by left|].
  destruct (rt_promises rt !! pid) as [t|] eqn:Ht; cbn; [|by left].
  destruct (PromiseTree_get t path) as [n|] eqn:Hn; cbn; [|by left].
  case_decide as Hk; [|by left].
  unfold usize_try_from. case_bool; cbn; [|by left].
  unfold checked_add. case_bool; cbn; [|by left].
  case_bool; [by left|]. right. exists cs, t, n. split_and!; (done || lia).
Qed.

Lemma record_cached_read_wf rt pid path offset bytes :
  rt_wf rt -> in_u64 offset -> rt_wf (Runtime_record_cached_read rt pid path offset bytes).1.
Proof.
  intros Hwf [Hoff _]. pose proof (record_cached_read_cases rt pid path offset bytes) as H.
  destruct (Runtime_record_cached_read rt pid path offset bytes) as [rt' r]. cbn.
  destruct H as [->|(cs & t & n & Hcs & _ & _ & _ & _ & Hmax & _ & ->)]; [done|].
  apply CachePolicy_chunk_size_pos in Hcs as [Hcs _].
  destruct Hwf; split; cbn; auto. by apply cache_insert_wf.
Qed.

Lemma mark_node_materialized_cases rt pid path mpath :
  let '(rt', r) := Runtime_mark_node_materialized rt pid path mpath in
  (rt' = rt /\ r <> Ok tt) \/
  (exists p t n, normalize_relative_path path = Ok p /\ rt_promises rt !! pid = Some t /\
     pt_nodes t !! p = Some n /\ utf8_valid mpath = true /\ r = Ok tt /\
     rt' = set_promises (<[pid := mkPromiseTree (pt_promise_id t) (pt_provider_id t) (pt_state t)
       (<[p := with_materialized_path n mpath]> (pt_nodes t)) (pt_children t)]> (rt_promises rt)) rt).
Proof.
  unfold Runtime_mark_node_materialized, to_str.
  destruct (normalize_relative_path path) as [p|] eqn:Hp; [|by left].
  destruct (rt_promises rt !! pid) as [t|] eqn:Ht; [|by left].
  destruct (pt_nodes t !! p) as [n|] eqn:Hn; [|by left].
  destruct (utf8_valid mpath) eqn:Hu; [|by left]. right. exists p, t, n. done.
Qed.

Lemma materialized_same m p n mpath :
  m !! p = Some n -> same_nodes m (<[p := with_materialized_path n mpath]> m).
Proof.
  intros Hn q. rewrite lookup_insert. case_decide; [subst; rewrite Hn; by constructor|].
  destruct (m !! q); by constructor.
Qed.

Lemma mark_node_materialized_wf rt pid path mpath :
  rt_wf rt -> rt_wf (Runtime_mark_node_materialized rt pid path mpath).1.
Proof.
  intros Hwf. pose proof (mark_node_materialized_cases rt pid path mpath) as H.
  destruct (Runtime_mark_node_materialized rt pid path mpath) as [rt' r]. cbn.
  destruct H as [[-> _]|(p & t & n & _ & Ht & Hn & _ & _ & ->)]; [done|].
  set (t' := mkPromiseTree _ _ _ _ _).
  assert (Hback : forall pid0 t0, <[pid := t']> (rt_promises rt) !! pid0 = Some t0 ->
    exists t1, rt_promises rt !! pid0 = Some t1 /\ pt_promise_id t0 = pt_promise_id t1 /\
      pt_provider_id t0 = pt_provider_id t1 /\ pt_state t0 = pt_state t1 /\
      pt_children t0 = pt_children t1 /\ same_nodes (pt_nodes t1) (pt_nodes t0) /\
      (forall q m, pt_nodes t0 !! q = Some m -> exists m0, pt_nodes t1 !! q = Some m0 /\
         pn_inode m = pn_inode m0 /\ pn_node_id m = pn_node_id m0)).
  { intros pid0 t0. rewrite lookup_insert. case_decide; [subst pid0; intros [= <-]|].
    - exists t. split_and!; try done; [by apply materialized_same|].
      cbn. intros q m. rewrite lookup_insert. case_decide; [subst q; intros [= <-]; eauto|eauto].
    - intros Ht0. exists t0. split_and!; try done; [|eauto].
      intros q. destruct (pt_nodes t0 !! q); by constructor. }
  destruct Hwf; split; cbn; auto.
  - intros pid0 t0 (t1 & H1 & -> & _)%Hback. by apply rw_promises0.
  - intros pid0 t0 (t1 & H1 & _ & _ & _ & -> & Hs & _)%Hback. destruct (rw_tree0 pid0 t1 H1).
    split; [by eapply tree_wf_same|by eapply nodes_typed_same].
  - intros pid0 t0 (t1 & H1 & _ & -> & -> & _)%Hback. by apply (rw_owner0 pid0).
  - intros pid0 t0 q m (t1 & H1 & _ & _ & _ & _ & _ & Hm)%Hback Hq.
    destruct (Hm q m Hq) as (m0 & Hm0 & -> & ->). by apply (rw_node_range0 pid0 t1 q).
  - intros pid0 t0 q m pid0' t0' q' m' (t1 & H1 & _ & _ & _ & _ & _ & Hm)%Hback Hq
      (t1' & H1' & _ & _ & _ & _ & _ & Hm')%Hback Hq'.
    destruct (Hm q m Hq) as (m0 & Hm0 & -> & ->). destruct (Hm' q' m' Hq') as (m0' & Hm0' & -> & ->).
    by eapply rw_node_inj0.
Qed.

Lemma promise_name_inj m n : 0 <= m -> 0 <= n -> promise_name m = promise_name n -> m = n.
Proof. intros Hm Hn H%app_inv_head. by apply u64_to_string_inj. Qed.

(** What a commit does: refuse a provider that is not live; consume ids and
    fail when a counter is exhausted; or store the numbered tree. *)
Lemma commit_promise_cases rt b :
  rt_next_promise_id rt < u64_max -> 0 <= rt_next_promise_id rt ->
  let '(rt', r) := Runtime_commit_promise rt b in
  (Runtime_has_provider rt (pb_provider_id b) = false /\ rt' = rt /\ r = Err ProviderGone) \/
  (Runtime_has_provider rt (pb_provider_id b) = true /\ exists nid ino,
     rt_next_node_id rt <= nid <= Z.max u64_max (rt_next_node_id rt) /\
     rt_next_inode rt <= ino <= Z.max u64_max (rt_next_inode rt) /\
     let rt1 := bump_ids nid ino (set_next_promise_id (rt_next_promise_id rt + 1) rt) in
     let pid := promise_name (rt_next_promise_id rt) in
     let tree := mkPromiseTree pid (pb_provider_id b) Available
       (list_to_map (number_from (rt_next_node_id rt) (rt_next_inode rt) (btree_items (pb_nodes b))))
       (pb_children b) in
     ((exists e, r = Err e /\ rt' = rt1) \/
      (nid = rt_next_node_id rt + len (btree_items (pb_nodes b)) /\
       ino = rt_next_inode rt + len (btree_items (pb_nodes b)) /\
       r = Ok tree /\ rt' = set_promises (<[pid := tree]> (rt_promises rt)) rt1))).
Proof.
  intros Hmax Hpos. unfold Runtime_commit_promise.
  destruct (Runtime_has_provider rt (pb_provider_id b)); cbn; [|by left].
  unfold Runtime_assign_runtime_ids. cbn. rewrite wrapping_add_in by lia.
  pose proof (assign_ids_spec (set_next_promise_id (rt_next_promise_id rt + 1) rt)
                (btree_items (pb_nodes b))) as H.
  destruct (assign_ids _ _) as [rt' r]. destruct H as [(nid & ino & -> & Hn & Hi) Hr].
  destruct r as [items|e]; cbn; right; (split; [done|]); exists nid, ino;
    (split_and!; [cbn in *; lia..|]).
  - destruct (Hr items eq_refl) as (-> & Hn' & Hi'). right. cbn in *. done.
  - left. eauto.
Qed.

Lemma commit_promise_frame rt b :
  rt_next_promise_id rt < u64_max -> 0 <= rt_next_promise_id rt ->
  let rt' := (Runtime_commit_promise rt b).1 in
  rt_providers rt' = rt_providers rt /\ rt_next_provider_id rt' = rt_next_provider_id rt /\
  rt_next_promise_id rt' <= rt_next_promise_id rt + 1.
Proof.
  intros Hmax Hpos. pose proof (commit_promise_cases rt b Hmax Hpos) as Hc.
  destruct (Runtime_commit_promise rt b) as [rt' r]; cbn.
  destruct Hc as [(_ & -> & _)|(_ & nid & ino & _ & _ & [(e & _ & ->)|(_ & _ & _ & ->)])];
    cbn; split_and!; (done || lia).
Qed.

(** Enough ids left: numbering succeeds, and so does the commit. *)
Lemma assign_ids_total rt items :
  rt_next_node_id rt + len items <= u64_max -> rt_next_inode rt + len items <= u64_max ->
  exists items', (assign_ids rt items).2 = Ok items'.
Proof.
  revert rt. induction items as [|[p n] items IH]; intros rt; cbn; [eauto|].
  rewrite !len_cons. pose proof (len_nonneg items). intros H1 H2.
  unfold Runtime_allocate_node_id. rewrite checked_add_in by lia.
  unfold Runtime_allocate_inode. cbn. rewrite checked_add_in by lia. cbn.
  set (rt1 := set_next_inode _ _). destruct (IH rt1) as [items' Hi]; [cbn; lia..|].
  destruct (assign_ids rt1 items) as [rt' r]. cbn in *. subst r. cbn. eauto.
Qed.

Lemma commit_promise_total rt b :
  rt_next_promise_id rt < u64_max -> 0 <= rt_next_promise_id rt ->
  let '(_, r) := Runtime_commit_promise rt b in
  Runtime_has_provider rt (pb_provider_id b) = true ->
  rt_next_node_id rt + len (btree_items (pb_nodes b)) <= u64_max ->
  rt_next_inode rt + len (btree_items (pb_nodes b)) <= u64_max -> exists t, r = Ok t.
Proof.
  intros Hmax Hpos. unfold Runtime_commit_promise.
  destruct (Runtime_has_provider rt (pb_provider_id b)); cbn; [|done].
  unfold Runtime_assign_runtime_ids. cbn.
  pose proof (assign_ids_total (set_next_promise_id (wrapping_add (rt_next_promise_id rt) 1) rt)
                (btree_items (pb_nodes b))) as Ht.
  destruct (assign_ids _ _) as [rt' r]. cbn in *. destruct r as [items|e]; cbn.
  - eauto.
  - intros _ H1 H2. by destruct (Ht H1 H2).
Qed.

(** A failed commit stores nothing; a successful one a tree under a new id. *)
Lemma commit_tree_added rt b :
  rt_wf rt -> rt_next_promise_id rt < u64_max ->
  let '(rt', r) := Runtime_commit_promise rt b in
  match r with
  | Err _ => rt_promises rt' = rt_promises rt
  | Ok t =>
      Runtime_has_provider rt (pb_provider_id b) = true /\
      rt_promises rt !! pt_promise_id t = None /\
      rt_promises rt' = <[pt_promise_id t := t]> (rt_promises rt) /\
      pt_provider_id t = pb_provider_id b
  end.
Proof.
  intros Hwf Hmax. pose proof (rw_promise_id _ Hwf).
  pose proof (commit_promise_cases rt b Hmax ltac:(lia)) as Hc.
  destruct (Runtime_commit_promise rt b) as [rt' r].
  destruct Hc as [(_ & -> & ->)|(Hl & nid & ino & _ & _ & [(e & -> & ->)|(_ & _ & -> & ->)])]; try done.
  cbn. split_and!; try done.
  destruct (rt_promises rt !! promise_name (rt_next_promise_id rt)) as [t|] eqn:Ht; [exfalso|done].
  destruct (rw_promises _ Hwf _ _ Ht) as (_ & k & Hk & ?). apply promise_name_inj in Hk; lia.
Qed.

Lemma commit_promise_wf rt b :
  rt_wf rt -> rt_next_promise_id rt < u64_max -> builder_wf b -> nodes_typed (pb_nodes b) ->
  rt_wf (Runtime_commit_promise rt b).1.
Proof.
  intros Hwf Hmax Hb Hty. pose proof (rw_promise_id _ Hwf). pose proof (rw_node_id _ Hwf).
  pose proof (rw_inode _ Hwf).
  pose proof (commit_promise_cases rt b Hmax ltac:(lia)) as H'.
  destruct (Runtime_commit_promise rt b) as [rt' r]; cbn.
  destruct H' as [(_ & -> & _)|(Hlive & nid & ino & Hnid & Hino & [(e & _ & ->)|(Hn & Hi & _ & ->)])];
    [done| |].
  - destruct Hwf; split; cbn; auto; try lia.
    + intros pid t Ht. destruct (rw_promises0 pid t Ht) as (? & k & ? & ?).
      split; [done|]. exists k. split; [done|lia].
    + intros pid t p n Ht Hp. pose proof (rw_node_range0 pid t p n Ht Hp). lia.
  - set (pid := promise_name _). set (tree := mkPromiseTree _ _ _ _ _).
    assert (Hnew : forall p n, pt_nodes tree !! p = Some n -> exists i n0,
      btree_items (pb_nodes b) !! i = Some (p, n0) /\ Z.of_nat i < len (btree_items (pb_nodes b)) /\
      pn_inode n = rt_next_inode rt + Z.of_nat i /\ pn_node_id n = rt_next_node_id rt + Z.of_nat i).
    { intros p n (i & n0 & Hi0 & ->)%numbered_nodes. exists i, n0. split_and!; try done.
      apply lookup_lt_Some in Hi0. unfold len. lia. }
    pose proof (numbered_same (pb_nodes b) (rt_next_node_id rt) (rt_next_inode rt)) as Hsame.
    destruct Hwf; split; cbn; auto; try lia.
    + intros pid' t. rewrite lookup_insert. case_decide as Hp.
      * intros [= <-]. split; [done|]. exists (rt_next_promise_id rt). split; [done|lia].
      * intros Ht. destruct (rw_promises0 pid' t Ht) as (? & k & ? & ?).
        split; [done|]. exists k. split; [done|lia].
    + intros pid' t. rewrite lookup_insert. case_decide; [intros [= <-]|apply rw_tree0].
      split; [by eapply tree_wf_same|by eapply nodes_typed_same].
    + intros pid' t. rewrite lookup_insert. case_decide; [intros [= <-]|apply rw_owner0].
      unfold Runtime_has_provider in Hlive. cbn.
      destruct (rt_providers rt !! pb_provider_id b) as [s|]; [|done].
      exists s. split; [done|]. apply bool_decide_eq_true in Hlive. naive_solver.
    + intros pid' t p n. rewrite lookup_insert. case_decide.
      * intros [= <-] (i & n0 & _ & ? & -> & ->)%Hnew. lia.
      * intros Ht Hp. pose proof (rw_node_range0 pid' t p n Ht Hp). lia.
    + intros pid1 t1 p1 n1 pid2 t2 p2 n2. rewrite !lookup_insert.
      case_decide as Hq1; case_decide as Hq2.
      * subst pid1 pid2. intros [= <-] (i & m & Hi1 & ? & Ha & Hb1)%Hnew [= <-]
          (j & m' & Hj & ? & Hc & Hd)%Hnew Hor. split; [done|]. assert (i = j) as -> by lia. congruence.
      * intros [= <-] (i & m & Hi1 & ? & Ha & Hb1)%Hnew Ht Hp Hor.
        pose proof (rw_node_range0 pid2 t2 p2 n2 Ht Hp). lia.
      * intros Ht Hp [= <-] (i & m & Hi1 & ? & Ha & Hb1)%Hnew Hor.
        pose proof (rw_node_range0 pid1 t1 p1 n1 Ht Hp). lia.
      * apply rw_node_inj0.
Qed.

(** ** Histories *)

Lemma run_op_ids rt op :
  rt_wf rt -> rt_next_provider_id rt < u64_max -> rt_next_promise_id rt < u64_max ->
  rt_next_provider_id (run_op rt op) <= rt_next_provider_id rt + 1 /\
  rt_next_promise_id (run_op rt op) <= rt_next_promise_id rt + 1.
Proof.
  intros Hwf H1 H2. pose proof (rw_provider_id _ Hwf). pose proof (rw_promise_id _ Hwf).
  destruct op; cbn [run_op].
  - unfold Runtime_set_cache_policy. destruct (CachePolicy_validated _); cbn; [|lia].
    case_decide; cbn; lia.
  - cbn. rewrite wrapping_add_in; lia.
  - unfold Runtime_unregister_provider. destruct (_ !! _); cbn; lia.
  - destruct (commit_promise_frame rt builder H2 ltac:(lia)) as (_ & -> & ?). lia.
  - pose proof (record_cached_read_cases rt promise_id relative_path offset bytes) as Hc.
    destruct (Runtime_record_cached_read _ _ _ _ _); cbn.
    destruct Hc as [->|(? & ? & ? & _ & _ & _ & _ & _ & _ & _ & ->)]; cbn; lia.
  - pose proof (mark_node_materialized_cases rt promise_id relative_path materialized_path) as Hc.
    destruct (Runtime_mark_node_materialized _ _ _ _); cbn.
    destruct Hc as [[-> _]|(? & ? & ? & _ & _ & _ & _ & _ & ->)]; cbn; lia.
Qed.

Lemma run_op_wf rt op :
  rt_wf rt -> rt_next_provider_id rt < u64_max -> rt_next_promise_id rt < u64_max ->
  op_typed op -> rt_wf (run_op rt op).
Proof.
  intros Hwf H1 H2 Hop. destruct op; cbn in *.
  - by apply set_cache_policy_wf.
  - by apply register_provider_wf.
  - by apply unregister_provider_wf.
  - destruct Hop. by apply commit_promise_wf.
  - by apply record_cached_read_wf.
  - by apply mark_node_materialized_wf.
Qed.

(** A history short enough for the provider and promise counters not to wrap. *)
Definition ids_left (rt : Runtime) (ops : list RuntimeOp) : Prop :=
  rt_next_provider_id rt + len ops <= u64_max /\ rt_next_promise_id rt + len ops <= u64_max.

Lemma ids_left_cons rt op ops :
  rt_wf rt -> ids_left rt (op :: ops) ->
  rt_next_provider_id rt < u64_max /\ rt_next_promise_id rt < u64_max /\ ids_left (run_op rt op) ops.
Proof.
  unfold ids_left. rewrite len_cons. pose proof (len_nonneg ops). intros Hwf [H1 H2].
  destruct (run_op_ids rt op Hwf); lia.
Qed.

Lemma run_ops_ind (P : Runtime -> Prop) rt ops :
  rt_wf rt -> ids_left rt ops -> Forall op_typed ops ->
  (forall rt op, rt_wf rt -> rt_next_provider_id rt < u64_max -> rt_next_promise_id rt < u64_max ->
     op_typed op -> P rt -> P (run_op rt op)) ->
  P rt -> rt_wf (run_ops rt ops) /\ P (run_ops rt ops).
Proof.
  intros Hwf Hids Hty Hstep. revert rt Hwf Hids. induction Hty as [|op ops Hop Hty IH]; intros rt Hwf Hids HP;
    cbn; [done|].
  destruct (ids_left_cons rt op ops Hwf Hids) as (H1 & H2 & H3).
  apply IH; [by apply run_op_wf|done|by apply Hstep].
Qed.

Lemma run_ops_wf ops :
  Forall op_typed ops -> len ops < u64_max -> rt_wf (run_ops Runtime_new ops).
Proof.
  intros Hty Hlen. destruct (run_ops_ind (fun _ => True) Runtime_new ops) as [H _]; auto using new_wf.
  unfold ids_left. cbn. lia.
Qed.

(** ** Lookups on a well-formed runtime *)

Lemma lookup_inode_node rt pid t p n :
  rt_wf rt -> rt_promises rt !! pid = Some t -> pt_nodes t !! p = Some n ->
  Runtime_lookup_inode rt (pn_inode n) = Ok (PromiseNodeEntry pid n).
Proof.
  intros Hwf Ht Hn. unfold Runtime_lookup_inode.
  pose proof (rw_node_range _ Hwf _ _ _ _ Ht Hn) as [[Hi _] _].
  destruct (Z.eqb_spec (pn_inode n) FUSE_ROOT_INODE); [lia|].
  assert (Huniq : forall pid' t' p' n', rt_promises rt !! pid' = Some t' -> pt_nodes t' !! p' = Some n' ->
            (if pn_inode n' =? pn_inode n then Some (PromiseNodeEntry (pt_promise_id t') n') else None)
            = Some (PromiseNodeEntry pid n) \/
            (if pn_inode n' =? pn_inode n then Some (PromiseNodeEntry (pt_promise_id t') n') else None) = None).
  { intros pid' t' p' n' Ht' Hn'. case_bool; [left|by right].
    destruct (rw_node_inj _ Hwf pid' t' p' n' pid t p n) as [-> ->]; auto.
    destruct (rw_promises _ Hwf _ _ Ht') as [-> _]. congruence. }
  erewrite (find_map_unique _ _ t (PromiseNodeEntry pid n)); [done|..].
  - apply elem_of_btree_values. eauto.
  - apply (find_map_unique _ _ n); [apply elem_of_btree_values; eauto|..].
    + rewrite Z.eqb_refl. by destruct (rw_promises _ Hwf _ _ Ht) as [-> _].
    + intros n' e [p' Hn']%elem_of_btree_values. destruct (Huniq pid t p' n' Ht Hn') as [-> | ->]; congruence.
  - intros t' e [pid' Ht']%elem_of_btree_values (n' & [p' Hn']%elem_of_btree_values & He)%find_map_Some.
    destruct (Huniq pid' t' p' n' Ht' Hn') as [H|H]; congruence.
Qed.

Lemma lookup_inode_Ok rt inode e :
  rt_wf rt -> inode <> FUSE_ROOT_INODE -> Runtime_lookup_inode rt inode = Ok e ->
  exists pid t p n, rt_promises rt !! pid = Some t /\ pt_nodes t !! p = Some n /\
    pn_inode n = inode /\ pn_relative_path n = p /\ e = PromiseNodeEntry pid n.
Proof.
  intros Hwf Hne. unfold Runtime_lookup_inode. destruct (Z.eqb_spec inode FUSE_ROOT_INODE) as [|_]; [done|].
  intros (t & [pid Ht]%elem_of_btree_values & (n & [p Hn]%elem_of_btree_values & He)%find_map_Some)%ok_or_Ok%find_map_Some.
  destruct (Z.eqb_spec (pn_inode n) inode); [|done]. injection He as <-.
  destruct (rw_promises _ Hwf _ _ Ht) as [-> _]. destruct (rw_tree _ Hwf _ _ Ht) as [Htw _].
  destruct (twf_path _ _ Htw p n Hn) as [? _]. exists pid, t, p, n. done.
Qed.

Lemma lookup_inode_Err rt inode e : Runtime_lookup_inode rt inode = Err e -> e = NotFound.
Proof. unfold Runtime_lookup_inode. case_bool; [done|]. intros [_ <-]%ok_or_Err. done. Qed.

(** The [unreachable!] arms of [lookup_child] and [read_dir] are not reached. *)
Lemma lookup_never_unreachable rt inode :
  inode <> FUSE_ROOT_INODE -> Runtime_lookup_inode rt inode <> Ok MountRoot.
Proof.
  intros Hne. unfold Runtime_lookup_inode. destruct (Z.eqb_spec inode FUSE_ROOT_INODE) as [|_]; [done|].
  intros (t & _ & (n & _ & He)%find_map_Some)%ok_or_Ok%find_map_Some. case_bool_in He; done.
Qed.

Lemma promise_name_safe k : safe_component (promise_name k).
Proof.
  assert (Hb : forall b, b ∈ promise_name k -> 45 <= byte_val b /\ byte_val b <> 47).
  { intros b. unfold promise_name. rewrite elem_of_app. intros [Hb|Hb%u64_to_string_digits]; [|lia].
    assert (Hall : Forall (fun b => 45 <= byte_val b /\ byte_val b <> 47) (bs "promise-")).
    { repeat constructor; vm_compute; congruence. }
    rewrite Forall_forall in Hall. by apply Hall. }
  repeat split; try done; intros H%Hb; vm_compute in H; by destruct H.
Qed.

(** What the root and a directory node list. *)
Lemma read_dir_root rt :
  rt_wf rt -> exists es, Runtime_read_dir rt FUSE_ROOT_INODE = Ok es /\
    de_name <$> es = (btree_items (rt_promises rt)).*1 /\
    forall e, e ∈ es <-> exists pid t n, rt_promises rt !! pid = Some t /\ pt_nodes t !! [] = Some n /\
      e = mkDirectoryEntry pid (pn_inode n) Directory.
Proof.
  intros Hwf. unfold Runtime_read_dir, btree_values. rewrite Z.eqb_refl.
  assert (Hroot : forall t, t ∈ (btree_items (rt_promises rt)).*2 ->
            exists pid n, rt_promises rt !! pid = Some t /\ pt_nodes t !! [] = Some n /\ pt_promise_id t = pid).
  { intros t ([pid t'] & -> & Ht%elem_of_btree_items)%list_elem_of_fmap. cbn.
    destruct (rw_tree _ Hwf _ _ Ht) as [Htw _]. destruct (twf_root _ _ Htw) as (n & Hn & _).
    destruct (rw_promises _ Hwf _ _ Ht) as [Hp _]. eauto. }
  set (g := fun t => mkDirectoryEntry (pt_promise_id t)
                       (from_option pn_inode 0 (pt_nodes t !! [])) Directory).
  rewrite (collect_total _ g).
  2:{ intros t (pid & n & _ & Hn & _)%Hroot. unfold g. by rewrite Hn. }
  eexists. split; [done|]. split.
  - rewrite <- !list_fmap_compose. apply list_fmap_ext. intros i [pid t] Hi. cbn.
    apply list_elem_of_lookup_2, elem_of_btree_items in Hi. by apply (rw_promises _ Hwf).
  - intros e. rewrite list_elem_of_fmap. split.
    + intros (t & -> & (pid & n & Ht & Hn & Hp)%Hroot). exists pid, t, n. unfold g. by rewrite Hn, Hp.
    + intros (pid & t & n & Ht & Hn & ->). exists t. unfold g. rewrite Hn.
      destruct (rw_promises _ Hwf _ _ Ht) as [-> _]. split; [done|].
      apply list_elem_of_fmap. exists (pid, t). split; [done|by apply elem_of_btree_items].
Qed.

Lemma read_dir_node rt pid t p n :
  rt_wf rt -> rt_promises rt !! pid = Some t -> pt_nodes t !! p = Some n -> pn_kind n = Directory ->
  exists es, Runtime_read_dir rt (pn_inode n) = Ok es /\ NoDup (de_name <$> es) /\
    forall e, e ∈ es <-> exists q m, q <> [] /\ parent_path q = p /\ pt_nodes t !! q = Some m /\
      e = mkDirectoryEntry (leaf_name q) (pn_inode m) (pn_kind m).
Proof.
  intros Hwf Ht Hn Hk. unfold Runtime_read_dir, Runtime_promise.
  pose proof (rw_node_range _ Hwf _ _ _ _ Ht Hn) as [[Hi _] _].
  destruct (Z.eqb_spec (pn_inode n) FUSE_ROOT_INODE); [lia|].
  rewrite (lookup_inode_node rt pid t p n) by done. cbn. rewrite decide_True by done.
  rewrite Ht. cbn. destruct (rw_tree _ Hwf _ _ Ht) as [Htw _].
  destruct (twf_path _ _ Htw p n Hn) as [-> Hsafe].
  destruct (twf_dir _ _ Htw p n Hn Hk) as [cs Hcs]. rewrite Hcs. cbn.
  destruct (twf_children _ _ Htw p cs Hcs) as [_ Hel].
  set (g := fun q => from_option (fun m => mkDirectoryEntry (leaf_name q) (pn_inode m) (pn_kind m))
                       (mkDirectoryEntry [] 0 File) (pt_nodes t !! q)).
  assert (Hg : forall q m, q <> [] -> pt_nodes t !! q = Some m ->
    g q = mkDirectoryEntry (pn_name m) (pn_inode m) (pn_kind m)).
  { intros q m Hq Hm. unfold g. rewrite Hm. cbn. by destruct (twf_node _ _ Htw q m Hm Hq) as (_ & -> & _). }
  rewrite (collect_total _ g).
  2:{ intros q (Hq & _ & [m Hm])%elem_of_btree_set_items%Hel. rewrite Hm. cbn. by rewrite (Hg q m). }
  eexists. split; [done|]. split.
  - rewrite <- list_fmap_compose. apply NoDup_fmap_2_strong; [|apply btree_set_items_NoDup].
    intros q q' (Hq & Hp & [m Hm])%elem_of_btree_set_items%Hel (Hq' & Hp' & [m' Hm'])%elem_of_btree_set_items%Hel.
    unfold compose, g. rewrite Hm, Hm'. cbn. intros Hl.
    destruct (twf_path _ _ Htw q m Hm) as [_ Hs]. destruct (twf_path _ _ Htw q' m' Hm') as [_ Hs'].
    rewrite <- (child_parent_leaf q), <- (child_parent_leaf q') by done. congruence.
  - intros e. rewrite list_elem_of_fmap. split.
    + intros (q & -> & (Hq & Hp & [m Hm])%elem_of_btree_set_items%Hel). exists q, m.
      unfold g. by rewrite Hm.
    + intros (q & m & Hq & Hp & Hm & ->). exists q. unfold g. rewrite Hm. split; [done|].
      apply elem_of_btree_set_items, Hel. eauto.
Qed.

Lemma lookup_child_root rt name e :
  rt_wf rt ->
  Runtime_lookup_child rt FUSE_ROOT_INODE name = Ok e <->
  exists t n, rt_promises rt !! name = Some t /\ pt_nodes t !! [] = Some n /\
    e = PromiseNodeEntry name n.
Proof.
  intros Hwf. unfold Runtime_lookup_child, Runtime_promise. rewrite Z.eqb_refl, bind_Ok. split.
  - intros ([] & _ & (t & Ht%ok_or_Ok & (n & Hn%ok_or_Ok & [= <-])%bind_Ok)%bind_Ok).
    exists t, n. destruct (rw_promises _ Hwf _ _ Ht) as [-> _]. done.
  - intros (t & n & Ht & Hn & ->). exists tt. destruct (rw_promises _ Hwf _ _ Ht) as [Hp (k & Hk & _)].
    split; [rewrite Hk; apply validate_child_name_Ok, promise_name_safe|].
    rewrite Ht. cbn. rewrite Hn. cbn. by rewrite Hp.
Qed.

Lemma lookup_child_node rt pid t p n name e :
  rt_wf rt -> rt_promises rt !! pid = Some t -> pt_nodes t !! p = Some n -> pn_kind n = Directory ->
  Runtime_lookup_child rt (pn_inode n) name = Ok e <->
  exists m, safe_component name /\ pt_nodes t !! child_path p name = Some m /\
    e = PromiseNodeEntry pid m.
Proof.
  intros Hwf Ht Hn Hk. unfold Runtime_lookup_child, Runtime_promise.
  pose proof (rw_node_range _ Hwf _ _ _ _ Ht Hn) as [[Hi _] _].
  destruct (Z.eqb_spec (pn_inode n) FUSE_ROOT_INODE); [lia|].
  rewrite (lookup_inode_node rt pid t p n) by done.
  destruct (rw_tree _ Hwf _ _ Ht) as [Htw _].
  destruct (twf_path _ _ Htw p n Hn) as [Hp Hsafe].
  destruct (twf_dir _ _ Htw p n Hn Hk) as [cs Hcs].
  destruct (twf_children _ _ Htw p cs Hcs) as [_ Hel].
  rewrite bind_Ok. cbn. rewrite decide_True, Ht by done. cbn. rewrite Hp, Hcs. split.
  - intros ([] & Hv%validate_child_name_Ok & He). case_bool_decide as Hin; [|done].
    inv_ok. naive_solver.
  - intros (m & Hv & Hm & ->). exists tt. split; [by apply validate_child_name_Ok|].
    rewrite bool_decide_eq_true_2; [by rewrite Hm|]. apply Hel. split_and!; eauto.
    + apply child_path_nonempty. by destruct Hv.
    + by apply parent_of_child.
Qed.

(** ** A disconnected provider stays disconnected *)

Definition disconnected (id : ProviderId) (rt : Runtime) : Prop :=
  exists s, rt_providers rt !! id = Some s /\ ps_state s = Disconnected.

Lemma run_op_providers rt op id s :
  rt_wf rt -> rt_next_promise_id rt < u64_max ->
  rt_providers rt !! id = Some s ->
  exists s', rt_providers (run_op rt op) !! id = Some s' /\
    (ps_state s' = Live -> ps_state s = Live).
Proof.
  intros Hwf H2 Hs. pose proof (rw_promise_id _ Hwf). destruct op; cbn [run_op].
  - unfold Runtime_set_cache_policy. destruct (CachePolicy_validated _); cbn; [case_decide; cbn|]; eauto.
  - cbn. rewrite lookup_insert_ne; [eauto|]. intros <-. apply (rw_providers _ Hwf) in Hs. lia.
  - unfold Runtime_unregister_provider. destruct (rt_providers rt !! provider_id) eqn:Hp; cbn; [|eauto].
    rewrite lookup_insert. case_decide; [|eauto]. eexists. split; [done|]. done.
  - destruct (commit_promise_frame rt builder H2 ltac:(lia)) as (-> & _ & _). eauto.
  - pose proof (record_cached_read_cases rt promise_id relative_path offset bytes) as Hc.
    destruct (Runtime_record_cached_read _ _ _ _ _); cbn.
    destruct Hc as [->|(? & ? & ? & _ & _ & _ & _ & _ & _ & _ & ->)]; cbn; eauto.
  - pose proof (mark_node_materialized_cases rt promise_id relative_path materialized_path) as Hc.
    destruct (Runtime_mark_node_materialized _ _ _ _); cbn.
    destruct Hc as [[-> _]|(? & ? & ? & _ & _ & _ & _ & _ & ->)]; cbn; eauto.
Qed.

Lemma disconnected_run_op id rt op :
  rt_wf rt -> rt_next_promise_id rt < u64_max -> disconnected id rt -> disconnected id (run_op rt op).
Proof.
  intros Hwf Hmax (s & Hs & Hd). destruct (run_op_providers rt op id s Hwf Hmax Hs) as (s' & Hs' & Hl).
  exists s'. split; [done|]. destruct (ps_state s'); [|done]. rewrite Hl in Hd by done. done.
Qed.

Lemma disconnected_facts id rt :
  rt_wf rt -> disconnected id rt ->
  Runtime_has_provider rt id = false /\
  (forall pid t, rt_promises rt !! pid = Some t -> pt_provider_id t = id -> pt_state t <> Available).
Proof.
  intros Hwf (s & Hs & Hd). split.
  - unfold Runtime_has_provider. rewrite Hs. apply bool_decide_eq_false. congruence.
  - intros pid t Ht <-. destruct (rw_owner _ Hwf pid t Ht) as (s' & Hs' & Hl). intros Ha%Hl; congruence.
Qed.

(** ** Sample history *)

Definition call_typed (c : AddCall) : Prop := in_u64 (attr_size (ac_attr c)).

Lemma built_typed provider_id calls :
  Forall call_typed calls -> nodes_typed (pb_nodes (built provider_id calls)).
Proof.
  unfold built. assert (H0 : nodes_typed (pb_nodes (PromiseBuilder_new provider_id))).
  { intros p n; cbn; intros [<- <-]%lookup_singleton_Some. split; vm_compute; congruence. }
  revert H0. generalize (PromiseBuilder_new provider_id).
  intros b Hb Hc. revert b Hb. induction Hc as [|c calls Hc Hcs IH]; intros b Hb; cbn; [done|].
  apply IH. rewrite add_call_node.
  pose proof (add_node_cases b (ac_path c) (ac_attr c) (ac_provider_node_id c) (ac_kind c)) as H.
  destruct (PromiseBuilder_add_node _ _ _ _ _) as [b' r]. cbn.
  destruct H as [(e & _ & ->)|(path & pn & _ & _ & _ & _ & _ & _ & _ & _ & ->)]; [done|].
  rewrite insert_node_nodes. by apply map_Forall_insert_2.
Qed.

Lemma commit_typed provider_id calls :
  Forall call_typed calls -> op_typed (OpCommitPromise (built provider_id calls)).
Proof. intros. split; [apply built_wf|by apply built_typed]. Qed.

Definition sample_ops : list RuntimeOp :=
  [ OpRegisterProvider; OpCommitPromise (built 1 sample_calls);
    OpSetCachePolicy (ReadThrough 4); OpRegisterProvider;
    OpCommitPromise (built 2 sample_calls);
    OpRecordCachedRead (bs "promise-1") (bs "docs/readme.txt") 0 (bs "hello");
    OpMarkNodeMaterialized (bs "promise-2") (bs "docs/readme.txt") (bs "/tmp/readme.txt");
    OpUnregisterProvider 2 ].

Lemma sample_calls_typed : Forall call_typed sample_calls.
Proof. repeat constructor; vm_compute; congruence. Qed.

Lemma sample_ops_typed : Forall op_typed sample_ops.
Proof.
  repeat apply Forall_cons_2; try apply Forall_nil_2; try exact I;
    try apply commit_typed, sample_calls_typed.
  all: split; vm_compute; congruence.
Qed.

Lemma sample_rt_wf : rt_wf (run_ops Runtime_new sample_ops).
Proof. apply run_ops_wf; [apply sample_ops_typed|vm_compute; reflexivity]. Qed.

Lemma read_dir_lookup_child rt inode :
  rt_wf rt ->
  inode = FUSE_ROOT_INODE \/
    (exists pid n, Runtime_lookup_inode rt inode = Ok (PromiseNodeEntry pid n) /\ pn_kind n = Directory) ->
  exists es, Runtime_read_dir rt inode = Ok es /\ NoDup (de_name <$> es) /\
    forall name i k, mkDirectoryEntry name i k ∈ es <->
      exists e, Runtime_lookup_child rt inode name = Ok e /\
        RuntimeEntry_inode e = i /\ RuntimeEntry_kind e = k.
Proof.
  intros Hwf Hdir. destruct (decide (inode = FUSE_ROOT_INODE)) as [->|Hne].
  - destruct (read_dir_root rt Hwf) as (es & Hes & Hnames & Hel). exists es. split; [done|].
    split; [rewrite Hnames; apply btree_items_NoDup_keys|].
    intros name i k. rewrite Hel. setoid_rewrite lookup_child_root; [|done]. split.
    + intros (pid & t & n & Ht & Hn & [= -> -> ->]). eexists. split; [by eauto|]. cbn.
      destruct (rw_tree _ Hwf _ _ Ht) as [Htw _]. destruct (twf_root _ _ Htw) as (n' & Hn' & Hk & _).
      split; congruence.
    + intros (e & (t & n & Ht & Hn & ->) & <- & <-). exists name, t, n. cbn.
      destruct (rw_tree _ Hwf _ _ Ht) as [Htw _]. destruct (twf_root _ _ Htw) as (n' & Hn' & Hk & _).
      split_and!; congruence.
  - destruct Hdir as [?|(pid & n & Hl & Hk)]; [done|].
    destruct (lookup_inode_Ok rt inode _ Hwf Hne Hl) as (pid' & t & p & n' & Ht & Hn & Hi & Hp & [= <- <-]).
    subst inode. destruct (read_dir_node rt pid t p n Hwf Ht Hn Hk) as (es & Hes & Hnd & Hel).
    exists es. split_and!; [done..|]. intros name i k. rewrite Hel.
    destruct (rw_tree _ Hwf _ _ Ht) as [Htw _]. destruct (twf_path _ _ Htw p n Hn) as [_ Hsafe].
    setoid_rewrite (lookup_child_node rt pid t p n name); [|done..]. split.
    + intros (q & m & Hq & <- & Hm & [= -> -> ->]). exists (PromiseNodeEntry pid m). split; [|done].
      destruct (twf_path _ _ Htw q m Hm) as [_ Hqs]. exists m.
      rewrite child_parent_leaf by done. auto with fp.
    + intros (e & (m & Hs & Hm & ->) & <- & <-). exists (child_path p name), m.
      rewrite parent_of_child, leaf_of_child by done. split_and!; try done.
      apply child_path_nonempty. by destruct Hs.
Qed.

Lemma read_dir_file rt inode pid n :
  Runtime_lookup_inode rt inode = Ok (PromiseNodeEntry pid n) -> pn_kind n = File ->
  Runtime_read_dir rt inode = Err InvalidArgument.
Proof.
  intros Hl Hk. unfold Runtime_read_dir. destruct (Z.eqb_spec inode FUSE_ROOT_INODE) as [->|_]; [done|].
  rewrite Hl. cbn. rewrite decide_False by congruence. done.
Qed.

(** ** Properties *)

(** C1: after any sequence of runtime calls (fewer than [u64::MAX] of them, so
    that the provider and promise counters do not wrap), accepted or not, the
    runtime is well formed: provider and promise ids are the counters' past
    values, every promise is stored under its own id with well-formed indexes
    and an owner that is registered, a promise is [Available] exactly while its
    provider is live, inodes and node ids are unique across all promises and
    never the mount root's, and the read cache is well formed. *)
Theorem Runtime_history_invariant ops :
  Forall op_typed ops -> len ops < u64_max -> rt_wf (run_ops Runtime_new ops).
Proof. apply run_ops_wf. Qed.

Lemma Runtime_history_invariant_witness :
  rt_wf (run_ops Runtime_new sample_ops) /\
  Runtime_promise_count (run_ops Runtime_new sample_ops) = 2.
Proof.
  split; [|vm_compute; reflexivity].
  apply Runtime_history_invariant; [apply sample_ops_typed|vm_compute; reflexivity].
Defined.

(** On a well-formed runtime an inode other than the mount root's resolves
    to the one node that carries it, together with its promise, and is
    [NotFound] exactly when no node carries it. *)
Theorem Runtime_lookup_inode_correct rt inode :
  rt_wf rt ->
  Runtime_lookup_inode rt FUSE_ROOT_INODE = Ok MountRoot /\
  (inode <> FUSE_ROOT_INODE ->
   forall pid n, Runtime_lookup_inode rt inode = Ok (PromiseNodeEntry pid n) <->
     pn_inode n = inode /\ exists t, rt_promises rt !! pid = Some t /\
       pt_nodes t !! pn_relative_path n = Some n) /\
  (Runtime_lookup_inode rt inode = Err NotFound <->
   inode <> FUSE_ROOT_INODE /\ forall pid t p n, rt_promises rt !! pid = Some t ->
     pt_nodes t !! p = Some n -> pn_inode n <> inode).
Proof.
  intros Hwf. split; [done|]. split.
  - intros Hne pid n. split.
    + intros H. destruct (lookup_inode_Ok rt inode _ Hwf Hne H) as (pid' & t & p & n' & Ht & Hn & Hi & Hp & [= <- <-]).
      split; [done|]. exists t. by rewrite Hp.
    + intros (<- & t & Ht & Hn). by eapply lookup_inode_node.
  - split.
    + intros H. split; [by intros ->|]. intros pid t p n Ht Hn <-.
      rewrite (lookup_inode_node rt pid t p n) in H by done. done.
    + intros [Hne Hno]. destruct (Runtime_lookup_inode rt inode) as [e|e] eqn:He.
      * destruct (lookup_inode_Ok rt inode e Hwf Hne He) as (pid & t & p & n & Ht & Hn & Hi & _).
        by destruct (Hno pid t p n Ht Hn).
      * by rewrite (lookup_inode_Err _ _ _ He).
Qed.

Lemma Runtime_lookup_inode_correct_witness :
  let rt := run_ops Runtime_new sample_ops in
  Runtime_lookup_inode rt 99 = Err NotFound /\
  is_ok (Runtime_lookup_inode rt 6) = true /\
  forall t p n, rt_promises rt !! bs "promise-1" = Some t -> pt_nodes t !! p = Some n -> pn_inode n <> 99.
Proof.
  intros rt. split; [vm_compute; reflexivity|]. split; [vm_compute; reflexivity|].
  intros t p n. apply (Runtime_lookup_inode_correct rt 99 sample_rt_wf). vm_compute. reflexivity.
Defined.

(** [read_dir] and [lookup_child] agree.  On the mount root and on every
    directory node [read_dir] succeeds, lists each name once, and the entries it
    lists are exactly the names [lookup_child] resolves, with the same inode and
    kind; on a file it fails with [InvalidArgument]. *)
Theorem Runtime_read_dir_lookup_child_agree rt inode :
  rt_wf rt ->
  (forall pid n, Runtime_lookup_inode rt inode = Ok (PromiseNodeEntry pid n) -> pn_kind n = File ->
     Runtime_read_dir rt inode = Err InvalidArgument) /\
  ((inode = FUSE_ROOT_INODE \/
   exists pid n, Runtime_lookup_inode rt inode = Ok (PromiseNodeEntry pid n) /\ pn_kind n = Directory) ->
  exists es, Runtime_read_dir rt inode = Ok es /\ NoDup (de_name <$> es) /\
    forall name i k, mkDirectoryEntry name i k ∈ es <->
      exists e, Runtime_lookup_child rt inode name = Ok e /\
        RuntimeEntry_inode e = i /\ RuntimeEntry_kind e = k).
Proof.
  intros Hwf. split; [apply read_dir_file|by apply read_dir_lookup_child].
Qed.

Lemma Runtime_read_dir_lookup_child_agree_witness :
  let rt := run_ops Runtime_new sample_ops in
  exists es, Runtime_read_dir rt FUSE_ROOT_INODE = Ok es /\ length es = 2%nat /\ NoDup (de_name <$> es).
Proof.
  intros rt.
  destruct (Runtime_read_dir_lookup_child_agree rt FUSE_ROOT_INODE sample_rt_wf) as [_ H].
  destruct H as (es & Hes & Hnd & _); [by left|].
  exists es. split; [exact Hes|]. split; [|exact Hnd].
  vm_compute in Hes. injection Hes as <-. reflexivity.
Defined.

(** A commit for a live provider that does not run out of ids stores
    under a fresh promise id a tree in state [Available] whose nodes are the
    builder's, each with a new inode and node id; every earlier promise, the
    providers and the cache are unchanged.  A commit for any other provider
    fails with [ProviderGone] and changes nothing. *)
Theorem Runtime_commit_promise_correct rt b :
  rt_wf rt -> rt_next_promise_id rt < u64_max ->
  let '(rt', r) := Runtime_commit_promise rt b in
  (Runtime_has_provider rt (pb_provider_id b) = false -> rt' = rt /\ r = Err ProviderGone) /\
  (Runtime_has_provider rt (pb_provider_id b) = true ->
     rt_providers rt' = rt_providers rt /\ rt_read_cache rt' = rt_read_cache rt /\
     (rt_next_node_id rt + len (btree_items (pb_nodes b)) <= u64_max ->
      rt_next_inode rt + len (btree_items (pb_nodes b)) <= u64_max -> exists t, r = Ok t) /\
     (forall e, r = Err e -> rt_promises rt' = rt_promises rt) /\
     (forall t, r = Ok t ->
        rt_promises rt !! pt_promise_id t = None /\
        rt_promises rt' = <[pt_promise_id t := t]> (rt_promises rt) /\
        pt_provider_id t = pb_provider_id b /\ pt_state t = Available /\
        pt_children t = pb_children b /\ same_nodes (pb_nodes b) (pt_nodes t) /\
        forall p n, pt_nodes t !! p = Some n ->
          rt_next_inode rt <= pn_inode n < rt_next_inode rt' /\
          rt_next_node_id rt <= pn_node_id n < rt_next_node_id rt')).
Proof.
  intros Hwf Hmax. pose proof (rw_promise_id _ Hwf).
  pose proof (commit_promise_cases rt b Hmax ltac:(lia)) as Hc.
  pose proof (commit_promise_total rt b Hmax ltac:(lia)) as Htot.
  pose proof (commit_tree_added rt b Hwf Hmax) as Hadd.
  destruct (Runtime_commit_promise rt b) as [rt' r].
  destruct Hc as [(Hl & -> & ->)|(Hl & nid & ino & _ & _ & Hc)]; (split; [done || congruence|]); [congruence|].
  intros _. specialize (Htot Hl).
  destruct Hc as [(e & -> & ->)|(Hn & Hi & -> & ->)]; cbn;
    (split_and!; [done|done|exact Htot|done|]); [done|].
  intros t [= <-]. cbn. split_and!; try done; [|apply numbered_same|].
  - by destruct Hadd as (_ & ? & _).
  - intros p n (i & n0 & Hi0%lookup_lt_Some & ->)%numbered_nodes. cbn. unfold len in *. lia.
Qed.

Lemma Runtime_commit_promise_correct_witness :
  let rt := run_ops Runtime_new sample_ops in
  exists t, (Runtime_commit_promise rt (built 1 sample_calls)).2 = Ok t /\
    rt_promises rt !! pt_promise_id t = None.
Proof.
  intros rt.
  pose proof (Runtime_commit_promise_correct rt (built 1 sample_calls) sample_rt_wf) as H.
  destruct (Runtime_commit_promise rt (built 1 sample_calls)) as [rt' r].
  destruct H as [_ H]; [vm_compute; reflexivity|].
  destruct H as (_ & _ & H1 & _ & H2); [vm_compute; reflexivity|].
  destruct H1 as [t Ht]; [vm_compute; congruence..|].
  exists t. split; [exact Ht|]. apply (H2 t Ht).
Defined.

(** Once a provider has been unregistered, no later sequence of calls
    brings it back: it is never live again, none of its promises is ever
    [Available] again, and a commit in its name is refused. *)
Theorem Runtime_disconnect_permanent rt id ops :
  rt_wf rt -> is_Some (rt_providers rt !! id) ->
  Forall op_typed ops -> ids_left rt ops ->
  let rt' := run_ops (Runtime_unregister_provider rt id).1 ops in
  (Runtime_unregister_provider rt id).2 = Ok tt /\
  Runtime_has_provider rt' id = false /\
  (forall pid t, rt_promises rt' !! pid = Some t -> pt_provider_id t = id -> pt_state t <> Available) /\
  (forall b, pb_provider_id b = id -> Runtime_commit_promise rt' b = (rt', Err ProviderGone)).
Proof.
  intros Hwf [s Hs] Hty Hids. set (rt1 := (Runtime_unregister_provider rt id).1). intros rt'.
  assert (Hd : disconnected id rt1 /\ ids_left rt1 ops /\ (Runtime_unregister_provider rt id).2 = Ok tt).
  { unfold rt1, Runtime_unregister_provider, disconnected. rewrite Hs. cbn. rewrite lookup_insert_eq. eauto. }
  destruct Hd as (Hd & Hids1 & Hok).
  destruct (run_ops_ind (disconnected id) rt1 ops) as [Hwf' Hd']; auto using disconnected_run_op.
  { by apply unregister_provider_wf. }
  destruct (disconnected_facts id rt' Hwf' Hd') as [Hno Hp]. split_and!; try done.
  intros b Hb. unfold Runtime_commit_promise. by rewrite Hb, Hno.
Qed.

Lemma Runtime_disconnect_permanent_witness :
  let rt := run_ops Runtime_new sample_ops in
  let rt' := run_ops (Runtime_unregister_provider rt 1).1 [OpRegisterProvider; OpSetCachePolicy NoCache] in
  Runtime_has_provider rt 1 = true /\ Runtime_has_provider rt' 1 = false /\ Runtime_has_provider rt' 3 = true.
Proof.
  intros rt rt'. split; [vm_compute; reflexivity|]. split; [|vm_compute; reflexivity].
  apply (Runtime_disconnect_permanent rt 1 [OpRegisterProvider; OpSetCachePolicy NoCache] sample_rt_wf).
  - apply (bool_decide_unpack _). vm_compute. exact I.
  - repeat constructor.
  - split; vm_compute; congruence.
Defined.
