(* ===== verification/ReadPlan.v ===== *)
(** * Read planning

    [Runtime::plan_read], [plan_provider_read], [plan_sequential_prefetch] and
    [plan_coalesced_provider_read] of [crates/fuse-promise-runtime/src/lib.rs]:
    how a byte range asked for by the kernel becomes a materialized read, a
    cached read, or a request to the provider. *)

From S2P Require Import Prelude Types Paths Cache Tree Runtime.

(** ** Planning *)

Definition Runtime_plan_provider_read (self : Runtime) (promise_id relative_path : str)
    (offset length : Z) : Result ProviderReadPlan :=
  tree ← ok_or (Runtime_promise self promise_id) NotFound;
  node ← ok_or (PromiseTree_get tree relative_path) NotFound;
  if decide (pn_kind node <> File) then Err InvalidArgument
  else if (length =? 0) || (attr_size (pn_attr node) <=? offset) then Err InvalidArgument
  else
    let remaining := attr_size (pn_attr node) - offset in
    let length := Z.min length remaining in
    length ← ok_or (u32_try_from length) InvalidArgument;
    _ ← ok_or (checked_add offset length) InvalidArgument;
    if decide (pt_state tree <> Available) then Err ProviderGone
    else if negb (Runtime_has_provider self (pt_provider_id tree)) then Err ProviderGone
    else Ok (mkProviderReadPlan (pt_provider_id tree) (pt_promise_id tree)
               (pn_relative_path node) (pn_provider_node_id node) offset length).

Definition Runtime_plan_read (self : Runtime) (promise_id relative_path : str)
    (offset length : Z) : Result ReadPlan :=
  tree ← ok_or (Runtime_promise self promise_id) NotFound;
  node ← ok_or (PromiseTree_get tree relative_path) NotFound;
  if decide (pn_kind node <> File) then Err InvalidArgument
  else if (length =? 0) || (attr_size (pn_attr node) <=? offset) then Ok Eof
  else
    let remaining := attr_size (pn_attr node) - offset in
    let length := Z.min length remaining in
    length ← ok_or (u32_try_from length) InvalidArgument;
    _ ← ok_or (checked_add offset length) InvalidArgument;
    match pn_materialized_path node with
    | Some path => Ok (MaterializedPlan (mkMaterializedReadPlan path offset length))
    | None =>
        let cached :=
          chunk_size ← CachePolicy_chunk_size (rt_cache_policy self);
          ReadCache_read (rt_read_cache self) promise_id (pn_relative_path node) offset length
            chunk_size in
        match cached with
        | Some bytes => Ok (CachedPlan bytes)
        | None =>
            RequestPlan <$>
              Runtime_plan_provider_read self promise_id (pn_relative_path node) offset length
        end
    end.

Definition Runtime_plan_sequential_prefetch (self : Runtime) (promise_id relative_path : str)
    (completed_offset completed_length : Z) : Result (option ProviderReadPlan) :=
  match CachePolicy_chunk_size (rt_cache_policy self) with
  | None => Ok None
  | Some chunk_size =>
      if completed_length =? 0 then Ok None
      else
        tree ← ok_or (Runtime_promise self promise_id) NotFound;
        node ← ok_or (PromiseTree_get tree relative_path) NotFound;
        if decide (pn_kind node <> File) then Err InvalidArgument
        else if decide (is_Some (pn_materialized_path node)) then Ok None
        else if decide (pt_state tree <> Available) then Err ProviderGone
        else if negb (Runtime_has_provider self (pt_provider_id tree)) then Err ProviderGone
        else
          offset ← ok_or (checked_add completed_offset completed_length) InvalidArgument;
          if attr_size (pn_attr node) <=? offset then Ok None
          else
            let remaining := attr_size (pn_attr node) - offset in
            let length := Z.min chunk_size remaining in
            length ← ok_or (u32_try_from length) InvalidArgument;
            match ReadCache_read (rt_read_cache self) promise_id (pn_relative_path node) offset
                    length chunk_size with
            | Some _ => Ok None
            | None =>
                Ok (Some (mkProviderReadPlan (pt_provider_id tree) (pt_promise_id tree)
                            (pn_relative_path node) (pn_provider_node_id node) offset length))
            end
  end.

Definition Runtime_plan_coalesced_provider_read (self : Runtime) (plan : ProviderReadPlan) :
    Result CoalescedProviderReadPlan :=
  match CachePolicy_chunk_size (rt_cache_policy self) with
  | None => Ok (mkCoalescedProviderReadPlan plan 0 (prp_length plan))
  | Some chunk_size =>
      tree ← ok_or (Runtime_promise self (prp_promise_id plan)) NotFound;
      node ← ok_or (PromiseTree_get tree (prp_relative_path plan)) NotFound;
      if decide (pn_kind node <> File) then Err InvalidArgument
      else
        let chunk_start := chunk_base (prp_offset plan) chunk_size in
        chunk_end ← ok_or (checked_add chunk_start chunk_size) InvalidArgument;
        request_end ← ok_or (checked_add (prp_offset plan) (prp_length plan)) InvalidArgument;
        if chunk_end <? request_end then Ok (mkCoalescedProviderReadPlan plan 0 (prp_length plan))
        else
          let remaining := saturating_sub (attr_size (pn_attr node)) chunk_start in
          let length := Z.min chunk_size remaining in
          length ← ok_or (u32_try_from length) InvalidArgument;
          response_offset ← ok_or (u32_try_from (prp_offset plan - chunk_start)) InvalidArgument;
          Ok (mkCoalescedProviderReadPlan
                (mkProviderReadPlan (prp_provider_id plan) (prp_promise_id plan)
                   (prp_relative_path plan) (prp_provider_node_id plan) chunk_start length)
                response_offset (prp_length plan))
  end.

(** ** Reading one file of a well-formed runtime *)

(** The file a path names, with the promise that owns it. *)
Definition file_of (rt : Runtime) (promise_id relative_path : str) (t : PromiseTree)
    (n : PromiseNode) : Prop :=
  rt_promises rt !! promise_id = Some t /\ PromiseTree_get t relative_path = Some n /\
  pn_kind n = File.

(** The number of bytes a read of [length] at [offset] may return. *)
Definition clamp (size offset length : Z) : Z := Z.max 0 (Z.min length (size - offset)).

Lemma file_of_canonical rt pid path t n :
  rt_wf rt -> file_of rt pid path t n ->
  file_of rt pid (pn_relative_path n) t n /\ pt_promise_id t = pid /\
  pt_nodes t !! pn_relative_path n = Some n /\
  in_u64 (attr_size (pn_attr n)).
Proof.
  intros Hwf (Ht & Hg & Hk). unfold PromiseTree_get in Hg.
  apply bind_Some in Hg as (p & _ & Hp).
  destruct (rw_tree _ Hwf _ _ Ht) as [Htw Hty]. destruct (twf_path _ _ Htw p n Hp) as [-> Hs].
  split; [|split; [by apply (rw_promises _ Hwf)|split; [done|by apply (Hty p n)]]].
  split_and!; try done. unfold PromiseTree_get. by rewrite normalize_safe_id.
Qed.

(** [plan_provider_read] on a file: the request, or the reason there is none. *)
Lemma plan_provider_read_file rt pid path t n offset length :
  rt_wf rt -> file_of rt pid path t n -> 0 <= offset -> in_u32 length ->
  Runtime_plan_provider_read rt pid path offset length =
    if (length =? 0) || (attr_size (pn_attr n) <=? offset) then Err InvalidArgument
    else if decide (pt_state t = Available) then
      Ok (mkProviderReadPlan (pt_provider_id t) pid (pn_relative_path n) (pn_provider_node_id n)
            offset (clamp (attr_size (pn_attr n)) offset length))
    else Err ProviderGone.
Proof.
  intros Hwf Hf Hoff Hlen. pose proof (file_of_canonical _ _ _ _ _ Hwf Hf) as (_ & Hpid & _ & [_ Hmax]).
  destruct Hf as (Ht & Hg & Hk). unfold Runtime_plan_provider_read, Runtime_promise, clamp.
  rewrite Ht. cbn. rewrite Hg. cbn. rewrite decide_False by naive_solver.
  destruct ((length =? 0) || (attr_size (pn_attr n) <=? offset)) eqn:Hz; [done|].
  apply orb_false_iff in Hz as [Hz1%Z.eqb_neq Hz2%Z.leb_gt]. destruct Hlen.
  rewrite u32_try_from_in by lia. cbn. rewrite checked_add_in by lia. cbn.
  destruct (rw_owner _ Hwf _ _ Ht) as (s & Hs & Hl). rewrite Hpid, Z.max_r by lia.
  unfold Runtime_has_provider. rewrite Hs.
  destruct (decide (pt_state t = Available)) as [Ha|Ha].
  - rewrite decide_False by auto. rewrite bool_decide_eq_true_2 by by apply Hl. done.
  - by rewrite decide_True.
Qed.

(** [plan_read] on a file, as a decision table. *)
Lemma plan_read_file rt pid path t n offset length :
  rt_wf rt -> file_of rt pid path t n -> 0 <= offset -> in_u32 length ->
  Runtime_plan_read rt pid path offset length =
    let length := clamp (attr_size (pn_attr n)) offset length in
    if length =? 0 then Ok Eof
    else match pn_materialized_path n with
    | Some p => Ok (MaterializedPlan (mkMaterializedReadPlan p offset length))
    | None =>
        match (chunk_size ← CachePolicy_chunk_size (rt_cache_policy rt);
               ReadCache_read (rt_read_cache rt) pid (pn_relative_path n) offset length chunk_size) with
        | Some bytes => Ok (CachedPlan bytes)
        | None =>
            if decide (pt_state t = Available) then
              Ok (RequestPlan (mkProviderReadPlan (pt_provider_id t) pid (pn_relative_path n)
                                 (pn_provider_node_id n) offset length))
            else Err ProviderGone
        end
    end.
Proof.
  intros Hwf Hf Hoff Hlen. pose proof (file_of_canonical _ _ _ _ _ Hwf Hf) as (Hf' & Hpid & _ & [_ Hmax]).
  pose proof Hf as (Ht & Hg & Hk). unfold Runtime_plan_read, Runtime_promise. destruct Hlen as [Hl0 Hl1].
  rewrite Ht. cbn. rewrite Hg. cbn. rewrite decide_False by naive_solver.
  set (size := attr_size (pn_attr n)) in *. unfold clamp.
  destruct (Z.eqb_spec length 0); cbn; [rewrite (proj2 (Z.eqb_eq _ 0)) by lia; done|].
  destruct (Z.leb_spec size offset); [rewrite (proj2 (Z.eqb_eq _ 0)) by lia; done|].
  rewrite (proj2 (Z.eqb_neq _ 0)), Z.max_r by lia.
  rewrite u32_try_from_in by lia. cbn. rewrite checked_add_in by lia. cbn.
  destruct (pn_materialized_path n); [done|]. destruct (_ ≫= _); [done|].
  rewrite (plan_provider_read_file _ _ _ _ _ _ _ Hwf Hf') by (unfold in_u32; lia). fold size.
  rewrite (proj2 (Z.eqb_neq _ 0)), (proj2 (Z.leb_gt _ _)) by lia. cbn.
  case_decide; cbn; [|done]. unfold clamp. do 3 f_equal. lia.
Qed.

(** The three ways a read does not reach a file. *)
Lemma plan_read_no_file rt pid path offset length :
  (forall t n, ~ file_of rt pid path t n) ->
  (Runtime_plan_read rt pid path offset length = Err NotFound /\
     (rt_promises rt !! pid ≫= fun t => PromiseTree_get t path) = None) \/
  (Runtime_plan_read rt pid path offset length = Err InvalidArgument /\
     exists t n, rt_promises rt !! pid = Some t /\ PromiseTree_get t path = Some n /\ pn_kind n = Directory).
Proof.
  intros Hno. unfold Runtime_plan_read, Runtime_promise.
  destruct (rt_promises rt !! pid) as [t|] eqn:Ht; cbn; [|by left].
  destruct (PromiseTree_get t path) as [n|] eqn:Hg; cbn; [|by left].
  destruct (decide (pn_kind n = File)) as [Hk|Hk]; [by destruct (Hno t n)|].
  right. rewrite decide_True by done. split; [done|]. exists t, n. by destruct (pn_kind n).
Qed.

Lemma file_of_dec rt pid path :
  (exists t n, file_of rt pid path t n) \/ (forall t n, ~ file_of rt pid path t n).
Proof.
  destruct (rt_promises rt !! pid) as [t|] eqn:Ht; [|right; by intros t n (? & _); simplify_eq].
  destruct (PromiseTree_get t path) as [n|] eqn:Hg; [|right; by intros t' n (? & ? & _); simplify_eq].
  destruct (decide (pn_kind n = File)) as [Hk|Hk]; [left; by exists t, n|].
  right. intros t' n' (? & ? & ?). simplify_eq.
Qed.

Lemma clamp_bounds size offset length :
  0 <= length -> clamp size offset length <> 0 ->
  0 < clamp size offset length <= length /\ offset + clamp size offset length <= size /\
  (clamp size offset length = length \/ offset + clamp size offset length = size).
Proof. unfold clamp. lia. Qed.

(** ** Planning after a disconnect *)

Lemma unregister_promise rt id pid :
  rt_promises (Runtime_unregister_provider rt id).1 !! pid =
    (fun t => if decide (is_Some (rt_providers rt !! id)) then mark_provider_gone id t else t)
      <$> (rt_promises rt !! pid).
Proof.
  unfold Runtime_unregister_provider. destruct (rt_providers rt !! id) as [s|] eqn:Hs; cbn;
    rewrite ?lookup_fmap; destruct (rt_promises rt !! pid); cbn; try done.
Qed.

Lemma unregister_cache rt id :
  rt_cache_policy (Runtime_unregister_provider rt id).1 = rt_cache_policy rt /\
  rt_read_cache (Runtime_unregister_provider rt id).1 = rt_read_cache rt.
Proof. unfold Runtime_unregister_provider. by destruct (rt_providers rt !! id). Qed.

Lemma gone_get id t path : PromiseTree_get (mark_provider_gone id t) path = PromiseTree_get t path.
Proof. unfold mark_provider_gone. by case_decide. Qed.

Lemma unregister_file_of rt id pid path t n :
  file_of rt pid path t n ->
  exists t', file_of (Runtime_unregister_provider rt id).1 pid path t' n /\
    pt_provider_id t' = pt_provider_id t /\
    (pt_state t' = Available <->
       pt_state t = Available /\ ~ (is_Some (rt_providers rt !! id) /\ pt_provider_id t = id)).
Proof.
  intros (Ht & Hg & Hk). pose proof (unregister_promise rt id pid) as Hu. rewrite Ht in Hu.
  eexists. split; [split_and!; [exact Hu| |done]|].
  - case_decide; [by rewrite gone_get|done].
  - unfold mark_provider_gone. repeat case_decide; cbn; naive_solver.
Qed.

Lemma unregister_no_file rt id pid path :
  (forall t n, ~ file_of rt pid path t n) ->
  forall t n, ~ file_of (Runtime_unregister_provider rt id).1 pid path t n.
Proof.
  intros Hno t n (Ht & Hg & Hk). rewrite unregister_promise in Ht.
  apply fmap_Some in Ht as (t0 & Ht0 & ->). apply (Hno t0 n). split_and!; try done.
  case_decide; [by rewrite gone_get in Hg|done].
Qed.

(** ** What the plans of a read ask for *)

Lemma plan_provider_length rt pid path offset L p :
  Runtime_plan_provider_read rt pid path offset L = Ok p -> 0 <= offset -> 0 <= L -> 0 <= prp_length p <= L.
Proof.
  unfold Runtime_plan_provider_read, Runtime_promise. intros Hp Hoff HL.
  apply bind_Ok in Hp as (t & _ & Hp). apply bind_Ok in Hp as (n & _ & Hp). case_decide; [done|].
  destruct ((L =? 0) || (attr_size (pn_attr n) <=? offset)) eqn:Hz; [done|].
  apply orb_false_iff in Hz as [Hz1%Z.eqb_neq Hz2%Z.leb_gt].
  apply bind_Ok in Hp as (l & Hl%ok_or_Ok & Hp). apply bind_Ok in Hp as (u & _ & Hp).
  case_decide; [done|]. destruct (negb _); [done|]. injection Hp as <-. cbn.
  unfold u32_try_from in Hl. destruct (_ <=? _); [|done]. injection Hl as <-. lia.
Qed.

Lemma plan_read_request_length rt pid path offset L p :
  Runtime_plan_read rt pid path offset L = Ok (RequestPlan p) -> 0 <= offset -> 0 <= L -> 0 <= prp_length p.
Proof.
  unfold Runtime_plan_read. intros Hp Hoff HL.
  apply bind_Ok in Hp as (t & _ & Hp). apply bind_Ok in Hp as (n & _ & Hp). case_decide; [done|].
  destruct ((L =? 0) || (attr_size (pn_attr n) <=? offset)) eqn:Hz; [done|].
  apply orb_false_iff in Hz as [Hz1%Z.eqb_neq Hz2%Z.leb_gt].
  apply bind_Ok in Hp as (l & Hl%ok_or_Ok & Hp). apply bind_Ok in Hp as (u & _ & Hp).
  unfold u32_try_from in Hl. destruct (_ <=? _); [|done]. injection Hl as <-.
  destruct (pn_materialized_path n); [done|]. destruct (_ ≫= _); [done|].
  destruct (Runtime_plan_provider_read _ _ _ _ _) as [q|e] eqn:Hq; [|done]. injection Hp as <-.
  apply plan_provider_length in Hq; lia.
Qed.

(** ** Coalescing *)

Lemma coalesced_file rt plan t n cs :
  CachePolicy_chunk_size (rt_cache_policy rt) = Some cs -> cs <= u32_max ->
  file_of rt (prp_promise_id plan) (prp_relative_path plan) t n ->
  0 <= prp_offset plan -> 0 < prp_length plan ->
  prp_offset plan + prp_length plan <= attr_size (pn_attr n) -> attr_size (pn_attr n) <= u64_max ->
  let base := chunk_base (prp_offset plan) cs in
  Runtime_plan_coalesced_provider_read rt plan =
    if base + cs <=? u64_max then
      Ok (if base + cs <? prp_offset plan + prp_length plan
          then mkCoalescedProviderReadPlan plan 0 (prp_length plan)
          else mkCoalescedProviderReadPlan
                 (mkProviderReadPlan (prp_provider_id plan) (prp_promise_id plan)
                    (prp_relative_path plan) (prp_provider_node_id plan) base
                    (Z.min cs (attr_size (pn_attr n) - base)))
                 (prp_offset plan - base) (prp_length plan))
    else Err InvalidArgument.
Proof.
  intros Hcs Hmax (Ht & Hg & Hk) Hoff Hlen Hsize Hu base. unfold Runtime_plan_coalesced_provider_read.
  pose proof (CachePolicy_chunk_size_pos _ _ Hcs) as [Hpos _].
  pose proof (chunk_base_le (prp_offset plan) cs Hpos Hoff). pose proof (chunk_base_gt (prp_offset plan) cs Hpos).
  rewrite Hcs. unfold Runtime_promise. rewrite Ht. cbn. rewrite Hg. cbn.
  rewrite decide_False by naive_solver. fold base. unfold checked_add.
  destruct (Z.leb_spec (base + cs) u64_max); cbn; [|done].
  rewrite (proj2 (Z.leb_le (_ + _) _)) by lia. cbn. case_bool; [done|].
  unfold saturating_sub. rewrite Z.max_r by lia. rewrite u32_try_from_in by lia. cbn.
  rewrite u32_try_from_in by lia. done.
Qed.

Lemma plan_coalesced_covers rt pid path offset length p :
  rt_wf rt -> in_u64 offset -> in_u32 length ->
  Runtime_plan_provider_read rt pid path offset length = Ok p ->
  match Runtime_plan_coalesced_provider_read rt p with
  | Ok c =>
      cp_response_length c = prp_length p /\ 0 <= cp_response_offset c /\
      prp_offset (cp_provider c) + cp_response_offset c = prp_offset p /\
      cp_response_offset c + cp_response_length c <= prp_length (cp_provider c) <= u32_max /\
      prp_provider_id (cp_provider c) = prp_provider_id p /\
      prp_promise_id (cp_provider c) = prp_promise_id p /\
      prp_relative_path (cp_provider c) = prp_relative_path p /\
      prp_provider_node_id (cp_provider c) = prp_provider_node_id p /\
      (exists t n, file_of rt pid path t n /\
         prp_offset (cp_provider c) + prp_length (cp_provider c) <= attr_size (pn_attr n)) /\
      (cp_provider c = p \/ exists cs, rt_cache_policy rt = ReadThrough cs /\
         prp_offset (cp_provider c) = chunk_base offset cs /\ prp_length (cp_provider c) <= cs)
  | Err e => e = InvalidArgument /\ exists cs, rt_cache_policy rt = ReadThrough cs /\
      u64_max < chunk_base offset cs + cs
  end.
Proof.
  intros Hwf [Hoff _] Hlen Hp. destruct (file_of_dec rt pid path) as [(t & n & Hf)|Hno].
  2:{ exfalso. unfold Runtime_plan_provider_read, Runtime_promise in Hp. inv_ok.
      destruct (decide (pn_kind x0 <> File)) in Hp; [done|]. apply (Hno x x0). split_and!; try done.
      by apply dec_stable. }
  destruct (file_of_canonical _ _ _ _ _ Hwf Hf) as (Hf' & _ & _ & [_ Hmax]).
  rewrite (plan_provider_read_file _ _ _ _ _ _ _ Hwf Hf) in Hp by done. destruct Hlen as [Hl0 Hl1].
  destruct ((length =? 0) || (attr_size (pn_attr n) <=? offset)) eqn:Hz; [done|].
  apply orb_false_iff in Hz as [Hz1%Z.eqb_neq Hz2%Z.leb_gt].
  destruct (clamp_bounds (attr_size (pn_attr n)) offset length Hl0) as ([Hpos Hle] & Hend & _);
    [unfold clamp; lia|].
  case_decide; [|done]. injection Hp as <-. set (p := mkProviderReadPlan _ _ _ _ _ _).
  destruct (CachePolicy_chunk_size (rt_cache_policy rt)) as [cs|] eqn:Hcs.
  - pose proof (CachePolicy_chunk_size_ok _ _ (rw_policy _ Hwf) Hcs) as [Hc0 Hc1].
    rewrite (coalesced_file rt p t n cs) by (done || lia). cbn.
    apply CachePolicy_chunk_size_pos in Hcs as [_ Hcs].
    pose proof (chunk_base_le offset cs Hc0 Hoff). pose proof (chunk_base_gt offset cs Hc0).
    destruct (Z.leb_spec (chunk_base offset cs + cs) u64_max); [|split; [done|]; exists cs; split; [done|lia]].
    case_bool; cbn; (split_and!; try done; try lia; [by exists t, n; split; [done|cbn; lia]|]).
    + by left.
    + right. exists cs. split_and!; [done|done|lia].
  - unfold Runtime_plan_coalesced_provider_read. rewrite Hcs. cbn.
    split_and!; try done; try lia; [exists t, n; split; [done|cbn; lia]|by left].
Qed.

(** ** Prefetching *)

Lemma plan_sequential_prefetch_spec rt pid path offset length p :
  rt_wf rt -> in_u64 offset -> in_u32 length ->
  Runtime_plan_sequential_prefetch rt pid path offset length = Ok (Some p) ->
  exists t n cs, file_of rt pid path t n /\ rt_cache_policy rt = ReadThrough cs /\
    pn_materialized_path n = None /\ Runtime_has_provider rt (pt_provider_id t) = true /\
    prp_provider_id p = pt_provider_id t /\ prp_promise_id p = pid /\
    prp_relative_path p = pn_relative_path n /\ prp_provider_node_id p = pn_provider_node_id n /\
    0 < length /\ prp_offset p = offset + length /\
    prp_length p = Z.min cs (attr_size (pn_attr n) - prp_offset p) /\ 0 < prp_length p /\
    exists i, 0 <= i < prp_length p /\
      cache_at (rt_read_cache rt) (mkCacheKey pid (pn_relative_path n)) cs (prp_offset p + i) = None.
Proof.
  intros Hwf [Hoff _] [Hl0 Hl1]. unfold Runtime_plan_sequential_prefetch, Runtime_promise.
  destruct (CachePolicy_chunk_size (rt_cache_policy rt)) as [cs|] eqn:Hcs; [|done].
  pose proof (CachePolicy_chunk_size_ok _ _ (rw_policy _ Hwf) Hcs) as [Hc0 Hc1].
  apply CachePolicy_chunk_size_pos in Hcs as [_ Hcs].
  destruct (Z.eqb_spec length 0) as [|Hl]; [done|].
  destruct (rt_promises rt !! pid) as [t|] eqn:Ht; cbn; [|done].
  destruct (PromiseTree_get t path) as [n|] eqn:Hg; cbn; [|done].
  destruct (decide (pn_kind n <> File)) as [|Hk%dec_stable]; [done|].
  destruct (pn_materialized_path n) eqn:Hm; cbn; [done|].
  destruct (decide (pt_state t <> Available)); [done|].
  destruct (Runtime_has_provider rt (pt_provider_id t)) eqn:Hlive; cbn; [|done].
  assert (Hf : file_of rt pid path t n) by done.
  destruct (file_of_canonical _ _ _ _ _ Hwf Hf) as (_ & Hpid & _ & [_ Hmax]).
  unfold checked_add. case_bool; cbn; [|done]. case_bool; [done|].
  rewrite u32_try_from_in by lia. cbn.
  set (l := Z.min cs _). assert (Hlb : 0 < l <= attr_size (pn_attr n) - (offset + length)) by (unfold l; lia).
  destruct (ReadCache_read _ _ _ _ _ _) eqn:Hr; [done|]. intros [= <-]. cbn.
  exists t, n, cs. split_and!; try done; [lia..|].
  apply cache_miss; try done; [apply Hwf|lia|lia|lia].
Qed.

(** Some byte of the range is not in the cache, or there is no cache. *)
Definition not_cached (rt : Runtime) (pid : str) (n : PromiseNode) (offset length : Z) : Prop :=
  forall cs, CachePolicy_chunk_size (rt_cache_policy rt) = Some cs ->
  exists i, 0 <= i < length /\
    cache_at (rt_read_cache rt) (mkCacheKey pid (pn_relative_path n)) cs (offset + i) = None.

Lemma plan_not_cached rt pid n offset length :
  rt_wf rt -> 0 <= offset -> 0 < length -> offset + length <= u64_max ->
  (chunk_size ← CachePolicy_chunk_size (rt_cache_policy rt);
   ReadCache_read (rt_read_cache rt) pid (pn_relative_path n) offset length chunk_size) = None ->
  not_cached rt pid n offset length.
Proof.
  intros Hwf Hoff Hl Hend Hr cs Hcs. rewrite Hcs in Hr. cbn in Hr. apply CachePolicy_chunk_size_pos in Hcs as [Hcs _].
  apply cache_miss; try done. apply Hwf.
Qed.

(** ** Properties *)

(** C33: [plan_read] plans a read exactly as the file's state dictates.  A read
    past the end or of length zero is end of file; any other plan is for the
    requested offset, for the requested length cut at the end of the file; a
    materialized file is read from its path, a range that is cached in full from
    the cache with the cached bytes, and only when some byte of the range is not
    cached is the provider asked, if it is live; [ProviderGone] means the file is
    not materialized, some byte of the range is not cached, and the provider is
    gone. *)
Theorem Runtime_plan_read_correct rt pid path offset length :
  rt_wf rt -> in_u64 offset -> in_u32 length ->
  match Runtime_plan_read rt pid path offset length with
  | Ok Eof => exists t n, file_of rt pid path t n /\ (length = 0 \/ attr_size (pn_attr n) <= offset)
  | Ok (MaterializedPlan m) => exists t n, file_of rt pid path t n /\
      pn_materialized_path n = Some (mrp_path m) /\ mrp_offset m = offset /\
      mrp_length m = clamp (attr_size (pn_attr n)) offset length /\ 0 < mrp_length m
  | Ok (CachedPlan bytes) => exists t n cs, file_of rt pid path t n /\
      pn_materialized_path n = None /\ rt_cache_policy rt = ReadThrough cs /\
      len bytes = clamp (attr_size (pn_attr n)) offset length /\ 0 < len bytes /\
      forall i, 0 <= i < len bytes ->
        cache_at (rt_read_cache rt) (mkCacheKey pid (pn_relative_path n)) cs (offset + i) = zlookup bytes i
  | Ok (RequestPlan p) => exists t n, file_of rt pid path t n /\
      pn_materialized_path n = None /\ Runtime_has_provider rt (pt_provider_id t) = true /\
      p = mkProviderReadPlan (pt_provider_id t) pid (pn_relative_path n) (pn_provider_node_id n)
            offset (clamp (attr_size (pn_attr n)) offset length) /\ 0 < prp_length p /\
      not_cached rt pid n offset (clamp (attr_size (pn_attr n)) offset length)
  | Err ProviderGone => exists t n, file_of rt pid path t n /\
      pn_materialized_path n = None /\ Runtime_has_provider rt (pt_provider_id t) = false /\
      0 < clamp (attr_size (pn_attr n)) offset length /\
      not_cached rt pid n offset (clamp (attr_size (pn_attr n)) offset length)
  | Err InvalidArgument => exists t n, rt_promises rt !! pid = Some t /\
      PromiseTree_get t path = Some n /\ pn_kind n = Directory
  | Err NotFound => (rt_promises rt !! pid ≫= fun t => PromiseTree_get t path) = None
  | Err _ => False
  end.
Proof.
  intros Hwf [Hoff _] Hlen. destruct (file_of_dec rt pid path) as [(t & n & Hf)|Hno].
  2:{ by destruct (plan_read_no_file rt pid path offset length Hno) as [[-> ?]|[-> ?]]. }
  rewrite (plan_read_file _ _ _ _ _ _ _ Hwf Hf) by done. cbv zeta.
  destruct (file_of_canonical _ _ _ _ _ Hwf Hf) as (_ & _ & _ & [_ Hmax]).
  destruct Hlen as [Hl0 Hl1]. destruct (Z.eqb_spec (clamp (attr_size (pn_attr n)) offset length) 0) as [Hz|Hz].
  { exists t, n. split; [done|]. unfold clamp in Hz. lia. }
  destruct (clamp_bounds _ _ _ Hl0 Hz) as ([Hpos _] & Hend & _).
  destruct (pn_materialized_path n) eqn:Hm; [by exists t, n|].
  destruct (rw_owner _ Hwf pid t) as (s & Hs & Hl); [by destruct Hf|].
  assert (Hlive : Runtime_has_provider rt (pt_provider_id t) = bool_decide (pt_state t = Available)).
  { unfold Runtime_has_provider. rewrite Hs. by apply bool_decide_ext. }
  destruct (_ ≫= _) as [bytes|] eqn:Hr.
  - apply bind_Some in Hr as (cs & [Hcs Hp]%CachePolicy_chunk_size_pos & Hr).
    apply cache_read_spec in Hr as [Hlen Hat]; [|apply Hwf|lia..].
    exists t, n, cs. split_and!; try done; [lia|]. intros i Hi. apply Hat. lia.
  - apply plan_not_cached in Hr; [|done|lia..].
    case_decide; exists t, n; rewrite Hlive; case_bool_decide; done.
Qed.

Lemma Runtime_plan_read_correct_witness :
  let rt := run_ops Runtime_new sample_ops in
  Runtime_plan_read rt (bs "promise-1") (bs "docs/readme.txt") 1 3 = Ok (CachedPlan (bs "ell")) /\
  exists t n, file_of rt (bs "promise-1") (bs "docs/readme.txt") t n /\
    clamp (attr_size (pn_attr n)) 1 3 = 3.
Proof.
  intros rt. split; [vm_compute; reflexivity|].
  pose proof (Runtime_plan_read_correct rt (bs "promise-1") (bs "docs/readme.txt") 1 3 sample_rt_wf) as H.
  assert (Hp : Runtime_plan_read rt (bs "promise-1") (bs "docs/readme.txt") 1 3 = Ok (CachedPlan (bs "ell")))
    by (vm_compute; reflexivity).
  rewrite Hp in H. destruct H as (t & n & cs & Hf & _ & _ & Hl & _);
    [split; vm_compute; congruence..|]. exists t, n. split; [exact Hf|]. rewrite <- Hl. reflexivity.
Defined.

(** Unregistering a provider changes the plan of a read only where the
    bytes would have had to come from that provider: those reads now fail with
    [ProviderGone]; materialized, cached and end-of-file reads, reads of other
    providers' promises, and errors are as before. *)
Theorem Runtime_plan_read_after_disconnect rt id pid path offset length :
  rt_wf rt -> in_u64 offset -> in_u32 length ->
  Runtime_plan_read (Runtime_unregister_provider rt id).1 pid path offset length =
    match Runtime_plan_read rt pid path offset length with
    | Ok (RequestPlan p) => if decide (prp_provider_id p = id) then Err ProviderGone else Ok (RequestPlan p)
    | r => r
    end.
Proof.
  intros Hwf [Hoff _] Hlen. destruct (file_of_dec rt pid path) as [(t & n & Hf)|Hno].
  - destruct (unregister_file_of rt id pid path t n Hf) as (t' & Hf' & Hp & Hst).
    destruct (unregister_cache rt id) as [Hcp Hrc].
    destruct (rw_owner _ Hwf pid t) as (s & Hs & _); [by destruct Hf|].
    rewrite (plan_read_file _ _ _ _ _ _ _ (unregister_provider_wf _ id Hwf) Hf') by done.
    rewrite (plan_read_file _ _ _ _ _ _ _ Hwf Hf) by done. cbv zeta. rewrite Hcp, Hrc, Hp.
    case_bool; [done|]. destruct (pn_materialized_path n); [done|]. destruct (_ ≫= _); [done|].
    destruct (decide (pt_state t = Available)) as [Ha|Ha]; cbn; [|by rewrite decide_False by naive_solver].
    case_decide as Hav; case_decide as Hid; try done; exfalso; [|naive_solver].
    apply Hst in Hav as [_ Hav]. apply Hav. split; [|done]. rewrite <- Hid, Hs. done.
  - pose proof (unregister_no_file rt id pid path Hno) as Hno'.
    assert (Hnone : (rt_promises (Runtime_unregister_provider rt id).1 !! pid ≫= fun t => PromiseTree_get t path)
                    = (rt_promises rt !! pid ≫= fun t => PromiseTree_get t path)).
    { rewrite unregister_promise. destruct (rt_promises rt !! pid); cbn; [|done].
      case_decide; [by rewrite gone_get|done]. }
    destruct (plan_read_no_file _ pid path offset length Hno') as [[-> H1]|[-> (t1 & n1 & Ht1 & Hg1 & _)]];
      destruct (plan_read_no_file rt pid path offset length Hno) as [[-> H2]|[-> (t2 & n2 & Ht2 & Hg2 & _)]]; try done.
    + rewrite Hnone, Ht2 in H1. cbn in H1. congruence.
    + rewrite <- Hnone, Ht1 in H2. cbn in H2. congruence.
Qed.

Lemma Runtime_plan_read_after_disconnect_witness :
  let rt := run_ops Runtime_new sample_ops in
  let rt' := (Runtime_unregister_provider rt 1).1 in
  Runtime_plan_read rt' (bs "promise-1") (bs "docs/readme.txt") 0 5 = Ok (CachedPlan (bs "hello")) /\
  Runtime_plan_read rt' (bs "promise-1") (bs "docs/readme.txt") 0 6 = Err ProviderGone.
Proof.
  intros rt rt'. unfold rt'.
  split; rewrite Runtime_plan_read_after_disconnect; try exact sample_rt_wf;
    try (split; vm_compute; congruence); vm_compute; reflexivity.
Defined.

(** The request sent in place of a planned provider read covers it: the
    planned bytes are the [response_length] bytes at [response_offset] of the
    answer to the coalesced request, which itself stays inside the file, keeps
    the provider and node, and under [ReadThrough] is the file's part of the
    one chunk that holds the range, or the plan itself when it spans chunks.
    Coalescing fails only when that chunk would end past [u64::MAX]. *)
Theorem Runtime_plan_coalesced_covers rt pid path offset length p :
  rt_wf rt -> in_u64 offset -> in_u32 length ->
  Runtime_plan_provider_read rt pid path offset length = Ok p ->
  match Runtime_plan_coalesced_provider_read rt p with
  | Ok c =>
      cp_response_length c = prp_length p /\ 0 <= cp_response_offset c /\
      prp_offset (cp_provider c) + cp_response_offset c = prp_offset p /\
      cp_response_offset c + cp_response_length c <= prp_length (cp_provider c) <= u32_max /\
      prp_provider_id (cp_provider c) = prp_provider_id p /\
      prp_promise_id (cp_provider c) = prp_promise_id p /\
      prp_relative_path (cp_provider c) = prp_relative_path p /\
      prp_provider_node_id (cp_provider c) = prp_provider_node_id p /\
      (exists t n, file_of rt pid path t n /\
         prp_offset (cp_provider c) + prp_length (cp_provider c) <= attr_size (pn_attr n)) /\
      (cp_provider c = p \/ exists cs, rt_cache_policy rt = ReadThrough cs /\
         prp_offset (cp_provider c) = chunk_base offset cs /\ prp_length (cp_provider c) <= cs)
  | Err e => e = InvalidArgument /\ exists cs, rt_cache_policy rt = ReadThrough cs /\
      u64_max < chunk_base offset cs + cs
  end.
Proof. apply plan_coalesced_covers. Qed.

Lemma Runtime_plan_coalesced_covers_witness :
  let rt := run_ops Runtime_new sample_ops in
  exists p c, Runtime_plan_provider_read rt (bs "promise-1") (bs "docs/readme.txt") 9 2 = Ok p /\
    Runtime_plan_coalesced_provider_read rt p = Ok c /\
    prp_offset (cp_provider c) = 8 /\ prp_length (cp_provider c) = 4 /\ cp_response_offset c = 1 /\
    cp_response_offset c + cp_response_length c <= prp_length (cp_provider c).
Proof.
  intros rt.
  destruct (Runtime_plan_provider_read rt (bs "promise-1") (bs "docs/readme.txt") 9 2) as [p|e] eqn:Hp;
    [|exfalso; vm_compute in Hp; discriminate Hp].
  pose proof (Runtime_plan_coalesced_covers rt (bs "promise-1") (bs "docs/readme.txt") 9 2 p sample_rt_wf
                ltac:(split; vm_compute; congruence) ltac:(split; vm_compute; congruence) Hp) as H.
  destruct (Runtime_plan_coalesced_provider_read rt p) as [c|e] eqn:Hc.
  - exists p, c. destruct H as (_ & _ & _ & [H _] & _).
    assert (Hp' := Hp). vm_compute in Hp'. injection Hp' as <-.
    assert (Hc' := Hc). vm_compute in Hc'. injection Hc' as <-.
    split_and!; try reflexivity; exact H.
  - exfalso. assert (Hp' := Hp). vm_compute in Hp'. injection Hp' as <-.
    vm_compute in Hc. discriminate Hc.
Defined.

(** Sequential prefetch asks for the bytes right after the completed read:
    only under [ReadThrough], for a file that is not materialized and whose
    provider is live, at most one chunk, inside the file, and not already
    cached as a whole. *)
Theorem Runtime_plan_sequential_prefetch_correct rt pid path offset length p :
  rt_wf rt -> in_u64 offset -> in_u32 length ->
  Runtime_plan_sequential_prefetch rt pid path offset length = Ok (Some p) ->
  exists t n cs, file_of rt pid path t n /\ rt_cache_policy rt = ReadThrough cs /\
    pn_materialized_path n = None /\ Runtime_has_provider rt (pt_provider_id t) = true /\
    prp_provider_id p = pt_provider_id t /\ prp_promise_id p = pid /\
    prp_relative_path p = pn_relative_path n /\ prp_provider_node_id p = pn_provider_node_id n /\
    0 < length /\ prp_offset p = offset + length /\
    prp_length p = Z.min cs (attr_size (pn_attr n) - prp_offset p) /\ 0 < prp_length p /\
    exists i, 0 <= i < prp_length p /\
      cache_at (rt_read_cache rt) (mkCacheKey pid (pn_relative_path n)) cs (prp_offset p + i) = None.
Proof. apply plan_sequential_prefetch_spec. Qed.

Lemma Runtime_plan_sequential_prefetch_correct_witness :
  let rt := run_ops Runtime_new sample_ops in
  exists p, Runtime_plan_sequential_prefetch rt (bs "promise-1") (bs "docs/readme.txt") 0 10 = Ok (Some p) /\
    prp_offset p = 10 /\ 0 < prp_length p.
Proof.
  intros rt.
  destruct (Runtime_plan_sequential_prefetch rt (bs "promise-1") (bs "docs/readme.txt") 0 10)
    as [[p|]|e] eqn:Hp; [|exfalso; vm_compute in Hp; discriminate Hp..].
  exists p. split; [reflexivity|].
  destruct (Runtime_plan_sequential_prefetch_correct rt (bs "promise-1") (bs "docs/readme.txt") 0 10 p
              sample_rt_wf ltac:(split; vm_compute; congruence) ltac:(split; vm_compute; congruence) Hp)
    as (t & n & cs & _ & _ & _ & _ & _ & _ & _ & _ & _ & Ho & _ & Hl & _).
  split; [exact Ho|exact Hl].
Defined.
