(* ===== verification/Messages.v ===== *)
(** * Messages of the control socket

    The request and response enums of [crates/fuse-promise-ipc/src/lib.rs] with
    their bodies, the public request and response types, the conversions
    between the two with their validation, and the maps between [Status],
    [ErrorCode], [ProviderReadStatus] and [io::ErrorKind]. *)

From S2P Require Import Prelude Types Paths.

Definition IPC_PROTOCOL_VERSION : Z := 1.
Definition MAX_FRAME_LEN : Z := 1024 * 1024.
Definition MAX_PROVIDER_READ_LEN : Z := 256 * 1024.

(** ** I/O errors *)

(** The [io::ErrorKind]s the sources name; [OtherKind] stands for
    [ErrorKind::Other] and for every kind they do not name. *)
Inductive ErrorKind : Type :=
| KInvalidInput
| KInvalidData
| KNotFound
| KAlreadyExists
| KPermissionDenied
| KTimedOut
| KInterrupted
| KConnectionRefused
| KConnectionReset
| KAddrNotAvailable
| KBrokenPipe
| KUnexpectedEof
| OtherKind.

#[export] Instance ErrorKind_eq_decision : EqDecision ErrorKind.
Proof. solve_decision. Defined.

Record IoError : Type := mkIoError {
  io_kind : ErrorKind;
  io_message : str;
}.

Abbreviation IoResult := (result IoError).

Definition invalid_data (message : str) : IoError := mkIoError KInvalidData message.
Definition io_other (message : str) : IoError := mkIoError OtherKind message.

Definition status_to_io (status : Status) : IoError := io_other (Status_as_str status).

(** ** Wire bodies *)

Inductive ErrorCode : Type :=
| EcInvalidRequest
| EcVersionMismatch
| EcUnavailable
| EcNotFound
| EcAlreadyExists
| EcProviderGone
| EcPermission
| EcCancelled
| EcInternal.

#[export] Instance ErrorCode_eq_decision : EqDecision ErrorCode.
Proof. solve_decision. Defined.

Record ErrorBody : Type := mkErrorBody { eb_code : ErrorCode; eb_message : str }.

Record StatusBody : Type := mkStatusBody {
  sb_api_version : Z;
  sb_mount_path : str;
  sb_socket_path : str;
  sb_daemon : str;
  sb_mount : str;
  sb_fuse_adapter : str;
  sb_cache_policy : str;
  sb_providers : Z;
  sb_promises : Z;
}.

Record InspectNodeBody : Type := mkInspectNodeBody {
  in_relative_path : str;
  in_inode : Z;
  in_kind : str;
  in_size : Z;
  in_mode : Z;
  in_provider_node_id : str;
}.

Record InspectPromiseBody : Type := mkInspectPromiseBody {
  ip_promise_id : str;
  ip_provider_id : Z;
  ip_state : str;
  ip_nodes : list InspectNodeBody;
}.

Record InspectBody : Type := mkInspectBody {
  ib_providers : Z;
  ib_promises : list InspectPromiseBody;
}.

Inductive PromiseNodeKindBody : Type := FileBody | DirectoryBody.

Record PromiseNodeBody : Type := mkPromiseNodeBody {
  nb_kind : PromiseNodeKindBody;
  nb_relative_path : str;
  nb_provider_node_id : str;
  nb_mode : Z;
  nb_size : Z;
  nb_mtime_nsec : Z;
}.

Record PromiseCommitBody : Type := mkPromiseCommitBody {
  cb_provider_id : Z;
  cb_provider_owner_token : Z;
  cb_nodes : list PromiseNodeBody;
}.

Record PromiseCommittedBody : Type := mkPromiseCommittedBody {
  cd_promise_id : str;
  cd_visible_path : str;
}.

Inductive MaterializeConflictPolicyBody : Type := FailBody | OverwriteBody | RenameBody.

Record MaterializeBody : Type := mkMaterializeBody {
  mb_source_path : str;
  mb_target_dir : str;
  mb_conflict_policy : MaterializeConflictPolicyBody;
}.

(** The counters that [MaterializedBody], [MaterializeProgressBody] and
    [MaterializeFailedBody] (and their public counterparts) all repeat. *)
Record MaterializeCounters : Type := mkMaterializeCounters {
  mc_target_path : str;
  mc_entries_done : Z;
  mc_entries_total : Z;
  mc_bytes_written : Z;
  mc_bytes_total : Z;
  mc_files_written : Z;
  mc_files_total : Z;
  mc_directories_created : Z;
  mc_directories_total : Z;
}.

Record MaterializeFailedBody : Type := mkMaterializeFailedBody {
  mf_code : ErrorCode;
  mf_message : str;
  mf_counters : MaterializeCounters;
}.

Record ProviderReadRequestBody : Type := mkProviderReadRequestBody {
  qb_request_id : Z;
  qb_provider_id : Z;
  qb_promise_id : str;
  qb_relative_path : str;
  qb_provider_node_id : str;
  qb_offset : Z;
  qb_length : Z;
}.

Inductive ProviderReadStatusBody : Type :=
| PbOk
| PbInvalidArgument
| PbPermission
| PbNotFound
| PbProviderGone
| PbIo
| PbTimeout
| PbCancelled.

Record ProviderReadResponseBody : Type := mkProviderReadResponseBody {
  rb_request_id : Z;
  rb_status : ProviderReadStatusBody;
  rb_bytes : list byte;
}.

Inductive Request : Type :=
| RequestHello (protocol_version api_version : Z)
| RequestStatus
| RequestInspect
| RequestProviderRegister
| RequestProviderUnregister (provider_id provider_owner_token : Z)
| RequestPromiseCommit (body : PromiseCommitBody)
| RequestMaterialize (body : MaterializeBody)
| RequestMaterializeContinue
| RequestMaterializeCancel
| RequestProviderReadResponse (body : ProviderReadResponseBody).

Inductive Response : Type :=
| ResponseHello (protocol_version api_version : Z)
| ResponseStatus (body : StatusBody)
| ResponseInspect (body : InspectBody)
| ResponseProviderRegistered (provider_id provider_owner_token : Z)
| ResponseProviderUnregistered
| ResponsePromiseCommitted (body : PromiseCommittedBody)
| ResponseMaterializeProgress (body : MaterializeCounters)
| ResponseMaterialized (body : MaterializeCounters)
| ResponseMaterializeFailed (body : MaterializeFailedBody)
| ResponseProviderReadRequest (body : ProviderReadRequestBody)
| ResponseError (body : ErrorBody).

(** [#[derive(PartialEq, Eq)]]. *)
#[export] Instance ErrorBody_eq_decision : EqDecision ErrorBody.
Proof. solve_decision. Defined.
#[export] Instance StatusBody_eq_decision : EqDecision StatusBody.
Proof. solve_decision. Defined.
#[export] Instance InspectNodeBody_eq_decision : EqDecision InspectNodeBody.
Proof. solve_decision. Defined.
#[export] Instance InspectPromiseBody_eq_decision : EqDecision InspectPromiseBody.
Proof. solve_decision. Defined.
#[export] Instance InspectBody_eq_decision : EqDecision InspectBody.
Proof. solve_decision. Defined.
#[export] Instance PromiseNodeKindBody_eq_decision : EqDecision PromiseNodeKindBody.
Proof. solve_decision. Defined.
#[export] Instance PromiseNodeBody_eq_decision : EqDecision PromiseNodeBody.
Proof. solve_decision. Defined.
#[export] Instance PromiseCommitBody_eq_decision : EqDecision PromiseCommitBody.
Proof. solve_decision. Defined.
#[export] Instance PromiseCommittedBody_eq_decision : EqDecision PromiseCommittedBody.
Proof. solve_decision. Defined.
#[export] Instance MaterializeConflictPolicyBody_eq_decision : EqDecision MaterializeConflictPolicyBody.
Proof. solve_decision. Defined.
#[export] Instance MaterializeBody_eq_decision : EqDecision MaterializeBody.
Proof. solve_decision. Defined.
#[export] Instance MaterializeCounters_eq_decision : EqDecision MaterializeCounters.
Proof. solve_decision. Defined.
#[export] Instance MaterializeFailedBody_eq_decision : EqDecision MaterializeFailedBody.
Proof. solve_decision. Defined.
#[export] Instance ProviderReadRequestBody_eq_decision : EqDecision ProviderReadRequestBody.
Proof. solve_decision. Defined.
#[export] Instance ProviderReadStatusBody_eq_decision : EqDecision ProviderReadStatusBody.
Proof. solve_decision. Defined.
#[export] Instance ProviderReadResponseBody_eq_decision : EqDecision ProviderReadResponseBody.
Proof. solve_decision. Defined.
#[export] Instance Request_eq_decision : EqDecision Request.
Proof. solve_decision. Defined.
#[export] Instance Response_eq_decision : EqDecision Response.
Proof. solve_decision. Defined.

(** ** Public types *)

Inductive ProviderReadStatus : Type :=
| PrOk
| PrInvalidArgument
| PrPermission
| PrNotFound
| PrProviderGone
| PrIo
| PrTimeout
| PrCancelled.

#[export] Instance ProviderReadStatus_eq_decision : EqDecision ProviderReadStatus.
Proof. solve_decision. Defined.

Record ProviderReadRequest : Type := mkProviderReadRequest {
  rq_request_id : Z;
  rq_provider_id : Z;
  rq_promise_id : str;
  rq_relative_path : str;
  rq_provider_node_id : str;
  rq_offset : Z;
  rq_length : Z;
}.

Record ProviderReadResponse : Type := mkProviderReadResponse {
  rs_request_id : Z;
  rs_status : ProviderReadStatus;
  rs_bytes : list byte;
}.

Inductive PromiseNodeKind : Type := SpecFile | SpecDirectory.

Record PromiseNodeAttr : Type := mkPromiseNodeAttr {
  pa_mode : Z;
  pa_size : Z;
  pa_mtime_nsec : Z;
}.

Record PromiseNodeSpec : Type := mkPromiseNodeSpec {
  sp_kind : PromiseNodeKind;
  sp_relative_path : str;
  sp_provider_node_id : str;
  sp_attr : PromiseNodeAttr;
}.

Record PromiseCommitRequest : Type := mkPromiseCommitRequest {
  pc_provider_id : Z;
  pc_provider_owner_token : Z;
  pc_nodes : list PromiseNodeSpec;
}.

Inductive MaterializeConflictPolicy : Type := PolicyFail | PolicyOverwrite | PolicyRename.

Record MaterializeRequest : Type := mkMaterializeRequest {
  mr_source_path : str;
  mr_target_dir : str;
  mr_conflict_policy : MaterializeConflictPolicy;
}.

(** ** Error and status maps *)

Definition error_code_to_io_kind (code : ErrorCode) : ErrorKind :=
  match code with
  | EcInvalidRequest | EcVersionMismatch => KInvalidData
  | EcUnavailable | EcNotFound => KNotFound
  | EcProviderGone => KBrokenPipe
  | EcAlreadyExists => KAlreadyExists
  | EcPermission => KPermissionDenied
  | EcCancelled => KInterrupted
  | EcInternal => OtherKind
  end.

Definition status_to_error_code (status : Status) : ErrorCode :=
  match status with
  | InvalidArgument => EcInvalidRequest
  | Unavailable => EcUnavailable
  | Permission => EcPermission
  | NotFound => EcNotFound
  | AlreadyExists => EcAlreadyExists
  | ProviderGone => EcProviderGone
  | Cancelled => EcCancelled
  | VersionMismatch => EcVersionMismatch
  | _ => EcInternal
  end.

Definition io_error_to_status (error : IoError) : Status :=
  match io_kind error with
  | KInvalidInput | KInvalidData => InvalidArgument
  | KNotFound => NotFound
  | KAlreadyExists => AlreadyExists
  | KPermissionDenied => Permission
  | KTimedOut => Timeout
  | KInterrupted => Cancelled
  | KConnectionRefused | KConnectionReset | KBrokenPipe => ProviderGone
  | _ => Io
  end.

Definition provider_read_status_to_status (status : ProviderReadStatus) : Status :=
  match status with
  | PrOk => StatusOk
  | PrInvalidArgument => InvalidArgument
  | PrPermission => Permission
  | PrNotFound => NotFound
  | PrProviderGone => ProviderGone
  | PrIo => Io
  | PrTimeout => Timeout
  | PrCancelled => Cancelled
  end.

Definition error_to_io (error : ErrorBody) : IoError :=
  mkIoError (error_code_to_io_kind (eb_code error)) (eb_message error).

(** ** Validation *)

Definition validate_nonzero (name : str) (value : Z) : IoResult () :=
  if value =? 0 then Err (invalid_data (name ++ bs " must be nonzero")) else Ok tt.

Definition validate_provider_id (provider_id : Z) : IoResult () :=
  match ProviderId_from_raw provider_id with
  | Some _ => Ok tt
  | None => Err (invalid_data (bs "provider id must be nonzero"))
  end.

Definition validate_token (name value : str) : IoResult () :=
  if decide (value = []) then Err (invalid_data (name ++ bs " must not be empty"))
  else if decide (nul ∈ value) then Err (invalid_data (name ++ bs " must not contain NUL"))
  else Ok tt.

Definition validate_relative_path (path : str) : IoResult str :=
  map_err (fun status => invalid_data (Status_as_str status)) (normalize_relative_path path).

Definition validate_materialize_path (name path : str) : IoResult () :=
  if decide (path = []) then Err (invalid_data (name ++ bs " must not be empty"))
  else if negb (utf8_valid path) then Err (invalid_data (name ++ bs " must be UTF-8"))
  else Ok tt.

Definition validate_read_range (offset length : Z) : IoResult () :=
  if length =? 0 then Err (invalid_data (bs "provider read length must be nonzero"))
  else if MAX_PROVIDER_READ_LEN <? length then
    Err (invalid_data (bs "provider read length exceeds maximum"))
  else match checked_add offset length with
       | None => Err (invalid_data (bs "provider read range overflows"))
       | Some _ => Ok tt
       end.

(** ** Conversions *)

Definition ProviderReadRequest_into_body (self : ProviderReadRequest) :
    IoResult ProviderReadRequestBody :=
  normalized_path ← validate_relative_path (rq_relative_path self);
  _ ← validate_nonzero (bs "provider read request id") (rq_request_id self);
  _ ← validate_provider_id (rq_provider_id self);
  _ ← validate_token (bs "promise id") (rq_promise_id self);
  _ ← validate_token (bs "provider node id") (rq_provider_node_id self);
  _ ← validate_read_range (rq_offset self) (rq_length self);
  Ok (mkProviderReadRequestBody (rq_request_id self) (rq_provider_id self) (rq_promise_id self)
        normalized_path (rq_provider_node_id self) (rq_offset self) (rq_length self)).

Definition ProviderReadRequest_validated (self : ProviderReadRequest) :
    IoResult ProviderReadRequest :=
  body ← ProviderReadRequest_into_body self;
  Ok (mkProviderReadRequest (qb_request_id body) (qb_provider_id body) (qb_promise_id body)
        (qb_relative_path body) (qb_provider_node_id body) (qb_offset body) (qb_length body)).

Definition ProviderReadRequest_from_body (body : ProviderReadRequestBody) :
    IoResult ProviderReadRequest :=
  ProviderReadRequest_validated
    (mkProviderReadRequest (qb_request_id body) (qb_provider_id body) (qb_promise_id body)
       (qb_relative_path body) (qb_provider_node_id body) (qb_offset body) (qb_length body)).

Definition ProviderReadStatus_into_body (self : ProviderReadStatus) : ProviderReadStatusBody :=
  match self with
  | PrOk => PbOk
  | PrInvalidArgument => PbInvalidArgument
  | PrPermission => PbPermission
  | PrNotFound => PbNotFound
  | PrProviderGone => PbProviderGone
  | PrIo => PbIo
  | PrTimeout => PbTimeout
  | PrCancelled => PbCancelled
  end.

Definition ProviderReadStatus_from_body (body : ProviderReadStatusBody) : ProviderReadStatus :=
  match body with
  | PbOk => PrOk
  | PbInvalidArgument => PrInvalidArgument
  | PbPermission => PrPermission
  | PbNotFound => PrNotFound
  | PbProviderGone => PrProviderGone
  | PbIo => PrIo
  | PbTimeout => PrTimeout
  | PbCancelled => PrCancelled
  end.

Definition ProviderReadResponse_validate (self : ProviderReadResponse) : IoResult () :=
  _ ← validate_nonzero (bs "provider read response id") (rs_request_id self);
  if MAX_PROVIDER_READ_LEN <? len (rs_bytes self) then
    Err (invalid_data (bs "provider read response exceeds maximum read length"))
  else if decide (rs_status self <> PrOk /\ rs_bytes self <> []) then
    Err (invalid_data (bs "provider read error response must not include bytes"))
  else Ok tt.

Definition ProviderReadResponse_validated (self : ProviderReadResponse) :
    IoResult ProviderReadResponse :=
  _ ← ProviderReadResponse_validate self; Ok self.

Definition ProviderReadResponse_into_body (self : ProviderReadResponse) :
    IoResult ProviderReadResponseBody :=
  _ ← ProviderReadResponse_validate self;
  Ok (mkProviderReadResponseBody (rs_request_id self)
        (ProviderReadStatus_into_body (rs_status self)) (rs_bytes self)).

Definition ProviderReadResponse_from_body (body : ProviderReadResponseBody) :
    IoResult ProviderReadResponse :=
  ProviderReadResponse_validated
    (mkProviderReadResponse (rb_request_id body)
       (ProviderReadStatus_from_body (rb_status body)) (rb_bytes body)).

Definition validate_provider_read_response_for_request (request : ProviderReadRequest)
    (response : ProviderReadResponse) : IoResult () :=
  if negb (rs_request_id response =? rq_request_id request) then
    Err (invalid_data (bs "provider read response id mismatch"))
  else if decide (rs_status response = PrOk /\ rq_length request < len (rs_bytes response)) then
    Err (invalid_data (bs "provider read response exceeds requested length"))
  else ProviderReadResponse_validate response.

Definition MaterializeConflictPolicy_into_body (self : MaterializeConflictPolicy) :
    MaterializeConflictPolicyBody :=
  match self with
  | PolicyFail => FailBody
  | PolicyOverwrite => OverwriteBody
  | PolicyRename => RenameBody
  end.

Definition MaterializeConflictPolicy_from_body (body : MaterializeConflictPolicyBody) :
    MaterializeConflictPolicy :=
  match body with
  | FailBody => PolicyFail
  | OverwriteBody => PolicyOverwrite
  | RenameBody => PolicyRename
  end.

(** [to_string_lossy] is the identity on the UTF-8 paths that pass the checks. *)
Definition MaterializeRequest_into_body (self : MaterializeRequest) : IoResult MaterializeBody :=
  _ ← validate_materialize_path (bs "source path") (mr_source_path self);
  _ ← validate_materialize_path (bs "target directory") (mr_target_dir self);
  Ok (mkMaterializeBody (mr_source_path self) (mr_target_dir self)
        (MaterializeConflictPolicy_into_body (mr_conflict_policy self))).

Definition MaterializeRequest_from_body (body : MaterializeBody) : Result MaterializeRequest :=
  if decide (mb_source_path body = [] \/ mb_target_dir body = []) then Err InvalidArgument
  else Ok (mkMaterializeRequest (mb_source_path body) (mb_target_dir body)
             (MaterializeConflictPolicy_from_body (mb_conflict_policy body))).

Definition PromiseNodeSpec_into_body (self : PromiseNodeSpec) : PromiseNodeBody :=
  mkPromiseNodeBody
    (match sp_kind self with SpecFile => FileBody | SpecDirectory => DirectoryBody end)
    (sp_relative_path self) (sp_provider_node_id self)
    (pa_mode (sp_attr self)) (pa_size (sp_attr self)) (pa_mtime_nsec (sp_attr self)).

Definition PromiseCommitRequest_into_body (self : PromiseCommitRequest) : PromiseCommitBody :=
  mkPromiseCommitBody (pc_provider_id self) (pc_provider_owner_token self)
    (PromiseNodeSpec_into_body <$> pc_nodes self).

(** ** What the checks accept *)

Lemma validate_nonzero_Ok name v : validate_nonzero name v = Ok tt <-> v <> 0.
Proof. unfold validate_nonzero. case_bool; naive_solver. Qed.

Lemma validate_provider_id_Ok v : validate_provider_id v = Ok tt <-> v <> 0.
Proof. unfold validate_provider_id, ProviderId_from_raw. case_bool; naive_solver. Qed.

Definition token_ok (v : str) : Prop := v <> [] /\ (nul ∉ v).

Lemma validate_token_Ok name v : validate_token name v = Ok tt <-> token_ok v.
Proof. unfold validate_token, token_ok. repeat case_decide; naive_solver. Qed.

Lemma validate_relative_path_Ok path p :
  validate_relative_path path = Ok p <-> normalize_relative_path path = Ok p.
Proof. apply map_err_Ok. Qed.

Lemma validate_read_range_Ok offset length :
  0 <= length ->
  validate_read_range offset length = Ok tt <->
  0 < length <= MAX_PROVIDER_READ_LEN /\ offset + length <= u64_max.
Proof.
  intros Hl. unfold validate_read_range, checked_add.
  repeat case_bool; split; intros; try done; lia.
Qed.

(** The unit-valued checks return [Ok] in one way only. *)
Lemma bind_unit_Ok {E B} (m : result E ()) (f : () -> result E B) b :
  (x ← m; f x) = Ok b <-> m = Ok tt /\ f tt = Ok b.
Proof. rewrite bind_Ok. split; [intros ([] & ? & ?)|intros []]; eauto. Qed.

(** What a read request that may be sent looks like. *)
Record request_ok (r : ProviderReadRequest) : Prop := {
  ro_id : rq_request_id r <> 0;
  ro_provider : rq_provider_id r <> 0;
  ro_promise : token_ok (rq_promise_id r);
  ro_node : token_ok (rq_provider_node_id r);
  ro_length : 0 < rq_length r <= MAX_PROVIDER_READ_LEN;
  ro_range : rq_offset r + rq_length r <= u64_max;
}.

Definition body_of (r : ProviderReadRequest) (path : str) : ProviderReadRequestBody :=
  mkProviderReadRequestBody (rq_request_id r) (rq_provider_id r) (rq_promise_id r) path
    (rq_provider_node_id r) (rq_offset r) (rq_length r).

Lemma ProviderReadRequest_into_body_Ok r b :
  0 <= rq_length r ->
  ProviderReadRequest_into_body r = Ok b <->
  request_ok r /\ exists p, normalize_relative_path (rq_relative_path r) = Ok p /\ b = body_of r p.
Proof.
  intros Hl. unfold ProviderReadRequest_into_body. split.
  - intros (p & Hp%validate_relative_path_Ok & H)%bind_Ok.
    repeat (apply bind_unit_Ok in H as [? H]). injection H as <-.
    repeat match goal with
    | H : validate_nonzero _ _ = _ |- _ => apply validate_nonzero_Ok in H
    | H : validate_provider_id _ = _ |- _ => apply validate_provider_id_Ok in H
    | H : validate_token _ _ = _ |- _ => apply validate_token_Ok in H
    | H : validate_read_range _ _ = _ |- _ => apply validate_read_range_Ok in H as [? ?]; [|done]
    end.
    split; [by split|]. eauto.
  - intros ([] & p & Hp & ->). rewrite bind_Ok. exists p. split; [by apply validate_relative_path_Ok|].
    rewrite !bind_unit_Ok, validate_nonzero_Ok, validate_provider_id_Ok, !validate_token_Ok,
      validate_read_range_Ok by done. done.
Qed.

(** A response that answers a request. *)
Definition response_answers (request : ProviderReadRequest) (response : ProviderReadResponse) : Prop :=
  rs_request_id response = rq_request_id request /\ rs_request_id response <> 0 /\
  len (rs_bytes response) <= MAX_PROVIDER_READ_LEN /\
  (rs_status response = PrOk -> len (rs_bytes response) <= rq_length request) /\
  (rs_status response <> PrOk -> rs_bytes response = []).

Lemma ProviderReadResponse_validate_Ok r :
  ProviderReadResponse_validate r = Ok tt <->
  rs_request_id r <> 0 /\ len (rs_bytes r) <= MAX_PROVIDER_READ_LEN /\
  (rs_status r <> PrOk -> rs_bytes r = []).
Proof.
  unfold ProviderReadResponse_validate. rewrite bind_unit_Ok, validate_nonzero_Ok.
  case_bool; [split; [naive_solver|lia]|]. case_decide as Hd.
  - split; [naive_solver|]. intros (_ & _ & H1). destruct Hd as [Hd1 Hd2]. by destruct Hd2; auto.
  - split; [|naive_solver]. intros [? _]. split_and!; try done.
    intros Hs. destruct (decide (rs_bytes r = [])); [done|]. by destruct Hd.
Qed.

Lemma validate_response_for_request_Ok request response :
  validate_provider_read_response_for_request request response = Ok tt <->
  response_answers request response.
Proof.
  unfold validate_provider_read_response_for_request, response_answers.
  destruct (Z.eqb_spec (rs_request_id response) (rq_request_id request)) as [Hid|Hid]; cbn; [|naive_solver].
  case_decide as Hd.
  - split; [done|]. intros (_ & _ & _ & H1 & _). destruct Hd as [Hd1 Hd2]. specialize (H1 Hd1). lia.
  - rewrite ProviderReadResponse_validate_Ok. split; [|naive_solver].
    intros (? & ? & ?). split_and!; try done. intros Hs. apply Z.nlt_ge. by intros ?; destruct Hd.
Qed.

(** ** Properties *)

(** A provider read request that passes the checks is sent with its path
    normalized, and the receiver reads back exactly that request; sending it on
    gives the same body.  The range of every such request is non-empty, at most
    [MAX_PROVIDER_READ_LEN] long and does not overflow. *)
Theorem ProviderReadRequest_body_roundtrip r b :
  0 <= rq_length r -> ProviderReadRequest_into_body r = Ok b ->
  exists r', ProviderReadRequest_from_body b = Ok r' /\
    ProviderReadRequest_into_body r' = Ok b /\
    normalize_relative_path (rq_relative_path r) = Ok (rq_relative_path r') /\
    rq_request_id r' = rq_request_id r /\ rq_provider_id r' = rq_provider_id r /\
    rq_promise_id r' = rq_promise_id r /\ rq_provider_node_id r' = rq_provider_node_id r /\
    rq_offset r' = rq_offset r /\ rq_length r' = rq_length r /\
    0 < rq_length r' <= MAX_PROVIDER_READ_LEN /\ rq_offset r' + rq_length r' <= u64_max.
Proof.
  intros Hl (Hok & p & Hp & ->)%ProviderReadRequest_into_body_Ok; [|done].
  set (r' := mkProviderReadRequest (rq_request_id r) (rq_provider_id r) (rq_promise_id r) p
               (rq_provider_node_id r) (rq_offset r) (rq_length r)).
  assert (Hb : ProviderReadRequest_into_body r' = Ok (body_of r p)).
  { apply ProviderReadRequest_into_body_Ok; [done|]. split; [by destruct Hok|].
    exists p. split; [|done]. apply normalize_safe_id. by eapply normalize_safe. }
  exists r'. unfold ProviderReadRequest_from_body, ProviderReadRequest_validated, body_of. cbn.
  fold r'. rewrite Hb. destruct Hok. split_and!; try done; lia.
Qed.

Lemma ProviderReadRequest_body_roundtrip_witness :
  let r := mkProviderReadRequest 7 1 (bs "promise-1") (bs "./docs//a.txt") (bs "node") 10 20 in
  exists b r', ProviderReadRequest_into_body r = Ok b /\ ProviderReadRequest_from_body b = Ok r' /\
    rq_relative_path r' = bs "docs/a.txt".
Proof.
  intros r.
  destruct (ProviderReadRequest_body_roundtrip r
              (mkProviderReadRequestBody 7 1 (bs "promise-1") (bs "docs/a.txt") (bs "node") 10 20))
    as (r' & H1 & H2 & H3 & _); [cbn; lia|vm_compute; reflexivity|].
  eexists _, r'. split; [vm_compute; reflexivity|]. split; [exact H1|].
  change (normalize_relative_path (rq_relative_path r)) with (@Ok Status str (bs "docs/a.txt")) in H3.
  injection H3 as H3. symmetry. exact H3.
Defined.

(** Provider read responses survive the wire unchanged in both
    directions, and a response is accepted for a request exactly when it names
    the request, carries no more bytes than the request asked for or the
    protocol allows, and carries no bytes unless its status is [Ok]. *)
Theorem ProviderReadResponse_roundtrip_and_check response b request :
  (ProviderReadResponse_into_body response = Ok b -> ProviderReadResponse_from_body b = Ok response) /\
  (ProviderReadResponse_from_body b = Ok response -> ProviderReadResponse_into_body response = Ok b) /\
  (validate_provider_read_response_for_request request response = Ok tt <->
   response_answers request response).
Proof.
  assert (Hs : forall s, ProviderReadStatus_from_body (ProviderReadStatus_into_body s) = s) by by intros [].
  assert (Hs' : forall s, ProviderReadStatus_into_body (ProviderReadStatus_from_body s) = s) by by intros [].
  split_and!; [| |apply validate_response_for_request_Ok].
  - intros [Hv [= <-]]%bind_unit_Ok.
    unfold ProviderReadResponse_from_body, ProviderReadResponse_validated. cbn. rewrite Hs.
    destruct response as [i s bytes]; cbn in *. by rewrite Hv.
  - intros [Hv [= <-]]%bind_unit_Ok. unfold ProviderReadResponse_into_body. rewrite Hv. cbn.
    rewrite Hs'. by destruct b.
Qed.

(** What a daemon-side status is for the client after it crossed the
    socket as an error response: seven statuses come back as they were,
    [Unavailable] reads as [NotFound], [VersionMismatch] as [InvalidArgument],
    and the remaining ones as [Io]. *)
Theorem status_over_the_wire s message :
  io_error_to_status (error_to_io (mkErrorBody (status_to_error_code s) message)) =
    match s with
    | Unavailable => NotFound
    | VersionMismatch => InvalidArgument
    | Timeout | StatusOk => Io
    | s => s
    end /\
  io_message (error_to_io (mkErrorBody (status_to_error_code s) message)) = message.
Proof. by destruct s. Qed.
