(* ===== verification/Frame.v ===== *)
(** * Frames

    [read_frame] and [write_frame] of [crates/fuse-promise-ipc/src/lib.rs]: a
    message is its [bincode] encoding behind a little-endian [u32] length, of at
    most [MAX_FRAME_LEN] bytes.

    [bincode] is not part of the sources: its two functions are the class
    [Bincode], and what the protocol relies on, that decoding an encoding gives
    the message back and consumes all of it, is the class [BincodeOk].

    A reader is the bytes it still delivers and what follows them: the end of
    the stream, or a lasting I/O error.  A writer is the bytes it accepted and
    possibly the number it still accepts before it fails. *)

From S2P Require Import Prelude Types Paths Messages.

Class Bincode (T : Type) := {
  encode_to_vec : T -> result str (list byte);
  decode_from_slice : list byte -> result str (T * Z);
}.

Class BincodeOk (T : Type) `{!Bincode T} : Prop :=
  bincode_roundtrip : forall (message : T) body,
    encode_to_vec message = Ok body -> decode_from_slice body = Ok (message, len body).

(** What the size limits rely on: a provider's answer takes little more room
    than its bytes.  ([bincode] writes an integer in at most nine bytes, up to
    64 bits, a variant as an integer, and a vector as its length and its bytes.) *)
Class BincodeCompact `{!Bincode Request} : Prop :=
  bincode_compact : forall body,
    in_u64 (rb_request_id body) -> len (rb_bytes body) <= u32_max ->
    exists bytes, encode_to_vec (RequestProviderReadResponse body) = Ok bytes /\
      len bytes <= len (rb_bytes body) + 64.

Record Reader : Type := mkReader {
  rd_bytes : list byte;
  rd_error : option IoError;
}.

Record Writer : Type := mkWriter {
  wr_bytes : list byte;
  wr_limit : option (nat * IoError);
}.

(** ** [std::io] *)

(** [reader.read(&mut [0; 1])]: [None] is end of stream. *)
Definition read_byte (r : Reader) : Reader * IoResult (option byte) :=
  match rd_bytes r with
  | b :: bytes => (mkReader bytes (rd_error r), Ok (Some b))
  | [] => (r, match rd_error r with None => Ok None | Some e => Err e end)
  end.

Definition unexpected_eof : IoError := mkIoError KUnexpectedEof (bs "failed to fill whole buffer").

Definition read_exact (r : Reader) (n : nat) : Reader * IoResult (list byte) :=
  if decide (n <= length (rd_bytes r))%nat
  then (mkReader (drop n (rd_bytes r)) (rd_error r), Ok (take n (rd_bytes r)))
  else (mkReader [] (rd_error r), Err (default unexpected_eof (rd_error r))).

Definition write_all (w : Writer) (bytes : list byte) : Writer * IoResult () :=
  match wr_limit w with
  | None => (mkWriter (wr_bytes w ++ bytes) None, Ok tt)
  | Some (n, e) =>
      if decide (length bytes <= n)%nat
      then (mkWriter (wr_bytes w ++ bytes) (Some ((n - length bytes)%nat, e)), Ok tt)
      else (mkWriter (wr_bytes w ++ take n bytes) (Some (0%nat, e)), Err e)
  end.

(** [u32::to_le_bytes] and [u32::from_le_bytes]. *)
Definition u32_to_le_bytes (n : Z) : list byte :=
  [ byte_of (n mod 256); byte_of (n / 256 mod 256); byte_of (n / 65536 mod 256);
    byte_of (n / 16777216 mod 256) ].

Definition u32_from_le_bytes (b0 b1 b2 b3 : byte) : Z :=
  byte_val b0 + 256 * byte_val b1 + 65536 * byte_val b2 + 16777216 * byte_val b3.

#[export] Instance byte_inhabited : Inhabited byte := populate Byte.x00.

(** ** Frames *)

Definition frame_too_long : IoError := invalid_data (bs "IPC frame exceeds maximum length").
Definition frame_trailing : IoError := invalid_data (bs "IPC frame has trailing bytes").

Section frame.
Context {T : Type} `{!Bincode T}.

(** The three bytes after the first are read as a list of length three. *)
Definition read_frame (reader : Reader) : Reader * IoResult (option T) :=
  let '(reader, first) := read_byte reader in
  match first with
  | Err e => (reader, Err e)
  | Ok None => (reader, Ok None)
  | Ok (Some b0) =>
      let '(reader, rest) := read_exact reader 3 in
      match rest with
      | Err e => (reader, Err e)
      | Ok rest =>
          let length := u32_from_le_bytes b0 (rest !!! 0%nat) (rest !!! 1%nat) (rest !!! 2%nat) in
          if MAX_FRAME_LEN <? length then (reader, Err frame_too_long)
          else
            let '(reader, body) := read_exact reader (Z.to_nat length) in
            (reader,
             body ← body;
             m ← map_err invalid_data (decode_from_slice body);
             let '(message, bytes_read) := m in
             if negb (bytes_read =? len body) then Err frame_trailing else Ok (Some message))
      end
  end.

Definition write_frame (writer : Writer) (message : T) : Writer * IoResult () :=
  match map_err invalid_data (encode_to_vec message) with
  | Err e => (writer, Err e)
  | Ok body =>
      if MAX_FRAME_LEN <? len body then (writer, Err frame_too_long)
      else
        let '(writer, r) := write_all writer (u32_to_le_bytes (len body)) in
        match r with
        | Err e => (writer, Err e)
        | Ok _ => write_all writer body
        end
  end.

(** [while let Some(m) = read_frame(reader)? { .. }]: the messages of a stream
    up to its end or its first error. *)
Fixpoint read_frames (fuel : nat) (reader : Reader) : option (list T * IoResult ()) :=
  match fuel with
  | O => None
  | S fuel =>
      let '(reader, r) := read_frame reader in
      match r with
      | Err e => Some ([], Err e)
      | Ok None => Some ([], Ok tt)
      | Ok (Some m) => prod_map (cons m) id <$> read_frames fuel reader
      end
  end.

Fixpoint write_frames (writer : Writer) (ms : list T) : Writer * IoResult () :=
  match ms with
  | [] => (writer, Ok tt)
  | m :: ms =>
      let '(writer, r) := write_frame writer m in
      match r with
      | Err e => (writer, Err e)
      | Ok _ => write_frames writer ms
      end
  end.
End frame.

(** ** Reading responses *)

Definition read_response `{!Bincode Response} (reader : Reader) : Reader * IoResult Response :=
  let '(reader, r) := read_frame reader in
  (reader, r ← r; ok_or r (mkIoError KUnexpectedEof (bs "unexpected end of file"))).

Definition expect_hello (response : Response) : IoResult () :=
  match response with
  | ResponseHello protocol_version api_version =>
      if (protocol_version =? IPC_PROTOCOL_VERSION) && (api_version =? API_VERSION) then Ok tt
      else Err (invalid_data (bs "daemon returned an incompatible hello response"))
  | ResponseError error => Err (error_to_io error)
  | _ => Err (invalid_data (bs "daemon returned an unexpected hello response"))
  end.

Definition write_error `{!Bincode Response} (writer : Writer) (code : ErrorCode) (message : str) :
    Writer * IoResult () :=
  write_frame writer (ResponseError (mkErrorBody code message)).

Definition write_status_error `{!Bincode Response} (writer : Writer) (status : Status) :
    Writer * IoResult () :=
  write_error writer (status_to_error_code status) (Status_as_str status).

(** ** Lengths *)

Lemma byte_val_of z : 0 <= z < 256 -> byte_val (byte_of z) = z.
Proof.
  intros Hz. unfold byte_of, byte_val.
  destruct (Byte.of_N (Z.to_N z)) as [b|] eqn:Hb; cbn.
  - apply Byte.to_of_N in Hb. rewrite Hb. lia.
  - apply Byte.of_N_None_iff in Hb. lia.
Qed.

Lemma u32_le_roundtrip n :
  in_u32 n ->
  exists b0 b1 b2 b3, u32_to_le_bytes n = [b0; b1; b2; b3] /\ u32_from_le_bytes b0 b1 b2 b3 = n.
Proof.
  intros [H0 H1]. unfold u32_to_le_bytes. do 4 eexists. split; [done|]. unfold u32_from_le_bytes, u32_max in *.
  pose proof (Z.mod_pos_bound n 256). pose proof (Z.mod_pos_bound (n / 256) 256).
  pose proof (Z.mod_pos_bound (n / 65536) 256). pose proof (Z.mod_pos_bound (n / 16777216) 256).
  rewrite !byte_val_of by lia.
  pose proof (Z.div_mod n 256). pose proof (Z.div_mod (n / 256) 256). pose proof (Z.div_mod (n / 65536) 256).
  pose proof (Z.div_mod (n / 16777216) 256).
  rewrite Z.div_div in * by lia. change (256 * 256) with 65536 in *.
  change (65536 * 256) with 16777216 in *. change (16777216 * 256) with 4294967296 in *.
  rewrite (Z.div_small n 4294967296) in * by lia. lia.
Qed.

Lemma u32_from_le_range b0 b1 b2 b3 : in_u32 (u32_from_le_bytes b0 b1 b2 b3).
Proof.
  unfold in_u32, u32_from_le_bytes, u32_max.
  pose proof (byte_val_range b0). pose proof (byte_val_range b1).
  pose proof (byte_val_range b2). pose proof (byte_val_range b3). lia.
Qed.

(** ** One frame *)

Section frame_lemmas.
Context {T : Type} `{!Bincode T}.

(** The bytes of a frame. *)
Definition frame_of (body : list byte) : list byte := u32_to_le_bytes (len body) ++ body.

Lemma read_exact_app l k e : read_exact (mkReader (l ++ k) e) (length l) = (mkReader k e, Ok l).
Proof.
  unfold read_exact; cbn. rewrite decide_True by (rewrite length_app; lia).
  by rewrite take_app_length, drop_app_length.
Qed.

(** Reading what starts with a complete frame. *)
Lemma read_frame_body body rest e :
  len body <= MAX_FRAME_LEN ->
  read_frame (T := T) (mkReader (frame_of body ++ rest) e) =
    (mkReader rest e,
     m ← map_err invalid_data (decode_from_slice body);
     let '(message, bytes_read) := m in
     if negb (bytes_read =? len body) then Err frame_trailing else Ok (Some message)).
Proof.
  intros Hlen. pose proof (len_nonneg body).
  destruct (u32_le_roundtrip (len body)) as (b0 & b1 & b2 & b3 & Hb & Hn).
  { unfold in_u32, MAX_FRAME_LEN, u32_max in *. lia. }
  unfold read_frame, frame_of. rewrite Hb. cbn [app read_byte rd_bytes rd_error].
  pose proof (read_exact_app [b1; b2; b3] (body ++ rest) e) as H3. cbn [app length] in H3.
  rewrite H3. cbn. rewrite Hn.
  destruct (Z.ltb_spec MAX_FRAME_LEN (len body)); [lia|].
  unfold len at 1. rewrite Nat2Z.id, read_exact_app. done.
Qed.

Lemma write_frame_unlimited out (m : T) body :
  encode_to_vec m = Ok body -> len body <= MAX_FRAME_LEN ->
  write_frame (mkWriter out None) m = (mkWriter (out ++ frame_of body) None, Ok tt).
Proof.
  intros Hm Hlen. unfold write_frame. rewrite Hm. cbn [map_err].
  destruct (Z.ltb_spec MAX_FRAME_LEN (len body)); [lia|]. unfold write_all. cbn [wr_limit wr_bytes].
  unfold frame_of. by rewrite <- app_assoc.
Qed.

(** A message that is read was framed: nothing else is accepted. *)
Lemma read_frame_Some r r' (m : T) :
  read_frame r = (r', Ok (Some m)) ->
  exists header body, length header = 4%nat /\ rd_bytes r = header ++ body ++ rd_bytes r' /\
    rd_error r' = rd_error r /\ len body <= MAX_FRAME_LEN /\
    (exists b0 b1 b2 b3, header = [b0; b1; b2; b3] /\ u32_from_le_bytes b0 b1 b2 b3 = len body) /\
    decode_from_slice body = Ok (m, len body).
Proof.
  unfold read_frame. destruct r as [[|b0 bytes] e]; cbn; [by destruct e|].
  unfold read_exact at 1. cbn. case_decide as H3; [|done].
  destruct bytes as [|b1 [|b2 [|b3 bytes]]]; cbn in H3; [lia..|]. cbn.
  pose proof (u32_from_le_range b0 b1 b2 b3) as [Hlo _].
  set (n := u32_from_le_bytes b0 b1 b2 b3) in *. destruct (Z.ltb_spec MAX_FRAME_LEN n); [done|].
  unfold read_exact. cbn. rewrite drop_0. case_decide as Hn; cbn; [|done].
  destruct (decode_from_slice (take (Z.to_nat n) bytes)) as [[m' k]|] eqn:Hd; cbn; [|done].
  assert (Hl : len (take (Z.to_nat n) bytes) = n) by (unfold len; rewrite length_take; lia).
  destruct (Z.eqb_spec k (len (take (Z.to_nat n) bytes))) as [->|]; cbn; [|done].
  intros [= <- <-]. exists [b0; b1; b2; b3], (take (Z.to_nat n) bytes). cbn. rewrite Hl in *.
  split_and!; try done; [by rewrite take_drop|]. exists b0, b1, b2, b3. done.
Qed.

(** Reading consumes a prefix, and at least one byte unless it stops. *)
Lemma read_frame_shrinks r r' (m : T) :
  read_frame r = (r', Ok (Some m)) -> (length (rd_bytes r') < length (rd_bytes r))%nat.
Proof.
  intros (header & body & Hh & Hr & _)%read_frame_Some. rewrite Hr, !length_app. lia.
Qed.

Lemma read_frames_total fuel r :
  (length (rd_bytes r) < fuel)%nat -> is_Some (read_frames (T := T) fuel r).
Proof.
  revert r. induction fuel as [|fuel IH]; intros r Hf; [lia|]. cbn.
  destruct (read_frame r) as [r' [[m|]|e]] eqn:Hr; [|eauto..].
  apply read_frame_shrinks in Hr. destruct (IH r') as [x Hx]; [lia|]. rewrite Hx. eauto.
Qed.

Lemma read_frames_fuel fuel fuel' r x :
  read_frames (T := T) fuel r = Some x -> (fuel <= fuel')%nat -> read_frames fuel' r = Some x.
Proof.
  revert fuel' r x. induction fuel as [|fuel IH]; intros [|fuel'] r x; cbn; try done; [lia|].
  destruct (read_frame r) as [r' [[m|]|e]]; try done. intros (y & Hy & ->)%fmap_Some Hle.
  by rewrite (IH fuel' r' y) by (done || lia).
Qed.
End frame_lemmas.

(** ** Properties *)

(** A codec that is the identity on byte strings, to evaluate the properties
    on. *)
#[local] Instance raw_bincode : Bincode str :=
  {| encode_to_vec := fun m => Ok m; decode_from_slice := fun b => Ok (b, len b) |}.

#[local] Instance raw_bincode_ok : BincodeOk str.
Proof. by intros m body [= ->]. Qed.

(** C15: framing round trip.  A sequence of messages whose encodings fit in a
    frame, written to a connection, is read back as exactly that sequence,
    followed by the end of the stream, whatever the messages contain. *)
Theorem frames_roundtrip {T} `{!Bincode T, !BincodeOk T} (ms : list T) :
  Forall (fun m => exists body, encode_to_vec m = Ok body /\ len body <= MAX_FRAME_LEN) ms ->
  let '(w, r) := write_frames (mkWriter [] None) ms in
  r = Ok tt /\
  read_frames (S (length (wr_bytes w))) (mkReader (wr_bytes w) None) = Some (ms, Ok tt).
Proof.
  intros Hms.
  assert (Hw : forall out, exists k, write_frames (mkWriter out None) ms = (mkWriter (out ++ k) None, Ok tt) /\
    exists fuel, read_frames fuel (mkReader k None) = Some (ms, Ok tt)).
  { induction Hms as [|m ms (body & Hb & Hl) Hms IH]; intros out; cbn.
    - exists []. rewrite app_nil_r. split; [done|]. by exists 1%nat.
    - rewrite (write_frame_unlimited out m body Hb Hl).
      destruct (IH (out ++ frame_of body)) as (k & Hk & fuel & Hf). exists (frame_of body ++ k).
      rewrite Hk, <- app_assoc. split; [done|]. exists (S fuel). cbn [read_frames].
      rewrite (read_frame_body body k None Hl), (bincode_roundtrip m body Hb). cbn.
      rewrite Z.eqb_refl. cbn. by rewrite Hf. }
  destruct (Hw []) as (k & -> & fuel & Hf). split; [done|]. cbn [wr_bytes app].
  destruct (read_frames_total (T := T) (S (length k)) (mkReader k None)) as [x Hx]; [cbn; lia|].
  rewrite Hx. f_equal.
  apply (read_frames_fuel _ (fuel + S (length k))) in Hx, Hf; [|lia..]. congruence.
Qed.

Lemma frames_roundtrip_witness :
  let ms := [bs "hello"; []; bs "status"] in
  read_frames 100 (mkReader (wr_bytes (write_frames (mkWriter [] None) ms).1) None) = Some (ms, Ok tt).
Proof.
  intros ms. pose proof (frames_roundtrip ms) as H.
  assert (Hok : Forall (fun m : str => exists body, encode_to_vec m = Ok body /\ len body <= MAX_FRAME_LEN) ms).
  { repeat constructor; eexists; (split; [reflexivity|vm_compute; congruence]). }
  specialize (H Hok). destruct (write_frames (mkWriter [] None) ms) as [w r] eqn:Hw.
  destruct H as [_ H]. cbn [fst]. revert H. vm_compute in Hw. injection Hw as <- _. vm_compute. exact (fun H => H).
Defined.

(** [read_frame] on any input.  A message is returned only for a complete
    frame of at most [MAX_FRAME_LEN] bytes that decodes with nothing left over,
    and exactly that frame is consumed; the end of the stream is reported only
    between frames; a longer frame is refused before its body is read; and
    reading a whole stream terminates. *)
Theorem read_frame_correct {T} `{!Bincode T} (bytes : list byte) (e : option IoError) :
  (match read_frame (T := T) (mkReader bytes e) with
   | (r', Ok (Some m)) =>
       exists body, rd_bytes r' = drop (4 + length body) bytes /\ take (length body) (drop 4 bytes) = body /\
         len body <= MAX_FRAME_LEN /\ decode_from_slice body = Ok (m, len body)
   | (r', Ok None) => bytes = [] /\ e = None
   | (r', Err err) => bytes <> [] \/ e = Some err
   end) /\
  (forall b0 b1 b2 b3 rest, bytes = b0 :: b1 :: b2 :: b3 :: rest ->
     MAX_FRAME_LEN < u32_from_le_bytes b0 b1 b2 b3 ->
     read_frame (T := T) (mkReader bytes e) = (mkReader rest e, Err frame_too_long)) /\
  is_Some (read_frames (T := T) (S (length bytes)) (mkReader bytes e)).
Proof.
  split_and!; [|intros b0 b1 b2 b3 rest -> Hlong|apply read_frames_total; cbn; lia].
  - destruct (read_frame (mkReader bytes e)) as [r' [[m|]|err]] eqn:Hr.
    + apply read_frame_Some in Hr as (header & body & Hh & Hb & _ & Hl & _ & Hd). cbn in Hb.
      exists body. rewrite Hb. split_and!; try done.
      * rewrite app_assoc, drop_app_length' by (rewrite length_app; lia). done.
      * rewrite drop_app_length' by lia. by rewrite take_app_length.
    + unfold read_frame in Hr. destruct bytes as [|b0 bytes]; [destruct e; cbn in Hr; by simplify_eq|exfalso; cbn in Hr].
      destruct (read_exact _ 3) as [r1 [rest|]]; [|done].
      destruct (MAX_FRAME_LEN <? _); [done|]. destruct (read_exact _ _) as [r2 body].
      injection Hr as _ Hr. inv_ok. destruct x0. case_bool_in Hr; done.
    + destruct bytes; [|by left]. right. cbn in Hr. destruct e; cbn in Hr; congruence.
  - unfold read_frame. cbn. unfold read_exact at 1. cbn. rewrite decide_True by lia. cbn. rewrite drop_0.
    destruct (Z.ltb_spec MAX_FRAME_LEN (u32_from_le_bytes b0 b1 b2 b3)); [done|lia].
Qed.
