(* ===== verification/Wire.v ===== *)
(** * A codec for the protocol's messages

    [bincode] is a parameter of the development.  This file gives the parameter
    a value on the whole of [Request] and [Response], in the layout that
    [bincode::config::standard()] documents: integers in as few bytes as they
    need, a variant as the number of its constructor, strings and vectors behind
    their length, and the fields of a struct one after the other, in the order
    and the width of the declarations of [crates/fuse-promise-ipc/src/lib.rs].

    A format is a partial printer and a parser that returns what is left of its
    input; [format_ok] is that the parser undoes the printer whatever follows.
    Formats are built from combinators that keep it, so that the two codecs meet
    [BincodeOk] by construction. *)

From S2P Require Import Prelude Types Paths Messages Frame.

Record Format (A : Type) : Type := mkFormat {
  put : A -> option (list byte);
  get : list byte -> option (A * list byte);
}.
Arguments mkFormat {A}.
Arguments put {A}.
Arguments get {A}.

Definition format_ok {A} (f : Format A) : Prop :=
  forall a bytes rest, put f a = Some bytes -> get f (bytes ++ rest) = Some (a, rest).

Create HintDb wire.
Declare Scope wire_scope.

(** ** Structs *)

Definition unit_format : Format () := mkFormat (fun _ => Some []) (fun bytes => Some (tt, bytes)).

Definition pair_format {A B} (f : Format A) (g : Format B) : Format (A * B) := mkFormat
  (fun x => a ← put f x.1; b ← put g x.2; Some (a ++ b))
  (fun bytes => x ← get f bytes; y ← get g x.2; Some ((x.1, y.1), y.2)).

(** The type [B], given as a view of the type [A]. *)
Definition view_format {A B} (into : A -> B) (from : B -> A) (f : Format A) : Format B := mkFormat
  (fun b => put f (from b))
  (fun bytes => x ← get f bytes; Some (into x.1, x.2)).

Lemma unit_format_ok : format_ok unit_format.
Proof. intros [] bytes rest [= <-]. done. Qed.

Lemma pair_format_ok {A B} (f : Format A) (g : Format B) :
  format_ok f -> format_ok g -> format_ok (pair_format f g).
Proof.
  intros Hf Hg [a b] bytes rest H. cbn in *.
  destruct (put f a) as [x|] eqn:Hx; [|done]. destruct (put g b) as [y|] eqn:Hy; [|done].
  injection H as <-. rewrite <- app_assoc, (Hf _ _ _ Hx). cbn. by rewrite (Hg _ _ _ Hy).
Qed.

Lemma view_format_ok {A B} (into : A -> B) (from : B -> A) f :
  (forall b, into (from b) = b) -> format_ok f -> format_ok (view_format into from f).
Proof. intros Hview Hf b bytes rest H. cbn in *. rewrite (Hf _ _ _ H). cbn. by rewrite Hview. Qed.

#[export] Hint Resolve unit_format_ok pair_format_ok : wire.

(** ** Integers *)

(** [k] bytes, the least significant first. *)
Fixpoint le_bytes (k : nat) (n : Z) : list byte :=
  match k with
  | O => []
  | S k => byte_of (n mod 256) :: le_bytes k (n / 256)
  end.

Definition le_number (bytes : list byte) : Z := foldr (fun b n => byte_val b + 256 * n) 0 bytes.

Definition get_le (k : nat) (bytes : list byte) : option (Z * list byte) :=
  if decide (k <= length bytes)%nat then Some (le_number (take k bytes), drop k bytes) else None.

(** The marker of an integer that does not fit in one byte, with its size. *)
Definition put_varint (n : Z) : option (list byte) :=
  if n <? 0 then None
  else if n <? 251 then Some [byte_of n]
  else if n <? 2 ^ 16 then Some (byte_of 251 :: le_bytes 2 n)
  else if n <? 2 ^ 32 then Some (byte_of 252 :: le_bytes 4 n)
  else if n <? 2 ^ 64 then Some (byte_of 253 :: le_bytes 8 n)
  else if n <? 2 ^ 128 then Some (byte_of 254 :: le_bytes 16 n)
  else None.

Definition get_varint (bytes : list byte) : option (Z * list byte) :=
  match bytes with
  | [] => None
  | b :: bytes =>
      let m := byte_val b in
      if m <? 251 then Some (m, bytes)
      else if m =? 251 then get_le 2 bytes
      else if m =? 252 then get_le 4 bytes
      else if m =? 253 then get_le 8 bytes
      else if m =? 254 then get_le 16 bytes
      else None
  end.

(** An unsigned integer of at most [width] bits. *)
Definition uint_format (width : Z) : Format Z := mkFormat
  (fun n => if n <? 2 ^ width then put_varint n else None)
  (fun bytes => x ← get_varint bytes; if x.1 <? 2 ^ width then Some x else None).

(** A signed one: non-negative numbers are even, and negative ones odd. *)
Definition zigzag (n : Z) : Z := if n <? 0 then -2 * n - 1 else 2 * n.
Definition unzigzag (n : Z) : Z := if Z.odd n then - ((n + 1) / 2) else n / 2.

Definition int_format (width : Z) : Format Z := view_format unzigzag zigzag (uint_format width).

Lemma le_bytes_length k n : length (le_bytes k n) = k.
Proof. revert n. induction k as [|k IH]; intros n; cbn; [done|]. by rewrite IH. Qed.

Lemma le_number_bytes k n : 0 <= n < 256 ^ Z.of_nat k -> le_number (le_bytes k n) = n.
Proof.
  revert n. induction k as [|k IH]; intros n Hn; cbn [le_bytes le_number foldr].
  - change (256 ^ Z.of_nat 0) with 1 in Hn. lia.
  - rewrite Nat2Z.inj_succ, Z.pow_succ_r in Hn by lia.
    fold (le_number (le_bytes k (n / 256))). rewrite IH.
    + rewrite byte_val_of by (pose proof (Z.mod_pos_bound n 256); lia).
      pose proof (Z.div_mod n 256). lia.
    + split; [apply Z.div_pos; lia|apply Z.div_lt_upper_bound; lia].
Qed.

Lemma get_le_bytes k n rest :
  0 <= n < 256 ^ Z.of_nat k -> get_le k (le_bytes k n ++ rest) = Some (n, rest).
Proof.
  intros Hn. unfold get_le. pose proof (le_bytes_length k n) as Hl.
  rewrite length_app, decide_True by lia. rewrite <- Hl at 1 3.
  by rewrite take_app_length, drop_app_length, le_number_bytes.
Qed.

Lemma get_put_varint n bytes rest :
  put_varint n = Some bytes -> get_varint (bytes ++ rest) = Some (n, rest).
Proof.
  unfold put_varint. intros H.
  repeat match type of H with
  | context [?a <? ?b] => destruct (Z.ltb_spec a b); [try done|try done]
  end; apply (inj Some) in H as <-; cbn [get_varint app]; rewrite byte_val_of by lia.
  { by destruct (Z.ltb_spec n 251); [|lia]. }
  all: cbn [Z.ltb Z.eqb Z.compare Pos.compare Pos.compare_cont Pos.eqb]; apply get_le_bytes;
    cbn [Z.of_nat Pos.of_succ_nat Pos.succ]; lia.
Qed.

Lemma uint_format_ok width : format_ok (uint_format width).
Proof.
  intros n bytes rest H. cbn in *. destruct (Z.ltb_spec n (2 ^ width)); [|done].
  rewrite (get_put_varint _ _ _ H). cbn. by destruct (Z.ltb_spec n (2 ^ width)); [|lia].
Qed.

Lemma unzigzag_zigzag n : unzigzag (zigzag n) = n.
Proof.
  unfold unzigzag, zigzag. destruct (Z.ltb_spec n 0).
  - replace (-2 * n - 1) with (1 + 2 * (- n - 1)) by lia.
    rewrite Z.odd_add_mul_2. change (Z.odd 1) with true. cbv iota. Z.to_euclidean_division_equations. lia.
  - rewrite Z.odd_mul. change (Z.odd 2) with false. cbn [andb]. Z.to_euclidean_division_equations. lia.
Qed.

Lemma int_format_ok width : format_ok (int_format width).
Proof. apply view_format_ok; [exact unzigzag_zigzag|apply uint_format_ok]. Qed.

#[export] Hint Resolve uint_format_ok int_format_ok : wire.

(** ** Strings and vectors *)

Definition bytes_format : Format (list byte) := mkFormat
  (fun v => n ← put (uint_format 64) (len v); Some (n ++ v))
  (fun bytes =>
     x ← get (uint_format 64) bytes;
     if x.1 <=? len x.2 then Some (take (Z.to_nat x.1) x.2, drop (Z.to_nat x.1) x.2) else None).

(** A [String] is valid UTF-8. *)
Definition string_format : Format str := mkFormat
  (fun s => if utf8_valid s then put bytes_format s else None)
  (fun bytes => x ← get bytes_format bytes; if utf8_valid x.1 then Some x else None).

Section vec.
Context {A : Type} (f : Format A).

Fixpoint put_all (v : list A) : option (list byte) :=
  match v with
  | [] => Some []
  | a :: v => x ← put f a; y ← put_all v; Some (x ++ y)
  end.

Fixpoint get_all (n : nat) (bytes : list byte) : option (list A * list byte) :=
  match n with
  | O => Some ([], bytes)
  | S n => x ← get f bytes; y ← get_all n x.2; Some (x.1 :: y.1, y.2)
  end.

Definition vec_format : Format (list A) := mkFormat
  (fun v => n ← put (uint_format 64) (len v); x ← put_all v; Some (n ++ x))
  (fun bytes => x ← get (uint_format 64) bytes; get_all (Z.to_nat x.1) x.2).

Lemma get_put_all v bytes rest :
  format_ok f -> put_all v = Some bytes -> get_all (length v) (bytes ++ rest) = Some (v, rest).
Proof.
  intros Hf. revert bytes. induction v as [|a v IH]; intros bytes H; cbn in *; [by injection H as <-|].
  destruct (put f a) as [x|] eqn:Hx; [|done]. destruct (put_all v) as [y|] eqn:Hy; [|done].
  injection H as <-. rewrite <- app_assoc, (Hf _ _ _ Hx). cbn. by rewrite (IH _ eq_refl).
Qed.

Lemma vec_format_ok : format_ok f -> format_ok vec_format.
Proof.
  intros Hf v bytes rest H. cbn in H.
  destruct (put (uint_format 64) (len v)) as [n|] eqn:Hn; cbn in Hn; rewrite Hn in H; [|done]. cbn in H.
  destruct (put_all v) as [x|] eqn:Hx; [|done]. injection H as <-.
  unfold vec_format. cbn [get]. rewrite <- app_assoc, (uint_format_ok 64 _ _ _ Hn). cbn [mbind option_bind fst snd].
  unfold len. rewrite Nat2Z.id. by apply get_put_all.
Qed.
End vec.

Lemma bytes_format_ok : format_ok bytes_format.
Proof.
  intros v bytes rest H. cbn in H.
  destruct (put (uint_format 64) (len v)) as [n|] eqn:Hn; cbn in Hn; rewrite Hn in H; [|done].
  injection H as <-. unfold bytes_format. cbn [get]. rewrite <- app_assoc, (uint_format_ok 64 _ _ _ Hn).
  cbn [mbind option_bind fst snd]. unfold len. rewrite length_app, Nat2Z.id.
  destruct (Z.leb_spec (Z.of_nat (length v)) (Z.of_nat (length v + length rest))); [|lia].
  by rewrite take_app_length, drop_app_length.
Qed.

Lemma string_format_ok : format_ok string_format.
Proof.
  intros s bytes rest H. unfold string_format in *. cbn [put get] in *. destruct (utf8_valid s) eqn:Hs; [|done].
  rewrite (bytes_format_ok _ _ _ H). cbn. by rewrite Hs.
Qed.

#[export] Hint Resolve vec_format_ok bytes_format_ok string_format_ok : wire.

(** ** Enums *)

(** An enum of constants: a value is its place in the declaration. *)
Definition enum_format {A} `{!EqDecision A} (items : list A) : Format A := mkFormat
  (fun a => x ← list_find (fun item => item = a) items; put (uint_format 32) (Z.of_nat x.1))
  (fun bytes => x ← get (uint_format 32) bytes; a ← items !! Z.to_nat x.1; Some (a, x.2)).

Lemma enum_format_ok {A} `{!EqDecision A} (items : list A) : format_ok (enum_format items).
Proof.
  intros a bytes rest H. unfold enum_format in *. cbn [put get] in *.
  destruct (list_find _ items) as [[i item]|] eqn:Hf; [|done].
  apply list_find_Some in Hf as (Hi & -> & _). cbn [mbind option_bind fst] in H.
  rewrite (uint_format_ok 32 _ _ _ H). cbn [mbind option_bind fst snd]. by rewrite Nat2Z.id, Hi.
Qed.

(** A variant with fields: the number of its constructor, and the fields. *)
Definition put_variant {A} (k : Z) (f : Format A) (a : A) : option (list byte) :=
  n ← put (uint_format 32) k; x ← put f a; Some (n ++ x).

Definition get_fields {A T} (f : Format A) (into : A -> T) (bytes : list byte) : option (T * list byte) :=
  x ← get f bytes; Some (into x.1, x.2).

Definition get_variant {T} (cases : list (list byte -> option (T * list byte))) (bytes : list byte) :
    option (T * list byte) :=
  x ← get (uint_format 32) bytes; g ← cases !! Z.to_nat x.1; g x.2.

Lemma get_put_variant {A T} k (f : Format A) a (into : A -> T) cases bytes rest :
  cases !! Z.to_nat k = Some (get_fields f into) -> format_ok f ->
  put_variant k f a = Some bytes -> get_variant cases (bytes ++ rest) = Some (into a, rest).
Proof.
  intros Hcase Hf H. unfold put_variant in H.
  destruct (put (uint_format 32) k) as [n|] eqn:Hn; [|done].
  cbn [mbind option_bind] in H. destruct (put f a) as [x|] eqn:Hx; [|done]. injection H as <-.
  unfold get_variant. rewrite <- app_assoc, (uint_format_ok 32 _ _ _ Hn). cbn [mbind option_bind fst snd].
  rewrite Hcase. cbn [mbind option_bind]. unfold get_fields. by rewrite (Hf _ _ _ Hx).
Qed.

#[export] Hint Resolve enum_format_ok : wire.

(** A format that views a struct as the tuple of its fields. *)
Ltac solve_format :=
  try (eapply view_format_ok; [by intros []|]); eauto 20 with wire.

Infix "⊗" := pair_format (at level 40, left associativity) : wire_scope.
Open Scope wire_scope.

(** ** The bodies *)

Definition u32 : Format Z := uint_format 32.
Definition u64 : Format Z := uint_format 64.
Definition u128 : Format Z := uint_format 128.
Definition i64 : Format Z := int_format 64.

Definition error_code : Format ErrorCode :=
  enum_format [EcInvalidRequest; EcVersionMismatch; EcUnavailable; EcNotFound; EcAlreadyExists;
               EcProviderGone; EcPermission; EcCancelled; EcInternal].

Definition error_body : Format ErrorBody :=
  view_format (fun '(a, b) => mkErrorBody a b) (fun x => (eb_code x, eb_message x))
    (error_code ⊗ string_format).

Definition status_body : Format StatusBody :=
  view_format (fun '(a, b, c, d, e, f, g, h, i) => mkStatusBody a b c d e f g h i)
    (fun x => (sb_api_version x, sb_mount_path x, sb_socket_path x, sb_daemon x, sb_mount x,
               sb_fuse_adapter x, sb_cache_policy x, sb_providers x, sb_promises x))
    (u32 ⊗ string_format ⊗ string_format ⊗ string_format ⊗ string_format ⊗ string_format ⊗ string_format
     ⊗ u64 ⊗ u64).

Definition inspect_node_body : Format InspectNodeBody :=
  view_format (fun '(a, b, c, d, e, f) => mkInspectNodeBody a b c d e f)
    (fun x => (in_relative_path x, in_inode x, in_kind x, in_size x, in_mode x, in_provider_node_id x))
    (string_format ⊗ u64 ⊗ string_format ⊗ u64 ⊗ u32 ⊗ string_format).

Definition inspect_promise_body : Format InspectPromiseBody :=
  view_format (fun '(a, b, c, d) => mkInspectPromiseBody a b c d)
    (fun x => (ip_promise_id x, ip_provider_id x, ip_state x, ip_nodes x))
    (string_format ⊗ u64 ⊗ string_format ⊗ vec_format inspect_node_body).

Definition inspect_body : Format InspectBody :=
  view_format (fun '(a, b) => mkInspectBody a b) (fun x => (ib_providers x, ib_promises x))
    (u64 ⊗ vec_format inspect_promise_body).

Definition promise_node_body : Format PromiseNodeBody :=
  view_format (fun '(a, b, c, d, e, f) => mkPromiseNodeBody a b c d e f)
    (fun x => (nb_kind x, nb_relative_path x, nb_provider_node_id x, nb_mode x, nb_size x, nb_mtime_nsec x))
    (enum_format [FileBody; DirectoryBody] ⊗ string_format ⊗ string_format ⊗ u32 ⊗ u64 ⊗ i64).

Definition promise_commit_body : Format PromiseCommitBody :=
  view_format (fun '(a, b, c) => mkPromiseCommitBody a b c)
    (fun x => (cb_provider_id x, cb_provider_owner_token x, cb_nodes x))
    (u64 ⊗ u128 ⊗ vec_format promise_node_body).

Definition promise_committed_body : Format PromiseCommittedBody :=
  view_format (fun '(a, b) => mkPromiseCommittedBody a b) (fun x => (cd_promise_id x, cd_visible_path x))
    (string_format ⊗ string_format).

Definition materialize_body : Format MaterializeBody :=
  view_format (fun '(a, b, c) => mkMaterializeBody a b c)
    (fun x => (mb_source_path x, mb_target_dir x, mb_conflict_policy x))
    (string_format ⊗ string_format ⊗ enum_format [FailBody; OverwriteBody; RenameBody]).

Definition materialize_counters : Format MaterializeCounters :=
  view_format (fun '(a, b, c, d, e, f, g, h, i) => mkMaterializeCounters a b c d e f g h i)
    (fun x => (mc_target_path x, mc_entries_done x, mc_entries_total x, mc_bytes_written x, mc_bytes_total x,
               mc_files_written x, mc_files_total x, mc_directories_created x, mc_directories_total x))
    (string_format ⊗ u64 ⊗ u64 ⊗ u64 ⊗ u64 ⊗ u64 ⊗ u64 ⊗ u64 ⊗ u64).

Definition materialize_failed_body : Format MaterializeFailedBody :=
  view_format (fun '(a, b, c) => mkMaterializeFailedBody a b c)
    (fun x => (mf_code x, mf_message x, mf_counters x))
    (error_code ⊗ string_format ⊗ materialize_counters).

Definition read_request_body : Format ProviderReadRequestBody :=
  view_format (fun '(a, b, c, d, e, f, g) => mkProviderReadRequestBody a b c d e f g)
    (fun x => (qb_request_id x, qb_provider_id x, qb_promise_id x, qb_relative_path x, qb_provider_node_id x,
               qb_offset x, qb_length x))
    (u64 ⊗ u64 ⊗ string_format ⊗ string_format ⊗ string_format ⊗ u64 ⊗ u32).

Definition read_status : Format ProviderReadStatusBody :=
  enum_format [PbOk; PbInvalidArgument; PbPermission; PbNotFound; PbProviderGone; PbIo; PbTimeout; PbCancelled].

Definition read_response_body : Format ProviderReadResponseBody :=
  view_format (fun '(a, b, c) => mkProviderReadResponseBody a b c)
    (fun x => (rb_request_id x, rb_status x, rb_bytes x)) (u64 ⊗ read_status ⊗ bytes_format).

(** ** The messages *)

Definition put_request (m : Request) : option (list byte) :=
  match m with
  | RequestHello v a => put_variant 0 (u32 ⊗ u32) (v, a)
  | RequestStatus => put_variant 1 unit_format tt
  | RequestInspect => put_variant 2 unit_format tt
  | RequestProviderRegister => put_variant 3 unit_format tt
  | RequestProviderUnregister p t => put_variant 4 (u64 ⊗ u128) (p, t)
  | RequestPromiseCommit body => put_variant 5 promise_commit_body body
  | RequestMaterialize body => put_variant 6 materialize_body body
  | RequestMaterializeContinue => put_variant 7 unit_format tt
  | RequestMaterializeCancel => put_variant 8 unit_format tt
  | RequestProviderReadResponse body => put_variant 9 read_response_body body
  end.

Definition request_cases : list (list byte -> option (Request * list byte)) :=
  [get_fields (u32 ⊗ u32) (fun x => RequestHello x.1 x.2);
   get_fields unit_format (fun _ => RequestStatus);
   get_fields unit_format (fun _ => RequestInspect);
   get_fields unit_format (fun _ => RequestProviderRegister);
   get_fields (u64 ⊗ u128) (fun x => RequestProviderUnregister x.1 x.2);
   get_fields promise_commit_body RequestPromiseCommit;
   get_fields materialize_body RequestMaterialize;
   get_fields unit_format (fun _ => RequestMaterializeContinue);
   get_fields unit_format (fun _ => RequestMaterializeCancel);
   get_fields read_response_body RequestProviderReadResponse].

Definition request_format : Format Request := mkFormat put_request (get_variant request_cases).

Definition put_response (m : Response) : option (list byte) :=
  match m with
  | ResponseHello v a => put_variant 0 (u32 ⊗ u32) (v, a)
  | ResponseStatus body => put_variant 1 status_body body
  | ResponseInspect body => put_variant 2 inspect_body body
  | ResponseProviderRegistered p t => put_variant 3 (u64 ⊗ u128) (p, t)
  | ResponseProviderUnregistered => put_variant 4 unit_format tt
  | ResponsePromiseCommitted body => put_variant 5 promise_committed_body body
  | ResponseMaterializeProgress body => put_variant 6 materialize_counters body
  | ResponseMaterialized body => put_variant 7 materialize_counters body
  | ResponseMaterializeFailed body => put_variant 8 materialize_failed_body body
  | ResponseProviderReadRequest body => put_variant 9 read_request_body body
  | ResponseError body => put_variant 10 error_body body
  end.

Definition response_cases : list (list byte -> option (Response * list byte)) :=
  [get_fields (u32 ⊗ u32) (fun x => ResponseHello x.1 x.2);
   get_fields status_body ResponseStatus;
   get_fields inspect_body ResponseInspect;
   get_fields (u64 ⊗ u128) (fun x => ResponseProviderRegistered x.1 x.2);
   get_fields unit_format (fun _ => ResponseProviderUnregistered);
   get_fields promise_committed_body ResponsePromiseCommitted;
   get_fields materialize_counters ResponseMaterializeProgress;
   get_fields materialize_counters ResponseMaterialized;
   get_fields materialize_failed_body ResponseMaterializeFailed;
   get_fields read_request_body ResponseProviderReadRequest;
   get_fields error_body ResponseError].

Definition response_format : Format Response := mkFormat put_response (get_variant response_cases).

Lemma promise_node_body_ok : format_ok promise_node_body.
Proof. solve_format. Qed.
Lemma inspect_node_body_ok : format_ok inspect_node_body.
Proof. solve_format. Qed.
Lemma materialize_counters_ok : format_ok materialize_counters.
Proof. solve_format. Qed.
#[export] Hint Resolve promise_node_body_ok inspect_node_body_ok materialize_counters_ok : wire.
Lemma inspect_promise_body_ok : format_ok inspect_promise_body.
Proof. solve_format. Qed.
#[export] Hint Resolve inspect_promise_body_ok : wire.

Lemma request_format_ok : format_ok request_format.
Proof.
  intros m bytes rest H. cbn [get request_format].
  destruct m; (eapply get_put_variant in H; [exact H|reflexivity|solve_format]).
Qed.

Lemma response_format_ok : format_ok response_format.
Proof.
  intros m bytes rest H. cbn [get response_format].
  destruct m; (eapply get_put_variant in H; [exact H|reflexivity|solve_format]).
Qed.

(** ** The codecs *)

Definition format_codec {T} (f : Format T) : Bincode T := {|
  encode_to_vec := fun m => match put f m with Some bytes => Ok bytes | None => Err (bs "not encodable") end;
  decode_from_slice := fun bytes =>
    match get f bytes with
    | Some (m, rest) => Ok (m, len bytes - len rest)
    | None => Err (bs "not decodable")
    end |}.

Lemma format_codec_ok {T} (f : Format T) : format_ok f -> @BincodeOk T (format_codec f).
Proof.
  intros Hf m body. cbn. destruct (put f m) as [bytes|] eqn:Hm; [|done]. intros [= <-].
  pose proof (Hf _ _ [] Hm) as H. rewrite app_nil_r in H. rewrite H. cbn. by rewrite Z.sub_0_r.
Qed.

Definition wire_requests : Bincode Request := format_codec request_format.
Definition wire_responses : Bincode Response := format_codec response_format.

Lemma wire_requests_ok : @BincodeOk Request wire_requests.
Proof. exact (format_codec_ok _ request_format_ok). Qed.

Lemma wire_responses_ok : @BincodeOk Response wire_responses.
Proof. exact (format_codec_ok _ response_format_ok). Qed.

(** ** Sizes *)

Lemma put_uint width n : 0 <= n < 2 ^ width -> width <= 64 ->
  exists bytes, put (uint_format width) n = Some bytes /\ len bytes <= 9.
Proof.
  intros Hn Hw. assert (2 ^ width <= 2 ^ 64) by (apply Z.pow_le_mono_r; lia).
  cbn [put uint_format]. destruct (Z.ltb_spec n (2 ^ width)); [|lia]. unfold put_varint.
  repeat match goal with
  | |- context [?a <? ?b] => destruct (Z.ltb_spec a b); try lia
  end; (eexists; split; [reflexivity|]); vm_compute; congruence.
Qed.

Lemma wire_requests_compact : @BincodeCompact wire_requests.
Proof.
  intros [id status bytes] Hid Hlen. unfold in_u64, u64_max, u32_max in *. cbn [rb_request_id rb_bytes] in *.
  destruct (put_uint 64 id) as (x & Hx & Hxl); [lia..|].
  destruct (put_uint 64 (len bytes)) as (y & Hy & Hyl); [unfold len in *; lia..|].
  assert (exists z, put read_status status = Some z /\ len z <= 9) as (z & Hz & Hzl).
  { destruct status; eexists; (split; [vm_compute; reflexivity|vm_compute; congruence]). }
  exists (byte_of 9 :: (x ++ z) ++ y ++ bytes). split.
  - unfold wire_requests, format_codec. cbn [encode_to_vec put request_format put_request put_variant].
    unfold put_variant, read_response_body, view_format, pair_format, bytes_format, u64.
    cbn [put rb_request_id rb_status rb_bytes fst snd]. rewrite Hx, Hz. cbn [mbind option_bind]. rewrite Hy. done.
  - unfold len in *. rewrite length_cons, !length_app. lia.
Qed.
