(* ===== verification/Commit.v ===== *)
(** * Committing a promise over the socket

    The client turns its builder into a request
    ([PromiseCommitRequest::from_builder_with_owner_token], [into_body]) and the
    daemon rebuilds a builder from it, node by node ([handle_promise_commit]),
    both in [crates/fuse-promise-ipc/src/lib.rs].  The rebuilt builder is the
    client's, up to the ids that the commit assigns anyway. *)

From S2P Require Import Prelude Types Paths Tree Runtime Messages.

(** ** The client's side *)

Definition PromiseNodeSpec_of_node (node : PromiseNode) : PromiseNodeSpec :=
  mkPromiseNodeSpec
    (match pn_kind node with File => SpecFile | Directory => SpecDirectory end)
    (pn_relative_path node) (pn_provider_node_id node)
    (mkPromiseNodeAttr (attr_mode (pn_attr node)) (attr_size (pn_attr node))
       (attr_mtime_nsec (pn_attr node))).

Definition PromiseCommitRequest_from_builder_with_owner_token (builder : PromiseBuilder)
    (provider_owner_token : Z) : PromiseCommitRequest :=
  mkPromiseCommitRequest (pb_provider_id builder) provider_owner_token
    (PromiseNodeSpec_of_node <$>
       filter (fun node => pn_relative_path node <> []) (PromiseBuilder_nodes builder)).

(** ** The daemon's side *)

(** The body of the loop of [handle_promise_commit]. *)
Definition add_node_body (builder : PromiseBuilder) (node : PromiseNodeBody) :
    PromiseBuilder * Result () :=
  let attr := mkNodeAttr (nb_mode node) (nb_size node) (nb_mtime_nsec node) in
  match nb_kind node with
  | FileBody =>
      PromiseBuilder_add_file builder (nb_relative_path node) attr (nb_provider_node_id node)
  | DirectoryBody =>
      PromiseBuilder_add_dir builder (nb_relative_path node) attr (nb_provider_node_id node)
  end.

(** The loop; the first error ends it. *)
Fixpoint add_node_bodies (builder : PromiseBuilder) (nodes : list PromiseNodeBody) :
    PromiseBuilder * Result () :=
  match nodes with
  | [] => (builder, Ok tt)
  | node :: nodes =>
      let '(builder, r) := add_node_body builder node in
      match r with
      | Err status => (builder, Err status)
      | Ok _ => add_node_bodies builder nodes
      end
  end.

(** ** The indexes follow from the nodes *)

Lemma children_determined m m' c c' :
  same_nodes m m' -> tree_wf m c -> tree_wf m' c' -> c = c'.
Proof.
  intros Hs H H'. apply map_eq. intros p.
  destruct (c !! p) as [cs|] eqn:Hc, (c' !! p) as [cs'|] eqn:Hc'; [| | |done].
  - f_equal. destruct (twf_children _ _ H _ _ Hc) as [_ Hel].
    destruct (twf_children _ _ H' _ _ Hc') as [_ Hel'].
    apply set_eq. intros q. rewrite Hel, Hel'. by rewrite (same_nodes_is_Some _ _ q Hs).
  - destruct (twf_children _ _ H _ _ Hc) as [(n & Hn & Hk) _].
    destruct (same_nodes_fwd _ _ _ _ Hs Hn) as (n' & Hn' & Hsh). destruct Hsh as (_ & _ & _ & _ & Hk' & _).
    destruct (twf_dir _ _ H' p n' Hn') as [? ?]; congruence.
  - destruct (twf_children _ _ H' _ _ Hc') as [(n & Hn & Hk) _].
    destruct (same_nodes_back _ _ _ _ Hs Hn) as (n' & Hn' & Hsh). destruct Hsh as (_ & _ & _ & _ & Hk' & _).
    destruct (twf_dir _ _ H p n' Hn') as [? ?]; congruence.
Qed.

(** ** The root of a builder is the initial one *)

Lemma built_root provider_id calls : pb_nodes (built provider_id calls) !! [] = Some root_node.
Proof.
  unfold built. assert (H : pb_nodes (PromiseBuilder_new provider_id) !! [] = Some root_node).
  { cbn. by rewrite lookup_singleton_eq. }
  revert H. generalize (PromiseBuilder_new provider_id).
  induction calls as [|c calls IH]; intros b Hb; cbn; [done|]. apply IH. rewrite add_call_node.
  pose proof (add_node_cases b (ac_path c) (ac_attr c) (ac_provider_node_id c) (ac_kind c)) as H.
  destruct (PromiseBuilder_add_node _ _ _ _ _) as [b' r]. cbn.
  destruct H as [(e & _ & ->)|(path & pn & _ & _ & Hne & _ & _ & _ & _ & _ & ->)]; [done|].
  rewrite insert_node_nodes. by rewrite lookup_insert_ne.
Qed.

Lemma built_provider provider_id calls : pb_provider_id (built provider_id calls) = provider_id.
Proof.
  unfold built. change provider_id with (pb_provider_id (PromiseBuilder_new provider_id)) at 2.
  generalize (PromiseBuilder_new provider_id).
  induction calls as [|c calls IH]; intros b; cbn; [done|]. rewrite IH, add_call_node.
  pose proof (add_node_cases b (ac_path c) (ac_attr c) (ac_provider_node_id c) (ac_kind c)) as H.
  destruct (PromiseBuilder_add_node _ _ _ _ _) as [b' r]. cbn.
  destruct H as [(e & _ & ->)|(path & pn & _ & _ & _ & _ & _ & _ & _ & _ & ->)]; done.
Qed.

(** ** Replaying the nodes of a builder *)

Section replay.
Context (m : gmap str PromiseNode) (children : gmap str (gset str)).
Context (Hwf : tree_wf m children).

Definition node_body (node : PromiseNode) : PromiseNodeBody :=
  PromiseNodeSpec_into_body (PromiseNodeSpec_of_node node).

(** The builder holds the nodes of [done], up to ids. *)
Record replayed (done : list str) (b : PromiseBuilder) : Prop := {
  rp_wf : builder_wf b;
  rp_in : forall p, p ∈ done -> option_Forall2 same_shape (m !! p) (pb_nodes b !! p);
  rp_out : forall p, p ∉ done -> pb_nodes b !! p = None;
}.

Lemma add_node_body_add b node :
  add_node_body b (node_body node) =
    PromiseBuilder_add_node b (pn_relative_path node) (pn_attr node) (pn_provider_node_id node) (pn_kind node).
Proof. unfold add_node_body. cbn. destruct node as [? ? ? ? ? ? ? k [? ? ?]]; cbn. by destruct k. Qed.

Lemma replay_step done b p n :
  replayed done b -> m !! p = Some n -> p <> [] -> p ∉ done -> parent_path p ∈ done ->
  exists b', add_node_body b (node_body n) = (b', Ok tt) /\ replayed (p :: done) b' /\
    pb_provider_id b' = pb_provider_id b.
Proof.
  intros [Hb Hin Hout] Hn Hne Hnew Hpar. rewrite add_node_body_add.
  destruct (twf_path _ _ Hwf p n Hn) as [Hp Hsafe].
  destruct (twf_node _ _ Hwf p n Hn Hne) as (Hpp & Hname & Hpid & Hattr).
  destruct (twf_parent _ _ Hwf p n Hn Hne) as (q & Hq & Hqk).
  assert (Hq' : exists q', pb_nodes b !! parent_path p = Some q' /\ pn_kind q' = Directory).
  { specialize (Hin _ Hpar). rewrite Hq in Hin. inversion Hin as [? q' Hsh Hq1 Hq2|]; subst.
    exists q'. split; [done|]. destruct Hsh as (_ & _ & _ & _ & Hk & _). congruence. }
  destruct Hq' as (q' & Hq' & Hqk').
  unfold PromiseBuilder_add_node. rewrite decide_False by done. rewrite Hattr, Hp.
  rewrite normalize_safe_id by done. rewrite decide_False by done.
  rewrite (Hout p Hnew), Hq', decide_True by done.
  eexists. split; [done|]. split; [|done]. split.
  - eapply insert_node_wf; eauto.
  - intros r Hr. rewrite insert_node_nodes, lookup_insert. case_decide as Hpr.
    + subst r. rewrite Hn. constructor. unfold same_shape. cbn. split_and!; congruence.
    + apply Hin. set_solver.
  - intros r Hr. rewrite insert_node_nodes, lookup_insert_ne by set_solver. apply Hout. set_solver.
Qed.

Lemma replay_nodes done b nodes :
  replayed done b ->
  (forall n, n ∈ nodes -> m !! pn_relative_path n = Some n /\ pn_relative_path n <> []) ->
  NoDup (pn_relative_path <$> nodes) -> (forall p, p ∈ pn_relative_path <$> nodes -> p ∉ done) ->
  (forall l1 n l2, nodes = l1 ++ n :: l2 ->
     (parent_path (pn_relative_path n) ∈ done) \/ (parent_path (pn_relative_path n) ∈ pn_relative_path <$> l1)) ->
  exists b', add_node_bodies b (node_body <$> nodes) = (b', Ok tt) /\
    replayed ((pn_relative_path <$> nodes) ++ done) b' /\ pb_provider_id b' = pb_provider_id b.
Proof.
  revert done b. induction nodes as [|n nodes IH]; intros done b Hb Hm Hnd Hnew Hpar; cbn; [eauto|].
  apply NoDup_cons in Hnd as [Hn Hnd].
  destruct (Hm n (list_elem_of_here _ _)) as [Hmn Hne].
  destruct (replay_step done b (pn_relative_path n) n) as (b1 & -> & Hb1 & Hpid1); try done.
  { apply Hnew. left. }
  { destruct (Hpar [] n nodes eq_refl) as [?|H0]; [done|by apply elem_of_nil in H0]. }
  destruct (IH (pn_relative_path n :: done) b1) as (b2 & Hb2 & Hr & Hpid2); try done.
  - intros n' Hn'. apply Hm. by right.
  - intros p Hp. apply not_elem_of_cons. split; [by intros ->|]. apply Hnew. by right.
  - intros l1 n' l2 ->. destruct (Hpar (n :: l1) n' l2 eq_refl) as [?|H0]; [left; by right|].
    cbn in H0. apply elem_of_cons in H0 as [->|?]; [left; left|by right].
  - exists b2. split; [done|]. split; [|congruence]. destruct Hr as [H1 H2 H3]. split; [done| |].
    + intros p Hp. apply H2. set_solver.
    + intros p Hp. apply H3. set_solver.
Qed.

(** Key order lists every node after its parent. *)
Lemma nodes_parent_first l1 n l2 :
  filter (fun node => pn_relative_path node <> []) (btree_values m) = l1 ++ n :: l2 ->
  (parent_path (pn_relative_path n) ∈ [[]]) \/ (parent_path (pn_relative_path n) ∈ pn_relative_path <$> l1).
Proof.
  intros Heq. set (p := pn_relative_path n). destruct (decide (parent_path p = [])) as [->|Hpp]; [left; left|].
  right. assert (Hin : n ∈ filter (fun node => pn_relative_path node <> []) (btree_values m)).
  { rewrite Heq. apply elem_of_app. right. left. }
  apply list_elem_of_filter in Hin as [Hne [p' Hn]%elem_of_btree_values].
  assert (p' = p) as -> by (symmetry; by apply (twf_path _ _ Hwf)).
  destruct (twf_parent _ _ Hwf p n Hn Hne) as (q & Hq & _).
  assert (Hqp : pn_relative_path q = parent_path p) by by apply (twf_path _ _ Hwf).
  assert (Hqin : q ∈ l1 ++ n :: l2).
  { rewrite <- Heq. apply list_elem_of_filter. split; [congruence|]. apply elem_of_btree_values. eauto. }
  assert (Hsort : StronglySorted (fun a b => str_le (pn_relative_path a) (pn_relative_path b)) (l1 ++ n :: l2)).
  { rewrite <- Heq. apply StronglySorted_filter. unfold btree_values.
    apply (StronglySorted_fmap_elem item_le); [|apply btree_items_sorted].
    intros [a x] [b y] Hx%elem_of_btree_items Hy%elem_of_btree_items Hle. cbn in *.
    destruct (twf_path _ _ Hwf _ _ Hx) as [-> _]. destruct (twf_path _ _ Hwf _ _ Hy) as [-> _]. exact Hle. }
  rewrite <- Hqp. apply list_elem_of_fmap. exists q. split; [done|].
  apply elem_of_app in Hqin as [?|[->|Hq2]%elem_of_cons]; [done| |]; exfalso.
  - by apply (parent_path_neq p).
  - apply StronglySorted_app in Hsort as (_ & _ & Hs). apply StronglySorted_inv in Hs as [_ Hs].
    rewrite Forall_forall in Hs. specialize (Hs q Hq2). rewrite Hqp in Hs. fold p in Hs.
    pose proof (parent_path_le p) as Hle. apply (parent_path_neq p); [done|].
    by apply (anti_symm (key_le (K := str))).
Qed.

Lemma nodes_NoDup :
  NoDup (pn_relative_path <$> filter (fun node => pn_relative_path node <> []) (btree_values m)).
Proof.
  apply (sublist_NoDup _ (pn_relative_path <$> btree_values m)).
  2: apply fmap_sublist, sublist_filter.
  - replace (pn_relative_path <$> btree_values m) with (btree_items m).*1; [apply btree_items_NoDup_keys|].
    unfold btree_values. rewrite <- list_fmap_compose. apply list_fmap_ext.
    intros i [p n] Hi%list_elem_of_lookup_2%elem_of_btree_items. symmetry. by apply (twf_path _ _ Hwf).
Qed.
End replay.

(** Replaying the request of a builder rebuilds it. *)
Lemma commit_body_replay provider_id calls token :
  let b := built provider_id calls in
  let body := PromiseCommitRequest_into_body
                (PromiseCommitRequest_from_builder_with_owner_token b token) in
  cb_provider_id body = provider_id /\ cb_provider_owner_token body = token /\
  exists b', add_node_bodies (PromiseBuilder_new provider_id) (cb_nodes body) = (b', Ok tt) /\
    pb_provider_id b' = provider_id /\ pb_children b' = pb_children b /\
    same_nodes (pb_nodes b) (pb_nodes b').
Proof.
  intros b body. pose proof (built_wf provider_id calls) as Hwf. fold b in Hwf.
  pose proof (built_root provider_id calls) as Hroot. fold b in Hroot.
  split; [apply built_provider|]. split; [done|].
  set (nodes := filter (fun node => pn_relative_path node <> []) (btree_values (pb_nodes b))).
  assert (Hbody : cb_nodes body = node_body <$> nodes).
  { unfold body. cbn. by rewrite <- list_fmap_compose. }
  assert (Hkey : forall n, n ∈ nodes -> pb_nodes b !! pn_relative_path n = Some n /\ pn_relative_path n <> []).
  { intros n [Hne [p Hp]%elem_of_btree_values]%list_elem_of_filter. split; [|done].
    by destruct (twf_path _ _ Hwf p n Hp) as [-> _]. }
  destruct (replay_nodes (pb_nodes b) (pb_children b) Hwf [[]] (PromiseBuilder_new provider_id) nodes)
    as (b' & Hb' & [Hwf' Hin Hout] & Hpid); try done.
  - split; [apply builder_new_wf| |].
    + intros p ->%list_elem_of_singleton. cbn. rewrite Hroot, lookup_singleton_eq. by constructor.
    + intros p Hp. cbn. rewrite lookup_singleton_ne; [done|]. set_solver.
  - by eapply nodes_NoDup.
  - intros p (n & -> & [_ Hne]%Hkey)%list_elem_of_fmap. set_solver.
  - intros l1 n l2 Heq. by apply (nodes_parent_first (pb_nodes b) (pb_children b) Hwf l1 n l2).
  - exists b'. rewrite Hbody. split; [done|]. split; [done|].
    assert (Hs : same_nodes (pb_nodes b) (pb_nodes b')).
    { intros p. destruct (decide (p ∈ (pn_relative_path <$> nodes) ++ [[]])) as [Hp|Hp]; [by apply Hin|].
      rewrite (Hout p Hp). destruct (pb_nodes b !! p) as [n|] eqn:Hn; [|constructor]. exfalso. apply Hp.
      destruct (twf_path _ _ Hwf p n Hn) as [Hpn _]. apply elem_of_app.
      destruct (decide (p = [])) as [->|Hne]; [right; left|left].
      apply list_elem_of_fmap. exists n. split; [done|]. apply list_elem_of_filter.
      split; [congruence|]. apply elem_of_btree_values. eauto. }
    split; [|done]. symmetry. by eapply children_determined.
Qed.

(** ** Properties *)

(** Committing over the socket loses nothing.  For every builder a client
    can build, the daemon accepts each node of the request and ends with a
    builder that has the same provider, the same child index and, path for
    path, nodes with the same name, parent, provider node id, kind and
    attributes; in particular every parent arrives before its children. *)
Theorem commit_request_roundtrip provider_id calls token :
  let b := built provider_id calls in
  let body := PromiseCommitRequest_into_body
                (PromiseCommitRequest_from_builder_with_owner_token b token) in
  cb_provider_id body = provider_id /\ cb_provider_owner_token body = token /\
  exists b', add_node_bodies (PromiseBuilder_new provider_id) (cb_nodes body) = (b', Ok tt) /\
    pb_provider_id b' = provider_id /\ pb_children b' = pb_children b /\
    same_nodes (pb_nodes b) (pb_nodes b').
Proof. exact (commit_body_replay provider_id calls token). Qed.
