(* ===== verification/Mount.v ===== *)
(** * Mount status and visible paths

    [IpcMountStatus] of [crates/fuse-promise-ipc/src/lib.rs]: where a committed
    promise is visible ([visible_promise_path]) and which promise and node a
    path under the mount names ([resolve_visible_path]); and
    [fuse_adapter::mount_status] of the daemon, which chooses the status. *)

From S2P Require Import Prelude Types Paths.

Record IpcMountStatus : Type := mkIpcMountStatus {
  mo_mount : str;
  mo_fuse_adapter : str;
  mo_mount_path : option str;
  mo_ready_for_commits : bool;
}.

Definition IpcMountStatus_not_mounted : IpcMountStatus :=
  mkIpcMountStatus (bs "not-mounted") (bs "not-implemented") None false.

Definition IpcMountStatus_disabled (mount_path : str) : IpcMountStatus :=
  mkIpcMountStatus (bs "not-mounted") (bs "disabled") (Some mount_path) false.

Definition IpcMountStatus_mounted (mount_path : str) : IpcMountStatus :=
  mkIpcMountStatus (bs "mounted") (bs "enabled") (Some mount_path) false.

Definition IpcMountStatus_commit_ready (mount_path : str) : IpcMountStatus :=
  mkIpcMountStatus (bs "mounted") (bs "enabled") (Some mount_path) true.

Definition visible_promise_path (self : IpcMountStatus) (promise_id : str) : Result str :=
  if negb (mo_ready_for_commits self) then Err Unavailable
  else ok_or ((fun mount_path => path_join mount_path promise_id) <$> mo_mount_path self) Unavailable.

#[export] Instance Component_eq_decision : EqDecision Component.
Proof. solve_decision. Defined.

(** [Path::strip_prefix], as the components that are left. *)
Fixpoint strip_components (cs base : list Component) : option (list Component) :=
  match base, cs with
  | [], cs => Some cs
  | b :: base, c :: cs => if decide (b = c) then strip_components cs base else None
  | _ :: _, [] => None
  end.

Fixpoint normal_parts (cs : list Component) : Result (list str) :=
  match cs with
  | [] => Ok []
  | Normal part :: cs =>
      part ← ok_or (to_str part) InvalidArgument;
      parts ← normal_parts cs;
      Ok (part :: parts)
  | _ :: _ => Err InvalidArgument
  end.

Definition resolve_visible_path (self : IpcMountStatus) (source_path : str) : Result (str * str) :=
  if negb (mo_ready_for_commits self) then Err Unavailable
  else if negb (is_absolute source_path) then Err InvalidArgument
  else
    mount_path ← ok_or (mo_mount_path self) Unavailable;
    relative ← ok_or (strip_components (components source_path) (components mount_path)) NotFound;
    match relative with
    | Normal promise_id :: components =>
        promise_id ← ok_or (to_str promise_id) InvalidArgument;
        parts ← normal_parts components;
        Ok (promise_id, join_slash parts)
    | _ => Err NotFound
    end.

(** [fuse_adapter::mount_status], with and without the [fuse-mount-backend]
    feature. *)
Definition disabled_mount_status (fuse_mount_backend : bool) (mount_path : str) : IpcMountStatus :=
  if fuse_mount_backend then IpcMountStatus_not_mounted else IpcMountStatus_disabled mount_path.

Definition mount_status (fuse_mount_backend : bool) (mount_path : str) (mounted : bool) : IpcMountStatus :=
  if mounted then IpcMountStatus_commit_ready mount_path
  else disabled_mount_status fuse_mount_backend mount_path.

(** A status that is ready for commits knows its mount path. *)
Definition mount_wf (m : IpcMountStatus) : Prop :=
  mo_ready_for_commits m = true -> is_Some (mo_mount_path m).

Lemma mount_status_wf backend path mounted : mount_wf (mount_status backend path mounted).
Proof. destruct mounted, backend; try done; intros _; by eexists. Qed.

Lemma not_mounted_wf : mount_wf IpcMountStatus_not_mounted.
Proof. done. Qed.

(** ** Components of joined paths *)

Lemma split_slash_cat a b : split_slash (a ++ slash :: b) = split_slash a ++ split_slash b.
Proof.
  induction a as [|c a IH]; cbn; [by rewrite decide_True|]. case_decide; [by rewrite IH|].
  rewrite IH. pose proof (split_slash_not_nil a). by destruct (split_slash a).
Qed.

Lemma head_split_app a b : head (split_slash (a ++ slash :: b)) = head (split_slash a).
Proof. rewrite split_slash_cat. pose proof (split_slash_not_nil a). by destruct (split_slash a). Qed.

Lemma components_app_slash a b :
  is_absolute a = true -> components (a ++ slash :: b) = components a ++ omap parse_single_component (split_slash b).
Proof.
  intros Ha. unfold components. assert (is_absolute (a ++ slash :: b) = true) as -> by by destruct a.
  rewrite Ha, split_slash_cat, omap_app. by rewrite app_assoc.
Qed.

Lemma parse_safe parts :
  Forall safe_component parts -> omap parse_single_component parts = Normal <$> parts.
Proof.
  induction 1 as [|p ps (H1 & _ & _ & H2 & H3) Hps IH]; cbn; [done|].
  unfold parse_single_component at 1. rewrite !decide_False by done. by rewrite IH.
Qed.

Lemma omap_split_join parts :
  Forall safe_component parts -> omap parse_single_component (split_slash (join_slash parts)) = Normal <$> parts.
Proof.
  intros Hs. destruct (decide (parts = [])) as [->|Hne]; [done|].
  rewrite split_join by auto using safe_no_slash. by apply parse_safe.
Qed.

(** Joining safe names to an absolute path appends them as components. *)
Lemma components_path_join base parts :
  is_absolute base = true -> Forall safe_component parts ->
  components (path_join base (join_slash parts)) = components base ++ (Normal <$> parts).
Proof.
  intros Hb Hs. unfold path_join. rewrite safe_not_absolute by done.
  destruct (last base) as [c|] eqn:Hl; [|by apply last_None in Hl as ->].
  case_decide as Hc.
  - subst c. apply last_Some in Hl as [a ->]. rewrite <- app_assoc. cbn.
    destruct (decide (a = [])) as [->|Ha].
    + cbn [app]. change (components (slash :: join_slash parts))
        with (RootDir :: omap parse_single_component (split_slash (join_slash parts))).
      by rewrite omap_split_join.
    + assert (Habs : is_absolute a = true) by by destruct a.
      rewrite !components_app_slash by done. cbn. rewrite omap_split_join by done.
      by rewrite <- app_assoc.
  - by rewrite components_app_slash, omap_split_join.
Qed.

Lemma path_join_absolute base p : is_absolute base = true -> is_absolute (path_join base p) = true.
Proof.
  intros Hb. unfold path_join. destruct (is_absolute p) eqn:Hp; [done|].
  destruct base as [|c base]; [done|].
  destruct (last (c :: base)) as [d|] eqn:Hl; [|by apply last_None in Hl].
  by case_decide.
Qed.

Lemma strip_components_app base cs : strip_components (base ++ cs) base = Some cs.
Proof. induction base as [|b base IH]; [by destruct cs|]. cbn. by rewrite decide_True. Qed.

Lemma strip_components_Some cs base rest : strip_components cs base = Some rest <-> cs = base ++ rest.
Proof.
  split; [|intros ->; apply strip_components_app].
  revert cs. induction base as [|b base IH]; intros cs; cbn; [destruct cs; by intros [= ->]|].
  destruct cs as [|c cs]; cbn; [done|]. case_decide; [|done]. subst. intros ->%IH. done.
Qed.

Lemma normal_parts_Ok cs parts :
  normal_parts cs = Ok parts <-> cs = Normal <$> parts /\ Forall (fun p => utf8_valid p = true) parts.
Proof.
  revert parts. induction cs as [|c cs IH]; intros parts; cbn.
  - split; [by intros [= <-]|]. intros [H _]. symmetry in H. by apply fmap_nil_inv in H as ->.
  - destruct c as [| | |part]; try (split; [done|]; intros [H _]; by destruct parts).
    unfold to_str. split.
    + intros (p & Hp%ok_or_Ok & (ps & [-> Hps]%IH & [= <-])%bind_Ok)%bind_Ok.
      destruct (utf8_valid part) eqn:Hu; [|done]. injection Hp as ->. auto.
    + intros [H Hf]. destruct parts as [|p ps]; [done|]. injection H as -> ->.
      inversion_clear Hf as [|? ? Hu Hus]. rewrite Hu. cbn. by rewrite (proj2 (IH ps)).
Qed.

(** A [Normal] component of a path without NUL is a safe name. *)
Lemma components_normal_safe p x : nul ∉ p -> Normal x ∈ components p -> safe_component x.
Proof.
  intros Hnul Hx. assert (Hx' : Normal x ∈ omap parse_single_component (split_slash p)).
  { unfold components in Hx. apply elem_of_app in Hx as [Hx|?]; [exfalso|done].
    destruct (is_absolute p); [|case_decide]; rewrite ?list_elem_of_singleton, ?elem_of_nil in Hx; done. }
  apply list_elem_of_omap in Hx' as (y & Hy & Hxy). unfold parse_single_component in Hxy.
  repeat (case_decide; [done|]). injection Hxy as ->. repeat split; try done.
  - pose proof (split_slash_no_slash p) as Hf. rewrite Forall_forall in Hf. by apply Hf.
  - intros Hn. apply Hnul. by eapply split_slash_elem.
Qed.

(** ** Properties *)

(** Visible paths resolve to what they show.  While the mount is ready,
    the path reported for a promise is the mount path with the promise id
    joined to it, and resolving that path, or any path below it, gives back the
    promise id and the relative path. *)
Theorem visible_path_roundtrip mount_path promise_id rel :
  is_absolute mount_path = true -> safe_component promise_id -> utf8_valid promise_id = true ->
  safe_path rel -> Forall (fun p => utf8_valid p = true) (kept_parts rel) ->
  let m := IpcMountStatus_commit_ready mount_path in
  exists visible, visible_promise_path m promise_id = Ok visible /\
    resolve_visible_path m visible = Ok (promise_id, []) /\
    resolve_visible_path m (path_join visible rel) = Ok (promise_id, rel).
Proof.
  intros Hm Hp Hu (parts & Hs & ->) Hus m. rewrite kept_parts_join in Hus by done.
  exists (path_join mount_path promise_id). split; [done|].
  assert (Hpc : components (path_join mount_path promise_id) = components mount_path ++ [Normal promise_id]).
  { apply (components_path_join mount_path [promise_id]); auto. }
  assert (Hres : forall source ps, is_absolute source = true ->
    components source = components mount_path ++ Normal promise_id :: (Normal <$> ps) ->
    Forall (fun p => utf8_valid p = true) ps ->
    resolve_visible_path m source = Ok (promise_id, join_slash ps)).
  { intros source ps Habs Hc Hps. unfold resolve_visible_path. cbn. rewrite Habs. cbn.
    rewrite Hc, strip_components_app. cbn. unfold to_str at 1. rewrite Hu. cbn.
    by rewrite (proj2 (normal_parts_Ok _ ps)). }
  split.
  - apply (Hres _ []); [by apply path_join_absolute|done|constructor].
  - apply Hres; [by repeat apply path_join_absolute| |done].
    rewrite components_path_join by (done || by apply path_join_absolute). by rewrite Hpc, <- app_assoc.
Qed.

Lemma visible_path_roundtrip_witness :
  resolve_visible_path (IpcMountStatus_commit_ready (bs "/run/user/1000/fuse-promise"))
    (bs "/run/user/1000/fuse-promise/promise-1/docs/a.txt") = Ok (bs "promise-1", bs "docs/a.txt").
Proof.
  destruct (visible_path_roundtrip (bs "/run/user/1000/fuse-promise") (bs "promise-1") (bs "docs/a.txt"))
    as (v & Hv & _ & H).
  - reflexivity.
  - apply validate_child_name_Ok. vm_compute. reflexivity.
  - vm_compute. reflexivity.
  - apply (normalize_safe (bs "docs/a.txt")). vm_compute. reflexivity.
  - vm_compute. repeat constructor.
  - vm_compute in Hv. injection Hv as <-. exact H.
Defined.

(** What [resolve_visible_path] accepts lies inside the mount: the source
    path's components are the mount path's followed by the promise id and the
    names of the returned relative path, so no [..] or [.] component is
    followed; on a status that is not ready it always fails. *)
Theorem resolve_visible_path_sound m source promise_id rel :
  (mo_ready_for_commits m = false -> resolve_visible_path m source = Err Unavailable) /\
  (resolve_visible_path m source = Ok (promise_id, rel) ->
   is_absolute source = true /\ exists mount_path parts, mo_mount_path m = Some mount_path /\
     components source = components mount_path ++ Normal promise_id :: (Normal <$> parts) /\
     rel = join_slash parts /\
     (nul ∉ source -> Forall safe_component (promise_id :: parts))).
Proof.
  unfold resolve_visible_path. destruct (mo_ready_for_commits m); cbn; [|done]. split; [done|].
  destruct (is_absolute source) eqn:Habs; cbn; [|done].
  intros (mp & Hmp%ok_or_Ok & (relative & Hr%ok_or_Ok%strip_components_Some & H)%bind_Ok)%bind_Ok.
  split; [done|]. destruct relative as [|[| | |pid] cs]; try done.
  inv_ok. apply normal_parts_Ok in H1 as [-> _]. subst x rel.
  unfold to_str in H0. destruct (utf8_valid pid); [injection H0 as ->|done].
  exists mp, x0. split_and!; try done. intros Hnul.
  apply Forall_forall. intros p Hp.
  assert (Hin : Normal p ∈ components source).
  { rewrite Hr. apply elem_of_app. right. apply elem_of_cons in Hp as [->|Hp]; [left|right].
    apply list_elem_of_fmap. eauto. }
  by eapply components_normal_safe.
Qed.
