(* ===== verification/IpcState.v ===== *)
(** * The daemon's shared state

    [IpcState] of [crates/fuse-promise-ipc/src/lib.rs]: the runtime, the mount
    status, the connection each provider is reached on, and the provider reads
    that wait for an answer.  Each definition below is one of its methods, or,
    for [route_provider_read], one of the parts that another thread can come
    between.

    The two ends of an [mpsc] channel are an id and a queue: [st_channels] holds
    the messages a sender has sent and the receiver has not taken.  A stream is
    the id of its connection.  The sources hold a lock only in code that does
    not panic, so a lock is never poisoned and the errors of [lock()] do not
    occur.  Log and error texts are kept. *)

From S2P Require Import Prelude Types Paths Tree Runtime Messages Mount.

Abbreviation ConnId := nat (only parsing).
Abbreviation ChannelId := nat (only parsing).
Abbreviation ReadResult := (IoResult ProviderReadResponse).

Record ProviderRoute : Type := mkProviderRoute {
  pr_writer : ConnId;
  pr_owner_token : Z;
}.

Record PendingRead : Type := mkPendingRead {
  pd_provider_id : Z;
  pd_request : ProviderReadRequest;
  pd_sender : ChannelId;
}.

Record IpcState : Type := mkIpcState {
  st_runtime : Runtime;
  st_mount_status : IpcMountStatus;
  st_provider_routes : gmap Z ProviderRoute;
  st_pending_reads : gmap Z PendingRead;
  st_next_read_request_id : Z;
  st_channels : gmap ChannelId (list ReadResult);
}.

Definition set_runtime (v : Runtime) (s : IpcState) : IpcState :=
  mkIpcState v (st_mount_status s) (st_provider_routes s) (st_pending_reads s)
    (st_next_read_request_id s) (st_channels s).
Definition set_routes (v : gmap Z ProviderRoute) (s : IpcState) : IpcState :=
  mkIpcState (st_runtime s) (st_mount_status s) v (st_pending_reads s)
    (st_next_read_request_id s) (st_channels s).
Definition set_pending (v : gmap Z PendingRead) (s : IpcState) : IpcState :=
  mkIpcState (st_runtime s) (st_mount_status s) (st_provider_routes s) v
    (st_next_read_request_id s) (st_channels s).
Definition set_next_request_id (v : Z) (s : IpcState) : IpcState :=
  mkIpcState (st_runtime s) (st_mount_status s) (st_provider_routes s) (st_pending_reads s)
    v (st_channels s).
Definition set_channels (v : gmap ChannelId (list ReadResult)) (s : IpcState) : IpcState :=
  mkIpcState (st_runtime s) (st_mount_status s) (st_provider_routes s) (st_pending_reads s)
    (st_next_read_request_id s) v.

(** ** Construction and accessors *)

Definition IpcState_new (runtime : Runtime) : IpcState :=
  mkIpcState runtime IpcMountStatus_not_mounted ∅ ∅ 1 ∅.

Definition set_mount_status (self : IpcState) (mount_status : IpcMountStatus) : IpcState :=
  mkIpcState (st_runtime self) mount_status (st_provider_routes self) (st_pending_reads self)
    (st_next_read_request_id self) (st_channels self).

(** [fetch_add] wraps around. *)
Definition next_provider_read_request_id (self : IpcState) : IpcState * Z :=
  (set_next_request_id (wrapping_add (st_next_read_request_id self) 1) self,
   st_next_read_request_id self).

(** [sender.send(x)]. *)
Definition send (ch : ChannelId) (x : ReadResult) (s : IpcState) : IpcState :=
  set_channels (<[ch := default [] (st_channels s !! ch) ++ [x]]> (st_channels s)) s.

(** ** Routes *)

(** [stream.try_clone()] may fail. *)
Definition register_provider_route (self : IpcState) (provider_id owner_token : Z) (stream : ConnId)
    (try_clone : IoResult ()) : IpcState * IoResult () :=
  match try_clone with
  | Err e => (self, Err e)
  | Ok _ =>
      (set_routes (<[provider_id := mkProviderRoute stream owner_token]> (st_provider_routes self)) self,
       Ok tt)
  end.

Definition validate_provider_owner (self : IpcState) (provider_id : ProviderId) (owner_token : Z) :
    Result () :=
  match st_provider_routes self !! provider_id with
  | Some route => if pr_owner_token route =? owner_token then Ok tt else Err Permission
  | None =>
      match Runtime_provider (st_runtime self) provider_id with
      | Some _ => Err ProviderGone
      | None => Err NotFound
      end
  end.

(** ** Pending reads *)

Definition remove_pending_read (self : IpcState) (request_id : Z) : IpcState :=
  set_pending (delete request_id (st_pending_reads self)) self.

Definition complete_provider_read (self : IpcState) (registered_providers : list ProviderId)
    (response : ProviderReadResponseBody) : IpcState * IoResult () :=
  match ProviderReadResponse_from_body response with
  | Err e => (self, Err e)
  | Ok response =>
      match st_pending_reads self !! rs_request_id response with
      | None =>
          (self, Err (invalid_data (bs "provider read response does not match a pending request")))
      | Some pending =>
          let self := set_pending (delete (rs_request_id response) (st_pending_reads self)) self in
          let owns_provider := bool_decide (pd_provider_id pending ∈ registered_providers) in
          let result :=
            if owns_provider then
              (fun _ => response) <$>
                validate_provider_read_response_for_request (pd_request pending) response
            else
              Err (mkIoError KPermissionDenied
                     (bs "provider read response came from the wrong provider connection")) in
          (send (pd_sender pending) result self, Ok tt)
      end
  end.

Definition disconnect_error (error_kind : ErrorKind) : IoError :=
  mkIoError error_kind (bs "provider disconnected").

(** The requests of a provider, in key order, are removed and then failed. *)
Definition fail_provider_pending_reads (self : IpcState) (provider_id : Z) (error_kind : ErrorKind) :
    IpcState :=
  let failed := filter (fun x => pd_provider_id x.2 = provider_id) (btree_items (st_pending_reads self)) in
  let self := set_pending
    (filter (fun x => pd_provider_id x.2 <> provider_id) (st_pending_reads self)) self in
  foldl (fun self x => send (pd_sender x.2) (Err (disconnect_error error_kind)) self) self failed.

(** The critical sections of [disconnect_provider_id], and their sequence. *)
Definition remove_route (self : IpcState) (provider_id : Z) : IpcState :=
  set_routes (delete provider_id (st_provider_routes self)) self.

Definition unregister_in_runtime (self : IpcState) (provider_id : ProviderId) : IpcState :=
  set_runtime (Runtime_unregister_provider (st_runtime self) provider_id).1 self.

Definition disconnect_provider_id (self : IpcState) (provider_id : Z) : IpcState :=
  let self := remove_route self provider_id in
  match ProviderId_from_raw provider_id with
  | None => self
  | Some provider_id_value =>
      let self := unregister_in_runtime self provider_id_value in
      fail_provider_pending_reads self provider_id KBrokenPipe
  end.

Definition disconnect_registered_providers (self : IpcState) (provider_ids : list ProviderId) :
    IpcState := foldl disconnect_provider_id self provider_ids.

(** ** [route_provider_read] *)

(** Up to the end of the block that looks the route up. *)
Definition route_lookup (self : IpcState) (request : ProviderReadRequest) :
    IoResult (ProviderReadRequestBody * ProviderRoute) :=
  request_body ← ProviderReadRequest_into_body request;
  route ← ok_or (st_provider_routes self !! rq_provider_id request)
            (mkIoError KNotFound (bs "provider not connected"));
  Ok (request_body, route).

(** The block that records the pending read under a new channel. *)
Definition route_insert (self : IpcState) (request : ProviderReadRequest) (ch : ChannelId) :
    IpcState * IoResult () :=
  let old := st_pending_reads self !! rq_request_id request in
  let self := set_channels (<[ch := []]> (st_channels self)) self in
  let self := set_pending
    (<[rq_request_id request := mkPendingRead (rq_provider_id request) request ch]>
       (st_pending_reads self)) self in
  (self, match old with
         | Some _ => Err (invalid_data (bs "duplicate provider read request id"))
         | None => Ok tt
         end).

(** The end: what [recv_timeout] returned. *)
Inductive RecvOutcome : Type :=
| Received (r : ReadResult)
| RecvTimeout
| RecvDisconnected.

Definition route_finish (self : IpcState) (request_id : Z) (o : RecvOutcome) : IpcState * ReadResult :=
  match o with
  | Received r => (self, r)
  | RecvTimeout =>
      (remove_pending_read self request_id,
       Err (mkIoError KTimedOut (bs "provider read response timed out")))
  | RecvDisconnected =>
      (self, Err (mkIoError KBrokenPipe (bs "provider read response channel closed")))
  end.

(** The write failed. *)
Definition route_write_failed (self : IpcState) (request_id provider_id : Z) : IpcState :=
  disconnect_provider_id (remove_pending_read self request_id) provider_id.
