(* ===== verification/Routing.v ===== *)
(** * Provider reads under concurrency

    A provider read crosses three threads: the one that calls
    [route_provider_read], the connection thread that receives the answer, and
    any thread that disconnects the provider.  [step] interleaves them: a
    calling thread is a [ReadThread], whose steps are the parts of
    [route_provider_read] between which it holds no lock; what the other
    threads do to the shared state is any sequence of the critical sections of
    [IpcState], in any order.  A critical section is one step together with the
    sends that follow it, which touch only the channel they send on.

    The invariant [sys_inv] is proved by induction on the steps. *)

From S2P Require Import Prelude Types Paths Tree Runtime Messages Mount IpcState.

Inductive ReadThread : Type :=
| Calling (request : ProviderReadRequest)
| Routed (request : ProviderReadRequest) (body : ProviderReadRequestBody) (route : ProviderRoute)
| Inserted (request : ProviderReadRequest) (body : ProviderReadRequestBody) (route : ProviderRoute)
| Waiting (request : ProviderReadRequest)
| WriteFailed (request : ProviderReadRequest) (error : IoError)
| RemovingRoute (request : ProviderReadRequest) (error : IoError)
| Unregistering (request : ProviderReadRequest) (error : IoError)
| FailingReads (request : ProviderReadRequest) (error : IoError)
| Returned (request : ProviderReadRequest) (result : ReadResult).

Definition thread_request (pc : ReadThread) : ProviderReadRequest :=
  match pc with
  | Calling r | Routed r _ _ | Inserted r _ _ | Waiting r | WriteFailed r _
  | RemovingRoute r _ | Unregistering r _ | FailingReads r _ | Returned r _ => r
  end.

(** The threads whose read may be pending. *)
Definition awaiting (pc : ReadThread) : bool :=
  match pc with Inserted _ _ _ | Waiting _ | WriteFailed _ _ => true | _ => false end.

Record System : Type := mkSystem {
  sys_state : IpcState;
  sys_reads : gmap ChannelId ReadThread;
}.

(** A new call: the id comes from [next_provider_read_request_id]. *)
Definition with_request_id (r : ProviderReadRequest) (id : Z) : ProviderReadRequest :=
  mkProviderReadRequest id (rq_provider_id r) (rq_promise_id r) (rq_relative_path r)
    (rq_provider_node_id r) (rq_offset r) (rq_length r).

Inductive step : System -> System -> Prop :=
| step_call s reads t r :
    reads !! t = None -> st_channels s !! t = None -> 0 <= rq_length r ->
    st_next_read_request_id s < u64_max ->
    step (mkSystem s reads)
         (mkSystem (next_provider_read_request_id s).1
            (<[t := Calling (with_request_id r (next_provider_read_request_id s).2)]> reads))
| step_lookup s reads t r :
    reads !! t = Some (Calling r) ->
    step (mkSystem s reads)
         (mkSystem s (<[t := match route_lookup s r with
                             | Ok (body, route) => Routed r body route
                             | Err e => Returned r (Err e)
                             end]> reads))
| step_insert s reads t r body route :
    reads !! t = Some (Routed r body route) ->
    step (mkSystem s reads)
         (mkSystem (route_insert s r t).1
            (<[t := match (route_insert s r t).2 with
                    | Ok _ => Inserted r body route
                    | Err e => Returned r (Err e)
                    end]> reads))
| step_written s reads t r body route :
    reads !! t = Some (Inserted r body route) ->
    step (mkSystem s reads) (mkSystem s (<[t := Waiting r]> reads))
| step_write_error s reads t r body route e :
    reads !! t = Some (Inserted r body route) ->
    step (mkSystem s reads) (mkSystem s (<[t := WriteFailed r e]> reads))
| step_forget s reads t r e :
    reads !! t = Some (WriteFailed r e) ->
    step (mkSystem s reads)
         (mkSystem (remove_pending_read s (rq_request_id r)) (<[t := RemovingRoute r e]> reads))
| step_remove_route s reads t r e :
    reads !! t = Some (RemovingRoute r e) ->
    step (mkSystem s reads)
         (mkSystem (remove_route s (rq_provider_id r)) (<[t := Unregistering r e]> reads))
| step_unregister s reads t r e :
    reads !! t = Some (Unregistering r e) ->
    step (mkSystem s reads)
         (mkSystem (unregister_in_runtime s (rq_provider_id r)) (<[t := FailingReads r e]> reads))
| step_fail_reads s reads t r e :
    reads !! t = Some (FailingReads r e) ->
    step (mkSystem s reads)
         (mkSystem (fail_provider_pending_reads s (rq_provider_id r) KBrokenPipe)
            (<[t := Returned r (Err e)]> reads))
| step_receive s reads t r x q :
    reads !! t = Some (Waiting r) -> st_channels s !! t = Some (x :: q) ->
    step (mkSystem s reads)
         (mkSystem (set_channels (<[t := q]> (st_channels s)) s)
            (<[t := Returned r (route_finish s (rq_request_id r) (Received x)).2]> reads))
| step_timeout s reads t r :
    reads !! t = Some (Waiting r) ->
    step (mkSystem s reads)
         (mkSystem (route_finish s (rq_request_id r) RecvTimeout).1
            (<[t := Returned r (route_finish s (rq_request_id r) RecvTimeout).2]> reads))
| step_hang_up s reads t r :
    reads !! t = Some (Waiting r) -> st_channels s !! t = Some [] ->
    (forall i p, st_pending_reads s !! i = Some p -> pd_sender p <> t) ->
    step (mkSystem s reads)
         (mkSystem (route_finish s (rq_request_id r) RecvDisconnected).1
            (<[t := Returned r (route_finish s (rq_request_id r) RecvDisconnected).2]> reads))
| step_env_complete s reads registered body :
    step (mkSystem s reads) (mkSystem (complete_provider_read s registered body).1 reads)
| step_env_fail_reads s reads id kind :
    step (mkSystem s reads) (mkSystem (fail_provider_pending_reads s id kind) reads)
| step_env_route s reads id token conn clone :
    step (mkSystem s reads) (mkSystem (register_provider_route s id token conn clone).1 reads)
| step_env_remove_route s reads id :
    step (mkSystem s reads) (mkSystem (remove_route s id) reads)
| step_env_runtime s reads op :
    step (mkSystem s reads) (mkSystem (set_runtime (run_op (st_runtime s) op) s) reads)
| step_env_mount s reads m :
    step (mkSystem s reads) (mkSystem (set_mount_status s m) reads).

Definition sys_init (runtime : Runtime) : System := mkSystem (IpcState_new runtime) ∅.

(** ** The invariant *)

(** What may be delivered for a request. *)
Definition result_ok (request : ProviderReadRequest) (r : ReadResult) : Prop :=
  forall response, r = Ok response -> response_answers request response.

(** A read that has been recorded is either still pending with an empty
    channel, or has been answered exactly once. *)
Definition awaiting_inv (s : IpcState) (t : ChannelId) (r : ProviderReadRequest) : Prop :=
  (st_pending_reads s !! rq_request_id r = Some (mkPendingRead (rq_provider_id r) r t) /\
     st_channels s !! t = Some []) \/
  (st_pending_reads s !! rq_request_id r = None /\
     exists x, st_channels s !! t = Some [x] /\ result_ok r x).

Definition thread_inv (s : IpcState) (t : ChannelId) (pc : ReadThread) : Prop :=
  0 <= rq_length (thread_request pc) /\
  1 <= rq_request_id (thread_request pc) < st_next_read_request_id s /\
  match pc with
  | Calling r | Routed r _ _ => st_pending_reads s !! rq_request_id r = None
  | Inserted r _ _ | Waiting r | WriteFailed r _ => awaiting_inv s t r
  | Returned r x => result_ok r x /\ st_pending_reads s !! rq_request_id r = None
  | RemovingRoute r _ | Unregistering r _ | FailingReads r _ =>
      st_pending_reads s !! rq_request_id r = None
  end.

Record sys_inv (sys : System) : Prop := {
  si_next : 1 <= st_next_read_request_id (sys_state sys) <= u64_max;
  si_thread : forall t pc, sys_reads sys !! t = Some pc -> thread_inv (sys_state sys) t pc;
  si_distinct : forall t t' pc pc', sys_reads sys !! t = Some pc -> sys_reads sys !! t' = Some pc' ->
    rq_request_id (thread_request pc) = rq_request_id (thread_request pc') -> t = t';
  si_pending : forall i p, st_pending_reads (sys_state sys) !! i = Some p ->
    exists pc, sys_reads sys !! pd_sender p = Some pc /\ awaiting pc = true /\
      pd_request p = thread_request pc /\ i = rq_request_id (pd_request p);
}.

(** ** Frame lemmas *)

Lemma thread_inv_frame s s' t pc :
  thread_inv s t pc ->
  st_next_read_request_id s <= st_next_read_request_id s' ->
  st_pending_reads s' !! rq_request_id (thread_request pc) = st_pending_reads s !! rq_request_id (thread_request pc) ->
  st_channels s' !! t = st_channels s !! t ->
  thread_inv s' t pc.
Proof.
  unfold thread_inv, awaiting_inv. intros (? & ? & H) Hn Hp Hc. split; [done|]. split; [lia|].
  destruct pc; cbn in *; rewrite ?Hp, ?Hc; done.
Qed.

(** The thread [t] moves on; the others are untouched, and no read becomes
    pending. *)
Lemma inv_update s s' reads t pc pc' :
  sys_inv (mkSystem s reads) -> reads !! t = Some pc -> thread_request pc' = thread_request pc ->
  thread_inv s' t pc' ->
  st_next_read_request_id s' = st_next_read_request_id s ->
  (forall t' pc0, t' <> t -> reads !! t' = Some pc0 -> thread_inv s' t' pc0) ->
  (forall i p, st_pending_reads s' !! i = Some p ->
     st_pending_reads s !! i = Some p /\ (pd_sender p = t -> awaiting pc' = true)) ->
  sys_inv (mkSystem s' (<[t := pc']> reads)).
Proof.
  intros [Hn Ht Hd Hp] Hpc Hr Hinv Hn' Hothers Hsub. split; cbn in *.
  - lia.
  - intros t' pc0. rewrite lookup_insert. case_decide; [subst; intros [= <-]; done|eauto].
  - intros t1 t2 pc1 pc2. rewrite !lookup_insert. case_decide; case_decide; subst; try done.
    + intros [= <-] H2 Heq. eapply Hd; eauto. congruence.
    + intros H1 [= <-] Heq. eapply Hd; eauto. congruence.
    + eauto.
  - intros i p Hi. destruct (Hsub i p Hi) as [Hi0 Haw]. destruct (Hp i p Hi0) as (pc0 & Hpc0 & Ha & Hreq & Hid).
    rewrite lookup_insert. case_decide; [subst t|eauto]. exists pc'. split_and!; try done; [auto|congruence].
Qed.

(** Only the state changes, and no read becomes pending. *)
Lemma inv_env s s' reads :
  sys_inv (mkSystem s reads) ->
  st_next_read_request_id s' = st_next_read_request_id s ->
  (forall t pc, reads !! t = Some pc -> thread_inv s' t pc) ->
  (forall i p, st_pending_reads s' !! i = Some p -> st_pending_reads s !! i = Some p) ->
  sys_inv (mkSystem s' reads).
Proof. intros [Hn Ht Hd Hp] Hn' Hth Hsub. split; cbn in *; [lia|done|eauto|eauto]. Qed.

Lemma other_id s reads t t' pc pc' :
  sys_inv (mkSystem s reads) -> reads !! t = Some pc -> reads !! t' = Some pc' -> t' <> t ->
  rq_request_id (thread_request pc') <> rq_request_id (thread_request pc).
Proof. intros Hinv Ht Ht' Hne Heq. apply Hne. by eapply (si_distinct _ Hinv). Qed.

(** ** Deliveries *)

Lemma send_channels ch x s t :
  st_channels (send ch x s) !! t =
    if decide (t = ch) then Some (default [] (st_channels s !! ch) ++ [x]) else st_channels s !! t.
Proof. cbn. rewrite lookup_insert. repeat case_decide; congruence. Qed.

Section deliver.
Context (x : ReadResult).

Definition deliver (l : list (Z * PendingRead)) (s : IpcState) : IpcState :=
  foldl (fun s kv => send (pd_sender kv.2) x s) s l.

Lemma deliver_fields l s :
  st_pending_reads (deliver l s) = st_pending_reads s /\
  st_next_read_request_id (deliver l s) = st_next_read_request_id s /\
  st_runtime (deliver l s) = st_runtime s /\ st_provider_routes (deliver l s) = st_provider_routes s /\
  st_mount_status (deliver l s) = st_mount_status s.
Proof. revert s. induction l as [|kv l IH]; intros s; cbn; [done|]. apply (IH (send _ _ s)). Qed.

Lemma deliver_other l s t :
  (forall kv, kv ∈ l -> pd_sender kv.2 <> t) -> st_channels (deliver l s) !! t = st_channels s !! t.
Proof.
  revert s. induction l as [|kv l IH]; intros s Hl; cbn; [done|].
  change (st_channels (deliver l (send (pd_sender kv.2) x s)) !! t = st_channels s !! t).
  rewrite IH by (intros; apply Hl; by right). rewrite send_channels, decide_False; [done|].
  intros ->. by eapply Hl; [left|].
Qed.

Lemma deliver_one l s t kv :
  kv ∈ l -> pd_sender kv.2 = t -> NoDup l.*1 ->
  (forall kv', kv' ∈ l -> pd_sender kv'.2 = t -> kv'.1 = kv.1) ->
  st_channels s !! t = Some [] -> st_channels (deliver l s) !! t = Some [x].
Proof.
  revert s. induction l as [|kv0 l IH]; intros s Hin Ht Hnd Huniq Hs; [by apply elem_of_nil in Hin|].
  cbn in Hnd. apply NoDup_cons in Hnd as [Hkv0 Hnd].
  change (st_channels (deliver l (send (pd_sender kv0.2) x s)) !! t = Some [x]).
  destruct (decide (pd_sender kv0.2 = t)) as [Heq|Hne].
  - rewrite deliver_other.
    + rewrite send_channels, decide_True by done. by rewrite Heq, Hs.
    + intros kv' Hkv' Hs'. apply Hkv0. apply list_elem_of_fmap. exists kv'. split; [|done].
      rewrite (Huniq kv0), (Huniq kv'); try done; [by right|left].
  - apply elem_of_cons in Hin as [->|Hin]; [done|]. apply IH; try done.
    + intros kv' Hkv'. apply Huniq. by right.
    + by rewrite send_channels, decide_False.
Qed.
End deliver.

Lemma awaiting_channel s t pc :
  thread_inv s t pc -> awaiting pc = true ->
  is_Some (st_pending_reads s !! rq_request_id (thread_request pc)) -> st_channels s !! t = Some [].
Proof.
  intros (_ & _ & H) Haw [p Hp]. destruct pc; try done; cbn in *;
    (destruct H as [[_ H]|[H _]]; [done|congruence]).
Qed.

Lemma awaiting_answered s t pc x :
  awaiting pc = true -> 0 <= rq_length (thread_request pc) ->
  1 <= rq_request_id (thread_request pc) < st_next_read_request_id s ->
  st_channels s !! t = Some [x] -> result_ok (thread_request pc) x ->
  st_pending_reads s !! rq_request_id (thread_request pc) = None -> thread_inv s t pc.
Proof.
  intros Haw Hl Hid Hc Hx Hp. split; [done|]. split; [done|].
  destruct pc; try done; cbn in *; right; eauto.
Qed.

(** Failing a provider's reads answers each of them once and leaves the rest. *)
Lemma fail_reads_inv s reads id kind :
  sys_inv (mkSystem s reads) -> sys_inv (mkSystem (fail_provider_pending_reads s id kind) reads).
Proof.
  intros Hinv. unfold fail_provider_pending_reads.
  set (failed := filter _ (btree_items _)). set (s1 := set_pending _ s).
  set (x := Err (disconnect_error kind)).
  change (sys_inv (mkSystem (deliver x failed s1) reads)).
  destruct (deliver_fields x failed s1) as (Hp & Hn & _).
  assert (Hfailed : forall kv, kv ∈ failed <-> st_pending_reads s !! kv.1 = Some kv.2 /\ pd_provider_id kv.2 = id).
  { intros [i p]. unfold failed. rewrite list_elem_of_filter, elem_of_btree_items. naive_solver. }
  assert (Hs1 : forall i, st_pending_reads s1 !! i =
    match st_pending_reads s !! i with
    | Some p => if decide (pd_provider_id p = id) then None else Some p
    | None => None
    end).
  { intros i. cbn. destruct (st_pending_reads s !! i) as [p|] eqn:Hi.
    - case_decide; [|by apply map_lookup_filter_Some].
      apply map_lookup_filter_None. right. intros p'. cbn. naive_solver.
    - apply map_lookup_filter_None. by left. }
  assert (Hnd : NoDup failed.*1).
  { apply (sublist_NoDup _ (btree_items (st_pending_reads s)).*1); [apply btree_items_NoDup_keys|].
    apply fmap_sublist, sublist_filter. }
  apply (inv_env s); [done|by rewrite Hn| |].
  - intros t pc Hpc. pose proof (si_thread _ Hinv t pc Hpc) as Ht.
    destruct (decide (Exists (fun kv => pd_sender kv.2 = t) failed)) as [(kv & Hkv & Hst)%Exists_exists|Hno];
      [|rewrite Exists_exists in Hno].
    + apply Hfailed in Hkv as Hkv'. destruct Hkv' as [Hi Hid].
      destruct (si_pending _ Hinv _ _ Hi) as (pc0 & Hpc0 & Haw & Hreq & Hkid). cbn in Hpc0.
      rewrite Hst, Hpc in Hpc0. injection Hpc0 as <-.
      assert (Hchan : st_channels (deliver x failed s1) !! t = Some [x]).
      { apply (deliver_one x failed s1 t kv); try done.
        - intros kv' [Hi' _]%Hfailed Hst'. destruct (si_pending _ Hinv _ _ Hi') as (pc1 & Hpc1 & _ & Hreq1 & ->).
          cbn in Hpc1. rewrite Hst', Hpc in Hpc1. injection Hpc1 as <-. rewrite Hkid. congruence.
        - cbn. apply awaiting_channel with pc; [done..|]. rewrite <- Hreq, <- Hkid. eauto. }
      apply (awaiting_answered _ _ _ x); try done; [by destruct Ht|rewrite Hn; by destruct Ht as (_ & ? & _)|].
      rewrite Hp, <- Hreq, <- Hkid, Hs1, Hi. by rewrite decide_True.
    + eapply thread_inv_frame; [exact Ht|by rewrite Hn| |].
      * rewrite Hp, Hs1. destruct (st_pending_reads s !! _) as [p|] eqn:Hi; [|done].
        rewrite decide_False; [done|]. intros Hid. apply Hno.
        exists (rq_request_id (thread_request pc), p). split; [by apply Hfailed|].
        destruct (si_pending _ Hinv _ _ Hi) as (pc0 & Hpc0 & _ & Hreq & Hkid). cbn in Hpc0 |- *.
        eapply (si_distinct _ Hinv); cbn; [exact Hpc0|exact Hpc|]. congruence.
      * rewrite (deliver_other x failed s1 t); [done|]. intros kv Hkv Hst. apply Hno. eauto.
  - intros i p. rewrite Hp, Hs1. destruct (st_pending_reads s !! i); [|done]. case_decide; congruence.
Qed.

(** A provider's answer is delivered to the read it names, if it is pending. *)
Lemma complete_inv s reads registered body :
  sys_inv (mkSystem s reads) -> sys_inv (mkSystem (complete_provider_read s registered body).1 reads).
Proof.
  intros Hinv. unfold complete_provider_read.
  destruct (ProviderReadResponse_from_body body) as [resp|]; [|done].
  destruct (st_pending_reads s !! rs_request_id resp) as [p|] eqn:Hi; [|done].
  set (x := if bool_decide _ then _ else _). cbn [fst].
  destruct (si_pending _ Hinv _ _ Hi) as (pc & Hpc & Haw & Hreq & Hid). cbn in Hpc.
  assert (Hx : result_ok (pd_request p) x).
  { intros r Hr. unfold x in Hr. destruct (bool_decide _); [|done].
    apply fmap_Ok in Hr as ([] & Hv & <-). by apply validate_response_for_request_Ok. }
  apply (inv_env s); [done|done| |].
  - intros t pc' Hpc'. pose proof (si_thread _ Hinv t pc' Hpc') as Ht.
    destruct (decide (t = pd_sender p)) as [->|Hne].
    + rewrite Hpc in Hpc'. injection Hpc' as <-.
      apply (awaiting_answered _ _ _ x); try done; [by destruct Ht|by destruct Ht as (_ & ? & _)|..].
      * rewrite send_channels, decide_True by done. cbn.
        rewrite (awaiting_channel s _ pc); [done|done|done|]. rewrite <- Hreq, <- Hid. eauto.
      * by rewrite <- Hreq.
      * cbn. rewrite <- Hreq, <- Hid. apply lookup_delete_eq.
    + eapply thread_inv_frame; [exact Ht|done| |].
      * cbn. apply lookup_delete_ne. rewrite Hid, Hreq. intros Heq. apply Hne.
        by eapply (si_distinct _ Hinv); cbn; eauto.
      * by rewrite send_channels, decide_False.
  - intros i q. cbn. by intros [_ ?]%lookup_delete_Some.
Qed.

(** A new pending read takes an id that no other read has. *)
Lemma insert_inv s reads t r body route :
  sys_inv (mkSystem s reads) -> reads !! t = Some (Routed r body route) ->
  (route_insert s r t).2 = Ok tt /\
  sys_inv (mkSystem (route_insert s r t).1 (<[t := Inserted r body route]> reads)).
Proof.
  intros Hinv Ht. pose proof (si_thread _ Hinv t _ Ht) as (Hl & Hid & Hnone). cbn in Hl, Hid, Hnone.
  unfold route_insert. rewrite Hnone. cbn. split; [done|]. split; cbn.
  - apply Hinv.
  - intros t' pc'. rewrite lookup_insert. case_decide as Heq.
    + subst t'. intros [= <-]. split; [done|]. split; [done|]. left. cbn. by rewrite !lookup_insert_eq.
    + intros Hpc'. eapply thread_inv_frame; [exact (si_thread _ Hinv t' pc' Hpc')|done| |]; cbn.
      * apply lookup_insert_ne. intros Hd. apply Heq.
        eapply (si_distinct _ Hinv); cbn; eauto.
      * by apply lookup_insert_ne.
  - intros t1 t2 pc1 pc2. rewrite !lookup_insert. case_decide; case_decide; subst; try done.
    + intros [= <-] H2 Heq. eapply (si_distinct _ Hinv); eauto.
    + intros H1 [= <-] Heq. eapply (si_distinct _ Hinv); eauto.
    + apply (si_distinct _ Hinv).
  - intros i p. rewrite lookup_insert. case_decide as Hi.
    + intros [= <-]. cbn. exists (Inserted r body route). rewrite lookup_insert_eq. done.
    + intros Hp. destruct (si_pending _ Hinv i p Hp) as (pc & Hpc & Haw & ?). cbn in Hpc.
      exists pc. rewrite lookup_insert_ne; [done|]. intros Heq. rewrite <- Heq, Ht in Hpc.
      injection Hpc as <-. done.
Qed.

Lemma thread_step_inv s reads t pc pc' :
  sys_inv (mkSystem s reads) -> reads !! t = Some pc -> thread_request pc' = thread_request pc ->
  thread_inv s t pc' -> (awaiting pc = true -> awaiting pc' = true \/
    st_pending_reads s !! rq_request_id (thread_request pc) = None) ->
  sys_inv (mkSystem s (<[t := pc']> reads)).
Proof.
  intros Hinv Hpc Hr Ht' Haw. eapply inv_update; try done.
  - intros t' pc0 _ Hpc0. by apply (si_thread _ Hinv).
  - intros i p Hi. split; [done|]. intros Hs. destruct (si_pending _ Hinv i p Hi) as (pc0 & Hpc0 & Ha & Hreq & Hid).
    cbn in Hpc0. rewrite Hs, Hpc in Hpc0. injection Hpc0 as <-. destruct (Haw Ha) as [?|Hn]; [done|].
    rewrite <- Hreq, <- Hid in Hn. cbn in Hi. congruence.
Qed.

(** The thread [t] forgets its own pending read. *)
Lemma forget_inv s reads t pc pc' :
  sys_inv (mkSystem s reads) -> reads !! t = Some pc -> thread_request pc' = thread_request pc ->
  thread_inv (remove_pending_read s (rq_request_id (thread_request pc))) t pc' ->
  sys_inv (mkSystem (remove_pending_read s (rq_request_id (thread_request pc))) (<[t := pc']> reads)).
Proof.
  intros Hinv Hpc Hr Ht'. eapply inv_update; try done.
  - intros t' pc0 Hne Hpc0. eapply thread_inv_frame; [by apply (si_thread _ Hinv)|done| |done].
    cbn. apply lookup_delete_ne. intros Heq. apply (other_id s reads t t' pc pc0); auto.
  - intros i p. cbn. intros [Hne Hi]%lookup_delete_Some. split; [done|]. intros Hs.
    destruct (si_pending _ Hinv i p Hi) as (pc0 & Hpc0 & _ & Hreq & Hid). cbn in Hpc0.
    rewrite Hs, Hpc in Hpc0. injection Hpc0 as <-. congruence.
Qed.

Lemma call_inv s reads t r :
  sys_inv (mkSystem s reads) -> reads !! t = None -> 0 <= rq_length r ->
  st_next_read_request_id s < u64_max ->
  sys_inv (mkSystem (next_provider_read_request_id s).1
             (<[t := Calling (with_request_id r (next_provider_read_request_id s).2)]> reads)).
Proof.
  intros Hinv Ht Hl Hmax. pose proof (si_next _ Hinv) as Hn. cbn in Hn.
  assert (Hnone : st_pending_reads s !! st_next_read_request_id s = None).
  { destruct (st_pending_reads s !! st_next_read_request_id s) as [p|] eqn:Hp; [|done]. exfalso.
    destruct (si_pending _ Hinv _ p Hp) as (pc & Hpc & _ & Hreq & Hid).
    pose proof (si_thread _ Hinv _ pc Hpc) as (_ & Hlt & _). rewrite <- Hreq, <- Hid in Hlt. cbn in Hlt. lia. }
  unfold next_provider_read_request_id. cbn [fst snd]. rewrite wrapping_add_in by lia.
  split; cbn.
  - lia.
  - intros t' pc'. rewrite lookup_insert. case_decide; [intros [= <-]|intros Hpc'].
    + split; [done|]. split; [cbn; lia|]. done.
    + eapply thread_inv_frame; [by apply (si_thread _ Hinv)| |done|done]. cbn. lia.
  - assert (Hold : forall t' pc', reads !! t' = Some pc' ->
      rq_request_id (thread_request pc') <> st_next_read_request_id s).
    { intros t' pc' Hpc'. pose proof (si_thread _ Hinv t' pc' Hpc') as (_ & Hlt & _). cbn in Hlt. lia. }
    intros t1 t2 pc1 pc2. rewrite !lookup_insert. case_decide; case_decide; subst; try done.
    + intros [= <-] H2 Heq. symmetry in Heq. by destruct (Hold _ _ H2 Heq).
    + intros H1 [= <-] Heq. by destruct (Hold _ _ H1 Heq).
    + apply (si_distinct _ Hinv).
  - intros i p Hp. destruct (si_pending _ Hinv i p Hp) as (pc & Hpc & ?). exists pc.
    rewrite lookup_insert_ne; [done|]. intros Heq. cbn in Hpc. rewrite <- Heq in Hpc. congruence.
Qed.

(** A change of the state that leaves reads and channels alone. *)
Lemma quiet_inv s s' reads :
  sys_inv (mkSystem s reads) ->
  st_next_read_request_id s' = st_next_read_request_id s ->
  st_pending_reads s' = st_pending_reads s -> st_channels s' = st_channels s ->
  sys_inv (mkSystem s' reads).
Proof.
  intros Hinv Hn Hp Hc. apply (inv_env s); [done|done| |by rewrite Hp].
  intros t pc Hpc. eapply thread_inv_frame; [by apply (si_thread _ Hinv)|by rewrite Hn|by rewrite Hp|by rewrite Hc].
Qed.

Lemma step_inv sys sys' : sys_inv sys -> step sys sys' -> sys_inv sys'.
Proof.
  intros Hinv Hstep. destruct Hstep as
    [s reads t r Ht _ Hl Hmax|s reads t r Ht|s reads t r body route Ht|s reads t r body route Ht
    |s reads t r body route e Ht|s reads t r e Ht|s reads t r e Ht|s reads t r e Ht|s reads t r e Ht
    |s reads t r x q Ht Hq|s reads t r Ht|s reads t r Ht Hq Hno|s reads registered body|s reads id kind
    |s reads id token conn clone|s reads id|s reads op|s reads m];
    try pose proof (si_thread _ Hinv t _ Ht) as (Hl & Hid & Hth).
  - by apply call_inv.
  - eapply thread_step_inv; [done|done| | |done].
    + by destruct (route_lookup s r) as [[]|].
    + destruct (route_lookup s r) as [[]|]; (split; [done|split; [done|done]]).
  - destruct (insert_inv s reads t r body route Hinv Ht) as [-> H]. exact H.
  - eapply thread_step_inv; [done|done|done|by split|by left].
  - eapply thread_step_inv; [done|done|done|by split|by left].
  - apply (forget_inv s reads t (WriteFailed r e)); try done. split; [done|]. split; [done|].
    cbn. apply lookup_delete_eq.
  - apply (quiet_inv s); [|done..]. eapply thread_step_inv; [done|done|done|by split|done].
  - apply (quiet_inv s); [|done..]. eapply thread_step_inv; [done|done|done|by split|done].
  - apply fail_reads_inv. eapply thread_step_inv; [done|done|done|by split|done].
  - destruct Hth as [[_ Hc]|(Hp & y & Hc & Hy)]; cbn in Hc; [congruence|].
    rewrite Hq in Hc. injection Hc as -> ->.
    eapply (inv_update s); try done.
    + intros t' pc0 Hne Hpc0. eapply thread_inv_frame; [by apply (si_thread _ Hinv)|done|done|].
      cbn. by apply lookup_insert_ne.
    + intros i p Hi. split; [done|]. intros Hs. destruct (si_pending _ Hinv i p Hi) as (pc0 & Hpc0 & _ & Hreq & Hdi).
      cbn in Hpc0. rewrite Hs, Ht in Hpc0. injection Hpc0 as <-. cbn in *. congruence.
  - apply (forget_inv s reads t (Waiting r)); try done. split; [done|]. split; [done|].
    split; [done|]. cbn. apply lookup_delete_eq.
  - destruct Hth as [[Hp _]|(_ & y & Hc & _)]; cbn in *; [|congruence].
    exfalso. by apply (Hno _ _ Hp).
  - by apply complete_inv.
  - by apply fail_reads_inv.
  - apply (quiet_inv s); [done|..]; unfold register_provider_route; by destruct clone.
  - by apply (quiet_inv s).
  - by apply (quiet_inv s).
  - by apply (quiet_inv s).
Qed.

Lemma init_inv runtime : sys_inv (sys_init runtime).
Proof. split; cbn; [unfold u64_max; lia|..]; intros *; rewrite ?lookup_empty; done. Qed.

Lemma steps_inv sys sys' : sys_inv sys -> rtc step sys sys' -> sys_inv sys'.
Proof. intros H0 H. induction H; eauto using step_inv. Qed.

Lemma reachable_inv runtime sys : rtc step (sys_init runtime) sys -> sys_inv sys.
Proof. apply steps_inv, init_inv. Qed.

(** ** A sample run: one read, answered by its provider *)

Definition sample_request : ProviderReadRequest :=
  mkProviderReadRequest 1 1 (bs "promise-1") (bs "docs/readme.txt") (bs "remote-file-1") 0 5.

Definition sample_answer : ProviderReadResponseBody :=
  mkProviderReadResponseBody 1 PbOk (bs "hello").

Definition routed_system : System :=
  mkSystem (register_provider_route (IpcState_new Runtime_new) 1 42 7 (Ok tt)).1 ∅.

Definition waiting_system : System :=
  mkSystem
    (route_insert (next_provider_read_request_id (sys_state routed_system)).1 sample_request 0).1
    {[ 0%nat := Waiting sample_request ]}.

Definition answered_system : System :=
  mkSystem (complete_provider_read (sys_state waiting_system) [1] sample_answer).1
    {[ 0%nat := Waiting sample_request ]}.

Definition returned_system : System :=
  mkSystem (set_channels (<[0%nat := []]> (st_channels (sys_state answered_system))) (sys_state answered_system))
    {[ 0%nat := Returned sample_request (Ok (mkProviderReadResponse 1 PrOk (bs "hello"))) ]}.

Lemma waiting_reachable : rtc step (sys_init Runtime_new) waiting_system.
Proof.
  eapply rtc_l; [apply (step_env_route _ _ 1 42 7 (Ok tt))|].
  eapply rtc_l; [apply (step_call _ _ 0%nat sample_request); [reflexivity|reflexivity|cbn; lia|reflexivity]|].
  eapply rtc_l; [eapply (step_lookup _ _ 0%nat); reflexivity|].
  eapply rtc_l; [eapply (step_insert _ _ 0%nat); reflexivity|].
  eapply rtc_l; [eapply (step_written _ _ 0%nat); reflexivity|].
  apply rtc_refl.
Qed.

Lemma returned_reachable : rtc step (sys_init Runtime_new) returned_system.
Proof.
  etrans; [exact waiting_reachable|].
  eapply rtc_l; [apply (step_env_complete _ _ [1] sample_answer)|].
  eapply rtc_l; [eapply (step_receive _ _ 0%nat sample_request); reflexivity|].
  apply rtc_refl.
Qed.

(** ** Properties *)

(** C18: whatever the interleaving of readers, answers, disconnects, new
    providers and runtime calls, a provider read that returns a response
    returns one for its own request: same request id, at most the requested
    number of bytes, and no bytes unless the status is [Ok]. *)
Theorem routed_read_answers_request runtime sys t request response :
  rtc step (sys_init runtime) sys ->
  sys_reads sys !! t = Some (Returned request (Ok response)) ->
  response_answers request response.
Proof.
  intros Hr%reachable_inv Ht. destruct (si_thread _ Hr t _ Ht) as (_ & _ & H & _). by apply H.
Qed.

Lemma routed_read_answers_request_witness :
  response_answers sample_request (mkProviderReadResponse 1 PrOk (bs "hello")).
Proof.
  apply (routed_read_answers_request Runtime_new returned_system 0%nat); [exact returned_reachable|].
  reflexivity.
Defined.

(** C5: no read is lost and none is answered twice.  In every reachable state
    the request ids of all reads are distinct, and a read that has been
    recorded either is still pending, under its own request and channel, or has
    been removed and its channel holds exactly one result, so that waiting for
    it never finds the channel closed and recording it never finds its id
    taken. *)
Theorem no_read_lost_or_duplicated runtime sys :
  rtc step (sys_init runtime) sys ->
  (forall t r, sys_reads sys !! t = Some (Waiting r) ->
     (st_pending_reads (sys_state sys) !! rq_request_id r = Some (mkPendingRead (rq_provider_id r) r t) /\
        st_channels (sys_state sys) !! t = Some []) \/
     (st_pending_reads (sys_state sys) !! rq_request_id r = None /\
        exists x, st_channels (sys_state sys) !! t = Some [x])) /\
  (forall t r body route, sys_reads sys !! t = Some (Routed r body route) ->
     (route_insert (sys_state sys) r t).2 = Ok tt) /\
  (forall t t' pc pc', sys_reads sys !! t = Some pc -> sys_reads sys !! t' = Some pc' ->
     rq_request_id (thread_request pc) = rq_request_id (thread_request pc') -> t = t').
Proof.
  intros Hr%reachable_inv. split_and!; [| |apply Hr].
  - intros t r Ht. destruct (si_thread _ Hr t _ Ht) as (_ & _ & [H|(H & x & Hx & _)]); eauto.
  - intros t r body route Ht. destruct sys as [s reads]. by eapply insert_inv.
Qed.

Lemma no_read_lost_or_duplicated_witness :
  st_channels (sys_state waiting_system) !! 0%nat = Some [] \/
  exists x, st_channels (sys_state waiting_system) !! 0%nat = Some [x].
Proof.
  destruct (no_read_lost_or_duplicated Runtime_new waiting_system waiting_reachable) as (H & _ & _).
  destruct (H 0%nat sample_request) as [[_ H1]|[_ H1]]; [reflexivity|left; exact H1|right; exact H1].
Defined.

(** C19: disconnecting a provider wakes every reader waiting for it: each has
    its result, nothing of that provider stays pending, and the readers of
    other providers are untouched. *)
Theorem disconnect_wakes_readers runtime sys id :
  rtc step (sys_init runtime) sys -> id <> 0 ->
  let s' := disconnect_provider_id (sys_state sys) id in
  (forall i p, st_pending_reads s' !! i = Some p -> pd_provider_id p <> id) /\
  forall t r, sys_reads sys !! t = Some (Waiting r) ->
    (rq_provider_id r = id -> exists x, st_channels s' !! t = Some [x]) /\
    (rq_provider_id r <> id -> st_channels s' !! t = st_channels (sys_state sys) !! t).
Proof.
  intros Hr Hid s'. destruct sys as [s reads]. cbn in *.
  set (s1 := unregister_in_runtime (remove_route s id) id).
  assert (Hs' : s' = fail_provider_pending_reads s1 id KBrokenPipe).
  { unfold s', disconnect_provider_id, ProviderId_from_raw. destruct (Z.eqb_spec id 0); done. }
  apply reachable_inv in Hr as Hinv. assert (Hinv1 : sys_inv (mkSystem s1 reads)) by by apply (quiet_inv s).
  pose proof (fail_reads_inv s1 reads id KBrokenPipe Hinv1) as Hinv'. rewrite <- Hs' in Hinv'.
  assert (Hnone : forall i p, st_pending_reads s' !! i = Some p ->
    st_pending_reads s !! i = Some p /\ pd_provider_id p <> id).
  { intros i p. rewrite Hs'. unfold fail_provider_pending_reads.
    destruct (deliver_fields (Err (disconnect_error KBrokenPipe))
      (filter (fun x => pd_provider_id x.2 = id) (btree_items (st_pending_reads s1)))
      (set_pending (filter (fun x => pd_provider_id x.2 <> id) (st_pending_reads s1)) s1)) as [Hp _].
    unfold deliver in Hp. rewrite Hp. cbn. intros [H1 H2]%map_lookup_filter_Some. done. }
  split; [by intros i p [_ H]%Hnone|]. intros t r Ht.
  pose proof (si_thread _ Hinv t _ Ht) as (_ & _ & H0). pose proof (si_thread _ Hinv' t _ Ht) as (_ & _ & H1).
  split.
  - intros Hp. destruct H1 as [[H1 _]|(_ & x & Hx & _)]; [|eauto].
    cbn in H1. apply Hnone in H1 as [_ H1]. done.
  - intros Hp. rewrite Hs'. unfold fail_provider_pending_reads.
    match goal with |- st_channels (foldl _ ?s0 ?l) !! t = _ =>
      change (st_channels (deliver (Err (disconnect_error KBrokenPipe)) l s0) !! t = st_channels s !! t);
      rewrite (deliver_other _ l s0 t) end; [done|].
    intros [i p] [Hpi Hi%elem_of_btree_items]%list_elem_of_filter Hst. cbn in *.
    destruct (si_pending _ Hinv i p Hi) as (pc & Hpc & _ & Hreq & _). cbn in Hpc.
    rewrite Hst, Ht in Hpc. injection Hpc as <-. cbn in Hreq.
    destruct H0 as [[H0 _]|(H0 & _)]; cbn in H0.
    + destruct (si_pending _ Hinv i p Hi) as (_ & _ & _ & _ & Hi'). rewrite Hi', Hreq in Hi.
      rewrite H0 in Hi. injection Hi as <-. done.
    + destruct (si_pending _ Hinv i p Hi) as (_ & _ & _ & _ & Hi'). congruence.
Qed.

Lemma disconnect_wakes_readers_witness :
  exists x, st_channels (disconnect_provider_id (sys_state waiting_system) 1) !! 0%nat = Some [x].
Proof.
  destruct (disconnect_wakes_readers Runtime_new waiting_system 1 waiting_reachable) as [_ H]; [lia|].
  apply (H 0%nat sample_request); reflexivity.
Defined.
