(* ===== verification/Report.v ===== *)
(** * Status and inspection reports

    [DaemonStatus], [StatusBody], [InspectBody] and their text forms, of
    [crates/fuse-promise-ipc/src/lib.rs].  The default paths come from the
    environment of the daemon and are parameters. *)

From S2P Require Import Prelude Types Paths Tree Runtime Messages Mount.

Record DaemonStatus : Type := mkDaemonStatus {
  ds_api_version : Z;
  ds_mount_path : str;
  ds_socket_path : str;
  ds_daemon : str;
  ds_mount : str;
  ds_fuse_adapter : str;
  ds_cache_policy : str;
  ds_providers : Z;
  ds_promises : Z;
}.

Definition promise_state_text (state : PromiseState) : str :=
  match state with
  | Available => bs "available"
  | PromiseProviderGone => bs "provider-gone"
  | Materialized => bs "materialized"
  end.

Definition cache_policy_text (policy : CachePolicy) : str := CachePolicy_as_str policy.

Definition node_kind_text (kind : NodeKind) : str :=
  match kind with File => bs "file" | Directory => bs "directory" end.

Section status.
Context (default_mount_path default_control_socket_path : Result str).

Definition DaemonStatus_from_runtime_with_mount (runtime : Runtime) (mount_status : IpcMountStatus) :
    Result DaemonStatus :=
  mount_path ← match mo_mount_path mount_status with
               | Some p => Ok p
               | None => default_mount_path
               end;
  socket_path ← default_control_socket_path;
  Ok (mkDaemonStatus API_VERSION mount_path socket_path (bs "connected")
        (mo_mount mount_status) (mo_fuse_adapter mount_status)
        (cache_policy_text (rt_cache_policy runtime))
        (Runtime_provider_count runtime) (Runtime_promise_count runtime)).

Definition DaemonStatus_from_runtime (runtime : Runtime) : Result DaemonStatus :=
  DaemonStatus_from_runtime_with_mount runtime IpcMountStatus_not_mounted.
End status.

Definition StatusBody_from_status (status : DaemonStatus) : StatusBody :=
  mkStatusBody (ds_api_version status) (to_string_lossy (ds_mount_path status))
    (to_string_lossy (ds_socket_path status)) (ds_daemon status) (ds_mount status)
    (ds_fuse_adapter status) (ds_cache_policy status) (ds_providers status) (ds_promises status).

(** [writeln!]. *)
Definition line (s : str) : str := s ++ [Byte.x0a].
Definition field (name value : str) : str := name ++ bs "=" ++ value.

Definition StatusBody_encode_text (self : StatusBody) : str :=
  line (bs "ok") ++
  line (field (bs "api_version") (u64_to_string (sb_api_version self))) ++
  line (field (bs "mount_path") (sb_mount_path self)) ++
  line (field (bs "socket_path") (sb_socket_path self)) ++
  line (field (bs "daemon") (sb_daemon self)) ++
  line (field (bs "mount") (sb_mount self)) ++
  line (field (bs "fuse_adapter") (sb_fuse_adapter self)) ++
  line (field (bs "cache_policy") (sb_cache_policy self)) ++
  line (field (bs "providers") (u64_to_string (sb_providers self))) ++
  line (field (bs "promises") (u64_to_string (sb_promises self))).

Definition DaemonStatus_encode (self : DaemonStatus) : str :=
  StatusBody_encode_text (StatusBody_from_status self).

Definition InspectNodeBody_of_node (node : PromiseNode) : InspectNodeBody :=
  mkInspectNodeBody (if decide (pn_relative_path node = []) then bs "." else pn_relative_path node)
    (pn_inode node) (node_kind_text (pn_kind node)) (attr_size (pn_attr node)) (attr_mode (pn_attr node))
    (pn_provider_node_id node).

Definition InspectPromiseBody_of_tree (tree : PromiseTree) : InspectPromiseBody :=
  mkInspectPromiseBody (pt_promise_id tree) (pt_provider_id tree) (promise_state_text (pt_state tree))
    (InspectNodeBody_of_node <$> btree_values (pt_nodes tree)).

Definition InspectBody_from_runtime (runtime : Runtime) : InspectBody :=
  mkInspectBody (Runtime_provider_count runtime)
    (InspectPromiseBody_of_tree <$> btree_values (rt_promises runtime)).

(** [{:o}]: octal digits, most significant first. *)
Fixpoint octal_digits (fuel : nat) (n : Z) : str :=
  match fuel with
  | O => []
  | S fuel =>
      (if n <? 8 then [] else octal_digits fuel (n / 8)) ++ [byte_of (48 + n mod 8)]
  end.

(** A [u32] has at most eleven octal digits. *)
Definition u32_to_octal (n : Z) : str := octal_digits 11 n.

Definition inspect_node_line (promise_id : str) (node : InspectNodeBody) : str :=
  line (bs "node promise=" ++ promise_id ++ bs " path=" ++ in_relative_path node ++
        bs " inode=" ++ u64_to_string (in_inode node) ++ bs " kind=" ++ in_kind node ++
        bs " size=" ++ u64_to_string (in_size node) ++ bs " mode=" ++ u32_to_octal (in_mode node) ++
        bs " provider_node=" ++ in_provider_node_id node).

Definition inspect_promise_lines (promise : InspectPromiseBody) : str :=
  line (bs "promise id=" ++ ip_promise_id promise ++ bs " provider=" ++ u64_to_string (ip_provider_id promise) ++
        bs " state=" ++ ip_state promise ++ bs " nodes=" ++ u64_to_string (len (ip_nodes promise))) ++
  concat (inspect_node_line (ip_promise_id promise) <$> ip_nodes promise).

Definition InspectBody_encode_text (self : InspectBody) : str :=
  line (bs "ok") ++
  line (field (bs "providers") (u64_to_string (ib_providers self))) ++
  line (field (bs "promises") (u64_to_string (len (ib_promises self)))) ++
  concat (inspect_promise_lines <$> ib_promises self).

(** ** Properties *)

(** An inspection lists the runtime: one entry per promise, in the order
    of the promise ids, and in it one row per node, with the node's own inode,
    kind, size, mode and provider node id; the root's row, and no other, has the
    path [.]. *)
Theorem InspectBody_lists_runtime rt :
  rt_wf rt ->
  let body := InspectBody_from_runtime rt in
  ip_promise_id <$> ib_promises body = (btree_items (rt_promises rt)).*1 /\
  (forall row promise, promise ∈ ib_promises body -> row ∈ ip_nodes promise <->
     exists t p n, rt_promises rt !! ip_promise_id promise = Some t /\ pt_nodes t !! p = Some n /\
       row = InspectNodeBody_of_node n) /\
  (forall t p n, rt_promises rt !! pt_promise_id t = Some t -> pt_nodes t !! p = Some n ->
     in_relative_path (InspectNodeBody_of_node n) = bs "." <-> p = []).
Proof.
  intros Hwf body. split_and!.
  - unfold body, InspectBody_from_runtime, btree_values. cbn. rewrite <- !list_fmap_compose.
    apply list_fmap_ext. intros i [pid t] Hi%list_elem_of_lookup_2%elem_of_btree_items. cbn.
    by apply (rw_promises _ Hwf).
  - intros row promise (t & -> & [pid Ht]%elem_of_btree_values)%list_elem_of_fmap. cbn.
    destruct (rw_promises _ Hwf _ _ Ht) as [-> _]. rewrite list_elem_of_fmap. split.
    + intros (n & -> & [p Hn]%elem_of_btree_values). exists t, p, n. done.
    + intros (t' & p & n & Ht' & Hn & ->). exists n. split; [done|]. apply elem_of_btree_values.
      exists p. congruence.
  - intros t p n Ht Hn. destruct (rw_tree _ Hwf _ _ Ht) as [Htw _].
    destruct (twf_path _ _ Htw p n Hn) as [Hp (parts & Hs & Hj)].
    unfold InspectNodeBody_of_node. cbn. rewrite Hp. case_decide as Hd; [done|]. split; [|done].
    intros Hdot. exfalso.
    assert (Hparts : Forall safe_component parts) by done. rewrite Hj in Hdot.
    pose proof (f_equal kept_parts Hdot) as Hk. rewrite kept_parts_join in Hk by done.
    vm_compute in Hk. by rewrite Hk in Hj.
Qed.

Lemma InspectBody_lists_runtime_witness :
  let rt := run_ops Runtime_new sample_ops in
  ip_promise_id <$> ib_promises (InspectBody_from_runtime rt) = [bs "promise-1"; bs "promise-2"].
Proof.
  intros rt. destruct (InspectBody_lists_runtime rt sample_rt_wf) as [H _].
  rewrite H. vm_compute. reflexivity.
Defined.
