(* ===== verification/Server.v ===== *)
(** * Serving a client

    [handle_client_with_state], [handle_client_requests], [handle_promise_commit]
    and [disconnect_registered_providers] of
    [crates/fuse-promise-ipc/src/lib.rs]: one connection, from its first frame
    to its end.

    What comes from outside the daemon's own code is an input: the bytes the
    client sends and accepts (its reader and writer), the credentials of the
    peer, and, for each registration, the token drawn from [/dev/urandom] and
    whether the stream could be cloned.  [handle_materialize] is an argument of
    the section; [MaterializeServer] shows that it meets what is asked of it. *)

From S2P Require Import Prelude Types Paths Cache Tree Runtime Messages Frame Commit Mount IpcState Routing Report.

(** A connection: its stream, and the variables of [handle_client_requests]. *)
Record Client : Type := mkClient {
  cl_id : ConnId;
  cl_reader : Reader;
  cl_writer : Writer;
  cl_negotiated : bool;
  cl_registered : list ProviderId;
}.

Definition set_reader (v : Reader) (c : Client) : Client :=
  mkClient (cl_id c) v (cl_writer c) (cl_negotiated c) (cl_registered c).
Definition set_writer (v : Writer) (c : Client) : Client :=
  mkClient (cl_id c) (cl_reader c) v (cl_negotiated c) (cl_registered c).
Definition set_negotiated (v : bool) (c : Client) : Client :=
  mkClient (cl_id c) (cl_reader c) (cl_writer c) v (cl_registered c).
Definition set_registered (v : list ProviderId) (c : Client) : Client :=
  mkClient (cl_id c) (cl_reader c) (cl_writer c) (cl_negotiated c) v.

(** What a handler leaves behind: the state, the connection, and whether the
    connection goes on. *)
Abbreviation Handled := (IpcState * (Client * IoResult ()))%type.

(** The outcome of [generate_provider_owner_token] and of [stream.try_clone]
    for one registration. *)
Record RegisterEnv : Type := mkRegisterEnv {
  re_token : IoResult Z;
  re_clone : IoResult ();
}.

(** [generate_provider_owner_token]: draws until the token is not zero, and
    gives up when reading fails; [draws] is what the successive reads return. *)
Fixpoint generate_provider_owner_token (draws : list (IoResult Z)) : option (IoResult Z) :=
  match draws with
  | [] => None
  | Err e :: _ => Some (Err e)
  | Ok token :: draws =>
      if negb (token =? 0) then Some (Ok token) else generate_provider_owner_token draws
  end.

Section server.
Context `{!Bincode Request, !Bincode Response}.
Context (default_mount_path default_control_socket_path : Result str).
Context (handle_materialize : IpcState -> Client -> MaterializeBody -> Handled).

Definition reply (c : Client) (response : Response) : Client * IoResult () :=
  let '(w, r) := write_frame (cl_writer c) response in (set_writer w c, r).

Definition reply_error (c : Client) (code : ErrorCode) (message : str) : Client * IoResult () :=
  let '(w, r) := write_error (cl_writer c) code message in (set_writer w c, r).

Definition reply_status_error (c : Client) (status : Status) : Client * IoResult () :=
  let '(w, r) := write_status_error (cl_writer c) status in (set_writer w c, r).

(** ** Commits *)

Definition handle_promise_commit (s : IpcState) (c : Client) (request : PromiseCommitBody) :
    Handled :=
  match ProviderId_from_raw (cb_provider_id request) with
  | None => (s, reply_error c EcInvalidRequest (bs "provider id must be nonzero"))
  | Some provider_id =>
  match validate_provider_owner s provider_id (cb_provider_owner_token request) with
  | Err status => (s, reply_status_error c status)
  | Ok _ =>
  let mount_status := st_mount_status s in
  if negb (mo_ready_for_commits mount_status) then (s, reply_status_error c Unavailable)
  else
  let '(builder, r) := add_node_bodies (PromiseBuilder_new provider_id) (cb_nodes request) in
  match r with
  | Err status => (s, reply_status_error c status)
  | Ok _ =>
  let '(runtime, r) := Runtime_commit_promise (st_runtime s) builder in
  let s := set_runtime runtime s in
  match r with
  | Err status => (s, reply_status_error c status)
  | Ok tree =>
  match visible_promise_path mount_status (pt_promise_id tree) with
  | Err status => (s, (c, Err (status_to_io status)))
  | Ok visible_path =>
      (s, reply c (ResponsePromiseCommitted
                     (mkPromiseCommittedBody (pt_promise_id tree) (to_string_lossy visible_path))))
  end end end end end.

(** ** One request *)

Definition hello_first (what : str) : str := bs "client must send hello before " ++ what.

Definition handle_register (s : IpcState) (c : Client) (env : RegisterEnv) :
    Handled :=
  let '(runtime, provider_id) := Runtime_register_provider (st_runtime s) in
  let s := set_runtime runtime s in
  match re_token env with
  | Err e => (s, (c, Err e))
  | Ok provider_owner_token =>
  let '(s, r) := register_provider_route s provider_id provider_owner_token (cl_id c) (re_clone env) in
  match r with
  | Err e => (s, (c, Err e))
  | Ok _ =>
      let c := set_registered (cl_registered c ++ [provider_id]) c in
      (s, reply c (ResponseProviderRegistered provider_id provider_owner_token))
  end end.

Definition handle_unregister (s : IpcState) (c : Client) (provider_id provider_owner_token : Z) :
    Handled :=
  match ProviderId_from_raw provider_id with
  | None => (s, reply_error c EcInvalidRequest (bs "provider id must be nonzero"))
  | Some provider_id =>
  match validate_provider_owner s provider_id provider_owner_token with
  | Err status => (s, reply_status_error c status)
  | Ok _ =>
  let '(runtime, r) := Runtime_unregister_provider (st_runtime s) provider_id in
  let s := set_runtime runtime s in
  match r with
  | Ok _ =>
      let c := set_registered (filter (fun id => id <> provider_id) (cl_registered c)) c in
      let s := disconnect_provider_id s provider_id in
      (s, reply c ResponseProviderUnregistered)
  | Err status => (s, reply_status_error c status)
  end end end.

Definition handle_request (s : IpcState) (c : Client) (env : RegisterEnv) (request : Request) :
    Handled :=
  match request with
  | RequestHello protocol_version api_version =>
      if (protocol_version =? IPC_PROTOCOL_VERSION) && (api_version =? API_VERSION) then
        (s, reply (set_negotiated true c) (ResponseHello IPC_PROTOCOL_VERSION API_VERSION))
      else (s, reply_error c EcVersionMismatch (bs "unsupported IPC protocol or API version"))
  | RequestStatus =>
      if cl_negotiated c then
        match DaemonStatus_from_runtime_with_mount default_mount_path default_control_socket_path
                (st_runtime s) (st_mount_status s) with
        | Err status => (s, (c, Err (status_to_io status)))
        | Ok status => (s, reply c (ResponseStatus (StatusBody_from_status status)))
        end
      else (s, reply_error c EcInvalidRequest (hello_first (bs "status")))
  | RequestInspect =>
      if cl_negotiated c then
        (s, reply c (ResponseInspect (InspectBody_from_runtime (st_runtime s))))
      else (s, reply_error c EcInvalidRequest (hello_first (bs "inspect")))
  | RequestProviderRegister =>
      if cl_negotiated c then handle_register s c env
      else (s, reply_error c EcInvalidRequest (hello_first (bs "provider register")))
  | RequestProviderUnregister provider_id provider_owner_token =>
      if cl_negotiated c then handle_unregister s c provider_id provider_owner_token
      else (s, reply_error c EcInvalidRequest (hello_first (bs "provider unregister")))
  | RequestPromiseCommit body =>
      if cl_negotiated c then handle_promise_commit s c body
      else (s, reply_error c EcInvalidRequest (hello_first (bs "promise commit")))
  | RequestMaterialize body =>
      if cl_negotiated c then handle_materialize s c body
      else (s, reply_error c EcInvalidRequest (hello_first (bs "materialize")))
  | RequestMaterializeContinue | RequestMaterializeCancel =>
      (s, reply_error c EcInvalidRequest
            (bs "materialize progress control requires an active materialize request"))
  | RequestProviderReadResponse body =>
      if cl_negotiated c then
        let '(s, r) := complete_provider_read s (cl_registered c) body in (s, (c, r))
      else (s, reply_error c EcInvalidRequest (hello_first (bs "provider read response")))
  end.

(** ** A whole connection *)

(** [envs] is what the registrations meet, one entry per request. *)
Fixpoint handle_client_requests (s : IpcState) (c : Client) (envs : list RegisterEnv) :
    option Handled :=
  match envs with
  | [] => None
  | env :: envs =>
      let '(reader, r) := read_frame (cl_reader c) in
      let c := set_reader reader c in
      match r with
      | Err e => Some (s, (c, Err e))
      | Ok None => Some (s, (c, Ok tt))
      | Ok (Some request) =>
          let '(s, (c, r)) := handle_request s c env request in
          match r with
          | Err e => Some (s, (c, Err e))
          | Ok _ => handle_client_requests s c envs
          end
      end
  end.

Definition validate_peer (peer_uid current_uid : Z) : IoResult () :=
  if negb (peer_uid =? current_uid)
  then Err (mkIoError KPermissionDenied (bs "IPC peer uid does not match current user"))
  else Ok tt.

Definition handle_client_with_state (s : IpcState) (id : ConnId) (reader : Reader) (writer : Writer)
    (peer_uid current_uid : Z) (envs : list RegisterEnv) : option (IpcState * IoResult ()) :=
  match validate_peer peer_uid current_uid with
  | Err e => Some (s, Err e)
  | Ok _ =>
      match handle_client_requests s (mkClient id reader writer false []) envs with
      | None => None
      | Some (s, (c, result)) => Some (disconnect_registered_providers s (cl_registered c), result)
      end
  end.
End server.

(** ** Disconnecting *)

Lemma fail_reads_fields s id kind :
  st_runtime (fail_provider_pending_reads s id kind) = st_runtime s /\
  st_provider_routes (fail_provider_pending_reads s id kind) = st_provider_routes s /\
  st_mount_status (fail_provider_pending_reads s id kind) = st_mount_status s.
Proof.
  unfold fail_provider_pending_reads.
  match goal with |- context [foldl _ ?s0 ?l] =>
    destruct (deliver_fields (Err (disconnect_error kind)) l s0) as (_ & _ & H1 & H2 & H3) end.
  unfold deliver in H1, H2, H3. by rewrite H1, H2, H3.
Qed.

Lemma disconnect_fields s id :
  id <> 0 ->
  st_runtime (disconnect_provider_id s id) = (Runtime_unregister_provider (st_runtime s) id).1 /\
  st_provider_routes (disconnect_provider_id s id) = delete id (st_provider_routes s) /\
  st_mount_status (disconnect_provider_id s id) = st_mount_status s.
Proof.
  intros Hid. unfold disconnect_provider_id, ProviderId_from_raw.
  destruct (Z.eqb_spec id 0); [done|].
  destruct (fail_reads_fields (unregister_in_runtime (remove_route s id) id) id KBrokenPipe) as (-> & -> & ->).
  done.
Qed.

(** ** The daemon's invariant *)

Record st_wf (s : IpcState) : Prop := {
  sw_runtime : rt_wf (st_runtime s);
  sw_mount : mount_wf (st_mount_status s);
  sw_routes : forall id route, st_provider_routes s !! id = Some route ->
    is_Some (rt_providers (st_runtime s) !! id);
}.

Lemma unregister_known rt id id' :
  is_Some (rt_providers (Runtime_unregister_provider rt id).1 !! id') <-> is_Some (rt_providers rt !! id').
Proof.
  unfold Runtime_unregister_provider. destruct (rt_providers rt !! id) as [p|] eqn:Hp; [cbn|done].
  rewrite lookup_insert_is_Some'. split; [|by right]. intros [<-|?]; [|done]. by rewrite Hp.
Qed.

Lemma disconnect_wf s id : st_wf s -> id <> 0 -> st_wf (disconnect_provider_id s id).
Proof.
  intros [H1 H2 H3] Hid. destruct (disconnect_fields s id Hid) as (Hr & Hro & Hm). split.
  - rewrite Hr. by apply unregister_provider_wf.
  - by rewrite Hm.
  - intros id' route. rewrite Hro, Hr. intros [_ H]%lookup_delete_Some.
    apply unregister_known. by eapply H3.
Qed.

Lemma unregister_has_provider rt id id' :
  Runtime_has_provider (Runtime_unregister_provider rt id).1 id' =
    if decide (id' = id) then false else Runtime_has_provider rt id'.
Proof.
  unfold Runtime_unregister_provider, Runtime_has_provider.
  destruct (rt_providers rt !! id) as [p|] eqn:Hp; cbn.
  - rewrite lookup_insert. case_decide; case_decide; subst; try done.
  - case_decide; [subst; by rewrite Hp|done].
Qed.

Lemma disconnect_all_spec s ids :
  st_wf s -> Forall (fun id => id <> 0) ids ->
  st_wf (disconnect_registered_providers s ids) /\
  forall id, (id ∈ ids -> Runtime_has_provider (st_runtime (disconnect_registered_providers s ids)) id = false /\
                st_provider_routes (disconnect_registered_providers s ids) !! id = None) /\
    (Runtime_has_provider (st_runtime (disconnect_registered_providers s ids)) id = true ->
     Runtime_has_provider (st_runtime s) id = true) /\
    (st_provider_routes s !! id = None ->
     st_provider_routes (disconnect_registered_providers s ids) !! id = None).
Proof.
  intros Hwf Hids. revert s Hwf. induction Hids as [|i ids Hi Hids IH]; intros s Hwf; cbn.
  - split; [done|]. intros id. split; [by intros ?%elem_of_nil|done].
  - destruct (disconnect_fields s i Hi) as (Hr & Hro & _).
    destruct (IH (disconnect_provider_id s i) (disconnect_wf s i Hwf Hi)) as [Hw Hall].
    split; [done|]. intros id. destruct (Hall id) as (H1 & H2 & H3).
    rewrite Hr, unregister_has_provider in H2. rewrite Hro in H3. split_and!.
    + intros [->|Hin]%elem_of_cons; [|auto]. split; [|apply H3, lookup_delete_eq].
      rewrite decide_True in H2 by done.
      destruct (Runtime_has_provider (st_runtime (foldl _ _ _)) i) eqn:E; [|done].
      unfold disconnect_registered_providers in H2. rewrite E in H2. by specialize (H2 eq_refl).
    + intros H%H2. case_decide; done.
    + intros H. apply H3. destruct (decide (id = i)) as [->|]; [apply lookup_delete_eq|].
      by rewrite lookup_delete_ne by done.
Qed.

(** ** Requests keep the invariant *)

Definition body_typed (body : PromiseCommitBody) : Prop :=
  Forall (fun n => in_u64 (nb_size n)) (cb_nodes body).

Definition request_typed (r : Request) : Prop :=
  match r with RequestPromiseCommit body => body_typed body | _ => True end.

Lemma add_node_body_spec b n :
  builder_wf b -> nodes_typed (pb_nodes b) -> in_u64 (nb_size n) ->
  let b' := (add_node_body b n).1 in
  builder_wf b' /\ nodes_typed (pb_nodes b') /\ pb_provider_id b' = pb_provider_id b.
Proof.
  intros Hb Ht Hn.
  assert (H : exists kind, add_node_body b n = PromiseBuilder_add_node b (nb_relative_path n)
    (mkNodeAttr (nb_mode n) (nb_size n) (nb_mtime_nsec n)) (nb_provider_node_id n) kind).
  { unfold add_node_body. destruct (nb_kind n); eauto. }
  destruct H as [kind ->]. split; [by apply add_node_wf|].
  pose proof (add_node_cases b (nb_relative_path n) (mkNodeAttr (nb_mode n) (nb_size n) (nb_mtime_nsec n))
    (nb_provider_node_id n) kind) as H.
  destruct (PromiseBuilder_add_node _ _ _ _ _) as [b' r]. cbn.
  destruct H as [(e & _ & ->)|(path & pn & _ & _ & _ & _ & _ & _ & _ & _ & ->)]; [done|].
  split; [|done]. rewrite insert_node_nodes. by apply map_Forall_insert_2.
Qed.

Lemma add_node_bodies_spec b ns :
  builder_wf b -> nodes_typed (pb_nodes b) -> Forall (fun n => in_u64 (nb_size n)) ns ->
  let b' := (add_node_bodies b ns).1 in
  builder_wf b' /\ nodes_typed (pb_nodes b') /\ pb_provider_id b' = pb_provider_id b.
Proof.
  intros Hb Ht Hns. revert b Hb Ht. induction Hns as [|n ns Hn Hns IH]; intros b Hb Ht; cbn; [done|].
  pose proof (add_node_body_spec b n Hb Ht Hn) as H.
  destruct (add_node_body b n) as [b1 [[]|e]]; cbn in *; [|done].
  destruct H as (H1 & H2 & <-). by apply IH.
Qed.

Lemma new_builder_typed provider_id : nodes_typed (pb_nodes (PromiseBuilder_new provider_id)).
Proof. intros p n. cbn. intros [<- <-]%lookup_singleton_Some. split; vm_compute; congruence. Qed.

Lemma set_runtime_wf rt s :
  st_wf s -> rt_wf rt -> (forall id, is_Some (rt_providers (st_runtime s) !! id) -> is_Some (rt_providers rt !! id)) ->
  st_wf (set_runtime rt s).
Proof. intros [H1 H2 H3] Hrt Hp. split; cbn; [done|done|]. intros id route Hr. by eapply Hp, H3. Qed.

Section server_lemmas.
Context `{!Bincode Request, !Bincode Response}.
Context (default_mount_path default_control_socket_path : Result str).
Context (handle_materialize : IpcState -> Client -> MaterializeBody -> Handled).

(** A reply changes the writer only. *)
Lemma reply_client c response :
  let '(c', _) := reply c response in
  cl_id c' = cl_id c /\ cl_reader c' = cl_reader c /\ cl_negotiated c' = cl_negotiated c /\
  cl_registered c' = cl_registered c.
Proof. unfold reply. by destruct (write_frame _ _). Qed.

Lemma reply_error_client c code message :
  let '(c', _) := reply_error c code message in
  cl_id c' = cl_id c /\ cl_reader c' = cl_reader c /\ cl_negotiated c' = cl_negotiated c /\
  cl_registered c' = cl_registered c.
Proof. unfold reply_error. by destruct (write_error _ _ _). Qed.

(** What a commit request does, branch by branch. *)
Lemma handle_promise_commit_cases s c body :
  st_wf s -> body_typed body -> rt_next_promise_id (st_runtime s) < u64_max ->
  (exists status, handle_promise_commit s c body = (s, reply_status_error c status)) \/
  (cb_provider_id body = 0 /\
     handle_promise_commit s c body = (s, reply_error c EcInvalidRequest (bs "provider id must be nonzero"))) \/
  exists route builder,
    st_provider_routes s !! cb_provider_id body = Some route /\
    pr_owner_token route = cb_provider_owner_token body /\
    mo_ready_for_commits (st_mount_status s) = true /\
    add_node_bodies (PromiseBuilder_new (cb_provider_id body)) (cb_nodes body) = (builder, Ok tt) /\
    builder_wf builder /\ nodes_typed (pb_nodes builder) /\ pb_provider_id builder = cb_provider_id body /\
    ((exists status, (Runtime_commit_promise (st_runtime s) builder).2 = Err status /\
        handle_promise_commit s c body =
          (set_runtime (Runtime_commit_promise (st_runtime s) builder).1 s, reply_status_error c status)) \/
     (exists tree visible, (Runtime_commit_promise (st_runtime s) builder).2 = Ok tree /\
        visible_promise_path (st_mount_status s) (pt_promise_id tree) = Ok visible /\
        handle_promise_commit s c body =
          (set_runtime (Runtime_commit_promise (st_runtime s) builder).1 s,
           reply c (ResponsePromiseCommitted (mkPromiseCommittedBody (pt_promise_id tree) (to_string_lossy visible)))))).
Proof.
  intros Hwf Hty Hmax. unfold handle_promise_commit, ProviderId_from_raw.
  destruct (Z.eqb_spec (cb_provider_id body) 0); [auto|].
  unfold validate_provider_owner. destruct (st_provider_routes s !! cb_provider_id body) as [route|] eqn:Hro.
  2:{ destruct (Runtime_provider _ _); eauto. }
  destruct (Z.eqb_spec (pr_owner_token route) (cb_provider_owner_token body)) as [Htok|]; [|eauto].
  destruct (mo_ready_for_commits (st_mount_status s)) eqn:Hready; cbn [negb]; [|eauto].
  pose proof (add_node_bodies_spec (PromiseBuilder_new (cb_provider_id body)) (cb_nodes body)
                (builder_new_wf _) (new_builder_typed _) Hty) as Hspec.
  destruct (add_node_bodies _ _) as [builder [[]|status]] eqn:Hadd; [|eauto].
  destruct Hspec as (Hb & Hbt & Hbp). right. right. exists route, builder. split_and!; try done.
  destruct (Runtime_commit_promise (st_runtime s) builder) as [rt' [tree|status]] eqn:Hc; cbn; [right|left; eauto].
  destruct (sw_mount _ Hwf Hready) as [mp Hmp]. unfold visible_promise_path.
  rewrite Hready, Hmp. cbn. eexists _, _. done.
Qed.

Lemma handle_promise_commit_wf s c body :
  st_wf s -> body_typed body -> rt_next_promise_id (st_runtime s) < u64_max ->
  st_wf (handle_promise_commit s c body).1.
Proof.
  intros Hwf Hty Hmax.
  assert (Hcommit : forall b, builder_wf b -> nodes_typed (pb_nodes b) ->
    st_wf (set_runtime (Runtime_commit_promise (st_runtime s) b).1 s)).
  { intros b Hb Hbt. apply set_runtime_wf; [done|apply commit_promise_wf; auto; apply Hwf|].
    intros id [p Hp]. destruct (run_op_providers (st_runtime s) (OpCommitPromise b) id p) as (p' & Hp' & _);
      [apply Hwf|done|done|by eexists]. }
  destruct (handle_promise_commit_cases s c body Hwf Hty Hmax)
    as [(st & ->)|[[_ ->]|(route & b & _ & _ & _ & _ & Hb & Hbt & _ & [(st & _ & ->)|(tree & v & _ & _ & ->)])]];
    cbn; auto.
Qed.

Lemma handle_register_wf s c env :
  st_wf s -> rt_next_provider_id (st_runtime s) < u64_max -> st_wf (handle_register s c env).1.
Proof.
  intros Hwf Hmax. unfold handle_register, Runtime_register_provider.
  set (id := rt_next_provider_id (st_runtime s)).
  set (rt' := set_providers _ _). assert (Hrt' : rt_wf rt') by (apply register_provider_wf; [apply Hwf|done]).
  assert (Hs : st_wf (set_runtime rt' s)).
  { apply set_runtime_wf; [done..|]. intros id' Hp. cbn. rewrite lookup_insert_is_Some'. by right. }
  destruct (re_token env) as [token|e]; [|done]. unfold register_provider_route.
  destruct (re_clone env) as [[]|e]; [|done]. cbn.
  destruct Hs as [H1 H2 H3]. split; cbn; [done|done|]. intros id' route.
  rewrite lookup_insert. case_decide; [subst|by apply H3]. intros _. by rewrite lookup_insert_eq.
Qed.

Lemma handle_unregister_wf s c id token : st_wf s -> st_wf (handle_unregister s c id token).1.
Proof.
  intros Hwf. unfold handle_unregister, ProviderId_from_raw. destruct (Z.eqb_spec id 0); [done|].
  destruct (validate_provider_owner s id token); [|done].
  destruct (Runtime_unregister_provider (st_runtime s) id) as [rt' r] eqn:Hu.
  assert (Hs : st_wf (set_runtime rt' s)).
  { replace rt' with (Runtime_unregister_provider (st_runtime s) id).1 by by rewrite Hu.
    apply set_runtime_wf; [done|apply unregister_provider_wf, Hwf|].
    intros id' Hp. by apply unregister_known. }
  destruct r; [|done]. by apply disconnect_wf.
Qed.

Lemma complete_fields s ids body :
  st_runtime (complete_provider_read s ids body).1 = st_runtime s /\
  st_provider_routes (complete_provider_read s ids body).1 = st_provider_routes s /\
  st_mount_status (complete_provider_read s ids body).1 = st_mount_status s.
Proof.
  unfold complete_provider_read. destruct (ProviderReadResponse_from_body body); [|done].
  by destruct (st_pending_reads s !! _).
Qed.

Lemma complete_wf s ids body : st_wf s -> st_wf (complete_provider_read s ids body).1.
Proof.
  intros [H1 H2 H3]. destruct (complete_fields s ids body) as (Hr & Hro & Hm).
  split; rewrite ?Hr, ?Hm; try done. intros id route. rewrite Hro. apply H3.
Qed.

(** What the rest of the server relies on of [handle_materialize]: it keeps the
    state well formed, registers no provider and commits no promise, does not
    change the connection's variables, and only reads from the stream. *)
Definition materialize_frame : Prop := forall s c body,
  st_wf s ->
  let '(s', (c', _)) := handle_materialize s c body in
  st_wf s' /\ cl_negotiated c' = cl_negotiated c /\ cl_registered c' = cl_registered c /\
  (length (rd_bytes (cl_reader c')) <= length (rd_bytes (cl_reader c)))%nat /\
  rt_next_provider_id (st_runtime s') = rt_next_provider_id (st_runtime s) /\
  rt_next_promise_id (st_runtime s') = rt_next_promise_id (st_runtime s) /\
  (forall id, Runtime_has_provider (st_runtime s') id = true -> Runtime_has_provider (st_runtime s) id = true).

Definition env_ok (env : RegisterEnv) : Prop := is_ok (re_token env) = true /\ re_clone env = Ok tt.

(** What one request may do to the providers. *)
Record request_effect (s s' : IpcState) (c c' : Client) (env : RegisterEnv) : Prop := {
  re_wf : st_wf s';
  re_bytes : (length (rd_bytes (cl_reader c')) <= length (rd_bytes (cl_reader c)))%nat;
  re_provider : rt_next_provider_id (st_runtime s') <= rt_next_provider_id (st_runtime s) + 1;
  re_promise : rt_next_promise_id (st_runtime s') <= rt_next_promise_id (st_runtime s) + 1;
  re_live : env_ok env -> forall id, Runtime_has_provider (st_runtime s') id = true ->
    Runtime_has_provider (st_runtime s) id = true \/ (id ∈ cl_registered c');
  re_kept : forall id, id ∈ cl_registered c -> Runtime_has_provider (st_runtime s') id = true ->
    id ∈ cl_registered c';
  re_nonzero : Forall (fun id => id <> 0) (cl_registered c) -> Forall (fun id => id <> 0) (cl_registered c');
}.

(** A request that leaves the providers and the connection's list alone. *)
Lemma effect_frame s s' c c' env :
  st_wf s' -> rt_next_provider_id (st_runtime s') <= rt_next_provider_id (st_runtime s) + 1 ->
  rt_next_promise_id (st_runtime s') <= rt_next_promise_id (st_runtime s) + 1 ->
  (forall id, Runtime_has_provider (st_runtime s') id = true -> Runtime_has_provider (st_runtime s) id = true) ->
  cl_registered c' = cl_registered c ->
  (length (rd_bytes (cl_reader c')) <= length (rd_bytes (cl_reader c)))%nat ->
  request_effect s s' c c' env.
Proof. intros H1 H2 H3 H4 H5 H6. split; try done; rewrite ?H5; auto. Qed.

Lemma effect_reply s c c' env :
  st_wf s -> cl_registered c' = cl_registered c -> cl_reader c' = cl_reader c ->
  request_effect s s c c' env.
Proof. intros H1 H2 H3. apply effect_frame; try done; try lia. by rewrite H3. Qed.

Lemma reply_effect s c c0 env response :
  st_wf s -> cl_registered c = cl_registered c0 -> cl_reader c = cl_reader c0 ->
  let '(c', _) := reply c response in request_effect s s c0 c' env.
Proof.
  intros Hwf Hr Hd. pose proof (reply_client c response) as H. destruct (reply c response) as [c' r].
  destruct H as (_ & H1 & _ & H2). apply effect_reply; congruence.
Qed.

Lemma reply_error_effect s c env code message :
  st_wf s -> let '(c', _) := reply_error c code message in request_effect s s c c' env.
Proof.
  intros Hwf. pose proof (reply_error_client c code message) as H. destruct (reply_error c code message) as [c' r].
  destruct H as (_ & H1 & _ & H2). by apply effect_reply.
Qed.

Lemma commit_effect s c env body :
  st_wf s -> body_typed body -> rt_next_promise_id (st_runtime s) < u64_max ->
  let '(s', (c', _)) := handle_promise_commit s c body in request_effect s s' c c' env.
Proof.
  intros Hwf Hty Hmax. pose proof (handle_promise_commit_wf s c body Hwf Hty Hmax) as Hw.
  assert (Hc : let '(s', (c', _)) := handle_promise_commit s c body in
    cl_registered c' = cl_registered c /\ cl_reader c' = cl_reader c /\
    (s' = s \/ exists b, s' = set_runtime (Runtime_commit_promise (st_runtime s) b).1 s)).
  { assert (He : forall code m, let '(c', _) := reply_error c code m in
      cl_registered c' = cl_registered c /\ cl_reader c' = cl_reader c).
    { intros code m. pose proof (reply_error_client c code m). destruct (reply_error c code m). naive_solver. }
    destruct (handle_promise_commit_cases s c body Hwf Hty Hmax)
      as [(st & ->)|[[_ ->]|(route & b & _ & _ & _ & _ & _ & _ & _ & [(st & _ & ->)|(tree & v & _ & _ & ->)])]].
    - specialize (He (status_to_error_code st) (Status_as_str st)).
      change (reply_status_error c st) with (reply_error c (status_to_error_code st) (Status_as_str st)).
      destruct (reply_error _ _ _). naive_solver.
    - specialize (He EcInvalidRequest (bs "provider id must be nonzero")). destruct (reply_error _ _ _). naive_solver.
    - specialize (He (status_to_error_code st) (Status_as_str st)).
      change (reply_status_error c st) with (reply_error c (status_to_error_code st) (Status_as_str st)).
      destruct (reply_error _ _ _). naive_solver.
    - match goal with |- context [reply c ?x] =>
        pose proof (reply_client c x) as H1; destruct (reply c x) end. naive_solver. }
  destruct (handle_promise_commit s c body) as [s' [c' r]]. destruct Hc as (Hr & Hd & Hs).
  cbn in Hw. destruct Hs as [->|[b ->]]; [by apply effect_reply|].
  pose proof (rw_promise_id _ (sw_runtime _ Hwf)).
  destruct (commit_promise_frame (st_runtime s) b Hmax ltac:(lia)) as (Hp & Hn & Hm).
  apply effect_frame; cbn; try done; [lia| |by rewrite Hd].
  intros id. unfold Runtime_has_provider. by rewrite Hp.
Qed.

Lemma register_effect s c env :
  st_wf s -> rt_next_provider_id (st_runtime s) < u64_max ->
  let '(s', (c', _)) := handle_register s c env in request_effect s s' c c' env.
Proof.
  intros Hwf Hmax. pose proof (handle_register_wf s c env Hwf Hmax) as Hw.
  pose proof (rw_provider_id _ (sw_runtime _ Hwf)) as Hid.
  unfold handle_register in *. set (rp := Runtime_register_provider (st_runtime s)) in *.
  assert (Hrp : rp.2 = rt_next_provider_id (st_runtime s) /\
    rt_next_provider_id rp.1 = rt_next_provider_id (st_runtime s) + 1 /\
    rt_next_promise_id rp.1 = rt_next_promise_id (st_runtime s) /\
    forall id, Runtime_has_provider rp.1 id = true -> Runtime_has_provider (st_runtime s) id = true \/ id = rp.2).
  { unfold rp, Runtime_register_provider. cbn. rewrite wrapping_add_in by lia. split_and!; try done.
    intros id. unfold Runtime_has_provider. cbn. rewrite lookup_insert. case_decide; auto. }
  destruct rp as [rt' id]. cbn in Hrp. destruct Hrp as (Hrid & Hn & Hm & Hlive).
  assert (Hnew : forall id', id' ∈ cl_registered c -> id' ∈ cl_registered c ++ [id]) by set_solver.
  destruct (re_token env) as [token|e] eqn:Htok; cbn.
  2:{ split; cbn in *; try done; try lia. unfold env_ok. rewrite Htok. by intros [? _]. }
  unfold register_provider_route in *. destruct (re_clone env) as [[]|e] eqn:Hcl; cbn.
  2:{ split; cbn in *; try done; try lia. unfold env_ok. rewrite Hcl. by intros [_ ?]. }
  match goal with |- context [reply ?c0 ?x] =>
    pose proof (reply_client c0 x) as Hr; destruct (reply c0 x) as [c' r'] end.
  destruct Hr as (_ & Hrd & _ & Hrr). cbn in *. split; cbn; try done; try lia.
  - by rewrite Hrd.
  - intros _ id' [?| ->]%Hlive; [by left|right]. rewrite Hrr. set_solver.
  - intros id' Hin _. rewrite Hrr. auto.
  - intros Hall. rewrite Hrr. apply Forall_app. split; [done|]. constructor; [lia|constructor].
Qed.

Lemma unregister_effect s c env id token :
  st_wf s -> let '(s', (c', _)) := handle_unregister s c id token in request_effect s s' c c' env.
Proof.
  intros Hwf. pose proof (handle_unregister_wf s c id token Hwf) as Hw. unfold handle_unregister in *.
  unfold ProviderId_from_raw in *. destruct (Z.eqb_spec id 0) as [|Hid].
  { by apply (reply_error_effect s c env). }
  destruct (validate_provider_owner s id token) as [[]|st].
  2:{ by apply (reply_error_effect s c env (status_to_error_code st) (Status_as_str st)). }
  destruct (Runtime_unregister_provider (st_runtime s) id) as [rt' r] eqn:Hu.
  assert (Hn : rt_next_provider_id rt' = rt_next_provider_id (st_runtime s) /\
    rt_next_promise_id rt' = rt_next_promise_id (st_runtime s)).
  { unfold Runtime_unregister_provider in Hu. destruct (rt_providers _ !! _); by injection Hu as <- <-. }
  pose proof (unregister_has_provider (st_runtime s) id) as Hh. rewrite Hu in Hh. cbn in Hh. destruct r as [[]|st].
  - cbn [set_registered] in *. match goal with |- context [reply ?c0 ?x] =>
      pose proof (reply_client c0 x) as Hr; destruct (reply c0 x) as [c' r'] end.
    destruct Hr as (_ & Hrd & _ & Hrr). cbn in Hrr, Hrd, Hw.
    destruct (disconnect_fields (set_runtime rt' s) id Hid) as (Hdr & _ & _). cbn in Hdr.
    assert (Hn' : rt_next_provider_id (st_runtime (disconnect_provider_id (set_runtime rt' s) id)) =
                    rt_next_provider_id rt' /\
                  rt_next_promise_id (st_runtime (disconnect_provider_id (set_runtime rt' s) id)) =
                    rt_next_promise_id rt').
    { rewrite Hdr. unfold Runtime_unregister_provider. by destruct (rt_providers rt' !! id). }
    assert (Hlive : forall id', Runtime_has_provider (st_runtime (disconnect_provider_id (set_runtime rt' s) id)) id' = true ->
      Runtime_has_provider (st_runtime s) id' = true /\ id' <> id).
    { intros id'. rewrite Hdr, unregister_has_provider, Hh. by repeat case_decide. }
    split; try done; [by rewrite Hrd|lia|lia| | |].
    + intros _ id' [? _]%Hlive. by left.
    + intros id' Hin [_ ?]%Hlive. rewrite Hrr. by apply list_elem_of_filter.
    + intros Hall. rewrite Hrr. rewrite Forall_forall in *. intros x [_ Hx]%list_elem_of_filter. auto.
  - pose proof (reply_error_client c (status_to_error_code st) (Status_as_str st)) as Hr.
    change (reply_status_error c st) with (reply_error c (status_to_error_code st) (Status_as_str st)) in *.
    destruct (reply_error _ _ _) as [c' r']. destruct Hr as (_ & Hrd & _ & Hrr). cbn in Hw.
    apply effect_frame; cbn; try done; [lia|lia| |by rewrite Hrd].
    intros id'. rewrite Hh. by case_decide.
Qed.

Lemma handle_request_effect s c env request :
  materialize_frame -> st_wf s -> request_typed request ->
  rt_next_provider_id (st_runtime s) < u64_max -> rt_next_promise_id (st_runtime s) < u64_max ->
  let '(s', (c', _)) := handle_request default_mount_path default_control_socket_path handle_materialize
                          s c env request in
  request_effect s s' c c' env.
Proof.
  intros Hmat Hwf Hty H1 H2.
  assert (He : forall code m, let '(s', (c', _)) := (s, reply_error c code m) in request_effect s s' c c' env).
  { intros code m. by apply reply_error_effect. }
  destruct request; cbn [handle_request]; try (destruct (cl_negotiated c); [|by apply He]).
  - destruct (_ && _); [|by apply He]. by apply (reply_effect s (set_negotiated true c)).
  - destruct (DaemonStatus_from_runtime_with_mount _ _ _ _); [by apply reply_effect|by apply effect_reply].
  - by apply reply_effect.
  - by apply register_effect.
  - by apply unregister_effect.
  - by apply commit_effect.
  - specialize (Hmat s c body Hwf). destruct (handle_materialize s c body) as [s' [c' r]].
    destruct Hmat as (Hw & _ & Hr & Hb & Hn & Hm & Hl). apply effect_frame; try done; lia.
  - apply He.
  - apply He.
  - destruct (complete_fields s (cl_registered c) body) as (Hr & Hro & Hm).
    pose proof (complete_wf s (cl_registered c) body Hwf) as Hw.
    destruct (complete_provider_read s (cl_registered c) body) as [s' r]. cbn in *.
    apply effect_frame; rewrite ?Hr; try done; lia.
Qed.

(** Decoded requests have values in the range of their Rust types. *)
Definition decode_typed : Prop := forall body request n,
  decode_from_slice body = Ok (request, n) -> request_typed request.

Lemma read_request_typed r r' request :
  decode_typed -> read_frame r = (r', Ok (Some request)) ->
  request_typed request /\ (length (rd_bytes r') < length (rd_bytes r))%nat.
Proof.
  intros Hty H. split; [|by apply (read_frame_shrinks r r' request)].
  apply read_frame_Some in H as (header & body & _ & _ & _ & _ & _ & Hd). by eapply Hty.
Qed.

(** The live providers after serving a connection up to its end: the ones there
    were before, and the ones the connection still lists. *)
Lemma handle_client_requests_spec envs s c s' c' r :
  materialize_frame -> decode_typed -> st_wf s -> Forall env_ok envs ->
  Forall (fun id => id <> 0) (cl_registered c) ->
  rt_next_provider_id (st_runtime s) + len envs <= u64_max ->
  rt_next_promise_id (st_runtime s) + len envs <= u64_max ->
  handle_client_requests default_mount_path default_control_socket_path handle_materialize s c envs
    = Some (s', (c', r)) ->
  st_wf s' /\ Forall (fun id => id <> 0) (cl_registered c') /\
  (forall id, Runtime_has_provider (st_runtime s') id = true ->
     Runtime_has_provider (st_runtime s) id = true \/ (id ∈ cl_registered c')) /\
  (forall id, id ∈ cl_registered c -> Runtime_has_provider (st_runtime s') id = true -> id ∈ cl_registered c').
Proof.
  intros Hmat Hdec Hwf Henvs. revert s c Hwf. induction Henvs as [|env envs Henv Henvs IH]; intros s c Hwf Hnz H1 H2;
    cbn [handle_client_requests]; [done|].
  rewrite len_cons in H1, H2. pose proof (len_nonneg envs).
  destruct (read_frame (cl_reader c)) as [reader [[request|]|e]] eqn:Hread.
  2,3: intros [= <- <- <-]; cbn; auto.
  apply read_request_typed in Hread as [Hty _]; [|done].
  pose proof (handle_request_effect s (set_reader reader c) env request Hmat Hwf Hty) as He.
  destruct (handle_request _ _ _ _ _ _ _) as [s1 [c1 r1]].
  destruct He as [Hw _ Hp Hm Hl Hk Hz]; [lia|lia|]. cbn in Hk, Hz. destruct r1 as [[]|e].
  - intros Hrest. destruct (IH s1 c1 Hw (Hz Hnz)) as (Hw' & Hz' & Hl' & Hk'); [lia|lia|done|].
    split_and!; try done.
    + intros id Hid. destruct (Hl' id Hid) as [Hid1|?]; [|by right].
      destruct (Hl Henv id Hid1) as [?|Hin]; [by left|right; by apply Hk'].
    + intros id Hin Hid. destruct (Hl' id Hid) as [Hid1|?]; [|done].
      apply Hk'; [by apply Hk|done].
  - intros [= <- <- <-]. auto.
Qed.
End server_lemmas.

Lemma handle_client_requests_total `{!Bincode Request, !Bincode Response} dm ds hm envs s c :
  materialize_frame hm -> decode_typed -> st_wf s ->
  rt_next_provider_id (st_runtime s) + len envs <= u64_max ->
  rt_next_promise_id (st_runtime s) + len envs <= u64_max ->
  (length (rd_bytes (cl_reader c)) < length envs)%nat ->
  is_Some (handle_client_requests dm ds hm s c envs).
Proof.
  intros Hmat Hdec. revert s c. induction envs as [|env envs IH]; intros s c Hwf H1 H2 Hlen; cbn in Hlen; [lia|].
  cbn [handle_client_requests]. rewrite len_cons in H1, H2. pose proof (len_nonneg envs).
  destruct (read_frame (cl_reader c)) as [reader [[request|]|e]] eqn:Hread; [|eauto..].
  apply read_request_typed in Hread as [Hty Hsh]; [|done].
  pose proof (handle_request_effect dm ds hm s (set_reader reader c) env request Hmat Hwf Hty) as He.
  destruct (handle_request _ _ _ _ _ _ _) as [s1 [c1 r1]].
  destruct He as [Hw Hb Hp Hm _ _ _]; [lia|lia|]. destruct r1 as [[]|e]; [|eauto].
  apply IH; try done; cbn in *; lia.
Qed.

(** ** A codec with three requests, to evaluate the properties on *)

Definition toy_decode (body : list byte) : result str (Request * Z) :=
  if decide (body = bs "h") then Ok (RequestHello 1 1, 1)
  else if decide (body = bs "r") then Ok (RequestProviderRegister, 1)
  else Err (bs "unknown request").

#[local] Instance toy_request : Bincode Request :=
  {| encode_to_vec := fun _ => Err []; decode_from_slice := toy_decode |}.

#[local] Instance toy_response : Bincode Response :=
  {| encode_to_vec := fun _ => Ok (bs "."); decode_from_slice := fun _ => Err [] |}.

Definition no_materialize (s : IpcState) (c : Client) (body : MaterializeBody) : Handled := (s, (c, Ok tt)).

Lemma no_materialize_frame : materialize_frame no_materialize.
Proof. intros s c body Hwf. cbn. split_and!; (done || lia). Qed.

Lemma toy_decode_typed : decode_typed.
Proof.
  intros body request n. cbn. unfold toy_decode. repeat case_decide; [intros [= <- _]..|]; done.
Qed.

Definition sample_env : RegisterEnv := mkRegisterEnv (Ok 42) (Ok tt).

Lemma init_st_wf : st_wf (IpcState_new Runtime_new).
Proof. split; cbn; [apply new_wf|apply not_mounted_wf|]. intros id route. by rewrite lookup_empty. Qed.

(** The bytes of a client that says hello and registers a provider. *)
Definition registering_client : Reader := mkReader (frame_of (bs "h") ++ frame_of (bs "r")) None.

(** ** Properties *)

(** Nothing happens before the handshake.  Until the client has sent a
    hello with this protocol and API version, every other request leaves the
    daemon's state and the connection's providers alone and is answered with an
    error frame; that hello, and no other request, completes the handshake. *)
Theorem handshake_required `{!Bincode Request, !Bincode Response} dm ds hm s c env request :
  cl_negotiated c = false ->
  let '(s', (c', r)) := handle_request dm ds hm s c env request in
  s' = s /\ cl_registered c' = cl_registered c /\
  (cl_negotiated c' = true <-> request = RequestHello IPC_PROTOCOL_VERSION API_VERSION) /\
  (request <> RequestHello IPC_PROTOCOL_VERSION API_VERSION ->
   exists code message, (code = EcInvalidRequest \/ code = EcVersionMismatch) /\
     write_error (cl_writer c) code message = (cl_writer c', r)).
Proof.
  intros Hneg.
  assert (He : forall code m, code = EcInvalidRequest \/ code = EcVersionMismatch ->
    let '(s', (c', r)) := (s, reply_error c code m) in
    s' = s /\ cl_registered c' = cl_registered c /\ cl_negotiated c' = false /\
    exists code message, (code = EcInvalidRequest \/ code = EcVersionMismatch) /\
      write_error (cl_writer c) code message = (cl_writer c', r)).
  { intros code m Hcode. unfold reply_error. destruct (write_error (cl_writer c) code m) as [w r] eqn:Hw.
    cbn. split_and!; try done. eauto. }
  assert (Hn : forall h : Handled,
    (let '(s', (c', r)) := h in s' = s /\ cl_registered c' = cl_registered c /\ cl_negotiated c' = false /\
       exists code message, (code = EcInvalidRequest \/ code = EcVersionMismatch) /\
         write_error (cl_writer c) code message = (cl_writer c', r)) ->
    request <> RequestHello IPC_PROTOCOL_VERSION API_VERSION ->
    let '(s', (c', r)) := h in s' = s /\ cl_registered c' = cl_registered c /\
       (cl_negotiated c' = true <-> request = RequestHello IPC_PROTOCOL_VERSION API_VERSION) /\
       (request <> RequestHello IPC_PROTOCOL_VERSION API_VERSION ->
        exists code message, (code = EcInvalidRequest \/ code = EcVersionMismatch) /\
         write_error (cl_writer c) code message = (cl_writer c', r))).
  { intros [s' [c' r]] (H1 & H2 & H3 & H4) Hne. split_and!; try done. split; [by rewrite H3|done]. }
  destruct request as [pv av| | | |pid tok|b|b| | |b]; unfold handle_request; rewrite ?Hneg;
    try (match goal with |- context [reply_error c ?code ?m] =>
           apply (Hn (s, reply_error c code m)); [apply He; auto|done] end).
  destruct (Z.eqb_spec pv IPC_PROTOCOL_VERSION) as [->|Hpv]; [destruct (Z.eqb_spec av API_VERSION) as [->|Hav]|]; cbn [andb].
  - match goal with |- context [reply ?c0 ?x] =>
      pose proof (reply_client c0 x) as Hr; destruct (reply c0 x) as [c' r] end.
    destruct Hr as (_ & _ & Hr1 & Hr2). split_and!; try done.
  - apply (Hn (s, reply_error c EcVersionMismatch (bs "unsupported IPC protocol or API version")));
      [apply He; auto|congruence].
  - apply (Hn (s, reply_error c EcVersionMismatch (bs "unsupported IPC protocol or API version")));
      [apply He; auto|congruence].
Qed.

Lemma handshake_required_witness :
  let c := mkClient 0 (mkReader [] None) (mkWriter [] None) false [] in
  let s := IpcState_new Runtime_new in
  (handle_request (Ok []) (Ok []) no_materialize s c sample_env RequestProviderRegister).1 = s.
Proof.
  intros c s.
  pose proof (handshake_required (Ok []) (Ok []) no_materialize s c sample_env RequestProviderRegister eq_refl) as H.
  destruct (handle_request (Ok []) (Ok []) no_materialize s c sample_env RequestProviderRegister) as [s' [c' r]].
  apply H.
Defined.

(** C14: a commit takes effect only for its owner.  If a commit request adds a
    promise, the request carried the token of the connection that registered
    the provider, the mount is ready for commits (the flag, not only a mount
    path), and the provider is live; exactly one tree
    is added, owned by that provider, and the answer names its id and its path
    under the mount.  In every other case the promises are unchanged and the
    answer, if it can be written, is an error. *)
Theorem handle_promise_commit_authorized `{!Bincode Response} s c body :
  st_wf s -> body_typed body -> rt_next_promise_id (st_runtime s) < u64_max ->
  let '(s', (c', r)) := handle_promise_commit s c body in
  st_wf s' /\
  ((rt_promises (st_runtime s') = rt_promises (st_runtime s) /\
    exists code message, write_error (cl_writer c) code message = (cl_writer c', r)) \/
   exists route tree mount_path,
     st_provider_routes s !! cb_provider_id body = Some route /\
     pr_owner_token route = cb_provider_owner_token body /\
     Runtime_has_provider (st_runtime s) (cb_provider_id body) = true /\
     mo_ready_for_commits (st_mount_status s) = true /\
     mo_mount_path (st_mount_status s) = Some mount_path /\
     rt_promises (st_runtime s) !! pt_promise_id tree = None /\
     rt_promises (st_runtime s') = <[pt_promise_id tree := tree]> (rt_promises (st_runtime s)) /\
     pt_provider_id tree = cb_provider_id body /\
     write_frame (cl_writer c) (ResponsePromiseCommitted (mkPromiseCommittedBody (pt_promise_id tree)
       (to_string_lossy (path_join mount_path (pt_promise_id tree))))) = (cl_writer c', r)).
Proof.
  intros Hwf Hty Hmax. pose proof (handle_promise_commit_wf s c body Hwf Hty Hmax) as Hw.
  assert (He : forall s' code m, rt_promises (st_runtime s') = rt_promises (st_runtime s) ->
    let '(s', (c', r)) := (s', reply_error c code m) in
    rt_promises (st_runtime s') = rt_promises (st_runtime s) /\
    exists code message, write_error (cl_writer c) code message = (cl_writer c', r)).
  { intros s' code m Hs. unfold reply_error. destruct (write_error (cl_writer c) code m) as [w r] eqn:Hwr.
    cbn. eauto. }
  destruct (handle_promise_commit_cases s c body Hwf Hty Hmax)
    as [(st & Heq)|[[_ Heq]|(route & b & Hro & Htok & Hready & _ & _ & _ & Hbp & H)]].
  { specialize (He s (status_to_error_code st) (Status_as_str st) eq_refl).
    change (reply_status_error c st) with (reply_error c (status_to_error_code st) (Status_as_str st)) in Heq.
    rewrite Heq in *. destruct (reply_error _ _ _) as [c' r]. auto. }
  { specialize (He s EcInvalidRequest (bs "provider id must be nonzero") eq_refl).
    rewrite Heq in *. destruct (reply_error _ _ _) as [c' r]. auto. }
  pose proof (commit_tree_added (st_runtime s) b (sw_runtime _ Hwf) Hmax) as Hadd.
  destruct H as [(st & Hc & Heq)|(tree & visible & Hc & Hv & Heq)]; rewrite Heq in *;
    destruct (Runtime_commit_promise (st_runtime s) b) as [rt' r'] eqn:Hcommit; cbn in Hc; subst r'.
  - change (reply_status_error c st) with (reply_error c (status_to_error_code st) (Status_as_str st)) in *.
    specialize (He (set_runtime rt' s) (status_to_error_code st) (Status_as_str st) Hadd).
    destruct (reply_error _ _ _) as [c' r]. auto.
  - destruct (sw_mount _ Hwf Hready) as [mp Hmp]. destruct Hadd as (Hlive & Hnew & Hins & Hprov).
    unfold reply in *. destruct (write_frame _ _) as [w r] eqn:Hwr. cbn in *. split; [done|]. right.
    exists route, tree, mp. split_and!; try congruence.
    unfold visible_promise_path in Hv. rewrite Hready, Hmp in Hv. cbn in Hv. injection Hv as <-. exact Hwr.
Qed.

(** A daemon with a mount, one provider and its route. *)
Definition ready_state : IpcState :=
  set_mount_status
    (register_provider_route
       (set_runtime (Runtime_register_provider Runtime_new).1 (IpcState_new Runtime_new)) 1 42 7 (Ok tt)).1
    (IpcMountStatus_commit_ready (bs "/run/fuse-promise")).

Lemma ready_state_wf : st_wf ready_state.
Proof.
  split.
  - apply (register_provider_wf Runtime_new new_wf). vm_compute. reflexivity.
  - intros _. by eexists.
  - intros id route. change (st_provider_routes ready_state) with (<[1 := mkProviderRoute 7 42]> (∅ : gmap Z ProviderRoute)).
    intros H. apply lookup_insert_Some in H as [[<- _]|[_ H]]; [eexists; vm_compute; reflexivity|].
    rewrite lookup_empty in H. discriminate H.
Qed.

Definition sample_commit (token : Z) : PromiseCommitBody :=
  PromiseCommitRequest_into_body
    (PromiseCommitRequest_from_builder_with_owner_token (built 1 sample_calls) token).

Lemma sample_commit_typed token : body_typed (sample_commit token).
Proof.
  unfold body_typed. remember (cb_nodes (sample_commit token)) as l eqn:E. vm_compute in E. subst l.
  repeat apply Forall_cons_2; try apply Forall_nil_2; split; vm_compute; congruence.
Qed.

Definition sample_client : Client := mkClient 7 (mkReader [] None) (mkWriter [] None) true [1].

Lemma handle_promise_commit_authorized_witness :
  Runtime_promise_count (st_runtime (handle_promise_commit ready_state sample_client (sample_commit 42)).1) = 1 /\
  rt_promises (st_runtime (handle_promise_commit ready_state sample_client (sample_commit 41)).1) = ∅.
Proof.
  split; [vm_compute; reflexivity|].
  pose proof (handle_promise_commit_authorized ready_state sample_client (sample_commit 41)
                ready_state_wf (sample_commit_typed 41) ltac:(vm_compute; reflexivity)) as H.
  destruct (handle_promise_commit ready_state sample_client (sample_commit 41)) as [s' [c' r]].
  destruct H as [_ [[H _]|(route & tree & mp & Hro & Htok & _)]]; [exact H|].
  exfalso. vm_compute in Hro. injection Hro as <-. vm_compute in Htok. discriminate Htok.
Defined.

(** Closing a connection disconnects its providers.  Whatever a client
    sent, in whatever order, and however the connection ended, serving it
    terminates; the providers that are live afterwards were live before it
    connected, and the state is well formed.  (The registrations' token and
    stream clone are assumed to succeed.)  A peer with another uid is refused
    before anything is read. *)
Theorem client_close_disconnects `{!Bincode Request, !Bincode Response} dm ds hm s id reader writer peer uid envs :
  materialize_frame hm -> decode_typed -> st_wf s -> Forall env_ok envs ->
  rt_next_provider_id (st_runtime s) + len envs <= u64_max ->
  rt_next_promise_id (st_runtime s) + len envs <= u64_max ->
  (length (rd_bytes reader) < length envs)%nat ->
  exists s' r, handle_client_with_state dm ds hm s id reader writer peer uid envs = Some (s', r) /\
    st_wf s' /\
    (forall pid, Runtime_has_provider (st_runtime s') pid = true -> Runtime_has_provider (st_runtime s) pid = true) /\
    (peer <> uid -> s' = s /\ exists e, r = Err e /\ io_kind e = KPermissionDenied).
Proof.
  intros Hmat Hdec Hwf Henvs H1 H2 Hlen. unfold handle_client_with_state, validate_peer.
  destruct (Z.eqb_spec peer uid) as [->|Hne]; cbn.
  2:{ eexists _, _. split; [done|]. split_and!; try done. intros _. split; [done|]. eauto. }
  set (c := mkClient id reader writer false []).
  destruct (handle_client_requests_total dm ds hm envs s c Hmat Hdec Hwf H1 H2 Hlen) as [[s1 [c1 r1]] Hr].
  rewrite Hr. eexists _, _. split; [done|].
  destruct (handle_client_requests_spec dm ds hm envs s c s1 c1 r1) as (Hw & Hnz & Hl & _);
    try done.
  destruct (disconnect_all_spec s1 (cl_registered c1) Hw Hnz) as [Hw' Hall].
  split_and!; [done| |intros Hne; by destruct Hne].
  intros pid Hp. destruct (Hall pid) as (Hin & Hback & _). destruct (Hl pid (Hback Hp)) as [?|Hreg]; [done|].
  destruct (Hin Hreg) as [Hno _]. congruence.
Qed.

Lemma client_close_disconnects_witness :
  exists s' r, handle_client_with_state (Ok []) (Ok []) no_materialize (IpcState_new Runtime_new) 7
      registering_client (mkWriter [] None) 1000 1000 (replicate 20 sample_env) = Some (s', r) /\
    rt_next_provider_id (st_runtime s') = 2 /\ Runtime_has_provider (st_runtime s') 1 = false.
Proof.
  destruct (client_close_disconnects (Ok []) (Ok []) no_materialize (IpcState_new Runtime_new) 7
              registering_client (mkWriter [] None) 1000 1000 (replicate 20 sample_env))
    as (s' & r & H & _ & Hl & _).
  - exact no_materialize_frame.
  - exact toy_decode_typed.
  - exact init_st_wf.
  - repeat constructor.
  - vm_compute. congruence.
  - vm_compute. congruence.
  - vm_compute. lia.
  - exists s', r. split; [exact H|].
    assert (Hn : rt_next_provider_id (st_runtime s') = 2)
      by (vm_compute in H; injection H as <- _; reflexivity).
    split; [exact Hn|]. destruct (Runtime_has_provider (st_runtime s') 1) eqn:E; [|reflexivity].
    specialize (Hl 1 E). vm_compute in Hl. discriminate Hl.
Defined.

(** C38: closing a connection disconnects its providers only because their
    registration succeeded.  When drawing the token fails, the provider that was just added to the runtime is on no list,
    so that it stays live after its connection is gone. *)
Theorem failed_registration_leaks_provider `{!Bincode Request, !Bincode Response} dm ds hm s c e :
  st_wf s -> rt_next_provider_id (st_runtime s) < u64_max -> cl_negotiated c = true ->
  Forall (fun id => id <> 0) (cl_registered c) ->
  ~ (rt_next_provider_id (st_runtime s) ∈ cl_registered c) ->
  let '(s', (c', r)) := handle_request dm ds hm s c (mkRegisterEnv (Err e) (Ok tt)) RequestProviderRegister in
  r = Err e /\
  Runtime_has_provider (st_runtime (disconnect_registered_providers s' (cl_registered c')))
    (rt_next_provider_id (st_runtime s)) = true.
Proof.
  intros Hwf Hmax Hneg Hnz Hnew. unfold handle_request, handle_register. rewrite Hneg. cbn.
  split; [done|]. set (s1 := set_runtime _ s). revert Hnew.
  assert (Hlive : Runtime_has_provider (st_runtime s1) (rt_next_provider_id (st_runtime s)) = true).
  { unfold s1, Runtime_has_provider. cbn. by rewrite lookup_insert_eq. }
  revert Hlive. generalize s1. generalize (rt_next_provider_id (st_runtime s)) as new. intros new s2 Hlive Hnew.
  clear s1 Hwf Hmax Hneg. revert s2 Hlive. induction Hnz as [|i ids Hi Hids IH]; intros s2 Hlive; cbn; [done|].
  apply not_elem_of_cons in Hnew as [Hne Hnew]. apply IH; [done|].
  destruct (disconnect_fields s2 i Hi) as (-> & _ & _). by rewrite unregister_has_provider, decide_False.
Qed.

Lemma failed_registration_leaks_provider_witness :
  let c := mkClient 7 (mkReader [] None) (mkWriter [] None) true [] in
  let e := mkIoError KNotFound [] in
  Runtime_has_provider (st_runtime (handle_request (Ok []) (Ok []) no_materialize (IpcState_new Runtime_new)
    c (mkRegisterEnv (Err e) (Ok tt)) RequestProviderRegister).1) 1 = true.
Proof.
  intros c e.
  pose proof (failed_registration_leaks_provider (Ok []) (Ok []) no_materialize (IpcState_new Runtime_new) c e
    init_st_wf ltac:(vm_compute; reflexivity) eq_refl (Forall_nil_2 _) ltac:(apply not_elem_of_nil)) as H.
  change (handle_request (Ok []) (Ok []) no_materialize (IpcState_new Runtime_new) c
            (mkRegisterEnv (Err e) (Ok tt)) RequestProviderRegister)
    with (set_runtime (Runtime_register_provider Runtime_new).1 (IpcState_new Runtime_new), (c, @Err IoError () e)) in *.
  destruct H as [_ H]. exact H.
Defined.
