(* ===== verification/Router.v ===== *)
(** * [route_provider_read] as a function

    The whole of [IpcState::route_provider_read], in the order of the source,
    for a given behaviour of the rest of the world: whether the frame could be
    written, and what the other threads do while the caller waits, as a list of
    their critical sections.  It is shown to be one of the runs of [step]
    ([route_refines_steps]), so that the invariant of the interleaved system
    holds of it.

    [Router] is the interface the FUSE adapter is verified against: a provider
    read that may take the runtime through other threads' operations, and
    answers the request it was given.  [routed] is the instance. *)

From S2P Require Import Prelude Types Paths Cache Tree Runtime Messages Mount IpcState Routing.

(** ** The other threads *)

Inductive EnvOp : Type :=
| EnvComplete (registered : list ProviderId) (response : ProviderReadResponseBody)
| EnvFailReads (provider_id : Z) (kind : ErrorKind)
| EnvRoute (provider_id token : Z) (conn : ConnId)
| EnvRemoveRoute (provider_id : Z)
| EnvRuntime (op : RuntimeOp)
| EnvMount (m : IpcMountStatus).

Definition run_env (s : IpcState) (op : EnvOp) : IpcState :=
  match op with
  | EnvComplete registered response => (complete_provider_read s registered response).1
  | EnvFailReads id kind => fail_provider_pending_reads s id kind
  | EnvRoute id token conn => (register_provider_route s id token conn (Ok tt)).1
  | EnvRemoveRoute id => remove_route s id
  | EnvRuntime op => set_runtime (run_op (st_runtime s) op) s
  | EnvMount m => set_mount_status s m
  end.

Definition run_envs (s : IpcState) (ops : list EnvOp) : IpcState := foldl run_env s ops.

(** What a call meets. *)
Record ReadEnv : Type := mkReadEnv {
  en_write : IoResult ();
  en_meanwhile : list EnvOp;
}.

(** [mpsc::channel()]: an id that is not in use. *)
Definition new_channel (s : IpcState) : ChannelId :=
  S (max_list (map_to_list (st_channels s)).*1).

(** [receiver.recv_timeout]: the first message, a timeout while a sender
    exists, the end of the channel when none does. *)
Definition recv_timeout (s : IpcState) (ch : ChannelId) : RecvOutcome :=
  match st_channels s !! ch with
  | Some (x :: _) => Received x
  | _ =>
      if decide (Exists (fun kv => pd_sender kv.2 = ch) (map_to_list (st_pending_reads s)))
      then RecvTimeout else RecvDisconnected
  end.

(** The message that was received leaves the queue. *)
Definition drop_received (s : IpcState) (ch : ChannelId) : IpcState :=
  match st_channels s !! ch with
  | Some (_ :: q) => set_channels (<[ch := q]> (st_channels s)) s
  | _ => s
  end.

Definition route_provider_read (env : ReadEnv) (self : IpcState) (request : ProviderReadRequest) :
    IpcState * ReadResult :=
  match route_lookup self request with
  | Err e => (self, Err e)
  | Ok _ =>
      let ch := new_channel self in
      let '(self, r) := route_insert self request ch in
      match r with
      | Err e => (self, Err e)
      | Ok _ =>
          match en_write env with
          | Err e => (route_write_failed self (rq_request_id request) (rq_provider_id request), Err e)
          | Ok _ =>
              let self := run_envs self (en_meanwhile env) in
              let outcome := recv_timeout self ch in
              let self := drop_received self ch in
              route_finish self (rq_request_id request) outcome
          end
      end
  end.

(** ** It is a run of the interleaved system *)

Lemma run_env_step s reads op : step (mkSystem s reads) (mkSystem (run_env s op) reads).
Proof. destruct op; constructor. Qed.

Lemma run_envs_steps s reads ops : rtc step (mkSystem s reads) (mkSystem (run_envs s ops) reads).
Proof.
  revert s. induction ops as [|op ops IH]; intros s; [apply rtc_refl|].
  eapply rtc_l; [apply run_env_step|apply IH].
Qed.

Lemma new_channel_fresh s t : is_Some (st_channels s !! t) -> t <> new_channel s.
Proof.
  intros [q Hq] ->. assert (Hin : new_channel s ∈ (map_to_list (st_channels s)).*1).
  { apply list_elem_of_fmap. exists (new_channel s, q). split; [done|]. by apply elem_of_map_to_list. }
  apply max_list_elem_of_le in Hin. unfold new_channel in Hin at 1. lia.
Qed.

(** The channel of a read stays. *)
Lemma run_env_channel s op t : is_Some (st_channels s !! t) -> is_Some (st_channels (run_env s op) !! t).
Proof.
  assert (Hsend : forall ch x s, is_Some (st_channels s !! t) -> is_Some (st_channels (send ch x s) !! t)).
  { intros ch x s0 H. rewrite send_channels. case_decide; [by eexists|done]. }
  intros H. destruct op; cbn [run_env].
  - unfold complete_provider_read. destruct (ProviderReadResponse_from_body response); [|done].
    destruct (st_pending_reads s !! _); [|done]. by apply Hsend.
  - unfold fail_provider_pending_reads. generalize (filter (fun x => pd_provider_id x.2 = provider_id)
      (btree_items (st_pending_reads s))). intros l.
    match goal with |- context [foldl _ ?s0 l] => assert (H0 : is_Some (st_channels s0 !! t)) by done; revert H0; generalize s0 end.
    induction l as [|kv l IH]; intros s0 H0; cbn; [done|]. apply IH. by apply Hsend.
  - done.
  - done.
  - done.
  - done.
Qed.

Lemma run_envs_channel s ops t : is_Some (st_channels s !! t) -> is_Some (st_channels (run_envs s ops) !! t).
Proof. revert s. induction ops as [|op ops IH]; intros s H; cbn; [done|]. apply IH. by apply run_env_channel. Qed.

(** A step of a reader changes its entry in the table. *)
Lemma insert_other {A} (m : gmap ChannelId A) t x y : x <> y -> <[t := y]> m <> <[t := x]> m.
Proof. intros Hne H. apply Hne. apply (f_equal (lookup t)) in H. rewrite !lookup_insert_eq in H. congruence. Qed.

(** The call as a run of [T], where [T] allows the steps of readers and what
    the other threads do while the call waits. *)
Section run.
Context (T : relation System) (env : ReadEnv) (s : IpcState).
Context (Hreader : forall s1 reads s2 reads', step (mkSystem s1 reads) (mkSystem s2 reads') -> reads' <> reads ->
  T (mkSystem s1 reads) (mkSystem s2 reads')).
Context (Hmeanwhile : forall s1 reads, st_runtime s1 = st_runtime s ->
  rtc T (mkSystem s1 reads) (mkSystem (run_envs s1 (en_meanwhile env)) reads)).

Lemma reader_moves s1 reads t pc s2 pc' rest :
  step (mkSystem s1 (<[t := pc]> reads)) (mkSystem s2 (<[t := pc']> (<[t := pc]> reads))) -> pc <> pc' ->
  rtc T (mkSystem s2 (<[t := pc']> reads)) rest -> rtc T (mkSystem s1 (<[t := pc]> reads)) rest.
Proof.
  rewrite insert_insert_eq. intros Hs Hne. apply rtc_l, Hreader; [done|]. by apply insert_other.
Qed.

Lemma receive_moves s1 reads t r :
  is_Some (st_channels s1 !! t) ->
  rtc T (mkSystem s1 (<[t := Waiting r]> reads))
    (mkSystem (route_finish (drop_received s1 t) (rq_request_id r) (recv_timeout s1 t)).1
       (<[t := Returned r (route_finish (drop_received s1 t) (rq_request_id r) (recv_timeout s1 t)).2]> reads)).
Proof.
  intros [q Hq]. unfold recv_timeout, drop_received. rewrite Hq. destruct q as [|x q].
  - case_decide as Hex; (eapply reader_moves; [| |apply rtc_refl]; [|done]).
    + apply step_timeout. apply lookup_insert_eq.
    + apply step_hang_up; [apply lookup_insert_eq|done|]. intros i p Hi Hs. apply Hex, Exists_exists. exists (i, p).
      split; [by apply elem_of_map_to_list|done].
  - eapply reader_moves; [| |apply rtc_refl]; [|done].
    eapply (step_receive s1 _ t r x q); [apply lookup_insert_eq|done].
Qed.

Lemma route_moves reads r :
  let t := new_channel s in
  sys_inv (mkSystem s (<[t := Calling r]> reads)) ->
  rtc T (mkSystem s (<[t := Calling r]> reads))
    (mkSystem (route_provider_read env s r).1 (<[t := Returned r (route_provider_read env s r).2]> reads)).
Proof.
  intros t Hinv. unfold route_provider_read. fold t.
  pose proof (step_lookup s (<[t := Calling r]> reads) t r ltac:(apply lookup_insert_eq)) as Hs.
  destruct (route_lookup s r) as [[body route]|e] eqn:Hlook; [|eapply reader_moves; [exact Hs|done|apply rtc_refl]].
  eapply reader_moves; [exact Hs|done|]. pose proof (step_inv _ _ Hinv Hs) as Hinv1. rewrite insert_insert_eq in Hinv1.
  pose proof (step_insert s (<[t := Routed r body route]> reads) t r body route
    ltac:(apply lookup_insert_eq)) as Hs2.
  destruct (insert_inv s _ t r body route Hinv1 ltac:(apply lookup_insert_eq)) as [Hok _].
  destruct (route_insert s r t) as [s1 r1] eqn:Hri. cbn in Hok, Hs2. subst r1. cbn in Hs2.
  eapply reader_moves; [exact Hs2|done|].
  assert (is_Some (st_channels s1 !! t) /\ st_runtime s1 = st_runtime s) as [Hc1 Hrt].
  { unfold route_insert in Hri. injection Hri as <- _. cbn. by rewrite lookup_insert_eq. }
  destruct (en_write env) as [[]|e].
  - eapply reader_moves; [eapply (step_written s1 _ t); apply lookup_insert_eq|done|].
    etrans; [by apply (Hmeanwhile s1)|]. by apply receive_moves, run_envs_channel.
  - eapply reader_moves; [eapply (step_write_error s1 _ t); apply lookup_insert_eq|done|].
    eapply reader_moves; [eapply (step_forget s1 _ t); apply lookup_insert_eq|done|].
    eapply reader_moves; [eapply (step_remove_route _ _ t); apply lookup_insert_eq|done|].
    eapply reader_moves; [eapply (step_unregister _ _ t); apply lookup_insert_eq|done|].
    eapply reader_moves; [eapply (step_fail_reads _ _ t); apply lookup_insert_eq|done|].
    unfold route_write_failed, disconnect_provider_id, ProviderId_from_raw. cbn [fst snd].
    destruct (Z.eqb_spec (rq_provider_id r) 0) as [Hz|Hz]; [exfalso|apply rtc_refl].
    pose proof (si_thread _ Hinv t _ (lookup_insert_eq _ _ _)) as (Hlen & _).
    apply bind_Ok in Hlook as (b & Hb & _). apply ProviderReadRequest_into_body_Ok in Hb as [Hok' _]; [|done].
    by apply (ro_provider _ Hok').
Qed.
End run.

Lemma route_refines_steps env s reads r :
  sys_inv (mkSystem s (<[new_channel s := Calling r]> reads)) ->
  let t := new_channel s in
  rtc step (mkSystem s (<[t := Calling r]> reads))
    (mkSystem (route_provider_read env s r).1 (<[t := Returned r (route_provider_read env s r).2]> reads)).
Proof. apply (route_moves step); [done|]. intros s1 reads1 _. apply run_envs_steps. Qed.

(** ** The invariant between calls *)

(** The reads that are under way, seen from outside: those with a channel. *)
Definition ipc_inv (s : IpcState) : Prop :=
  exists reads, sys_inv (mkSystem s reads) /\
    forall t, is_Some (reads !! t) -> is_Some (st_channels s !! t).

(** Threads that do not wait for an answer can be forgotten. *)
Lemma prune_inv s reads : sys_inv (mkSystem s reads) -> ipc_inv s.
Proof.
  intros Hinv. exists (filter (fun x => awaiting x.2 = true) reads). split.
  - split; cbn.
    + apply Hinv.
    + intros t pc [Hpc _]%map_lookup_filter_Some. by apply (si_thread _ Hinv).
    + intros t t' pc pc' [Hpc _]%map_lookup_filter_Some [Hpc' _]%map_lookup_filter_Some.
      by apply (si_distinct _ Hinv).
    + intros i p Hp. destruct (si_pending _ Hinv i p Hp) as (pc & Hpc & Haw & ?).
      exists pc. split; [by apply map_lookup_filter_Some|done].
  - intros t [pc [Hpc Haw]%map_lookup_filter_Some]. cbn in Haw.
    destruct (si_thread _ Hinv t pc Hpc) as (_ & _ & H).
    destruct pc; try done; cbn in H; destruct H as [[_ H]|(_ & x & H & _)]; by eexists.
Qed.

Lemma init_ipc_inv runtime : ipc_inv (IpcState_new runtime).
Proof. apply (prune_inv _ ∅). apply init_inv. Qed.

Lemma set_runtime_ipc_inv rt s : ipc_inv s -> ipc_inv (set_runtime rt s).
Proof. intros (reads & Hinv & Hch). exists reads. split; [by apply (quiet_inv s)|done]. Qed.

(** A call keeps the invariant and answers its own request. *)
Lemma route_call_inv env s r :
  ipc_inv s -> 0 <= rq_length r -> st_next_read_request_id s < u64_max ->
  let s1 := (next_provider_read_request_id s).1 in
  let req := with_request_id r (next_provider_read_request_id s).2 in
  ipc_inv (route_provider_read env s1 req).1 /\ result_ok req (route_provider_read env s1 req).2.
Proof.
  intros (reads & Hinv & Hch) Hl Hmax s1 req.
  assert (Ht : reads !! new_channel s1 = None).
  { destruct (reads !! new_channel s1) eqn:E; [|done]. exfalso.
    apply (new_channel_fresh s1 (new_channel s1)); [|done]. apply Hch. eauto. }
  pose proof (call_inv s reads (new_channel s1) r Hinv Ht Hl Hmax) as Hcall.
  pose proof (route_refines_steps env s1 reads req Hcall) as Hsteps. cbn zeta in Hsteps.
  pose proof (steps_inv _ _ Hcall Hsteps) as Hend.
  split; [by eapply prune_inv|].
  by destruct (si_thread _ Hend (new_channel s1) _ (lookup_insert_eq _ _ _)) as (_ & _ & H & _).
Qed.

(** ** What a call does to the runtime *)

Definition env_runtime_ops (ops : list EnvOp) : list RuntimeOp :=
  omap (fun op => match op with EnvRuntime op => Some op | _ => None end) ops.

Definition keeps_runtime (s s' : IpcState) : Prop :=
  st_runtime s' = st_runtime s /\ st_next_read_request_id s' = st_next_read_request_id s.

Lemma fail_reads_keeps s id kind : keeps_runtime s (fail_provider_pending_reads s id kind).
Proof.
  unfold fail_provider_pending_reads, keeps_runtime.
  match goal with |- context [foldl _ ?s0 ?l] =>
    destruct (deliver_fields (Err (disconnect_error kind)) l s0) as (_ & H1 & H2 & _) end.
  unfold deliver in H1, H2. by rewrite H1, H2.
Qed.

Lemma run_env_runtime s op :
  st_runtime (run_env s op) = run_ops (st_runtime s) (env_runtime_ops [op]) /\
  st_next_read_request_id (run_env s op) = st_next_read_request_id s.
Proof.
  destruct op; cbn; try done.
  - unfold complete_provider_read. destruct (ProviderReadResponse_from_body response); [|done].
    by destruct (st_pending_reads s !! _).
  - apply fail_reads_keeps.
Qed.

Lemma run_envs_runtime s ops :
  st_runtime (run_envs s ops) = run_ops (st_runtime s) (env_runtime_ops ops) /\
  st_next_read_request_id (run_envs s ops) = st_next_read_request_id s.
Proof.
  revert s. induction ops as [|op ops IH]; intros s; [done|].
  destruct (run_env_runtime s op) as [H1 H2]. destruct (IH (run_env s op)) as [H3 H4].
  change (run_envs s (op :: ops)) with (run_envs (run_env s op) ops).
  rewrite H3, H4, H1, H2. split; [|done].
  destruct op; done.
Qed.

Lemma route_runtime env s r :
  exists ops, (ops = [] \/ ops = [OpUnregisterProvider (rq_provider_id r)] \/ ops = env_runtime_ops (en_meanwhile env)) /\
    st_runtime (route_provider_read env s r).1 = run_ops (st_runtime s) ops /\
    st_next_read_request_id (route_provider_read env s r).1 = st_next_read_request_id s.
Proof.
  unfold route_provider_read. destruct (route_lookup s r) as [?|e]; [|by exists []; auto].
  destruct (route_insert s r (new_channel s)) as [s1 r1] eqn:Hri.
  assert (Hk : keeps_runtime s s1) by by (unfold route_insert in Hri; injection Hri as <- _).
  destruct Hk as [Hk1 Hk2]. destruct r1 as [?|e]; [|exists []; auto].
  destruct (en_write env) as [?|e].
  - exists (env_runtime_ops (en_meanwhile env)). split; [auto|].
    destruct (run_envs_runtime s1 (en_meanwhile env)) as [H1 H2]. rewrite <- Hk1, <- Hk2, <- H1, <- H2.
    generalize (run_envs s1 (en_meanwhile env)). intros s2. unfold drop_received.
    destruct (st_channels s2 !! new_channel s) as [[|x q]|] eqn:Hq; by destruct (recv_timeout s2 (new_channel s)).
  - exists (if decide (rq_provider_id r = 0) then [] else [OpUnregisterProvider (rq_provider_id r)]).
    split; [case_decide; auto|]. unfold route_write_failed, disconnect_provider_id, ProviderId_from_raw. cbn [fst].
    destruct (Z.eqb_spec (rq_provider_id r) 0) as [Hz|Hz].
    + rewrite decide_True by done. cbn. by rewrite Hk1, Hk2.
    + rewrite decide_False by done.
      match goal with |- context [fail_provider_pending_reads ?s0 ?id ?k] =>
        destruct (fail_reads_keeps s0 id k) as [-> ->] end. cbn. by rewrite Hk1, Hk2.
Qed.

(** ** Where a response comes from *)

Definition sent_by (ops : list EnvOp) (x : ReadResult) : Prop :=
  forall response, x = Ok response -> exists registered body,
    EnvComplete registered body ∈ ops /\ ProviderReadResponse_from_body body = Ok response.

Definition queue_from (ops : list EnvOp) (ch : ChannelId) (s : IpcState) : Prop :=
  forall q, st_channels s !! ch = Some q -> Forall (sent_by ops) q.

Lemma send_queue_from ops ch t x s : sent_by ops x -> queue_from ops ch s -> queue_from ops ch (send t x s).
Proof.
  intros Hx Hs q. rewrite send_channels. case_decide as Ht; [|apply Hs]. subst t. intros [= <-].
  apply Forall_app. split; [|by constructor]. destruct (st_channels s !! ch) as [q0|] eqn:Hq; [by apply Hs|constructor].
Qed.

Lemma run_env_queue_from ops ch s op : op ∈ ops -> queue_from ops ch s -> queue_from ops ch (run_env s op).
Proof.
  intros Hin Hs. destruct op; cbn [run_env]; try exact Hs.
  - unfold complete_provider_read. destruct (ProviderReadResponse_from_body response) as [resp|e] eqn:Hresp; [|done].
    destruct (st_pending_reads s !! _) as [p|]; [|done]. apply send_queue_from; [|exact Hs].
    intros r Hr. exists registered, response. split; [done|]. rewrite Hresp. f_equal. case_bool_decide; [|done].
    destruct (validate_provider_read_response_for_request _ _); [|done]. by injection Hr.
  - unfold fail_provider_pending_reads. generalize (filter (fun x => pd_provider_id x.2 = provider_id)
      (btree_items (st_pending_reads s))). intros l.
    match goal with |- queue_from _ _ (foldl _ ?s0 l) => assert (H0 : queue_from ops ch s0) by exact Hs; revert H0; generalize s0 end.
    induction l as [|kv l IH]; intros s0 H0; cbn; [done|]. apply IH. by apply send_queue_from.
Qed.

Lemma run_envs_queue_from ops ops' ch s :
  ops' ⊆ ops -> queue_from ops ch s -> queue_from ops ch (run_envs s ops').
Proof.
  revert s. induction ops' as [|op ops' IH]; intros s Hin Hs; [exact Hs|].
  apply IH; [set_solver|]. apply run_env_queue_from; [set_solver|done].
Qed.

(** Only an answer that a provider's connection delivered during the call is
    returned. *)
Lemma route_response_source env s r s' response :
  route_provider_read env s r = (s', Ok response) ->
  exists registered body, EnvComplete registered body ∈ en_meanwhile env /\
    ProviderReadResponse_from_body body = Ok response.
Proof.
  unfold route_provider_read. destruct (route_lookup s r); [|done].
  destruct (route_insert s r (new_channel s)) as [s1 r1] eqn:Hri. destruct r1; [|done].
  destruct (en_write env); [|done].
  assert (Hq : queue_from (en_meanwhile env) (new_channel s) (run_envs s1 (en_meanwhile env))).
  { apply run_envs_queue_from; [done|]. unfold route_insert in Hri. injection Hri as <- _. intros q. cbn.
    rewrite lookup_insert_eq. by intros [= <-]. }
  unfold recv_timeout. destruct (st_channels _ !! new_channel s) as [[|x q]|] eqn:Hch; try (case_decide; done).
  intros [= _ ->]. apply Hq in Hch. by apply Forall_cons in Hch as [Hx _]; apply Hx.
Qed.

(** ** The interface of provider reads *)

Class Router := router_read : IpcState -> ProviderReadRequest -> IpcState * ReadResult.

(** [op_ok] is what is known of the runtime operations of other threads, and
    [budget] how many of them happen during one call. *)
Class RouterOk `{Router} (inv : IpcState -> Prop) (op_ok : RuntimeOp -> Prop) (budget : Z) : Prop := {
  router_call : forall s r, inv s -> 0 <= rq_length r -> st_next_read_request_id s < u64_max ->
    let s1 := (next_provider_read_request_id s).1 in
    let req := with_request_id r (next_provider_read_request_id s).2 in
    let '(s', x) := router_read s1 req in
    inv s' /\ result_ok req x /\ st_next_read_request_id s' = st_next_read_request_id s + 1 /\
    exists ops, Forall op_ok ops /\ len ops <= budget /\ st_runtime s' = run_ops (st_runtime s) ops;
  router_runtime : forall s rt, inv s -> inv (set_runtime rt s);
  router_id : forall s, inv s -> 1 <= st_next_read_request_id s;
}.

(** [route_provider_read] for given circumstances of each call. *)
Definition routed_by (env : ProviderReadRequest -> ReadEnv) : Router :=
  fun s request => route_provider_read (env request) s request.

Definition routed (env : Z -> ReadEnv) : Router := routed_by (fun request => env (rq_request_id request)).

Lemma routed_by_ok env op_ok budget :
  1 <= budget -> (forall id, op_ok (OpUnregisterProvider id)) ->
  (forall r, Forall op_ok (env_runtime_ops (en_meanwhile (env r))) /\
     len (env_runtime_ops (en_meanwhile (env r))) <= budget) ->
  @RouterOk (routed_by env) ipc_inv op_ok budget.
Proof.
  intros Hb Hu He. split.
  - intros s r Hinv Hl Hmax s1 req. unfold router_read, routed_by.
    pose proof (route_call_inv (env req) s r Hinv Hl Hmax) as [H1 H2].
    destruct (route_runtime (env req) s1 req) as (ops & Hops & H3 & H4).
    fold s1 in H1, H2. fold req in H1, H2.
    destruct (route_provider_read _ s1 req) as [s' x]. cbn in *. split_and!; try done.
    + rewrite H4. destruct Hinv as (reads & Hinv & _). pose proof (si_next _ Hinv). cbn in *.
      apply wrapping_add_in. lia.
    + exists ops. destruct Hops as [->|[->| ->]]; (split_and!; [..|exact H3]); try apply He.
      * constructor.
      * rewrite len_nil. lia.
      * by constructor.
      * rewrite len_cons, len_nil. lia.
  - intros s rt. apply set_runtime_ipc_inv.
  - intros s (reads & Hinv & _). apply (si_next _ Hinv).
Qed.

Lemma routed_ok env op_ok budget :
  1 <= budget -> (forall id, op_ok (OpUnregisterProvider id)) ->
  (forall i, Forall op_ok (env_runtime_ops (en_meanwhile (env i))) /\
     len (env_runtime_ops (en_meanwhile (env i))) <= budget) ->
  @RouterOk (routed env) ipc_inv op_ok budget.
Proof. intros Hb Hu He. apply routed_by_ok; [done..|]. intros r. apply He. Qed.

(** ** Properties *)

(** C20: the sequential reading of [route_provider_read] is a run of the
    interleaved system, whatever the write did and whatever the other threads
    did meanwhile; it leaves no pending entry behind, keeps the invariant, and
    a response it returns answers the request. *)
Theorem route_provider_read_refines env s r :
  ipc_inv s -> 0 <= rq_length r -> st_next_read_request_id s < u64_max ->
  let s1 := (next_provider_read_request_id s).1 in
  let req := with_request_id r (next_provider_read_request_id s).2 in
  let '(s', x) := route_provider_read env s1 req in
  (exists reads t, rtc step (mkSystem s reads) (mkSystem s' (<[t := Returned req x]> reads))) /\
  ipc_inv s' /\ st_pending_reads s' !! rq_request_id req = None /\
  forall response, x = Ok response -> response_answers req response.
Proof.
  intros Hs Hl Hmax s1 req. destruct (route_call_inv env s r Hs Hl Hmax) as [Hi Hr]. fold s1 req in Hi, Hr.
  destruct Hs as (reads & Hinv & Hch).
  assert (Ht : reads !! new_channel s1 = None).
  { destruct (reads !! new_channel s1) eqn:E; [|done]. exfalso.
    apply (new_channel_fresh s1 (new_channel s1)); [|done]. apply Hch. eauto. }
  assert (Hc : st_channels s !! new_channel s1 = None).
  { destruct (st_channels s !! new_channel s1) eqn:E; [|done]. exfalso.
    apply (new_channel_fresh s1 (new_channel s1)); [|done]. cbn. eauto. }
  pose proof (route_refines_steps env s1 reads req (call_inv s reads (new_channel s1) r Hinv Ht Hl Hmax)) as Hsteps.
  pose proof (rtc_l _ _ _ _ (step_call s reads (new_channel s1) r Ht Hc Hl Hmax) Hsteps) as Hrun.
  pose proof (steps_inv _ _ Hinv Hrun) as Hend.
  destruct (route_provider_read env s1 req) as [s' x] eqn:Hx. cbn in *. split_and!; try done.
  - exists reads, (new_channel s1). exact Hrun.
  - by destruct (si_thread _ Hend (new_channel s1) _ (lookup_insert_eq _ _ _)) as (_ & _ & _ & H).
Qed.

Lemma route_provider_read_refines_witness :
  let s := sys_state routed_system in
  let env := mkReadEnv (Ok tt) [EnvComplete [1] sample_answer] in
  exists s', route_provider_read env (next_provider_read_request_id s).1 sample_request =
    (s', Ok (mkProviderReadResponse 1 PrOk (bs "hello"))) /\ ipc_inv s'.
Proof.
  intros s env.
  assert (Hs : ipc_inv s).
  { apply (prune_inv s ∅). apply (reachable_inv Runtime_new).
    eapply rtc_l; [apply (step_env_route _ _ 1 42 7 (Ok tt))|apply rtc_refl]. }
  pose proof (route_provider_read_refines env s sample_request Hs ltac:(cbn; lia) ltac:(vm_compute; reflexivity)) as H.
  cbv zeta in H. change (with_request_id sample_request (next_provider_read_request_id s).2) with sample_request in H.
  assert (Hr : (route_provider_read env (next_provider_read_request_id s).1 sample_request).2 =
            Ok (mkProviderReadResponse 1 PrOk (bs "hello"))) by (vm_compute; reflexivity).
  destruct (route_provider_read env (next_provider_read_request_id s).1 sample_request) as [s' x].
  cbn in Hr. exists s'. split; [by rewrite Hr|]. destruct H as (_ & H & _). exact H.
Defined.
