(* ===== verification/Content.v ===== *)
(** * File contents

    What it means for a runtime to hold the right bytes.  [content] gives the
    bytes of each file, by promise and path; an operation is honest when the
    bytes it records are the file's.  Honest operations keep the read cache
    sound, and no operation moves, resizes or removes a file. *)

From S2P Require Import Prelude Types Paths Cache Tree Runtime ReadPlan.

(** ** Files persist *)

Lemma same_shape_refl n : same_shape n n.
Proof. done. Qed.

Lemma same_shape_trans a b c : same_shape a b -> same_shape b c -> same_shape a c.
Proof. unfold same_shape. intros (? & ? & ? & ? & ? & ?) (? & ? & ? & ? & ? & ?). split_and!; congruence. Qed.

Lemma same_nodes_refl m : same_nodes m m.
Proof. intros p. destruct (m !! p); by constructor. Qed.

(** Everything of a promise but its state, ids and materialized paths. *)
Definition same_promise (t t' : PromiseTree) : Prop :=
  pt_promise_id t' = pt_promise_id t /\ pt_provider_id t' = pt_provider_id t /\
  same_nodes (pt_nodes t) (pt_nodes t').

Lemma same_promise_refl t : same_promise t t.
Proof. split_and!; [done..|apply same_nodes_refl]. Qed.

Lemma run_op_promise rt op pid t :
  rt_wf rt -> rt_next_promise_id rt < u64_max -> rt_promises rt !! pid = Some t ->
  exists t', rt_promises (run_op rt op) !! pid = Some t' /\ same_promise t t'.
Proof.
  intros Hwf Hmax Ht. pose proof (same_promise_refl t) as Hrefl. destruct op; cbn [run_op].
  - unfold Runtime_set_cache_policy. destruct (CachePolicy_validated _); cbn; [case_decide; cbn|]; eauto.
  - cbn. eauto.
  - exists (if decide (is_Some (rt_providers rt !! provider_id)) then mark_provider_gone provider_id t else t).
    rewrite unregister_promise, Ht. split; [done|]. unfold mark_provider_gone.
    repeat case_decide; (split_and!; [done..|apply same_nodes_refl]).
  - pose proof (commit_tree_added rt builder Hwf Hmax) as Hc.
    destruct (Runtime_commit_promise rt builder) as [rt' [t0|e]]; cbn in *; [|rewrite Hc; eauto].
    destruct Hc as (_ & Hnew & -> & _). exists t. rewrite lookup_insert_ne; [done|]. intros <-. congruence.
  - pose proof (record_cached_read_cases rt promise_id relative_path offset bytes) as Hc.
    destruct (Runtime_record_cached_read _ _ _ _ _); cbn.
    destruct Hc as [->|(? & ? & ? & _ & _ & _ & _ & _ & _ & _ & ->)]; cbn; eauto.
  - pose proof (mark_node_materialized_cases rt promise_id relative_path materialized_path) as Hc.
    destruct (Runtime_mark_node_materialized _ _ _ _); cbn.
    destruct Hc as [[-> _]|(p & t0 & n & _ & Ht0 & Hn & _ & _ & ->)]; [eauto|]. cbn.
    rewrite lookup_insert. case_decide; [subst|eauto]. rewrite Ht in Ht0. injection Ht0 as <-.
    eexists. split; [done|]. split_and!; [done..|]. by apply materialized_same.
Qed.

(** Operations other than the marking of materialized nodes. *)
Definition op_quiet (op : RuntimeOp) : Prop :=
  match op with OpMarkNodeMaterialized _ _ _ => False | _ => True end.

Lemma run_op_quiet rt op pid t :
  rt_wf rt -> rt_next_promise_id rt < u64_max -> op_quiet op -> rt_promises rt !! pid = Some t ->
  exists t', rt_promises (run_op rt op) !! pid = Some t' /\ pt_nodes t' = pt_nodes t.
Proof.
  intros Hwf Hmax Hq Ht. destruct op; cbn [run_op] in *; [| | | | |done].
  - unfold Runtime_set_cache_policy. destruct (CachePolicy_validated _); cbn; [case_decide; cbn|]; eauto.
  - cbn. eauto.
  - exists (if decide (is_Some (rt_providers rt !! provider_id)) then mark_provider_gone provider_id t else t).
    rewrite unregister_promise, Ht. split; [done|]. unfold mark_provider_gone. by repeat case_decide.
  - pose proof (commit_tree_added rt builder Hwf Hmax) as Hc.
    destruct (Runtime_commit_promise rt builder) as [rt' [t0|e]]; cbn in *; [|rewrite Hc; eauto].
    destruct Hc as (_ & Hnew & -> & _). exists t. rewrite lookup_insert_ne; [done|]. intros <-. congruence.
  - pose proof (record_cached_read_cases rt promise_id relative_path offset bytes) as Hc.
    destruct (Runtime_record_cached_read _ _ _ _ _); cbn.
    destruct Hc as [->|(? & ? & ? & _ & _ & _ & _ & _ & _ & _ & ->)]; cbn; eauto.
Qed.

Lemma file_of_same rt rt' pid path t n t' :
  file_of rt pid path t n -> rt_promises rt' !! pid = Some t' -> same_promise t t' ->
  exists n', file_of rt' pid path t' n' /\ same_shape n n'.
Proof.
  intros (Ht & Hg & Hk) Ht' (_ & _ & Hs). apply bind_Some in Hg as (p & Hp & Hn).
  destruct (same_nodes_fwd _ _ _ _ Hs Hn) as (n' & Hn' & Hsh). exists n'. split; [|done].
  split_and!; [done| |destruct Hsh as (_ & _ & _ & _ & ? & _); congruence].
  unfold PromiseTree_get. apply bind_Some. eauto.
Qed.

(** ** Soundness of the cache *)

Section content.
Context (content : CacheKey -> Z -> option byte).

Definition op_honest (op : RuntimeOp) : Prop :=
  match op with
  | OpRecordCachedRead pid path offset bytes =>
      forall p, normalize_relative_path path = Ok p -> bytes_sound content (mkCacheKey pid p) offset bytes
  | _ => True
  end.

Definition op_good (op : RuntimeOp) : Prop := op_typed op /\ op_honest op.

Record rt_sound (rt : Runtime) : Prop := {
  rs_wf : rt_wf rt;
  rs_cache : cache_sound content (rt_read_cache rt);
}.

Lemma run_op_sound rt op :
  rt_sound rt -> rt_next_provider_id rt < u64_max -> rt_next_promise_id rt < u64_max ->
  op_good op -> rt_sound (run_op rt op).
Proof.
  intros [Hwf Hs] H1 H2 [Hty Hh]. split; [by apply run_op_wf|]. destruct op; cbn [run_op].
  - unfold Runtime_set_cache_policy. destruct (CachePolicy_validated _); cbn; [|done].
    case_decide; cbn; [apply map_Forall_empty|done].
  - done.
  - unfold Runtime_unregister_provider. by destruct (_ !! _).
  - assert (Hc : rt_read_cache (Runtime_commit_promise rt builder).1 = rt_read_cache rt).
    { pose proof (rw_promise_id _ Hwf). pose proof (commit_promise_cases rt builder H2 ltac:(lia)) as Hc.
      destruct (Runtime_commit_promise rt builder) as [rt' r].
      by destruct Hc as [(_ & -> & _)|(_ & nid & ino & _ & _ & [(e & _ & ->)|(_ & _ & _ & ->)])]. }
    by rewrite Hc.
  - pose proof (record_cached_read_cases rt promise_id relative_path offset bytes) as Hc.
    destruct (Runtime_record_cached_read _ _ _ _ _) as [rt' r]; cbn.
    destruct Hc as [->|(cs & t & n & Hcs & Ht & Hg & Hk & _ & Hmax & _ & ->)]; [done|]. cbn.
    apply CachePolicy_chunk_size_pos in Hcs as [Hcs _]. apply bind_Some in Hg as (p & Hp & Hn).
    destruct (rw_tree _ Hwf _ _ Ht) as [Htw _]. destruct (twf_path _ _ Htw p n Hn) as [-> _].
    destruct Hty as [? _]. apply cache_insert_sound; try done; [apply Hwf|].
    apply Hh. destruct (normalize_relative_path relative_path); [by injection Hp as ->|done].
  - pose proof (mark_node_materialized_cases rt promise_id relative_path materialized_path) as Hc.
    destruct (Runtime_mark_node_materialized _ _ _ _); cbn.
    by destruct Hc as [[-> _]|(p & t0 & n & _ & Ht0 & Hn & _ & _ & ->)].
Qed.

(** A history of good operations keeps the runtime sound and its files. *)
Lemma run_ops_sound rt ops :
  rt_sound rt -> ids_left rt ops -> Forall op_good ops ->
  rt_sound (run_ops rt ops) /\
  (forall pid t, rt_promises rt !! pid = Some t ->
     exists t', rt_promises (run_ops rt ops) !! pid = Some t' /\ same_promise t t') /\
  rt_next_provider_id (run_ops rt ops) <= rt_next_provider_id rt + len ops /\
  rt_next_promise_id (run_ops rt ops) <= rt_next_promise_id rt + len ops.
Proof.
  intros Hs Hids Hops. revert rt Hs Hids. induction Hops as [|op ops Hop Hops IH]; intros rt Hs Hids.
  { change (run_ops rt []) with rt. rewrite len_nil. split_and!; [done| |lia..]. intros pid t Ht. exists t. split; [done|apply same_promise_refl]. }
  destruct (ids_left_cons rt op ops (rs_wf _ Hs) Hids) as (H1 & H2 & H3).
  destruct (run_op_ids rt op (rs_wf _ Hs) H1 H2) as [H4 H5].
  destruct (IH (run_op rt op)) as (Hs' & Hp' & H6 & H7); [by apply run_op_sound|done|].
  change (run_ops rt (op :: ops)) with (run_ops (run_op rt op) ops).
  rewrite len_cons. split_and!; [done| |lia|lia].
  intros pid t Ht. destruct (run_op_promise rt op pid t (rs_wf _ Hs) H2 Ht) as (t1 & Ht1 & (Ha & Hb & Hc)).
  destruct (Hp' pid t1 Ht1) as (t2 & Ht2 & (Ha2 & Hb2 & Hc2)). exists t2. split; [done|].
  split_and!; [congruence|congruence|]. intros p. specialize (Hc p). specialize (Hc2 p).
  destruct Hc as [n n1 Hn|]; inversion Hc2; subst; constructor. by eapply same_shape_trans.
Qed.

Lemma run_ops_quiet rt ops pid t :
  rt_wf rt -> ids_left rt ops -> Forall op_typed ops -> Forall op_quiet ops -> rt_promises rt !! pid = Some t ->
  exists t', rt_promises (run_ops rt ops) !! pid = Some t' /\ pt_nodes t' = pt_nodes t.
Proof.
  intros Hwf Hids Hty Hops. revert rt t Hwf Hids. induction Hops as [|op ops Hop Hops IH]; intros rt t Hwf Hids Ht; [eauto|].
  apply Forall_cons in Hty as [Hty1 Hty2].
  destruct (ids_left_cons rt op ops Hwf Hids) as (H1 & H2 & H3).
  destruct (run_op_quiet rt op pid t Hwf H2 Hop Ht) as (t1 & Ht1 & Hn1).
  destruct (IH Hty2 (run_op rt op) t1) as (t2 & Ht2 & Hn2); [by apply run_op_wf|done|done|].
  exists t2. split; [exact Ht2|congruence].
Qed.

Lemma run_ops_file rt ops pid path t n :
  rt_sound rt -> ids_left rt ops -> Forall op_good ops -> file_of rt pid path t n ->
  exists t' n', file_of (run_ops rt ops) pid path t' n' /\ same_shape n n'.
Proof.
  intros Hs Hids Hops Hf. destruct (run_ops_sound rt ops Hs Hids Hops) as (_ & Hp & _).
  destruct (Hp pid t) as (t' & Ht' & Hsame); [by destruct Hf|].
  destruct (file_of_same _ (run_ops rt ops) pid path t n t' Hf Ht' Hsame) as (n' & ? & ?). eauto.
Qed.

(** Recording an honest answer for a range of a file succeeds. *)
Lemma record_cached_read_ok rt pid path t n offset bytes :
  rt_wf rt -> file_of rt pid path t n -> in_u64 offset ->
  offset + len bytes <= attr_size (pn_attr n) ->
  (Runtime_record_cached_read rt pid path offset bytes).2 = Ok tt.
Proof.
  intros Hwf Hf [Hoff _] Hend. destruct (file_of_canonical _ _ _ _ _ Hwf Hf) as (_ & _ & _ & [_ Hmax]).
  destruct Hf as (Ht & Hg & Hk). unfold Runtime_record_cached_read, Runtime_promise.
  destruct (CachePolicy_chunk_size _); [|done]. case_decide; [done|].
  rewrite Ht. cbn. rewrite Hg. cbn. rewrite decide_True by done.
  rewrite usize_try_from_in by lia. cbn. rewrite checked_add_in by lia. cbn.
  case_bool; [lia|done].
Qed.
End content.
