(* ===== verification/FuseAdapter.v ===== *)
(** * The FUSE adapter

    [crates/fuse-promise-daemon/src/fuse_adapter.rs]: the [fuser::Filesystem]
    operations of [PromiseFilesystem] and their helpers.  A reply is the value
    given to [reply.entry], [reply.attr], [reply.data] and so on, or the
    [Errno] given to [reply.error].

    The adapter reads from providers through the interface [Router]; reading a
    materialized file ([File::open] and [read_at]) is a parameter of the
    section, as is how many directory entries fit into fuser's reply buffer. *)

From S2P Require Import Prelude Types Paths Cache Tree Runtime ReadPlan Messages Mount IpcState Routing Router Content.

Inductive Errno : Type :=
| EIO | EINVAL | EACCES | ENOENT | EEXIST | ETIMEDOUT | ECANCELED | EROFS | EISDIR.

#[export] Instance Errno_eq_decision : EqDecision Errno.
Proof. solve_decision. Defined.

Inductive FileType : Type := RegularFile | DirectoryType.

#[export] Instance FileType_eq_decision : EqDecision FileType.
Proof. solve_decision. Defined.

(** A [SystemTime] is its distance from the epoch in nanoseconds. *)
Record FileAttr : Type := mkFileAttr {
  fa_ino : Z;
  fa_size : Z;
  fa_blocks : Z;
  fa_atime : Z;
  fa_mtime : Z;
  fa_ctime : Z;
  fa_crtime : Z;
  fa_kind : FileType;
  fa_perm : Z;
  fa_nlink : Z;
  fa_uid : Z;
  fa_gid : Z;
  fa_rdev : Z;
  fa_blksize : Z;
  fa_flags : Z;
}.

Inductive FuseReadPlan : Type :=
| FuseProvider (request : ProviderReadRequest) (response_offset response_length : Z)
| FuseMaterialized (path : str) (offset length : Z)
| FuseCached (bytes : list byte).

(** ** Error maps *)

Definition status_to_errno (status : Status) : Errno :=
  match status with
  | StatusOk => EIO
  | InvalidArgument | VersionMismatch => EINVAL
  | Unavailable | ProviderGone | Io => EIO
  | Permission => EACCES
  | NotFound => ENOENT
  | AlreadyExists => EEXIST
  | Timeout => ETIMEDOUT
  | Cancelled => ECANCELED
  end.

Definition provider_status_to_errno (status : ProviderReadStatus) : Errno :=
  match status with
  | PrOk => EIO
  | PrInvalidArgument => EINVAL
  | PrPermission => EACCES
  | PrNotFound => ENOENT
  | PrProviderGone | PrIo => EIO
  | PrTimeout => ETIMEDOUT
  | PrCancelled => ECANCELED
  end.

Definition io_error_to_errno (error : IoError) : Errno :=
  match io_kind error with
  | KInvalidInput | KInvalidData => EINVAL
  | KNotFound => ENOENT
  | KPermissionDenied => EACCES
  | KTimedOut => ETIMEDOUT
  | KInterrupted => ECANCELED
  | _ => EIO
  end.

(** ** Attributes *)

Definition node_kind_to_file_type (kind : NodeKind) : FileType :=
  match kind with File => RegularFile | Directory => DirectoryType end.

(** [i64::saturating_abs]. *)
Definition saturating_abs (x : Z) : Z := Z.min i64_max (Z.abs x).

Definition mtime (mtime_nsec : Z) : Z :=
  if 0 <=? mtime_nsec then mtime_nsec else - saturating_abs mtime_nsec.

(** [u64::div_ceil]. *)
Definition div_ceil (a b : Z) : Z := (a + b - 1) / b.

Definition node_attr (node : PromiseNode) (uid gid : Z) : FileAttr :=
  mkFileAttr (pn_inode node) (attr_size (pn_attr node)) (div_ceil (attr_size (pn_attr node)) 512)
    (mtime (attr_mtime_nsec (pn_attr node))) (mtime (attr_mtime_nsec (pn_attr node)))
    (mtime (attr_mtime_nsec (pn_attr node))) (mtime (attr_mtime_nsec (pn_attr node)))
    (node_kind_to_file_type (pn_kind node))
    (Z.land (Z.land (attr_mode (pn_attr node)) 4095) u16_max)
    (if decide (pn_kind node = Directory) then 2 else 1)
    uid gid 0 4096 0.

Definition entry_attr (entry : RuntimeEntry) (uid gid : Z) : FileAttr :=
  match entry with
  | MountRoot => mkFileAttr FUSE_ROOT_INODE 0 0 0 0 0 0 DirectoryType 493 2 uid gid 0 4096 0
  | PromiseNodeEntry _ node => node_attr node uid gid
  end.

Definition parent_inode (runtime : Runtime) (entry : RuntimeEntry) : result Errno Z :=
  match entry with
  | MountRoot => Ok FUSE_ROOT_INODE
  | PromiseNodeEntry promise_id node =>
      match pn_parent_path node with
      | None => Ok FUSE_ROOT_INODE
      | Some parent_path =>
          ok_or (pn_inode <$> (Runtime_promise runtime promise_id ≫= fun tree => pt_nodes tree !! parent_path))
            ENOENT
      end
  end.

(** ** Lookup, attributes and directories *)

(** [name] is an [OsStr]. *)
Definition fuse_lookup (s : IpcState) (uid gid parent : Z) (name : str) : result Errno FileAttr :=
  match to_str name with
  | None => Err EINVAL
  | Some name =>
      entry ← map_err status_to_errno (Runtime_lookup_child (st_runtime s) parent name);
      Ok (entry_attr entry uid gid)
  end.

Definition fuse_getattr (s : IpcState) (uid gid ino : Z) : result Errno FileAttr :=
  entry ← map_err status_to_errno (Runtime_lookup_inode (st_runtime s) ino);
  Ok (entry_attr entry uid gid).

Definition directory_entries (s : IpcState) (inode : Z) : result Errno (list DirectoryEntry) :=
  let runtime := st_runtime s in
  entry ← map_err status_to_errno (Runtime_lookup_inode runtime inode);
  parent ← parent_inode runtime entry;
  children ← map_err status_to_errno (Runtime_read_dir runtime inode);
  Ok (mkDirectoryEntry (bs ".") (RuntimeEntry_inode entry) Directory ::
      mkDirectoryEntry (bs "..") parent Directory :: children).

(** One entry as given to [reply.add]: inode, offset of the next entry, type,
    name. *)
Record Dirent : Type := mkDirent {
  dt_ino : Z;
  dt_offset : Z;
  dt_kind : FileType;
  dt_name : str;
}.

(** [entries.into_iter().enumerate()], from the given index. *)
Fixpoint dirents (index : Z) (entries : list DirectoryEntry) : list Dirent :=
  match entries with
  | [] => []
  | e :: entries =>
      mkDirent (de_inode e) (index + 1) (node_kind_to_file_type (de_kind e)) (de_name e)
        :: dirents (index + 1) entries
  end.

(** [reply.add] until the buffer is full; [full reply d] says that [d] no longer
    fits. *)
Fixpoint fill (full : list Dirent -> Dirent -> bool) (reply ds : list Dirent) : list Dirent :=
  match ds with
  | [] => reply
  | d :: ds => if full reply d then reply else fill full (reply ++ [d]) ds
  end.

Definition fuse_readdir (full : list Dirent -> Dirent -> bool) (s : IpcState) (ino offset : Z) :
    result Errno (list Dirent) :=
  entries ← directory_entries s ino;
  Ok (fill full [] (drop (Z.to_nat offset) (dirents 0 entries))).

Definition fuse_open (s : IpcState) (ino : Z) (read_only : bool) : result Errno Z :=
  if negb read_only then Err EROFS
  else
    entry ← map_err status_to_errno (Runtime_lookup_inode (st_runtime s) ino);
    match entry with
    | PromiseNodeEntry _ node => if decide (pn_kind node = File) then Ok ino else Err EISDIR
    | MountRoot => Err EISDIR
    end.

(** ** Reading *)

Definition fuse_plan_read (s : IpcState) (inode offset size : Z) :
    IpcState * result Errno (option FuseReadPlan) :=
  let runtime := st_runtime s in
  match map_err status_to_errno (Runtime_lookup_inode runtime inode) with
  | Err e => (s, Err e)
  | Ok MountRoot => (s, Err EISDIR)
  | Ok (PromiseNodeEntry promise_id node) =>
      match map_err status_to_errno
              (Runtime_plan_read runtime promise_id (pn_relative_path node) offset size) with
      | Err e => (s, Err e)
      | Ok Eof => (s, Ok None)
      | Ok (RequestPlan plan) =>
          match map_err status_to_errno (Runtime_plan_coalesced_provider_read runtime plan) with
          | Err e => (s, Err e)
          | Ok plan =>
              let '(s, request_id) := next_provider_read_request_id s in
              let provider := cp_provider plan in
              (s, Ok (Some (FuseProvider
                 (mkProviderReadRequest request_id (prp_provider_id provider) (prp_promise_id provider)
                    (prp_relative_path provider) (prp_provider_node_id provider) (prp_offset provider)
                    (prp_length provider))
                 (cp_response_offset plan) (cp_response_length plan))))
          end
      | Ok (MaterializedPlan plan) =>
          (s, Ok (Some (FuseMaterialized (mrp_path plan) (mrp_offset plan) (mrp_length plan))))
      | Ok (CachedPlan bytes) => (s, Ok (Some (FuseCached bytes)))
      end
  end.

Definition fuse_record_cached_read (s : IpcState) (request : ProviderReadRequest) (bytes : list byte) :
    IpcState * result Errno () :=
  let '(runtime, r) := Runtime_record_cached_read (st_runtime s) (rq_promise_id request)
                         (rq_relative_path request) (rq_offset request) bytes in
  (set_runtime runtime s, map_err status_to_errno r).

Definition provider_reply_bytes (bytes : list byte) (response_offset response_length : Z) :
    result Errno (list byte) :=
  let start := response_offset in
  let length := response_length in
  if (start =? 0) && (len bytes <=? length) then Ok bytes
  else
    end_ ← ok_or (checked_add start length) EIO;
    if len bytes <? end_ then Err EIO else Ok (slice bytes start end_).

Section adapter.
Context `{!Router}.
Context (read_at : str -> Z -> Z -> IoResult (list byte)).

(** The file's bytes at [offset], at most [length] of them; fewer than asked
    for is an error. *)
Definition read_materialized_file (path : str) (offset length : Z) : result Errno (list byte) :=
  bytes ← map_err io_error_to_errno (read_at path offset length);
  if negb (len bytes =? length) then Err EIO else Ok bytes.

Definition prefetch_after_provider_read (s : IpcState) (request : ProviderReadRequest) (bytes_read : Z) :
    IpcState :=
  if negb (bytes_read =? rq_length request) then s
  else match u32_try_from bytes_read with
  | None => s
  | Some bytes_read =>
      match Runtime_plan_sequential_prefetch (st_runtime s) (rq_promise_id request)
              (rq_relative_path request) (rq_offset request) bytes_read with
      | Ok (Some plan) =>
          let '(s, request_id) := next_provider_read_request_id s in
          let prefetch_request :=
            mkProviderReadRequest request_id (prp_provider_id plan) (prp_promise_id plan)
              (prp_relative_path plan) (prp_provider_node_id plan) (prp_offset plan) (prp_length plan) in
          let '(s, response) := router_read s prefetch_request in
          match response with
          | Err _ => s
          | Ok response =>
              if decide (rs_status response = PrOk)
              then (fuse_record_cached_read s prefetch_request (rs_bytes response)).1 else s
          end
      | _ => s
      end
  end.

Definition fuse_read (s : IpcState) (ino offset size : Z) : IpcState * result Errno (list byte) :=
  let size := Z.min size MAX_PROVIDER_READ_LEN in
  let '(s, read_plan) := fuse_plan_read s ino offset size in
  match read_plan with
  | Err e => (s, Err e)
  | Ok None => (s, Ok [])
  | Ok (Some (FuseProvider request response_offset response_length)) =>
      let '(s, r) := router_read s request in
      match r with
      | Err error => (s, Err (io_error_to_errno error))
      | Ok response =>
          if decide (rs_status response = PrOk) then
            let '(s, recorded) := fuse_record_cached_read s request (rs_bytes response) in
            match recorded with
            | Err e => (s, Err e)
            | Ok _ =>
                let s := prefetch_after_provider_read s request (len (rs_bytes response)) in
                (s, provider_reply_bytes (rs_bytes response) response_offset response_length)
            end
          else (s, Err (provider_status_to_errno (rs_status response)))
      end
  | Ok (Some (FuseMaterialized path offset length)) => (s, read_materialized_file path offset length)
  | Ok (Some (FuseCached bytes)) => (s, Ok bytes)
  end.
End adapter.

(** ** Slices of a file *)

Lemma provider_reply_bytes_Ok bytes off length out :
  0 <= off -> 0 <= length -> provider_reply_bytes bytes off length = Ok out ->
  out = slice bytes off (off + length) /\ len out <= length /\
  (off + length <= len bytes -> len out = length).
Proof.
  intros Hoff Hl. unfold provider_reply_bytes, checked_add.
  destruct (Z.eqb_spec off 0) as [->|Hz]; cbn [andb].
  - destruct (Z.leb_spec (len bytes) length) as [Hle|Hgt].
    + intros [= <-]. split_and!; [|done|lia]. unfold slice. rewrite drop_0, Z.sub_0_r.
      rewrite take_ge; [done|]. unfold len in Hle. lia.
    + destruct (Z.leb_spec (0 + length) u64_max); cbn; [|done]. destruct (Z.ltb_spec (len bytes) (0 + length)); [done|].
      intros [= <-]. rewrite len_slice by lia. split_and!; [done|lia|lia].
  - destruct (Z.leb_spec (off + length) u64_max); cbn; [|done]. destruct (Z.ltb_spec (len bytes) (off + length)); [done|].
    intros [= <-]. rewrite len_slice by lia. split_and!; [done|lia|lia].
Qed.

(** Enough bytes make a reply. *)
Lemma provider_reply_bytes_covers bytes off length :
  0 <= off -> 0 <= length -> off + length <= len bytes -> off + length <= u64_max ->
  exists out, provider_reply_bytes bytes off length = Ok out.
Proof.
  intros. unfold provider_reply_bytes. destruct (_ && _); [eauto|]. rewrite checked_add_in by lia. cbn.
  case_bool; [lia|eauto].
Qed.

Section honest.
Context (content : CacheKey -> Z -> option byte).

Lemma bytes_sound_slice key offset bytes a b :
  0 <= a -> bytes_sound content key offset bytes -> bytes_sound content key (offset + a) (slice bytes a b).
Proof.
  intros Ha Hs. unfold slice. apply bytes_sound_take.
  pose proof (bytes_sound_drop content key offset bytes (Z.to_nat a) Hs) as H. by rewrite Z2Nat.id in H by lia.
Qed.

(** The providers answer a request with the file's bytes, possibly fewer than asked. *)
Definition provider_honest `{!Router} : Prop := forall s request s' response,
  router_read s request = (s', Ok response) -> response_answers request response -> rs_status response = PrOk ->
  bytes_sound content (mkCacheKey (rq_promise_id request) (rq_relative_path request))
    (rq_offset request) (rs_bytes response).

(** The files at materialized paths hold the promised bytes. *)
Definition materialized_honest (read_at : str -> Z -> Z -> IoResult (list byte)) (rt : Runtime) : Prop :=
  forall pid path t n p offset length bytes,
    file_of rt pid path t n -> pn_materialized_path n = Some p -> read_at p offset length = Ok bytes ->
    bytes_sound content (mkCacheKey pid (pn_relative_path n)) offset bytes.

Context `{!Router} (inv : IpcState -> Prop) (budget : Z) (Hbudget : 0 <= budget).
Context `{!RouterOk inv (op_good content) budget}.

(** Room for [k] more calls: their request ids, and the operations of other
    threads that each may let through. *)
Record ready (k : Z) (s : IpcState) : Prop := {
  rd_sound : rt_sound content (st_runtime s);
  rd_inv : inv s;
  rd_ids : st_next_read_request_id s + k <= u64_max;
  rd_provider : rt_next_provider_id (st_runtime s) + k * (budget + 1) <= u64_max;
  rd_promise : rt_next_promise_id (st_runtime s) + k * (budget + 1) <= u64_max;
}.

Lemma call_ready k s r :
  ready (k + 1) s -> 0 <= k -> 0 <= rq_length r ->
  let s1 := (next_provider_read_request_id s).1 in
  let req := with_request_id r (next_provider_read_request_id s).2 in
  let '(s', x) := router_read s1 req in
  ready k s' /\ result_ok req x /\
  (forall pid path t n, file_of (st_runtime s) pid path t n ->
     exists t' n', file_of (st_runtime s') pid path t' n' /\ same_shape n n').
Proof.
  intros [Hs Hi Hid Hp Hq] Hk Hl. cbv zeta.
  pose proof (router_call s r Hi Hl ltac:(lia)) as Hcall. cbv zeta in Hcall.
  destruct (router_read _ _) as [s' x]. destruct Hcall as (Hi' & Hx & Hn & ops & Hops & Hlen & Hrt).
  assert (Hids : ids_left (st_runtime s) ops) by (unfold ids_left; lia).
  destruct (run_ops_sound content (st_runtime s) ops Hs Hids Hops) as (Hs' & _ & H1 & H2).
  rewrite <- Hrt in Hs', H1, H2. split_and!; [split; (done || lia)|done|].
  intros pid path t n Hf. rewrite Hrt. by eapply run_ops_file.
Qed.

(** Recording an honest answer. *)
Lemma record_ready k s request bytes :
  ready k s -> 1 <= k -> in_u64 (rq_offset request) -> safe_path (rq_relative_path request) ->
  bytes_sound content (mkCacheKey (rq_promise_id request) (rq_relative_path request)) (rq_offset request) bytes ->
  let s' := (fuse_record_cached_read s request bytes).1 in
  ready k s' /\ (forall pid path t n, file_of (st_runtime s) pid path t n -> file_of (st_runtime s') pid path t n).
Proof.
  intros [Hs Hi Hid Hp Hq] Hk Hoff Hsafe Hb.
  assert (Hgood : op_good content (OpRecordCachedRead (rq_promise_id request) (rq_relative_path request)
                    (rq_offset request) bytes)).
  { split; [done|]. intros p. rewrite normalize_safe_id by done. by intros [= <-]. }
  pose proof (run_op_sound content (st_runtime s) _ Hs ltac:(lia) ltac:(lia) Hgood) as Hs'. cbn [run_op] in Hs'.
  pose proof (record_cached_read_cases (st_runtime s) (rq_promise_id request) (rq_relative_path request)
                (rq_offset request) bytes) as Hc.
  unfold fuse_record_cached_read. destruct (Runtime_record_cached_read _ _ _ _ _) as [rt' r]. cbn in *.
  assert (Hsame : rt_promises rt' = rt_promises (st_runtime s) /\
    rt_next_provider_id rt' = rt_next_provider_id (st_runtime s) /\
    rt_next_promise_id rt' = rt_next_promise_id (st_runtime s)).
  { by destruct Hc as [->|(? & ? & ? & _ & _ & _ & _ & _ & _ & _ & ->)]. }
  destruct Hsame as (Hpr & Hn1 & Hn2). split.
  - split; cbn; [done|by apply router_runtime|done|lia|lia].
  - intros pid path t n. unfold file_of. cbn. by rewrite Hpr.
Qed.

Lemma prefetch_ready s request bytes_read :
  provider_honest -> ready 2 s -> in_u64 (rq_offset request) -> in_u32 bytes_read ->
  ready 1 (prefetch_after_provider_read s request bytes_read).
Proof.
  intros Hh Hr Hoff Hbr. unfold prefetch_after_provider_read.
  assert (Hr1 : ready 1 s) by (destruct Hr; split; (done || lia)).
  destruct (Z.eqb_spec bytes_read (rq_length request)) as [Hlen|]; cbn [negb]; [|done].
  unfold u32_try_from. case_bool; [|done].
  destruct (Runtime_plan_sequential_prefetch _ _ _ _ _) as [[plan|]|e] eqn:Hplan; [|done..].
  pose proof (rs_wf _ _ (rd_sound _ _ Hr)) as Hwf.
  destruct (plan_sequential_prefetch_spec _ _ _ _ _ _ Hwf Hoff Hbr Hplan)
    as (t & n & cs & Hf & Hcs & _ & _ & Hpp & Hppid & Hpath & Hnode & Hl0 & Hpo & Hpl & Hpos & _).
  destruct (file_of_canonical _ _ _ _ _ Hwf Hf) as (_ & _ & Hn & [_ Hmax]).
  destruct (rw_tree _ Hwf _ _ (proj1 Hf)) as [Htw _]. destruct (twf_path _ _ Htw _ _ Hn) as [_ Hsafe].
  set (r0 := mkProviderReadRequest 0 (prp_provider_id plan) (prp_promise_id plan) (prp_relative_path plan)
               (prp_provider_node_id plan) (prp_offset plan) (prp_length plan)).
  pose proof (call_ready 1 s r0 Hr ltac:(lia) ltac:(cbn; lia)) as Hcall. cbv zeta in Hcall.
  destruct (next_provider_read_request_id s) as [s1 id]. cbn [fst snd] in Hcall.
  change (mkProviderReadRequest id _ _ _ _ _ _) with (with_request_id r0 id).
  destruct (router_read s1 (with_request_id r0 id)) as [s2 [resp|e]] eqn:Hrr; [|by destruct Hcall].
  destruct Hcall as (Hr2 & Hans & _). case_decide as Hst; [|done].
  apply record_ready; try done; cbn.
  - destruct Hoff. unfold in_u64. lia.
  - by rewrite Hpath.
  - exact (Hh _ _ _ _ Hrr (Hans _ eq_refl) Hst).
Qed.
End honest.

(** ** The read plan of an inode *)

(** What [plan_read] may answer about the file [n] of promise [pid]. *)
Definition planned (s : IpcState) (pid : str) (n : PromiseNode) (offset length : Z)
    (s1 : IpcState) (p : option FuseReadPlan) : Prop :=
  match p with
  | None => s1 = s /\ length = 0
  | Some (FuseProvider req ro rl) =>
      0 < length /\ s1 = (next_provider_read_request_id s).1 /\
      (exists r0, req = with_request_id r0 (next_provider_read_request_id s).2) /\
      rq_promise_id req = pid /\ rq_relative_path req = pn_relative_path n /\
      0 <= ro /\ rq_offset req + ro = offset /\ rl = length /\ ro + rl <= rq_length req <= u32_max /\
      in_u64 (rq_offset req) /\ rq_offset req + rq_length req <= attr_size (pn_attr n)
  | Some (FuseMaterialized path off l) =>
      0 < length /\ s1 = s /\ pn_materialized_path n = Some path /\ off = offset /\ l = length
  | Some (FuseCached bytes) =>
      0 < length /\ s1 = s /\ exists cs, CachePolicy_chunk_size (rt_cache_policy (st_runtime s)) = Some cs /\
        ReadCache_read (rt_read_cache (st_runtime s)) pid (pn_relative_path n) offset length cs = Some bytes
  end.

Lemma fuse_plan_read_spec s ino offset size :
  rt_wf (st_runtime s) -> in_u64 offset -> in_u32 size ->
  match fuse_plan_read s ino offset size with
  | (s1, Err _) => s1 = s
  | (s1, Ok p) => exists pid t n,
      Runtime_lookup_inode (st_runtime s) ino = Ok (PromiseNodeEntry pid n) /\
      file_of (st_runtime s) pid (pn_relative_path n) t n /\ safe_path (pn_relative_path n) /\
      planned s pid n offset (clamp (attr_size (pn_attr n)) offset size) s1 p
  end.
Proof.
  intros Hwf Hoff Hsz. unfold fuse_plan_read.
  destruct (Runtime_lookup_inode (st_runtime s) ino) as [[|pid n]|e] eqn:Hlook; [done| |done].
  cbn [map_err]. destruct (decide (ino = FUSE_ROOT_INODE)) as [->|Hne]; [done|].
  destruct (lookup_inode_Ok _ _ _ Hwf Hne Hlook) as (pid' & t & p & n' & Ht & Hn & Hi & Hp & [= <- <-]).
  destruct (rw_tree _ Hwf _ _ Ht) as [Htw Hty]. destruct (twf_path _ _ Htw _ _ Hn) as [_ Hsafe]. subst p.
  assert (Hg : PromiseTree_get t (pn_relative_path n) = Some n).
  { unfold PromiseTree_get. by rewrite normalize_safe_id. }
  destruct (decide (pn_kind n = File)) as [Hk|Hk].
  2:{ unfold Runtime_plan_read, Runtime_promise. rewrite Ht. cbn. rewrite Hg. cbn. by rewrite decide_True by done. }
  assert (Hf : file_of (st_runtime s) pid (pn_relative_path n) t n) by done.
  destruct Hoff as [Hoff0 Hoff1].
  rewrite (plan_read_file _ _ _ _ _ _ _ Hwf Hf Hoff0 Hsz). cbv zeta.
  set (L := clamp (attr_size (pn_attr n)) offset size).
  assert (HL : 0 <= L <= size /\ (0 < L -> offset + L <= attr_size (pn_attr n))) by (unfold L, clamp; destruct Hsz; lia).
  destruct (Z.eqb_spec L 0) as [Hz|Hz]; cbn [map_err]; [by exists pid, t, n|].
  destruct (pn_materialized_path n) as [mp|] eqn:Hm; cbn [map_err].
  { exists pid, t, n. split_and!; try done. cbn. split_and!; try done. lia. }
  destruct (CachePolicy_chunk_size _ ≫= _) as [bytes|] eqn:Hc; cbn [map_err].
  { apply bind_Some in Hc as (cs & Hcs & Hread). exists pid, t, n. split_and!; try done. cbn. split_and!; try done; [lia|eauto]. }
  case_decide as Hst; cbn [map_err]; [|done].
  set (pp := mkProviderReadPlan _ _ _ _ _ _).
  assert (Hpp : Runtime_plan_provider_read (st_runtime s) pid (pn_relative_path n) offset size = Ok pp).
  { rewrite (plan_provider_read_file _ _ _ t n) by done. fold L.
    replace ((size =? 0) || (attr_size (pn_attr n) <=? offset)) with false by (symmetry; apply orb_false_iff; lia).
    by rewrite decide_True. }
  pose proof (plan_coalesced_covers _ _ _ _ _ _ Hwf (conj Hoff0 Hoff1) Hsz Hpp) as Hcov.
  destruct (Runtime_plan_coalesced_provider_read (st_runtime s) pp) as [c|e]; cbn [map_err]; [|done].
  destruct Hcov as (Hrl & Hro & Hsum & Hle & _ & Hpid & Hpath & _ & (t' & n' & Hf' & Hend) & Hwhich).
  destruct Hf' as (Ht' & Hg' & _). rewrite Ht in Ht'. injection Ht' as <-. rewrite Hg in Hg'. injection Hg' as <-.
  cbn [prp_offset prp_length prp_promise_id prp_relative_path pp] in *.
  assert (Hbase : 0 <= prp_offset (cp_provider c)).
  { destruct Hwhich as [Hw|(cs & Hcs & Hb & _)]; [rewrite Hw; exact Hoff0|]. rewrite Hb.
    apply chunk_base_le; [|lia]. pose proof (rw_policy _ Hwf) as Hpol. rewrite Hcs in Hpol. apply Hpol. }
  unfold next_provider_read_request_id at 1.
  exists pid, t, n. split_and!; try done. cbn. split_and!; try done; try lia; [|unfold in_u64; lia].
  exists (mkProviderReadRequest 0 (prp_provider_id (cp_provider c)) (prp_promise_id (cp_provider c))
    (prp_relative_path (cp_provider c)) (prp_provider_node_id (cp_provider c)) (prp_offset (cp_provider c))
    (prp_length (cp_provider c))). done.
Qed.

(** ** Properties of reading *)

(** A read whose provider has no route is [ENOENT], as if there were no such
    file; [docs/runtime.md] has [EIO] for it. *)
Lemma read_without_route env read_at s ino offset size s1 req ro rl body :
  fuse_plan_read s ino offset (Z.min size MAX_PROVIDER_READ_LEN) = (s1, Ok (Some (FuseProvider req ro rl))) ->
  ProviderReadRequest_into_body req = Ok body -> st_provider_routes s1 !! rq_provider_id req = None ->
  fuse_read (H := routed_by env) read_at s ino offset size = (s1, Err ENOENT).
Proof.
  intros Hplan Hbody Hroute. unfold fuse_read. cbv zeta. rewrite Hplan.
  unfold router_read, routed_by, route_provider_read, route_lookup. rewrite Hbody. cbn. by rewrite Hroute.
Qed.

Section read.
Context (content : CacheKey -> Z -> option byte).
Context `{Hrouter : !Router} (inv : IpcState -> Prop) (budget : Z) (Hbudget : 0 <= budget).
Context `{!RouterOk inv (op_good content) budget}.
Context (read_at : str -> Z -> Z -> IoResult (list byte)).

(** [bytes] are bytes of the file behind [ino], from [offset] on and no more
    than asked for. *)
Definition reads_content (s : IpcState) (ino offset size : Z) (bytes : list byte) : Prop :=
  exists pid n, Runtime_lookup_inode (st_runtime s) ino = Ok (PromiseNodeEntry pid n) /\ pn_kind n = File /\
    len bytes <= clamp (attr_size (pn_attr n)) offset (Z.min size MAX_PROVIDER_READ_LEN) /\
    bytes_sound content (mkCacheKey pid (pn_relative_path n)) offset bytes.

Lemma ready_weaken k k' s : ready content inv budget k s -> k' <= k -> ready content inv budget k' s.
Proof. intros [] Hle. split; try done; nia. Qed.

(** The provider branch of [fuse_read], once the read is planned. *)
Lemma provider_branch s s1 pid t n offset length req ro rl :
  ready content inv budget 3 s -> provider_honest content -> in_u64 offset ->
  file_of (st_runtime s) pid (pn_relative_path n) t n -> safe_path (pn_relative_path n) ->
  planned s pid n offset length s1 (Some (FuseProvider req ro rl)) ->
  let '(s2, x) := router_read s1 req in
  ready content inv budget 2 s2 /\ result_ok req x /\
  forall resp, x = Ok resp -> rs_status resp = PrOk ->
    let '(s3, y) := fuse_record_cached_read s2 req (rs_bytes resp) in
    y = Ok tt /\ ready content inv budget 2 s3 /\
    ready content inv budget 1 (prefetch_after_provider_read s3 req (len (rs_bytes resp))) /\
    forall out, provider_reply_bytes (rs_bytes resp) ro rl = Ok out ->
      len out <= length /\ bytes_sound content (mkCacheKey pid (pn_relative_path n)) offset out.
Proof.
  intros Hr Hh Hoff Hf Hsafe (HL & -> & [r0 ->] & Hpid & Hpath & Hro & Hsum & -> & Hle & Ho & Hend).
  cbn [rq_promise_id rq_relative_path rq_offset rq_length with_request_id] in *.
  pose proof (call_ready content inv budget Hbudget 2 s r0 Hr ltac:(lia) ltac:(lia)) as Hcall. cbv zeta in Hcall.
  set (s1 := (next_provider_read_request_id s).1) in *.
  set (req := with_request_id r0 (next_provider_read_request_id s).2) in *.
  destruct (router_read s1 req) as [s2 x] eqn:Hrr. destruct Hcall as (Hr2 & Hx & Hfile).
  split_and!; [done..|]. intros resp -> Hst. destruct (Hx resp eq_refl) as (_ & _ & _ & Hlen & _).
  specialize (Hlen Hst). pose proof (Hh _ _ _ _ Hrr (Hx resp eq_refl) Hst) as Hb. cbn in Hlen, Hb.
  destruct (Hfile _ _ _ _ Hf) as (t2 & n2 & Hf2 & Hsh).
  assert (Hsize : attr_size (pn_attr n2) = attr_size (pn_attr n)) by (destruct Hsh as (_ & _ & _ & _ & _ & ->); done).
  pose proof (record_cached_read_ok (st_runtime s2) pid (pn_relative_path n) t2 n2 (rq_offset r0) (rs_bytes resp)
    (rs_wf _ _ (rd_sound _ _ _ _ _ Hr2)) Hf2 Ho ltac:(lia)) as Hrec.
  pose proof (record_ready content inv budget Hbudget 2 s2 req (rs_bytes resp) Hr2 ltac:(lia) Ho) as Hrd.
  unfold req in Hrd. cbn in Hrd. rewrite Hpath in Hrd. specialize (Hrd Hsafe). rewrite Hpath in Hb. specialize (Hrd Hb).
  fold req in Hrd. unfold fuse_record_cached_read in *.
  cbn [rq_promise_id rq_relative_path rq_offset req with_request_id] in *. rewrite Hpid, Hpath in *.
  destruct (Runtime_record_cached_read _ _ _ _ _) as [rt3 y] eqn:Hreceq. cbn [fst snd] in *. subst y.
  destruct Hrd as [Hr3 _]. split_and!; [done..| |].
  - apply prefetch_ready; try done. pose proof (len_nonneg (rs_bytes resp)). unfold in_u32. lia.
  - intros out Hout. destruct (provider_reply_bytes_Ok _ _ _ _ Hro (Z.lt_le_incl _ _ HL) Hout) as (-> & Hlo & _). split; [done|].
    rewrite <- Hsum. by apply bytes_sound_slice.
Qed.

Lemma min_u32 size : in_u32 size -> in_u32 (Z.min size MAX_PROVIDER_READ_LEN).
Proof. unfold in_u32, MAX_PROVIDER_READ_LEN. lia. Qed.

(** The read-cache branch. *)
Lemma cached_branch s s1 pid t n offset length bytes :
  rt_sound content (st_runtime s) -> in_u64 offset -> file_of (st_runtime s) pid (pn_relative_path n) t n ->
  0 < length -> offset + length <= attr_size (pn_attr n) ->
  planned s pid n offset length s1 (Some (FuseCached bytes)) ->
  len bytes = length /\ bytes_sound content (mkCacheKey pid (pn_relative_path n)) offset bytes.
Proof.
  intros [Hwf Hc] [Hoff _] Hf Hl Hend (_ & _ & cs & Hcs & Hread).
  destruct (file_of_canonical _ _ _ _ _ Hwf Hf) as (_ & _ & _ & [_ Hmax]).
  apply CachePolicy_chunk_size_pos in Hcs as [Hcs _].
  eapply cache_read_sound; [apply Hwf|exact Hc|exact Hcs|exact Hoff|exact Hl|lia|exact Hread].
Qed.

Lemma read_materialized_file_Ok path offset length out :
  read_materialized_file read_at path offset length = Ok out ->
  read_at path offset length = Ok out /\ len out = length.
Proof.
  unfold read_materialized_file. destruct (read_at path offset length) as [b|e]; cbn; [|done].
  destruct (Z.eqb_spec (len b) length); cbn; [|done]. by intros [= ->].
Qed.

(** C3: a FUSE read returns bytes of the promised file at the requested offset,
    never more than requested, than [MAX_PROVIDER_READ_LEN] or than the file
    has left, whichever way it is served (provider, read-through cache,
    materialized file), whatever other threads do to the runtime during the
    provider calls; and it leaves the cache sound for the next read. *)
Theorem fuse_read_returns_content s ino offset size :
  ready content inv budget 3 s -> provider_honest content ->
  materialized_honest content read_at (st_runtime s) -> in_u64 offset -> in_u32 size ->
  let '(s', r) := fuse_read read_at s ino offset size in
  ready content inv budget 1 s' /\ forall bytes, r = Ok bytes -> reads_content s ino offset size bytes.
Proof.
  intros Hr Hh Hm Hoff Hsz. unfold fuse_read, reads_content. cbv zeta.
  set (size' := Z.min size MAX_PROVIDER_READ_LEN). pose proof (min_u32 _ Hsz : in_u32 size') as Hsz'.
  pose proof (rd_sound _ _ _ _ _ Hr) as Hsound.
  pose proof (fuse_plan_read_spec s ino offset size' (rs_wf _ _ Hsound) Hoff Hsz') as Hplan.
  pose proof (ready_weaken _ 1 _ Hr ltac:(lia)) as Hr1.
  destruct (fuse_plan_read s ino offset size') as [s1 [p|e]]; [|by subst].
  destruct Hplan as (pid & t & n & Hlook & Hf & Hsafe & Hp). pose proof Hf as (_ & _ & Hk).
  set (L := clamp (attr_size (pn_attr n)) offset size') in *.
  assert (HL : 0 < L -> offset + L <= attr_size (pn_attr n)) by (unfold L, clamp; destruct Hsz'; lia).
  assert (Hdone : forall out, len out <= L -> bytes_sound content (mkCacheKey pid (pn_relative_path n)) offset out ->
    exists pid n, Runtime_lookup_inode (st_runtime s) ino = Ok (PromiseNodeEntry pid n) /\ pn_kind n = File /\
      len out <= clamp (attr_size (pn_attr n)) offset size' /\
      bytes_sound content (mkCacheKey pid (pn_relative_path n)) offset out) by eauto 10.
  destruct p as [[req ro rl|path off l|bytes]|].
  - pose proof (provider_branch _ _ _ _ _ _ _ _ _ _ Hr Hh Hoff Hf Hsafe Hp) as Hb.
    destruct (router_read s1 req) as [s2 [resp|e]]; destruct Hb as (Hr2 & _ & Hb);
      pose proof (ready_weaken _ 1 _ Hr2 ltac:(lia)) as Hr21; [|done].
    case_decide as Hst; [|done]. specialize (Hb resp eq_refl Hst).
    destruct (fuse_record_cached_read s2 req (rs_bytes resp)) as [s3 y].
    destruct Hb as (-> & _ & Hr3 & Hout). split; [done|]. intros out Ho. apply Hdone; by apply Hout.
  - destruct Hp as (HL0 & -> & Hmp & -> & ->). split; [done|].
    intros out [Hread Hlen]%read_materialized_file_Ok. apply Hdone; [lia|]. by eapply Hm.
  - pose proof Hp as (HL0 & -> & _). split; [done|]. intros out [= <-].
    destruct (cached_branch s s pid t n offset L bytes) as [Hlen Hs]; try done; [by apply HL|]. apply Hdone; [lia|done].
  - destruct Hp as [-> HL0]. split; [done|]. intros out [= <-]. apply Hdone; [rewrite len_nil; lia|].
    intros i b. by rewrite zlookup_nil.
Qed.

(** The provider's answer to this read: all the bytes asked for. *)
Definition provider_answers_fully (s : IpcState) (ino offset size : Z) : Prop :=
  forall s1 req ro rl,
    fuse_plan_read s ino offset (Z.min size MAX_PROVIDER_READ_LEN) = (s1, Ok (Some (FuseProvider req ro rl))) ->
    exists s2 resp, router_read s1 req = (s2, Ok resp) /\ rs_status resp = PrOk /\
      len (rs_bytes resp) = rq_length req.

(** The materialized file, if there is one, is as long as promised. *)
Definition materialized_complete (n : PromiseNode) : Prop :=
  forall path offset length, pn_materialized_path n = Some path -> 0 <= offset -> 0 < length ->
    offset + length <= attr_size (pn_attr n) ->
    exists bytes, read_at path offset length = Ok bytes /\ len bytes = length.

(** The chunk of the last byte ends within 64 bits. *)
Definition coalescible (rt : Runtime) (offset : Z) : Prop :=
  match rt_cache_policy rt with
  | ReadThrough cs => chunk_base offset cs + cs <= u64_max
  | NoCache => True
  end.

Lemma fuse_plan_read_available s ino offset size pid t n :
  rt_wf (st_runtime s) -> in_u64 offset -> in_u32 size ->
  Runtime_lookup_inode (st_runtime s) ino = Ok (PromiseNodeEntry pid n) ->
  file_of (st_runtime s) pid (pn_relative_path n) t n -> pt_state t = Available ->
  coalescible (st_runtime s) offset ->
  exists s1 p, fuse_plan_read s ino offset size = (s1, Ok p).
Proof.
  intros Hwf Hoff Hsz Hlook Hf Hst Hco. pose proof Hoff as [Hoff0 _]. unfold fuse_plan_read. rewrite Hlook. cbn [map_err].
  rewrite (plan_read_file _ _ _ _ _ _ _ Hwf Hf Hoff0 Hsz). cbv zeta.
  set (L := clamp (attr_size (pn_attr n)) offset size).
  destruct (Z.eqb_spec L 0) as [|HL]; cbn [map_err]; [eauto|].
  destruct (pn_materialized_path n); cbn [map_err]; [eauto|].
  destruct (CachePolicy_chunk_size _ ≫= _); cbn [map_err]; [eauto|].
  rewrite decide_True by done. cbn [map_err]. set (pp := mkProviderReadPlan _ _ _ _ _ _).
  assert (Hpp : Runtime_plan_provider_read (st_runtime s) pid (pn_relative_path n) offset size = Ok pp).
  { rewrite (plan_provider_read_file _ _ _ t n) by done. fold L.
    replace ((size =? 0) || (attr_size (pn_attr n) <=? offset)) with false
      by (unfold L, clamp in HL; destruct Hsz; symmetry; apply orb_false_iff; lia).
    by rewrite decide_True. }
  pose proof (plan_coalesced_covers _ _ _ _ _ _ Hwf Hoff Hsz Hpp) as Hcov.
  destruct (Runtime_plan_coalesced_provider_read (st_runtime s) pp) as [c|e]; cbn [map_err]; [by eauto|].
  destruct Hcov as (_ & cs & Hcs & Hover). unfold coalescible in Hco. rewrite Hcs in Hco. lia.
Qed.

(** A read of an available file that is answered in full. *)
Lemma fuse_read_full s ino offset size pid t n :
  ready content inv budget 3 s -> provider_honest content ->
  materialized_honest content read_at (st_runtime s) -> in_u64 offset -> in_u32 size ->
  Runtime_lookup_inode (st_runtime s) ino = Ok (PromiseNodeEntry pid n) ->
  file_of (st_runtime s) pid (pn_relative_path n) t n -> pt_state t = Available ->
  coalescible (st_runtime s) offset -> provider_answers_fully s ino offset size -> materialized_complete n ->
  exists bytes, (fuse_read read_at s ino offset size).2 = Ok bytes /\
    len bytes = clamp (attr_size (pn_attr n)) offset (Z.min size MAX_PROVIDER_READ_LEN) /\
    forall i, 0 <= i < len bytes ->
      content (mkCacheKey pid (pn_relative_path n)) (offset + i) = zlookup bytes i.
Proof.
  intros Hr Hh Hm Hoff Hsz Hlook Hf Hst Hco Hfull Hmc.
  enough (Hex : exists bytes, (fuse_read read_at s ino offset size).2 = Ok bytes /\
    len bytes = clamp (attr_size (pn_attr n)) offset (Z.min size MAX_PROVIDER_READ_LEN) /\
    bytes_sound content (mkCacheKey pid (pn_relative_path n)) offset bytes).
  { destruct Hex as (bytes & H1 & H2 & H3). exists bytes. split_and!; try done. intros i Hi.
    destruct (proj2 (zlookup_is_Some bytes i) Hi) as [b Hb]. rewrite Hb. by apply H3. }
  unfold fuse_read, provider_answers_fully in *. cbv zeta.
  set (size' := Z.min size MAX_PROVIDER_READ_LEN) in *. pose proof (min_u32 _ Hsz : in_u32 size') as Hsz'.
  pose proof (rd_sound _ _ _ _ _ Hr) as Hsound. pose proof (rs_wf _ _ Hsound) as Hwf.
  pose proof (fuse_plan_read_spec s ino offset size' Hwf Hoff Hsz') as Hplan.
  destruct (fuse_plan_read_available s ino offset size' pid t n) as (s1 & p & Heq); try done.
  rewrite Heq in *. destruct Hplan as (pid' & t' & n' & Hlook' & _ & Hsafe & Hp).
  rewrite Hlook in Hlook'. injection Hlook' as <- <-.
  set (L := clamp (attr_size (pn_attr n)) offset size') in *.
  assert (HL : 0 < L -> offset + L <= attr_size (pn_attr n)) by (unfold L, clamp; destruct Hsz'; lia).
  destruct p as [[req ro rl|path off l|bytes]|].
  - destruct (Hfull _ _ _ _ eq_refl) as (s2 & resp & Hrr & Hok & Hlen).
    pose proof (provider_branch _ _ _ _ _ _ _ _ _ _ Hr Hh Hoff Hf Hsafe Hp) as Hb. rewrite Hrr in Hb |- *.
    destruct Hb as (_ & _ & Hb). rewrite decide_True by done. specialize (Hb resp eq_refl Hok).
    destruct (fuse_record_cached_read s2 req (rs_bytes resp)) as [s3 y]. destruct Hb as (-> & _ & _ & Hout). cbn [snd].
    destruct Hp as (HL0 & _ & _ & _ & _ & Hro & Hsum & -> & Hle & Ho & Hend).
    destruct (provider_reply_bytes_covers (rs_bytes resp) ro L) as [out Hreply]; [lia..|unfold u32_max, u64_max in *; lia|].
    exists out. destruct (Hout out Hreply) as [_ Hs].
    destruct (provider_reply_bytes_Ok _ _ _ _ Hro (Z.lt_le_incl _ _ HL0) Hreply) as (_ & _ & Hexact).
    split_and!; try done. apply Hexact. lia.
  - destruct Hp as (HL0 & -> & Hmp & -> & ->). destruct Hoff as [Hoff0 _].
    destruct (Hmc path offset L) as (bytes & Hread & Hlen); [done..|by apply HL|]. exists bytes. cbn [snd].
    unfold read_materialized_file. rewrite Hread. cbn. rewrite Hlen, Z.eqb_refl. cbn. split_and!; try done.
    by eapply Hm.
  - pose proof Hp as (HL0 & -> & _). exists bytes. split; [done|].
    destruct (cached_branch s s pid t n offset L bytes) as [Hlen Hs]; try done. by apply HL.
  - destruct Hp as [-> HL0]. exists []. split_and!; [done|by rewrite HL0|]. intros i b. by rewrite zlookup_nil.
Qed.

(** C17: a read of an available file completes.  The reader gets exactly the
    bytes of the file from the requested offset on, as many as were asked for,
    but no more than [MAX_PROVIDER_READ_LEN] (256 KiB) and no more than the file
    has left; a longer read is short, and the caller, who reads with direct I/O,
    asks again for the rest.  Assumed is that the promise is available, that the
    provider answers the planned request honestly and in full, that a local copy,
    if the file was materialized, is complete, and, under the read-through cache,
    that the cache chunk of the offset ends within 64 bits. *)
Theorem fuse_read_complete s ino offset size pid t n :
  ready content inv budget 3 s -> provider_honest content ->
  materialized_honest content read_at (st_runtime s) -> in_u64 offset -> in_u32 size ->
  Runtime_lookup_inode (st_runtime s) ino = Ok (PromiseNodeEntry pid n) ->
  file_of (st_runtime s) pid (pn_relative_path n) t n -> pt_state t = Available ->
  coalescible (st_runtime s) offset -> provider_answers_fully s ino offset size -> materialized_complete n ->
  exists bytes, (fuse_read read_at s ino offset size).2 = Ok bytes /\
    len bytes = clamp (attr_size (pn_attr n)) offset (Z.min size MAX_PROVIDER_READ_LEN) /\
    forall i, 0 <= i < len bytes ->
      content (mkCacheKey pid (pn_relative_path n)) (offset + i) = zlookup bytes i.
Proof. apply fuse_read_full. Qed.

(** C31: the error replies of a read, as the code gives them.  Unknown inodes give
    [ENOENT], the mount root [EISDIR], but a directory of a promise [EINVAL],
    where [docs/runtime.md] has [EISDIR] for both; a file whose provider is gone
    and that is neither materialized nor cached gives [EIO]; a failed or refused
    provider read gives the errno of the failure, and nothing of it reaches the
    cache; and with the daemon's own routing, whatever other threads do, a read
    that needs a provider without a route gives [ENOENT], where
    [docs/runtime.md] has [EIO]. *)
Theorem fuse_read_errors s ino offset size :
  rt_wf (st_runtime s) -> in_u64 offset -> in_u32 size ->
  let size' := Z.min size MAX_PROVIDER_READ_LEN in
  let '(s', r) := fuse_read read_at s ino offset size in
  (forall e, Runtime_lookup_inode (st_runtime s) ino = Err e -> (s', r) = (s, Err ENOENT)) /\
  (Runtime_lookup_inode (st_runtime s) ino = Ok MountRoot -> (s', r) = (s, Err EISDIR)) /\
  (forall pid n, Runtime_lookup_inode (st_runtime s) ino = Ok (PromiseNodeEntry pid n) ->
     pn_kind n = Directory -> (s', r) = (s, Err EINVAL)) /\
  (forall pid t n, Runtime_lookup_inode (st_runtime s) ino = Ok (PromiseNodeEntry pid n) ->
     file_of (st_runtime s) pid (pn_relative_path n) t n -> pt_state t = PromiseProviderGone ->
     pn_materialized_path n = None -> 0 < clamp (attr_size (pn_attr n)) offset size' ->
     (forall cs, rt_cache_policy (st_runtime s) = ReadThrough cs ->
        ReadCache_read (rt_read_cache (st_runtime s)) pid (pn_relative_path n) offset
          (clamp (attr_size (pn_attr n)) offset size') cs = None) ->
     (s', r) = (s, Err EIO)) /\
  (forall s1 req ro rl s2 x, fuse_plan_read s ino offset size' = (s1, Ok (Some (FuseProvider req ro rl))) ->
     router_read s1 req = (s2, x) ->
     match x with
     | Err e => (s', r) = (s2, Err (io_error_to_errno e))
     | Ok resp => rs_status resp <> PrOk -> (s', r) = (s2, Err (provider_status_to_errno (rs_status resp)))
     end) /\
  (forall env s1 req ro rl body, fuse_plan_read s ino offset size' = (s1, Ok (Some (FuseProvider req ro rl))) ->
     ProviderReadRequest_into_body req = Ok body -> st_provider_routes s1 !! rq_provider_id req = None ->
     fuse_read (H := routed_by env) read_at s ino offset size = (s1, Err ENOENT)).
Proof.
  intros Hwf Hoff Hsz size'. destruct (fuse_read read_at s ino offset size) as [s' r] eqn:Heq.
  unfold fuse_read in Heq. cbv zeta in Heq. fold size' in Heq.
  pose proof (min_u32 _ Hsz : in_u32 size') as Hsz'. destruct Hoff as [Hoff0 _]. unfold fuse_plan_read in Heq.
  split_and!.
  - intros e He. rewrite He in Heq. by rewrite (lookup_inode_Err _ _ _ He) in Heq.
  - intros He. by rewrite He in Heq.
  - intros pid n He Hk. rewrite He in Heq. cbn [map_err] in Heq.
    destruct (decide (ino = FUSE_ROOT_INODE)) as [->|Hne]; [done|].
    destruct (lookup_inode_Ok _ _ _ Hwf Hne He) as (pid' & t & p & n' & Ht & Hn & _ & Hp & [= <- <-]). subst p.
    destruct (rw_tree _ Hwf _ _ Ht) as [Htw _]. destruct (twf_path _ _ Htw _ _ Hn) as [_ Hsafe].
    unfold Runtime_plan_read, Runtime_promise, PromiseTree_get in Heq. rewrite Ht in Heq. cbn in Heq.
    rewrite normalize_safe_id in Heq by done. cbn in Heq. rewrite Hn in Heq. cbn in Heq.
    rewrite decide_True in Heq by congruence. done.
  - intros pid t n He Hf Hst Hm HL Hmiss. rewrite He in Heq. cbn [map_err] in Heq.
    rewrite (plan_read_file _ _ _ _ _ _ _ Hwf Hf Hoff0 Hsz') in Heq. cbv zeta in Heq.
    destruct (Z.eqb_spec (clamp (attr_size (pn_attr n)) offset size') 0); [lia|]. rewrite Hm in Heq.
    assert (Hnone : (cs ← CachePolicy_chunk_size (rt_cache_policy (st_runtime s));
      ReadCache_read (rt_read_cache (st_runtime s)) pid (pn_relative_path n) offset
          (clamp (attr_size (pn_attr n)) offset size') cs) = None).
    { destruct (CachePolicy_chunk_size _) as [cs|] eqn:Hcs; [|done].
      apply CachePolicy_chunk_size_pos in Hcs as [_ Hcs]. by apply Hmiss. }
    rewrite Hnone, decide_False in Heq by congruence. done.
  - fold (fuse_plan_read s ino offset size') in Heq. intros s1 req ro rl s2 x Hplan Hrr.
    rewrite Hplan, Hrr in Heq. destruct x as [resp|e]; [|done].
    intros Hst. by rewrite decide_False in Heq.
  - intros env s1 req ro rl body. apply read_without_route.
Qed.

(** C36: a short but honest answer.  When the request was widened to a cache
    chunk and the answer ends before the requested range does, the reader gets
    [EIO] unless the range starts with the chunk, in which case the bytes that
    are there are returned; without the cache, where the request is never
    widened, a short answer always reaches the reader. *)
Theorem fuse_read_short_answer s ino offset size s1 req ro rl s2 resp :
  ready content inv budget 3 s -> provider_honest content -> in_u64 offset -> in_u32 size ->
  fuse_plan_read s ino offset (Z.min size MAX_PROVIDER_READ_LEN) = (s1, Ok (Some (FuseProvider req ro rl))) ->
  router_read s1 req = (s2, Ok resp) -> rs_status resp = PrOk -> len (rs_bytes resp) < ro + rl ->
  (fuse_read read_at s ino offset size).2 = (if ro =? 0 then Ok (rs_bytes resp) else Err EIO) /\
  (rt_cache_policy (st_runtime s) = NoCache -> ro = 0).
Proof.
  intros Hr Hh Hoff Hsz Hplan Hrr Hst Hshort. split.
  - unfold fuse_read. cbv zeta. pose proof (min_u32 _ Hsz) as Hsz'.
    pose proof (fuse_plan_read_spec s ino offset _ (rs_wf _ _ (rd_sound _ _ _ _ _ Hr)) Hoff Hsz') as Hspec.
    rewrite Hplan in Hspec |- *. destruct Hspec as (pid & t & n & _ & Hf & Hsafe & Hp).
    pose proof (provider_branch _ _ _ _ _ _ _ _ _ _ Hr Hh Hoff Hf Hsafe Hp) as Hb. rewrite Hrr in Hb |- *.
    destruct Hb as (_ & _ & Hb). rewrite decide_True by done. specialize (Hb resp eq_refl Hst).
    destruct (fuse_record_cached_read s2 req (rs_bytes resp)) as [s3 y]. destruct Hb as (-> & _). cbn [snd].
    destruct Hp as (_ & _ & _ & _ & _ & Hro & _ & -> & Hle & _). unfold provider_reply_bytes.
    destruct (Z.eqb_spec ro 0) as [->|Hz]; cbn [andb].
    + rewrite (proj2 (Z.leb_le _ _)) by lia. done.
    + rewrite checked_add_in by (unfold u32_max, u64_max in *; lia). cbn. by rewrite (proj2 (Z.ltb_lt _ _)) by lia.
  - intros Hno. unfold fuse_plan_read in Hplan.
    destruct (map_err _ (Runtime_lookup_inode _ _)) as [[|pid n]|e]; try done.
    destruct (map_err _ (Runtime_plan_read _ _ _ _ _)) as [[]|]; try done.
    unfold Runtime_plan_coalesced_provider_read in Hplan. rewrite Hno in Hplan. cbn in Hplan. by injection Hplan.
Qed.
End read.

(** ** A sample mount: one promise of one provider, read through a cache *)

Definition sample_content (key : CacheKey) (offset : Z) : option byte := Some (byte_of 97).

Definition sample_read_env (answer : str) (id : Z) : ReadEnv :=
  mkReadEnv (Ok tt) [EnvComplete [1] (mkProviderReadResponseBody id PbOk answer)].

Definition sample_mount_ops : list RuntimeOp :=
  [OpRegisterProvider; OpCommitPromise (built 1 sample_calls); OpSetCachePolicy (ReadThrough 4)].

Definition sample_mount : IpcState :=
  (register_provider_route (IpcState_new (run_ops Runtime_new sample_mount_ops)) 1 42 7 (Ok tt)).1.

Definition sample_read_at (path : str) (offset length : Z) : IoResult (list byte) :=
  Err (mkIoError KNotFound (bs "no such file")).

Lemma sample_router_ok answer : @RouterOk (routed (sample_read_env answer)) ipc_inv (op_good sample_content) 1.
Proof. apply routed_ok; [lia|done|]. intros i. split; [constructor|done]. Qed.

Lemma sample_provider_honest answer :
  Forall (fun b => b = byte_of 97) answer ->
  @provider_honest sample_content (routed (sample_read_env answer)).
Proof.
  intros Hans s r s' resp Hr _ _. apply route_response_source in Hr as (reg & body & Hin & Hbody).
  apply list_elem_of_singleton in Hin. injection Hin as -> ->.
  assert (Hall : Forall (fun b => b = byte_of 97) (rs_bytes resp)).
  { unfold ProviderReadResponse_from_body, ProviderReadResponse_validated in Hbody. inv_ok. by subst resp. }
  intros i b Hi. unfold sample_content. f_equal. symmetry. rewrite Forall_lookup in Hall.
  unfold zlookup in Hi. destruct (decide _) in Hi; [by eapply Hall|done].
Qed.

Lemma sample_mount_ready_1000 : ready sample_content ipc_inv 1 1000 sample_mount.
Proof.
  assert (Hty : Forall (op_good sample_content) sample_mount_ops).
  { repeat apply Forall_cons_2; try apply Forall_nil_2; (split; [|done]); try exact I.
    - apply commit_typed, sample_calls_typed.
    - split; vm_compute; congruence. }
  split; [| |vm_compute; congruence..].
  - apply run_ops_sound; [split; [apply (run_ops_wf []); [constructor|vm_compute; reflexivity]|apply map_Forall_empty]
      |vm_compute; split; congruence|done].
  - apply (prune_inv _ ∅). apply (reachable_inv (run_ops Runtime_new sample_mount_ops)).
    eapply rtc_l; [apply (step_env_route _ _ 1 42 7 (Ok tt))|apply rtc_refl].
Qed.

Lemma sample_mount_ready : ready sample_content ipc_inv 1 3 sample_mount.
Proof. eapply ready_weaken; [lia|apply sample_mount_ready_1000|lia]. Qed.

Lemma sample_materialized_honest rt : materialized_honest sample_content sample_read_at rt.
Proof. intros pid path t n p offset length bytes Hf Hp Hread. discriminate Hread. Qed.

(** The requests that the reads below lead to, and the provider's answers. *)
Lemma sample_plan offset size answer base :
  (fuse_plan_read sample_mount 6 offset size).2 =
    Ok (Some (FuseProvider (mkProviderReadRequest 1 1 (bs "promise-1") (bs "docs/readme.txt") (bs "remote-file-1") base 4)
                2 2)) ->
  (@router_read (routed (sample_read_env answer)) (fuse_plan_read sample_mount 6 offset size).1
     (mkProviderReadRequest 1 1 (bs "promise-1") (bs "docs/readme.txt") (bs "remote-file-1") base 4)).2 =
    Ok (mkProviderReadResponse 1 PrOk answer) ->
  exists s1 req s2 resp,
    fuse_plan_read sample_mount 6 offset size = (s1, Ok (Some (FuseProvider req 2 2))) /\
    @router_read (routed (sample_read_env answer)) s1 req = (s2, Ok resp) /\ rs_status resp = PrOk /\
    rs_bytes resp = answer /\ rq_length req = 4.
Proof.
  destruct (fuse_plan_read sample_mount 6 offset size) as [s1 p]. cbn. intros ->.
  destruct (router_read _ _) as [s2 x] eqn:Hr. cbn. intros ->. eauto 10.
Qed.

Lemma fuse_read_returns_content_witness :
  let '(s', r) := @fuse_read (routed (sample_read_env (bs "aaaa"))) sample_read_at sample_mount 6 5 2 in
  r = Ok (bs "aa") /\ reads_content sample_content sample_mount 6 5 2 (bs "aa").
Proof.
  assert (Hr : (@fuse_read (routed (sample_read_env (bs "aaaa"))) sample_read_at sample_mount 6 5 2).2 = Ok (bs "aa"))
    by (vm_compute; reflexivity).
  pose proof (fuse_read_returns_content sample_content ipc_inv 1 ltac:(lia)
    (RouterOk0 := sample_router_ok (bs "aaaa")) sample_read_at sample_mount 6 5 2 sample_mount_ready
    (sample_provider_honest (bs "aaaa") ltac:(by repeat constructor)) (sample_materialized_honest _)) as H.
  destruct (@fuse_read _ sample_read_at sample_mount 6 5 2) as [s' r]. cbn in Hr. subst r.
  split; [reflexivity|]. apply H; [split; vm_compute; congruence..|reflexivity].
Defined.

Lemma sample_file : exists t n,
  Runtime_lookup_inode (st_runtime sample_mount) 6 = Ok (PromiseNodeEntry (bs "promise-1") n) /\
  file_of (st_runtime sample_mount) (bs "promise-1") (pn_relative_path n) t n /\ pt_state t = Available /\
  attr_size (pn_attr n) = 12 /\ pn_materialized_path n = None.
Proof.
  set (n := mkPromiseNode 5 6 (bs "docs/readme.txt") (Some (bs "docs")) (bs "readme.txt") (bs "remote-file-1") None
              File (mkNodeAttr 420 12 0)).
  assert (Hl : Runtime_lookup_inode (st_runtime sample_mount) 6 = Ok (PromiseNodeEntry (bs "promise-1") n))
    by (vm_compute; reflexivity).
  assert (Hs : pt_state <$> rt_promises (st_runtime sample_mount) !! bs "promise-1" = Some Available)
    by (vm_compute; reflexivity).
  assert (Hg : (rt_promises (st_runtime sample_mount) !! bs "promise-1" ≫= fun t =>
    PromiseTree_get t (bs "docs/readme.txt")) = Some n) by (vm_compute; reflexivity).
  destruct (rt_promises (st_runtime sample_mount) !! bs "promise-1") as [t|] eqn:Ht; [|discriminate Hs].
  exists t, n. injection Hs as Hs. split; [exact Hl|]. split; [split; [exact Ht|split; [exact Hg|reflexivity]]|].
  split; [exact Hs|split; reflexivity].
Qed.

Lemma fuse_read_complete_witness :
  (@fuse_read (routed (sample_read_env (bs "aaaa"))) sample_read_at sample_mount 6 10 100).2 = Ok (bs "aa") /\
  exists bytes, (@fuse_read (routed (sample_read_env (bs "aaaa"))) sample_read_at sample_mount 6 10 100).2 = Ok bytes /\
    len bytes = 2.
Proof.
  split; [vm_compute; reflexivity|].
  destruct sample_file as (t & n & Hlook & Hf & Hst & Hsize & Hm).
  destruct (fuse_read_complete sample_content ipc_inv 1 ltac:(lia)
    (RouterOk0 := sample_router_ok (bs "aaaa")) sample_read_at sample_mount 6 10 100 (bs "promise-1") t n sample_mount_ready
    (sample_provider_honest (bs "aaaa") ltac:(by repeat constructor)) (sample_materialized_honest _)
    ltac:(split; vm_compute; congruence) ltac:(split; vm_compute; congruence) Hlook Hf Hst) as (bytes & H1 & H2 & _).
  - vm_compute. congruence.
  - destruct (sample_plan 10 100 (bs "aaaa") 8) as (s1 & req & s2 & resp & Hp & Hr & Hok & Hb & Hl);
      [vm_compute; reflexivity..|].
    intros s1' req' ro rl. change (Z.min 100 MAX_PROVIDER_READ_LEN) with 100. rewrite Hp. intros [= <- <- <- <-].
    exists s2, resp. rewrite Hb, Hl. split; [exact Hr|split; [exact Hok|reflexivity]].
  - intros path offset length Hpath. rewrite Hm in Hpath. discriminate Hpath.
  - exists bytes. split; [exact H1|]. rewrite H2, Hsize. reflexivity.
Defined.

Lemma fuse_read_errors_witness :
  @fuse_read (routed (sample_read_env (bs "aaaa"))) sample_read_at sample_mount 1 0 8 = (sample_mount, Err EISDIR) /\
  @fuse_read (routed (sample_read_env (bs "aaaa"))) sample_read_at sample_mount 99 0 8 = (sample_mount, Err ENOENT).
Proof.
  pose proof (fun ino => @fuse_read_errors (routed (sample_read_env (bs "aaaa"))) sample_read_at sample_mount ino 0 8
    (rs_wf _ _ (rd_sound _ _ _ _ _ sample_mount_ready)) ltac:(split; vm_compute; congruence)
    ltac:(split; vm_compute; congruence)) as H.
  split; [specialize (H 1)|specialize (H 99)]; destruct (fuse_read _ _ _ _ _) as [s' r];
    destruct H as (H1 & H2 & _).
  - by apply H2.
  - apply (H1 NotFound). vm_compute. reflexivity.
Defined.

(** The provider answers a request for bytes 4 to 8 with bytes 4 to 7: a reader
    of bytes 6 to 8 gets an error instead of the one byte that is there. *)
Lemma fuse_read_short_answer_witness :
  (@fuse_read (routed (sample_read_env (bs "aaa"))) sample_read_at sample_mount 6 6 2).2 = Err EIO.
Proof.
  destruct (sample_plan 6 2 (bs "aaa") 4) as (s1 & req & s2 & resp & H1 & H2 & H3 & H4 & _); [vm_compute; reflexivity..|].
  by destruct (fuse_read_short_answer sample_content ipc_inv 1 ltac:(lia)
    (RouterOk0 := sample_router_ok (bs "aaa")) sample_read_at sample_mount 6 6 2 s1 req 2 2 s2 resp sample_mount_ready
    (sample_provider_honest (bs "aaa") ltac:(by repeat constructor))
    ltac:(split; vm_compute; congruence) ltac:(split; vm_compute; congruence) H1 H2 H3
    ltac:(rewrite H4; vm_compute; reflexivity)) as [-> _].
Defined.
