(* ===== verification/FuseNamespace.v ===== *)
(** * The mounted namespace

    Theorems about the directory side of the FUSE adapter: listing a directory
    page by page, resolving names, attributes and opening.  The operations are
    those of [FuseAdapter]. *)

From S2P Require Import Prelude Types Paths Cache Tree Runtime Mount IpcState Content FuseAdapter.

(** ** Pages of a directory *)

Lemma dirents_length i es : length (dirents i es) = length es.
Proof. revert i. induction es as [|e es IH]; intros i; cbn; [done|]. by rewrite IH. Qed.

Lemma dirents_offset i es k d : dirents i es !! k = Some d -> dt_offset d = i + Z.of_nat k + 1.
Proof.
  revert i k. induction es as [|e es IH]; intros i [|k] H; try done.
  - cbn in H. injection H as <-. cbn. lia.
  - apply IH in H. lia.
Qed.

Section pages.
Context (full : list Dirent -> Dirent -> bool).

Lemma fill_take reply ds : exists k, (k <= length ds)%nat /\ fill full reply ds = reply ++ take k ds.
Proof.
  revert reply. induction ds as [|d ds IH]; intros reply; cbn [fill].
  - exists 0%nat. split; [done|]. by rewrite app_nil_r.
  - destruct (full reply d); [exists 0%nat; split; [lia|]; by rewrite app_nil_r|].
    destruct (IH (reply ++ [d])) as (k & Hk & ->). exists (S k). split; [cbn; lia|]. cbn. by rewrite <- app_assoc.
Qed.

(** A fresh reply takes at least one entry. *)
Context (Hfits : forall d, full [] d = false).

Lemma fill_progress ds :
  ds <> [] -> exists k, (0 < k <= length ds)%nat /\ fill full [] ds = take k ds.
Proof.
  destruct ds as [|d ds]; [done|]. intros _. cbn [fill]. rewrite Hfits. cbn [app].
  destruct (fill_take [d] ds) as (k & Hk & ->). exists (S k). split; [cbn; lia|done].
Qed.

(** The reader's loop: each call continues at the offset of the last entry of
    the page before, until a page is empty. *)
Fixpoint list_pages (fuel : nat) (s : IpcState) (ino offset : Z) : result Errno (list Dirent) :=
  match fuel with
  | O => Ok []
  | S fuel =>
      page ← fuse_readdir full s ino offset;
      match last page with
      | None => Ok []
      | Some d => rest ← list_pages fuel s ino (dt_offset d); Ok (page ++ rest)
      end
  end.

Lemma list_pages_all fuel s ino offset es :
  directory_entries s ino = Ok es -> 0 <= offset -> len es - offset < Z.of_nat fuel ->
  list_pages fuel s ino offset = Ok (drop (Z.to_nat offset) (dirents 0 es)).
Proof.
  intros Hes. revert offset. induction fuel as [|fuel IH]; intros offset Hoff Hfuel; cbn [list_pages].
  - rewrite drop_ge; [done|]. rewrite dirents_length. unfold len in Hfuel. lia.
  - unfold fuse_readdir. rewrite Hes. cbn.
    destruct (decide (drop (Z.to_nat offset) (dirents 0 es) = [])) as [Hnil|Hne].
    { by rewrite Hnil. }
    destruct (fill_progress _ Hne) as (k & Hk & Hfill). rewrite Hfill.
    rewrite length_drop, dirents_length in Hk.
    destruct k as [|k]; [lia|].
    assert (Hat : is_Some (drop (Z.to_nat offset) (dirents 0 es) !! k)).
    { apply lookup_lt_is_Some. rewrite length_drop, dirents_length. lia. }
    destruct Hat as [d Hd]. pose proof Hd as Hd'. rewrite lookup_drop in Hd'. apply dirents_offset in Hd'.
    rewrite (take_S_r _ _ _ Hd), last_snoc, <- (take_S_r _ _ _ Hd).
    replace (dt_offset d) with (offset + Z.of_nat (S k)) by lia.
    rewrite IH by (unfold len in *; lia). cbn. f_equal.
    replace (Z.to_nat (offset + Z.of_nat (S k))) with (Z.to_nat offset + S k)%nat by lia.
    by rewrite <- drop_drop, take_drop.
Qed.
End pages.

(** ** Directories *)

Definition is_directory (rt : Runtime) (ino : Z) : Prop :=
  ino = FUSE_ROOT_INODE \/
  exists pid n, Runtime_lookup_inode rt ino = Ok (PromiseNodeEntry pid n) /\ pn_kind n = Directory.

(** [parent] is the directory that [ino] is found in, or the mount root for
    itself. *)
Definition parent_of (rt : Runtime) (ino parent : Z) : Prop :=
  if decide (ino = FUSE_ROOT_INODE) then parent = FUSE_ROOT_INODE
  else is_directory rt parent /\ exists name e,
    Runtime_lookup_child rt parent name = Ok e /\ RuntimeEntry_inode e = ino.

Lemma lookup_inode_root rt : Runtime_lookup_inode rt FUSE_ROOT_INODE = Ok MountRoot.
Proof. done. Qed.

Lemma parent_inode_correct rt ino e :
  rt_wf rt -> Runtime_lookup_inode rt ino = Ok e ->
  exists parent, parent_inode rt e = Ok parent /\ parent_of rt ino parent.
Proof.
  intros Hwf Hl. unfold parent_of. case_decide as Hroot.
  { subst ino. rewrite lookup_inode_root in Hl. injection Hl as <-. by exists FUSE_ROOT_INODE. }
  destruct (lookup_inode_Ok rt ino e Hwf Hroot Hl) as (pid & t & p & n & Ht & Hn & Hi & Hp & ->). cbn.
  destruct (rw_tree _ Hwf _ _ Ht) as [Htw _]. destruct (twf_path _ _ Htw p n Hn) as [_ Hsafe].
  destruct (decide (p = [])) as [Hnil|Hne].
  - destruct (twf_root _ _ Htw) as (n' & Hn' & _ & Hpp). subst p. rewrite Hnil, Hn' in Hn. injection Hn as <-.
    rewrite Hpp. exists FUSE_ROOT_INODE. split; [done|]. split; [by left|].
    exists pid, (PromiseNodeEntry pid n'). split; [|done]. apply lookup_child_root; [done|]. eauto.
  - destruct (twf_node _ _ Htw p n Hn Hne) as (-> & Hname & _).
    destruct (twf_parent _ _ Htw p n Hn Hne) as (pn & Hpn & Hpk). unfold Runtime_promise. rewrite Ht. cbn.
    rewrite Hpn. cbn. exists (pn_inode pn). split; [done|].
    split; [right; exists pid, pn; split; [by eapply lookup_inode_node|done]|].
    exists (leaf_name p), (PromiseNodeEntry pid n). split; [|done].
    apply (lookup_child_node rt pid t (parent_path p) pn); [done..|]. exists n.
    rewrite child_parent_leaf by done. auto with fp.
Qed.

Lemma directory_entries_correct s ino :
  let rt := st_runtime s in
  rt_wf rt -> is_directory rt ino ->
  exists parent es, directory_entries s ino =
      Ok (mkDirectoryEntry (bs ".") ino Directory :: mkDirectoryEntry (bs "..") parent Directory :: es) /\
    parent_of rt ino parent /\ NoDup (de_name <$> es) /\
    forall name i k, mkDirectoryEntry name i k ∈ es <->
      exists e, Runtime_lookup_child rt ino name = Ok e /\ RuntimeEntry_inode e = i /\ RuntimeEntry_kind e = k.
Proof.
  intros rt Hwf Hdir. destruct (read_dir_lookup_child rt ino Hwf Hdir) as (es & Hes & Hnd & Hel).
  assert (He : exists e, Runtime_lookup_inode rt ino = Ok e /\ RuntimeEntry_inode e = ino).
  { destruct (decide (ino = FUSE_ROOT_INODE)) as [->|Hne]; [by rewrite lookup_inode_root; eauto|].
    destruct Hdir as [?|(pid & n & Hl & _)]; [done|].
    destruct (lookup_inode_Ok rt ino _ Hwf Hne Hl) as (pid' & t & p & n' & _ & _ & Hi & _ & [= <- <-]). eauto. }
  destruct He as (e & Hl & Hi). destruct (parent_inode_correct rt ino e Hwf Hl) as (parent & Hp & Hpo).
  exists parent, es. split_and!; try done. unfold directory_entries. fold rt. rewrite Hl. cbn. rewrite Hp. cbn.
  rewrite Hes. cbn. by rewrite Hi.
Qed.

Lemma entry_attr_ino e uid gid : fa_ino (entry_attr e uid gid) = RuntimeEntry_inode e.
Proof. by destruct e. Qed.

Lemma entry_attr_kind e uid gid : fa_kind (entry_attr e uid gid) = node_kind_to_file_type (RuntimeEntry_kind e).
Proof. by destruct e. Qed.

#[local] Instance node_kind_to_file_type_inj : Inj (=) (=) node_kind_to_file_type.
Proof. by intros [] []. Qed.

Lemma fuse_lookup_Ok s uid gid parent name a :
  to_str name = Some name ->
  fuse_lookup s uid gid parent name = Ok a <->
  exists e, Runtime_lookup_child (st_runtime s) parent name = Ok e /\ a = entry_attr e uid gid.
Proof.
  intros Hn. unfold fuse_lookup. rewrite Hn. destruct (Runtime_lookup_child _ _ _); cbn; naive_solver.
Qed.

(** Names that [lookup_child] resolves are single components. *)
Lemma lookup_child_safe rt parent name e : Runtime_lookup_child rt parent name = Ok e -> safe_component name.
Proof. unfold Runtime_lookup_child. intros ([] & H & _)%bind_Ok. by apply validate_child_name_Ok. Qed.

Lemma lookup_child_resolves rt parent name e :
  rt_wf rt -> Runtime_lookup_child rt parent name = Ok e ->
  exists pid t p n, rt_promises rt !! pid = Some t /\ pt_nodes t !! p = Some n /\ e = PromiseNodeEntry pid n.
Proof.
  intros Hwf He. destruct (decide (parent = FUSE_ROOT_INODE)) as [->|Hne].
  - apply lookup_child_root in He as (t & n & Ht & Hn & ->); [|done]. by exists name, t, [], n.
  - pose proof He as He'. unfold Runtime_lookup_child in He'.
    rewrite (proj2 (Z.eqb_neq _ _) Hne) in He'. apply bind_Ok in He' as ([] & _ & He').
    apply bind_Ok in He' as (e' & Hl & Hrest).
    destruct (lookup_inode_Ok rt parent e' Hwf Hne Hl) as (pid & t & p & n & Ht & Hn & Hi & _ & ->).
    cbn in Hrest. case_decide as Hk; [|done]. subst parent.
    destruct (proj1 (lookup_child_node rt pid t p n name e Hwf Ht Hn Hk) He) as (m & _ & Hm & ->). eauto 10.
Qed.

Lemma perm_bits mode :
  0 <= Z.land (Z.land mode 4095) u16_max <= 4095 /\
  forall i, 0 <= i < 12 -> Z.testbit (Z.land (Z.land mode 4095) u16_max) i = Z.testbit mode i.
Proof.
  rewrite <- Z.land_assoc. change (Z.land 4095 u16_max) with (Z.ones 12). rewrite Z.land_ones by lia. split.
  - pose proof (Z.mod_pos_bound mode (2 ^ 12)). lia.
  - intros i Hi. by rewrite Z.mod_pow2_bits_low by lia.
Qed.

Lemma div_ceil_bounds a b : 0 < b -> (div_ceil a b - 1) * b < a <= div_ceil a b * b.
Proof.
  intros Hb. unfold div_ceil. pose proof (Z.div_mod (a + b - 1) b). pose proof (Z.mod_pos_bound (a + b - 1) b). nia.
Qed.

(** ** Properties *)

(** C28: listing a directory page by page, however many entries fit into each
    reply (at least one), yields every entry exactly once: the directory
    itself, its parent (the directory it is found in; the mount root is its own
    parent) and then exactly the names that [lookup] resolves, with the inode
    and type that [lookup] reports; no name appears twice. *)
Theorem fuse_readdir_lists_directory full s ino :
  rt_wf (st_runtime s) -> is_directory (st_runtime s) ino -> (forall d, full [] d = false) ->
  exists parent children,
    let entries := mkDirectoryEntry (bs ".") ino Directory :: mkDirectoryEntry (bs "..") parent Directory :: children in
    (forall fuel, (length entries < fuel)%nat -> list_pages full fuel s ino 0 = Ok (dirents 0 entries)) /\
    NoDup (de_name <$> entries) /\ parent_of (st_runtime s) ino parent /\
    forall uid gid name i k, to_str name = Some name ->
      (mkDirectoryEntry name i k ∈ children <->
       exists a, fuse_lookup s uid gid ino name = Ok a /\ fa_ino a = i /\ fa_kind a = node_kind_to_file_type k).
Proof.
  intros Hwf Hdir Hfits. destruct (directory_entries_correct s ino Hwf Hdir) as (parent & es & Hes & Hpo & Hnd & Hel).
  exists parent, es. split_and!; try done.
  - intros fuel Hf. rewrite (list_pages_all full Hfits fuel s ino 0 _ Hes); [done|lia|]. unfold len. lia.
  - assert (Hsafe : forall name, name ∈ de_name <$> es -> safe_component name).
    { intros name ([name' i k] & -> & (e & He & _)%Hel)%list_elem_of_fmap. by apply lookup_child_safe in He. }
    cbn. apply NoDup_cons. split; [|apply NoDup_cons; split; [|done]].
    + rewrite elem_of_cons. intros [?|H%Hsafe]; [done|]. by destruct H as (_ & _ & _ & H & _).
    + intros H%Hsafe. by destruct H as (_ & _ & _ & _ & H).
  - intros uid gid name i k Hn. rewrite Hel. split.
    + intros (e & He & <- & <-). exists (entry_attr e uid gid).
      split; [by apply fuse_lookup_Ok; eauto|]. by rewrite entry_attr_ino, entry_attr_kind.
    + intros (a & (e & He & ->)%fuse_lookup_Ok & <- & Hk); [|done]. exists e. rewrite entry_attr_ino.
      rewrite entry_attr_kind in Hk. by apply (inj node_kind_to_file_type) in Hk.
Qed.

(** The directory [docs] of the sample promise, two entries at a time. *)
Lemma fuse_readdir_lists_directory_witness :
  let full := fun (reply : list Dirent) (_ : Dirent) => bool_decide (length reply = 2%nat) in
  (exists page1 page2, fuse_readdir full sample_mount 3 0 = Ok page1 /\
     fuse_readdir full sample_mount 3 2 = Ok page2 /\
     dt_name <$> page1 ++ page2 = [bs "."; bs ".."; bs "guides"; bs "readme.txt"]) /\
  exists parent children fuel,
    list_pages full fuel sample_mount 3 0 =
      Ok (dirents 0 (mkDirectoryEntry (bs ".") 3 Directory :: mkDirectoryEntry (bs "..") parent Directory :: children)).
Proof.
  intros full. split.
  { eexists _, _. split; [vm_compute; reflexivity|]. split; vm_compute; reflexivity. }
  destruct (fuse_readdir_lists_directory full sample_mount 3
    (rs_wf _ _ (rd_sound _ _ _ _ _ sample_mount_ready))) as (parent & children & H & _).
  - right. eexists _, _. split; vm_compute; reflexivity.
  - intros d. reflexivity.
  - exists parent, children. eexists. apply H. apply Nat.lt_succ_diag_r.
Defined.

Lemma mtime_promised t : mtime t = Z.max (- i64_max) t.
Proof. unfold mtime, saturating_abs, i64_max. case_bool; lia. Qed.

(** C29: names, attributes and opening agree.  What [lookup] reports for a name
    is what [getattr] reports for the inode it returned; the inode can be opened
    for reading exactly when it is a regular file, whatever the state of its
    promise (also when its provider is gone, where [docs/runtime.md] has [EIO]
    for [open]), and never for writing; the size, the four times and the
    permission bits are the promised ones (a time before the earliest that an
    [i64] can negate is that earliest one), with just enough 512-byte blocks.  A
    name that is not UTF-8 is [EINVAL]. *)
Theorem fuse_lookup_getattr_open_agree s uid gid parent name :
  rt_wf (st_runtime s) ->
  (to_str name = None -> fuse_lookup s uid gid parent name = Err EINVAL) /\
  forall a, fuse_lookup s uid gid parent name = Ok a ->
    fuse_getattr s uid gid (fa_ino a) = Ok a /\
    fuse_open s (fa_ino a) false = Err EROFS /\
    fuse_open s (fa_ino a) true = (if decide (fa_kind a = RegularFile) then Ok (fa_ino a) else Err EISDIR) /\
    exists pid t n, rt_promises (st_runtime s) !! pid = Some t /\ pt_nodes t !! pn_relative_path n = Some n /\
      fa_ino a = pn_inode n /\ fa_kind a = node_kind_to_file_type (pn_kind n) /\
      fa_size a = attr_size (pn_attr n) /\ fa_uid a = uid /\ fa_gid a = gid /\
      Forall (fun time => time = Z.max (- i64_max) (attr_mtime_nsec (pn_attr n)))
        [fa_atime a; fa_mtime a; fa_ctime a; fa_crtime a] /\
      0 <= fa_perm a <= 4095 /\ (forall i, 0 <= i < 12 -> Z.testbit (fa_perm a) i = Z.testbit (attr_mode (pn_attr n)) i) /\
      (fa_blocks a - 1) * 512 < fa_size a <= fa_blocks a * 512.
Proof.
  intros Hwf. split; [intros Hn; unfold fuse_lookup; by rewrite Hn|]. intros a Ha.
  assert (He : exists e, Runtime_lookup_child (st_runtime s) parent name = Ok e /\ a = entry_attr e uid gid).
  { unfold fuse_lookup in Ha. destruct (to_str name) as [name'|] eqn:Hn; [|done].
    assert (name' = name) as -> by (unfold to_str in Hn; destruct (utf8_valid name); congruence).
    destruct (Runtime_lookup_child _ _ _) as [e|]; cbn in Ha; [|done]. injection Ha as <-. eauto. }
  destruct He as (e & He & ->). destruct (lookup_child_resolves _ _ _ _ Hwf He) as (pid & t & p & n & Ht & Hn & ->).
  pose proof (lookup_inode_node _ _ _ _ _ Hwf Ht Hn) as Hl.
  destruct (rw_tree _ Hwf _ _ Ht) as [Htw _]. destruct (twf_path _ _ Htw p n Hn) as [Hp _].
  unfold fuse_getattr, fuse_open. cbn [entry_attr node_attr fa_ino fa_kind negb]. rewrite Hl. cbn.
  split_and!; [done..|by destruct (pn_kind n)|]. exists pid, t, n. rewrite Hp.
  pose proof (perm_bits (attr_mode (pn_attr n))) as [Hb1 Hb2]. pose proof (div_ceil_bounds (attr_size (pn_attr n)) 512 ltac:(lia)).
  pose proof (mtime_promised (attr_mtime_nsec (pn_attr n))) as Ht4. split_and!; try done; [by rewrite Ht4; repeat constructor|lia..].
Qed.

Lemma fuse_lookup_getattr_open_agree_witness :
  exists a, fuse_lookup sample_mount 1000 1000 3 (bs "readme.txt") = Ok a /\
    fuse_getattr sample_mount 1000 1000 (fa_ino a) = Ok a /\ fuse_open sample_mount 6 true = Ok 6.
Proof.
  destruct (fuse_lookup_getattr_open_agree sample_mount 1000 1000 3 (bs "readme.txt")
    (rs_wf _ _ (rd_sound _ _ _ _ _ sample_mount_ready))) as [_ H].
  eexists. split; [vm_compute; reflexivity|].
  destruct (H _ ltac:(vm_compute; reflexivity)) as (H1 & _ & H2 & _). split; [exact H1|exact H2].
Defined.
