(* ===== verification/Effect.v ===== *)
(** * Stateful code that can fail

    [M W E A] is a computation on a state [W] that returns an [A] or fails with
    an [E]; the state changes made before a failure stay.  [x ← m; k] is the
    [?] operator, [try_] turns a failure into a value for a [match], and
    [on_error] runs a clean-up before the failure is passed on. *)

From S2P Require Import Prelude.

Definition M (W E A : Type) : Type := W -> W * result E A.

#[export] Instance M_ret {W E} : MRet (M W E) := fun A a w => (w, Ok a).

#[export] Instance M_bind {W E} : MBind (M W E) := fun A B k m w =>
  let '(w, r) := m w in
  match r with
  | Ok a => k a w
  | Err e => (w, Err e)
  end.

Definition fail {W E A} (e : E) : M W E A := fun w => (w, Err e).

Definition lift {W E A} (r : result E A) : M W E A := fun w => (w, r).

Definition try_ {W E F A} (m : M W E A) : M W F (result E A) := fun w =>
  let '(w, r) := m w in (w, Ok r).

Definition map_error {W E F A} (f : E -> F) (m : M W E A) : M W F A := fun w =>
  let '(w, r) := m w in (w, map_err f r).

Definition on_error {W E F A} (cleanup : W -> W) (f : E -> F) (m : M W E A) : M W F A := fun w =>
  let '(w, r) := m w in
  match r with
  | Ok a => (w, Ok a)
  | Err e => (cleanup w, Err (f e))
  end.

(** A computation on a part of the state. *)
Definition zoom {W V E A} (get : W -> V) (put : V -> W -> W) (m : M V E A) : M W E A := fun w =>
  let '(v, r) := m (get w) in (put v w, r).

(** [inv_run H] takes a successful run of a chain of [?]s apart. *)
Lemma bind_run {W E A B} (m : M W E A) (k : A -> M W E B) w w' b :
  (m ≫= k) w = (w', Ok b) <-> exists w1 a, m w = (w1, Ok a) /\ k a w1 = (w', Ok b).
Proof.
  unfold mbind, M_bind. destruct (m w) as [w1 [a|e]]; [|naive_solver]. split; [eauto|]. by intros (? & ? & [= <- <-] & ?).
Qed.

(** One step of a run forwards. *)
Lemma bind_step {W E A B} (m : M W E A) (k : A -> M W E B) w w1 a :
  m w = (w1, Ok a) -> (m ≫= k) w = k a w1.
Proof. unfold mbind, M_bind. by intros ->. Qed.

Ltac inv_run H :=
  repeat (let w := fresh "w" in let a := fresh "a" in let Hm := fresh "Hm" in
          apply bind_run in H as (w & a & Hm & H)).

Lemma lift_run {W E A} (r : result E A) (w w' : W) a : lift r w = (w', Ok a) <-> w' = w /\ r = Ok a.
Proof. unfold lift. naive_solver. Qed.

Lemma map_error_run {W E F A} (f : E -> F) (m : M W E A) w w' a :
  map_error f m w = (w', Ok a) <-> m w = (w', Ok a).
Proof. unfold map_error. destruct (m w) as [w1 [b|e]]; cbn; naive_solver. Qed.

Lemma on_error_run {W E F A} cleanup (f : E -> F) (m : M W E A) w w' a :
  on_error cleanup f m w = (w', Ok a) <-> m w = (w', Ok a).
Proof. unfold on_error. destruct (m w) as [w1 [b|e]]; naive_solver. Qed.

Lemma try_run {W E F A} (m : M W E A) w w' r : (try_ m : M W F _) w = (w', Ok r) -> m w = (w', r).
Proof. unfold try_. destruct (m w). naive_solver. Qed.

Lemma zoom_run {W V E A} (get : W -> V) (put : V -> W -> W) (m : M V E A) w w' a :
  zoom get put m w = (w', Ok a) <-> exists v, m (get w) = (v, Ok a) /\ w' = put v w.
Proof. unfold zoom. destruct (m (get w)) as [v r]. naive_solver. Qed.

(** ** Triples *)

(** From a state in [P], [m] ends with a result and a state in [Q]. *)
Definition triple {W E A} (P : W -> Prop) (m : M W E A) (Q : result E A -> W -> Prop) : Prop :=
  forall w, P w -> let '(w', r) := m w in Q r w'.

Section triples.
Context {W E A : Type}.
Implicit Types (P : W -> Prop) (m : M W E A) (Q : result E A -> W -> Prop).

Lemma triple_run P m Q w : triple P m Q -> P w -> Q (m w).2 (m w).1.
Proof. intros H Hw. specialize (H w Hw). by destruct (m w). Qed.

Lemma triple_intro P m Q : (forall w, P w -> Q (m w).2 (m w).1) -> triple P m Q.
Proof. intros H w Hw. specialize (H w Hw). by destruct (m w). Qed.

Lemma triple_conseq P P' m Q Q' :
  triple P m Q -> (forall w, P' w -> P w) -> (forall r w, Q r w -> Q' r w) -> triple P' m Q'.
Proof. intros H HP HQ w Hw. specialize (H w (HP w Hw)). destruct (m w). by apply HQ. Qed.

Lemma triple_ret P Q a : (forall w, P w -> Q (Ok a) w) -> triple P (mret a) Q.
Proof. intros H w Hw. by apply H. Qed.

Lemma triple_fail P Q e : (forall w, P w -> Q (Err e) w) -> triple P (fail e) Q.
Proof. intros H w Hw. by apply H. Qed.

Lemma triple_lift P Q r : (forall w, P w -> Q r w) -> triple P (lift r) Q.
Proof. intros H w Hw. by apply H. Qed.

Lemma triple_pure (phi : Prop) P m Q : (phi -> triple P m Q) -> triple (fun w => P w /\ phi) m Q.
Proof. intros H w [Hw Hphi]. by apply H. Qed.

(** What holds throughout, whatever the result. *)
Definition keeps P m : Prop := triple P m (fun _ => P).
End triples.

Lemma triple_bind {W E A B} (P : W -> Prop) (m : M W E A) (k : A -> M W E B) R Q :
  triple P m R -> (forall a, triple (R (Ok a)) (k a) Q) -> (forall e w, R (Err e) w -> Q (Err e) w) ->
  triple P (m ≫= k) Q.
Proof.
  intros Hm Hk He w Hw. specialize (Hm w Hw). unfold mbind, M_bind. destruct (m w) as [w1 [a|e]].
  - by apply Hk.
  - by apply He.
Qed.

Lemma triple_try {W E F A} (P : W -> Prop) (m : M W E A) (Q : result F (result E A) -> W -> Prop) :
  triple P m (fun r => Q (Ok r)) -> triple P (try_ m) Q.
Proof. intros H w Hw. specialize (H w Hw). unfold try_. by destruct (m w). Qed.

Lemma triple_map_error {W E F A} (f : E -> F) (P : W -> Prop) (m : M W E A) Q :
  triple P m (fun r => Q (map_err f r)) -> triple P (map_error f m) Q.
Proof. intros H w Hw. specialize (H w Hw). unfold map_error. by destruct (m w). Qed.

Lemma triple_on_error {W E F A} cleanup (f : E -> F) (P : W -> Prop) (m : M W E A) Q :
  triple P m (fun r w => match r with Ok a => Q (Ok a) w | Err e => Q (Err (f e)) (cleanup w) end) ->
  triple P (on_error cleanup f m) Q.
Proof. intros H w Hw. specialize (H w Hw). unfold on_error. by destruct (m w) as [w' [a|e]]. Qed.

Lemma triple_zoom {W V E A} (get : W -> V) (put : V -> W -> W) (P : W -> Prop) (m : M V E A) Q :
  (forall w, P w -> triple (fun v => v = get w) m (fun r v => Q r (put v w))) -> triple P (zoom get put m) Q.
Proof. intros H w Hw. specialize (H w Hw (get w) eq_refl). unfold zoom. by destruct (m (get w)). Qed.

Lemma triple_and {W E A} (P P' : W -> Prop) (m : M W E A) Q Q' :
  triple P m Q -> triple P' m Q' -> triple (fun w => P w /\ P' w) m (fun r w => Q r w /\ Q' r w).
Proof. intros H H' w [Hw Hw']. specialize (H w Hw). specialize (H' w Hw'). by destruct (m w). Qed.

(** A [for] loop whose body may fail. *)
Fixpoint for_each {W E A} (l : list A) (body : A -> M W E ()) : M W E () :=
  match l with
  | [] => mret tt
  | x :: l => _ ← body x; for_each l body
  end.

Lemma triple_for_each {W E A} (l : list A) (body : A -> M W E ()) (I : list A -> W -> Prop) Q :
  (forall done x, triple (I done) (body x) (fun r w => match r with Ok _ => I (done ++ [x]) w | Err e => Q (Err e) w end)) ->
  (forall w, I l w -> Q (Ok tt) w) -> triple (I []) (for_each l body) Q.
Proof.
  intros Hb Hq.
  assert (H : forall done rest, l = done ++ rest -> triple (I done) (for_each rest body) Q).
  { intros done rest. revert done. induction rest as [|x rest IH]; intros done Hl; cbn [for_each].
    - apply triple_ret. intros w Hw. apply Hq. by rewrite Hl, app_nil_r.
    - eapply triple_bind; [apply Hb|intros []; apply IH; by rewrite Hl, <- app_assoc|done]. }
  by apply (H [] l).
Qed.

(** ** Postconditions for success and for failure *)

Definition outcome {W E A} (Q : A -> W -> Prop) (X : E -> W -> Prop) (r : result E A) (w : W) : Prop :=
  match r with
  | Ok a => Q a w
  | Err e => X e w
  end.

Lemma triple_seq {W E A B} (P : W -> Prop) (m : M W E A) (k : A -> M W E B) R Q X :
  triple P m (outcome R X) -> (forall a, triple (R a) (k a) (outcome Q X)) -> triple P (m ≫= k) (outcome Q X).
Proof. intros Hm Hk. by eapply triple_bind; [exact Hm|exact Hk|]. Qed.

Lemma triple_map_outcome {W E E' A} (f : E -> E') (P : W -> Prop) (m : M W E A) Q X :
  triple P m (outcome Q (fun e => X (f e))) -> triple P (map_error f m) (outcome Q X).
Proof. intros H. apply triple_map_error. eapply triple_conseq; [exact H|done|]. by intros [] w. Qed.
