(* ===== verification/Fs.v ===== *)
(** * The file system, as materialization uses it

    The file system is not part of the sources.  [FileSystem] lists the calls
    that [crates/fuse-promise-ipc/src/lib.rs] makes ([std::fs], [rustix::fs]);
    [FsView] gives the laws a vocabulary: which object a path names, what an
    object holds and which directory it lies in; and [FileSystemOk] states what
    POSIX promises of the calls.  A call may fail at any time without effect,
    except that a failed write may have written a part.

    An object is known by its device and inode number, as in the code, so the
    laws do not depend on how many paths name it.  Creating or removing a name
    may change the modification time of directories. *)

From S2P Require Import Prelude Types Paths Messages Effect.

Record FileIdentity : Type := mkFileIdentity { fi_dev : Z; fi_ino : Z }.

#[export] Instance FileIdentity_eq_decision : EqDecision FileIdentity.
Proof. solve_decision. Defined.

#[export] Instance FileIdentity_countable : Countable FileIdentity.
Proof.
  refine (inj_countable' (fun i => (fi_dev i, fi_ino i)) (fun p => mkFileIdentity p.1 p.2) _). by intros [].
Defined.

Inductive FsKind : Type := FsFile | FsDirectory | FsSymlink | FsOther.

#[export] Instance FsKind_eq_decision : EqDecision FsKind.
Proof. solve_decision. Defined.

(** [rustix::time::Timespec]. *)
Record Timespec : Type := mkTimespec { tv_sec : Z; tv_nsec : Z }.

(** What the code reads of [fs::Metadata]. *)
Record Metadata : Type := mkMetadata { md_identity : FileIdentity; md_kind : FsKind }.

Record FsObject : Type := mkFsObject {
  fo_kind : FsKind;
  fo_bytes : list byte;
  fo_mode : Z;
  fo_mtime : Timespec;
}.

Definition with_bytes (bytes : list byte) (o : FsObject) : FsObject :=
  mkFsObject (fo_kind o) bytes (fo_mode o) (fo_mtime o).
Definition with_mode (mode : Z) (o : FsObject) : FsObject :=
  mkFsObject (fo_kind o) (fo_bytes o) mode (fo_mtime o).
Definition with_mtime (t : Timespec) (o : FsObject) : FsObject :=
  mkFsObject (fo_kind o) (fo_bytes o) (fo_mode o) t.

(** ** The calls *)

(** An open file is known by its identity; it is written from its start, in
    order. *)
Class FileSystem (F : Type) := {
  symlink_metadata : str -> M F IoError Metadata;
  create_dir : str -> Z -> M F IoError ();
  open_new : str -> Z -> M F IoError FileIdentity;
  open_file : str -> M F IoError FileIdentity;
  file_metadata : FileIdentity -> M F IoError Metadata;
  file_write_all : FileIdentity -> list byte -> M F IoError ();
  file_read_at : FileIdentity -> Z -> Z -> M F IoError (list byte);
  file_set_permissions : FileIdentity -> Z -> M F IoError ();
  futimens : FileIdentity -> Timespec -> M F IoError ();
  set_permissions : str -> Z -> M F IoError ();
  rename : str -> str -> M F IoError ();
  remove_file : str -> M F IoError ();
  remove_dir : str -> M F IoError ();
}.

Class FsView (F : Type) := {
  fs_at : F -> str -> option FileIdentity;
  fs_obj : F -> FileIdentity -> option FsObject;
  fs_parent : F -> FileIdentity -> option FileIdentity;
  (** the object has one directory entry *)
  fs_single : F -> FileIdentity -> Prop;
  (** calls fail only for the reasons that the laws below leave *)
  fs_reliable : F -> Prop;
}.

(** ** Changes *)

Section changes.
Context {F : Type} `{!FsView F}.

Definition same_view (f f' : F) : Prop :=
  (forall p, fs_at f' p = fs_at f p) /\ (forall id, fs_obj f' id = fs_obj f id) /\
  (forall id, fs_parent f' id = fs_parent f id) /\ (forall id, fs_single f id -> fs_single f' id) /\
  (fs_reliable f -> fs_reliable f').

(** Equal up to the modification time of directories. *)
Definition same_object (o o' : FsObject) : Prop :=
  fo_kind o' = fo_kind o /\ fo_bytes o' = fo_bytes o /\ fo_mode o' = fo_mode o /\
  (fo_kind o <> FsDirectory -> fo_mtime o' = fo_mtime o).

(** Only the object [id] changes, into one that satisfies [Q]. *)
Definition changes_object (id : FileIdentity) (Q : FsObject -> FsObject -> Prop) (f f' : F) : Prop :=
  (forall p, fs_at f' p = fs_at f p) /\ (forall i, fs_parent f' i = fs_parent f i) /\
  (forall i, i <> id -> fs_obj f' i = fs_obj f i) /\
  option_Forall2 Q (fs_obj f id) (fs_obj f' id) /\ (forall i, fs_single f i -> fs_single f' i) /\
  (fs_reliable f -> fs_reliable f').

(** A new object [id] appears at [p], in an existing directory. *)
Definition creates (p : str) (id : FileIdentity) (o : FsObject) (f f' : F) : Prop :=
  fs_at f p = None /\ fs_obj f id = None /\ fs_at f' p = Some id /\ fs_obj f' id = Some o /\
  (exists d, is_Some (fs_obj f d) /\ fs_parent f' id = Some d) /\
  (forall q, fs_at f' q = fs_at f q \/ fs_at f q = None /\ fs_at f' q = Some id) /\
  (forall i, i <> id -> option_Forall2 same_object (fs_obj f i) (fs_obj f' i)) /\
  (forall i, i <> id -> fs_parent f' i = fs_parent f i) /\
  (forall i, i = id \/ fs_single f i -> fs_single f' i) /\ (fs_reliable f -> fs_reliable f').

(** The name [p] of the object [id] goes, and with its last name the object. *)
Definition removes (p : str) (id : FileIdentity) (f f' : F) : Prop :=
  fs_at f p = Some id /\ fs_at f' p = None /\
  (fs_single f id -> fs_obj f' id = None /\ forall q, fs_at f q = Some id -> fs_at f' q = None) /\
  (forall q, fs_at f q <> Some id -> fs_at f' q = fs_at f q) /\
  (forall i, i <> id -> option_Forall2 same_object (fs_obj f i) (fs_obj f' i)) /\
  (forall i, i <> id -> fs_parent f' i = fs_parent f i) /\
  (forall i, i <> id -> fs_single f i -> fs_single f' i) /\ (fs_reliable f -> fs_reliable f').

(** The file [id] moves from [p] to [q], in place of what was there. *)
Definition moves (p q : str) (id : FileIdentity) (f f' : F) : Prop :=
  fs_at f p = Some id /\ fs_at f' q = Some id /\
  (forall r i, i <> id -> fs_at f q <> Some i -> fs_at f r = Some i -> fs_at f' r = Some i) /\
  (forall r i, i <> id -> fs_at f' r = Some i -> fs_at f r = Some i) /\
  (forall i, fs_at f q <> Some i -> option_Forall2 same_object (fs_obj f i) (fs_obj f' i)) /\
  (fs_reliable f -> fs_reliable f').

(** Which paths that affects.  The old name of [id] goes, if it was the only one;
    a path that names [id] afterwards did so before or named what was at [q]; a
    path of the object that was at [q] names [id] or, as another link, still
    that object; and that object is gone or unchanged. *)
Definition settles (q : str) (id : FileIdentity) (f f' : F) : Prop :=
  (fs_single f id -> fs_at f q <> Some id -> forall r, fs_at f r = Some id -> fs_at f' r = None) /\
  (forall r, fs_at f' r = Some id -> fs_at f r = Some id \/ fs_at f r = fs_at f q) /\
  (forall r i, fs_at f q = Some i -> fs_at f r = Some i -> fs_at f' r = Some id \/ fs_at f' r = Some i) /\
  (forall i o, fs_at f q = Some i -> fs_obj f i = Some o ->
     fs_obj f' i = None \/ exists o', fs_obj f' i = Some o' /\ same_object o o').
End changes.

(** ** What the calls promise *)

Class FileSystemOk (F : Type) `{!FileSystem F, !FsView F} : Prop := {
  (** the tree *)
  fs_at_obj : forall f p id, fs_at f p = Some id -> is_Some (fs_obj f id);
  fs_parent_obj : forall f id d, is_Some (fs_obj f id) -> fs_parent f id = Some d -> is_Some (fs_obj f d);

  symlink_metadata_ok : forall f p, let '(f', r) := symlink_metadata p f in
    same_view f f' /\
    match r with
    | Ok m => fs_at f p = Some (md_identity m) /\
        exists o, fs_obj f (md_identity m) = Some o /\ fo_kind o = md_kind m
    | Err e => (io_kind e = KNotFound -> fs_at f p = None) /\ (fs_reliable f -> fs_at f p = None)
    end;
  create_dir_ok : forall f p mode, let '(f', r) := create_dir p mode f in
    match r with
    | Ok _ => exists id o, creates p id o f f' /\ fo_kind o = FsDirectory
    | Err e => same_view f f'
    end;
  open_new_ok : forall f p mode, let '(f', r) := open_new p mode f in
    match r with
    | Ok id => exists o, creates p id o f f' /\ fo_kind o = FsFile /\ fo_bytes o = []
    | Err e => same_view f f'
    end;
  open_file_ok : forall f p, let '(f', r) := open_file p f in
    same_view f f' /\
    match r with
    | Ok id => forall i o, fs_at f p = Some i -> fs_obj f i = Some o -> fo_kind o <> FsSymlink -> id = i
    | Err e => True
    end;
  file_metadata_ok : forall f id, let '(f', r) := file_metadata id f in
    same_view f f' /\
    match r with
    | Ok m => md_identity m = id
    | Err e => fs_reliable f -> fs_obj f id = None
    end;
  file_write_all_ok : forall f id bytes, let '(f', r) := file_write_all id bytes f in
    changes_object id
      (fun o o' => fo_kind o' = fo_kind o /\ fo_mode o' = fo_mode o /\
         match r with Ok _ => fo_bytes o' = fo_bytes o ++ bytes | Err _ => True end) f f';
  file_read_at_ok : forall f id offset length, let '(f', r) := file_read_at id offset length f in
    same_view f f' /\
    match r with
    | Ok bytes => forall o, fs_obj f id = Some o -> bytes = slice (fo_bytes o) offset (offset + length)
    | Err e => True
    end;
  file_set_permissions_ok : forall f id mode, let '(f', r) := file_set_permissions id mode f in
    match r with
    | Ok _ => changes_object id (fun o o' => o' = with_mode mode o) f f'
    | Err e => same_view f f'
    end;
  (** below the values [UTIME_NOW] and [UTIME_OMIT] of [tv_nsec] *)
  futimens_ok : forall f id t, tv_nsec t < 1000000000 -> let '(f', r) := futimens id t f in
    match r with
    | Ok _ => changes_object id (fun o o' => o' = with_mtime t o) f f' /\ 0 <= tv_nsec t < 1000000000
    | Err e => same_view f f'
    end;
  (** [EINVAL] for negative nanoseconds *)
  futimens_range : forall f id t, fs_reliable f -> tv_nsec t < 0 ->
    exists e, (futimens id t f).2 = Err e /\ io_kind e = KInvalidInput;
  set_permissions_ok : forall f p mode, let '(f', r) := set_permissions p mode f in
    forall id o, fs_at f p = Some id -> fs_obj f id = Some o -> fo_kind o <> FsSymlink ->
    match r with
    | Ok _ => changes_object id (fun o o' => o' = with_mode mode o) f f'
    | Err e => same_view f f'
    end;
  rename_ok : forall f p q, let '(f', r) := rename p q f in
    match r with
    | Ok _ => exists id, moves p q id f f' /\ settles q id f f'
    | Err e => same_view f f'
    end;
  remove_file_ok : forall f p, let '(f', r) := remove_file p f in
    match r with
    | Ok _ => exists id, removes p id f f'
    | Err e => same_view f f'
    end;
  remove_dir_ok : forall f p, let '(f', r) := remove_dir p f in
    match r with
    | Ok _ => exists id, removes p id f f'
    | Err e => same_view f f'
    end;
  (** removal succeeds on a reliable file system *)
  remove_file_reliable : forall f p id o, fs_reliable f -> fs_at f p = Some id -> fs_obj f id = Some o ->
    fo_kind o = FsFile -> is_ok (remove_file p f).2 = true;
  remove_dir_reliable : forall f p id o, fs_reliable f -> fs_at f p = Some id -> fs_obj f id = Some o ->
    fo_kind o = FsDirectory -> (forall i, is_Some (fs_obj f i) -> fs_parent f i <> Some id) ->
    is_ok (remove_dir p f).2 = true;
}.
