(* ===== verification/Materialize.v ===== *)
(** * Materialization

    [handle_materialize], [materialize_node_in_state] and their helpers, of
    [crates/fuse-promise-ipc/src/lib.rs]: copying a promised file or subtree to
    local files, with progress reports that the client acknowledges, clean-up on
    failure, and the nodes marked as materialized on success.

    The file system is the interface of [Fs], provider reads the one of
    [Router], the client's connection the one of [DaemonEnd].  [process_id] is
    [std::process::id()]. *)

From S2P Require Import Prelude Types Paths Cache Tree Runtime ReadPlan Messages Frame Mount IpcState Routing Server Router Effect Fs.

(** ** [std::path] *)

Definition path_file_name (p : str) : option str :=
  match last (components p) with
  | Some (Normal name) => Some name
  | _ => None
  end.

(** The part after the last dot, and the part before it. *)
Fixpoint rsplit_once_dot (s : str) : option (str * str) :=
  match s with
  | [] => None
  | c :: s =>
      match rsplit_once_dot s with
      | Some (a, b) => Some (c :: a, b)
      | None => if decide (c = dot) then Some ([], s) else None
      end
  end.

(** [Path::file_stem] and [Path::extension]. *)
Definition split_file_at_dot (name : str) : option str * option str :=
  if decide (name = bs "..") then (Some name, None)
  else match rsplit_once_dot name with
       | None | Some ([], _) => (Some name, None)
       | Some (before, after) => (Some before, Some after)
       end.

Definition path_file_stem (p : str) : option str :=
  name ← path_file_name p; (split_file_at_dot name).1.

Definition path_extension (p : str) : option str :=
  name ← path_file_name p; (split_file_at_dot name).2.

Fixpoint str_strip_prefix (prefix s : str) : option str :=
  match prefix, s with
  | [], s => Some s
  | a :: prefix, b :: s => if decide (a = b) then str_strip_prefix prefix s else None
  | _ :: _, [] => None
  end.

(** ** Data *)

#[export] Instance MaterializeConflictPolicy_eq_decision : EqDecision MaterializeConflictPolicy.
Proof. solve_decision. Defined.

Record MaterializeEntryPlan : Type := mkMaterializeEntryPlan {
  me_relative_path : str;
  me_target_path : str;
  me_kind : NodeKind;
  me_size : Z;
  me_mode : Z;
  me_mtime_nsec : Z;
}.

Record MaterializePlan : Type := mkMaterializePlan {
  mp_promise_id : str;
  mp_target_path : str;
  mp_conflict_policy : MaterializeConflictPolicy;
  mp_entries : list MaterializeEntryPlan;
}.

Inductive MaterializeTargetKind : Type := TargetFile | TargetDirectory.

#[export] Instance MaterializeTargetKind_eq_decision : EqDecision MaterializeTargetKind.
Proof. solve_decision. Defined.

Record CreatedTarget : Type := mkCreatedTarget {
  ct_path : str;
  ct_identity : FileIdentity;
  ct_kind : MaterializeTargetKind;
  ct_remove_on_cleanup : bool;
}.

Record MaterializeProgress : Type := mkMaterializeProgress {
  mg_target_path : str;
  mg_entries_done : Z;
  mg_entries_total : Z;
  mg_bytes_written : Z;
  mg_bytes_total : Z;
  mg_files_written : Z;
  mg_files_total : Z;
  mg_directories_created : Z;
  mg_directories_total : Z;
}.

Record MaterializeOperationError : Type := mkMaterializeOperationError {
  oe_status : Status;
  oe_progress : option MaterializeProgress;
}.

Record MaterializeFileOutcome : Type := mkMaterializeFileOutcome {
  fo_bytes_written : Z;
  fo_target : CreatedTarget;
}.

Record MaterializeFileTarget : Type := mkMaterializeFileTarget {
  mt_file : FileIdentity;
  mt_write_target : CreatedTarget;
  mt_final_path : str;
  mt_final_remove_on_cleanup : bool;
  mt_replace_on_success : bool;
}.

Record MaterializeWriteError : Type := mkMaterializeWriteError {
  we_status : Status;
  we_target : option CreatedTarget;
  we_bytes_written : Z;
}.

Definition without_created_target (status : Status) : MaterializeWriteError :=
  mkMaterializeWriteError status None 0.

Definition with_target (status : Status) (target : CreatedTarget) (bytes_written : Z) :
    MaterializeWriteError :=
  mkMaterializeWriteError status (Some target) bytes_written.

(** ** Progress *)

Definition is_file_entry (e : MaterializeEntryPlan) : Prop := me_kind e = File.
Definition is_dir_entry (e : MaterializeEntryPlan) : Prop := me_kind e = Directory.

#[export] Instance is_file_entry_dec e : Decision (is_file_entry e).
Proof. unfold is_file_entry. apply _. Defined.
#[export] Instance is_dir_entry_dec e : Decision (is_dir_entry e).
Proof. unfold is_dir_entry. apply _. Defined.

(** [.sum()] of [u64]s, which wraps in a release build. *)
Definition u64_sum (l : list Z) : Z := foldl wrapping_add 0 l.

Definition MaterializeProgress_new (target_path : str) (entries : list MaterializeEntryPlan) :
    MaterializeProgress :=
  mkMaterializeProgress target_path 0 (len entries) 0
    (u64_sum (me_size <$> filter is_file_entry entries))
    0 (len (filter is_file_entry entries)) 0 (len (filter is_dir_entry entries)).

Definition has_partial (self : MaterializeProgress) : bool :=
  (0 <? mg_bytes_written self) || (0 <? mg_files_written self) || (0 <? mg_directories_created self).

(** The counters of a reply. *)
Definition progress_counters (self : MaterializeProgress) : MaterializeCounters :=
  mkMaterializeCounters (to_string_lossy (mg_target_path self)) (mg_entries_done self)
    (mg_entries_total self) (mg_bytes_written self) (mg_bytes_total self) (mg_files_written self)
    (mg_files_total self) (mg_directories_created self) (mg_directories_total self).

Definition to_failed_body (self : MaterializeOperationError) (progress : MaterializeProgress) :
    MaterializeFailedBody :=
  mkMaterializeFailedBody (status_to_error_code (oe_status self)) (Status_as_str (oe_status self))
    (progress_counters progress).

Definition set_bytes_written (n : Z) (g : MaterializeProgress) : MaterializeProgress :=
  mkMaterializeProgress (mg_target_path g) (mg_entries_done g) (mg_entries_total g) n
    (mg_bytes_total g) (mg_files_written g) (mg_files_total g) (mg_directories_created g)
    (mg_directories_total g).

(** [directories_created += 1] if the directory is new, [entries_done += 1]. *)
Definition directory_done (created : bool) (g : MaterializeProgress) : MaterializeProgress :=
  mkMaterializeProgress (mg_target_path g) (mg_entries_done g + 1) (mg_entries_total g)
    (mg_bytes_written g) (mg_bytes_total g) (mg_files_written g) (mg_files_total g)
    (if created then mg_directories_created g + 1 else mg_directories_created g) (mg_directories_total g).

(** [files_written += 1], [entries_done += 1]. *)
Definition file_done (g : MaterializeProgress) : MaterializeProgress :=
  mkMaterializeProgress (mg_target_path g) (mg_entries_done g + 1) (mg_entries_total g)
    (mg_bytes_written g) (mg_bytes_total g) (mg_files_written g + 1) (mg_files_total g)
    (mg_directories_created g) (mg_directories_total g).

(** ** Targets *)

Definition materialize_target_name (promise_id : str) (node : PromiseNode) : Result str :=
  if decide (pn_relative_path node = []) then Ok promise_id
  else if decide (pn_name node = []) then Err InvalidArgument
  else Ok (pn_name node).

Definition subtree_target_suffix (source_relative_path node_relative_path : str) : Result str :=
  if decide (node_relative_path = source_relative_path) then Ok []
  else if decide (source_relative_path = []) then Ok node_relative_path
  else ok_or (str_strip_prefix (source_relative_path ++ bs "/") node_relative_path) InvalidArgument.

Definition numbered (name : str) (attempt : Z) : str := name ++ bs " (" ++ u64_to_string attempt ++ bs ")".

Definition rename_candidate_name (target_name : str) (target_kind : NodeKind) (attempt : Z) : str :=
  if decide (target_kind = Directory) then numbered target_name attempt
  else match path_extension target_name ≫= to_str with
       | None => numbered target_name attempt
       | Some extension =>
           match path_file_stem target_name ≫= to_str with
           | None => numbered target_name attempt
           | Some stem => numbered stem attempt ++ bs "." ++ extension
           end
       end.

Definition validate_existing_materialize_target (entry : MaterializeEntryPlan) (metadata : Metadata)
    (conflict_policy : MaterializeConflictPolicy) : Result () :=
  if decide (md_kind metadata = FsSymlink) then Err InvalidArgument
  else match conflict_policy with
  | PolicyFail => Err AlreadyExists
  | PolicyOverwrite =>
      match me_kind entry with
      | Directory => if decide (md_kind metadata = FsDirectory) then Ok tt else Err AlreadyExists
      | File => if decide (md_kind metadata = FsFile) then Ok tt else Err AlreadyExists
      end
  | PolicyRename => Err AlreadyExists
  end.

Section fs.
Context {F : Type} `{!FileSystem F}.

Definition fs_call {A} (m : M F IoError A) : M F Status A := map_error io_error_to_status m.

Definition validate_target_dir (target_dir : str) : M F Status () :=
  if negb (is_absolute target_dir) then fail InvalidArgument
  else
    metadata ← fs_call (symlink_metadata target_dir);
    if decide (md_kind metadata = FsSymlink \/ md_kind metadata <> FsDirectory)
    then fail InvalidArgument else mret tt.

Definition preflight_materialize_targets (entries : list MaterializeEntryPlan)
    (conflict_policy : MaterializeConflictPolicy) : M F Status () :=
  for_each entries (fun entry =>
    metadata ← try_ (symlink_metadata (me_target_path entry));
    match metadata with
    | Ok metadata => lift (validate_existing_materialize_target entry metadata conflict_policy)
    | Err error => if decide (io_kind error = KNotFound) then mret tt else fail (io_error_to_status error)
    end).

(** [for attempt in 0..1024]; [n] attempts are left. *)
Fixpoint unique_loop (n : nat) (attempt : Z) (target_dir target_name : str) (target_kind : NodeKind) :
    M F Status str :=
  match n with
  | O => fail AlreadyExists
  | S n =>
      let candidate_name :=
        if attempt =? 0 then target_name else rename_candidate_name target_name target_kind attempt in
      let candidate := path_join target_dir candidate_name in
      metadata ← try_ (symlink_metadata candidate);
      match metadata with
      | Ok _ => unique_loop n (attempt + 1) target_dir target_name target_kind
      | Err error =>
          if decide (io_kind error = KNotFound) then mret candidate else fail (io_error_to_status error)
      end
  end.

Definition unique_materialize_target_path (target_dir target_name : str) (target_kind : NodeKind) :
    M F Status str := unique_loop 1024 0 target_dir target_name target_kind.

Definition materialize_target_path (target_dir target_name : str) (target_kind : NodeKind)
    (conflict_policy : MaterializeConflictPolicy) : M F Status str :=
  if decide (conflict_policy <> PolicyRename) then mret (path_join target_dir target_name)
  else unique_materialize_target_path target_dir target_name target_kind.

(** ** Directories and metadata *)

Definition create_materialized_directory (entry : MaterializeEntryPlan)
    (conflict_policy : MaterializeConflictPolicy) : M F Status CreatedTarget :=
  metadata ← try_ (symlink_metadata (me_target_path entry));
  match metadata with
  | Ok metadata =>
      _ ← lift (validate_existing_materialize_target entry metadata conflict_policy);
      mret (mkCreatedTarget (me_target_path entry) (md_identity metadata) TargetDirectory false)
  | Err error =>
      if decide (io_kind error = KNotFound) then
        _ ← fs_call (create_dir (me_target_path entry) 448);
        metadata ← fs_call (symlink_metadata (me_target_path entry));
        mret (mkCreatedTarget (me_target_path entry) (md_identity metadata) TargetDirectory true)
      else fail (io_error_to_status error)
  end.

(** Rust's [/] and [%] round towards zero. *)
Definition apply_mtime (file : FileIdentity) (mtime_nsec : Z) : M F Status () :=
  let timestamp := mkTimespec (Z.quot mtime_nsec 1000000000) (Z.rem mtime_nsec 1000000000) in
  fs_call (futimens file timestamp).

Definition apply_directory_metadata (entry : MaterializeEntryPlan) (expected : FileIdentity) :
    M F Status () :=
  directory ← fs_call (open_file (me_target_path entry));
  metadata ← fs_call (file_metadata directory);
  if decide (md_identity metadata <> expected) then fail Unavailable
  else
    _ ← fs_call (file_set_permissions directory (Z.land (me_mode entry) 4095));
    apply_mtime directory (me_mtime_nsec entry).

(** ** Clean-up *)

Definition restore_created_directory_permissions (f : F) (target : CreatedTarget) : F :=
  let '(f, metadata) := symlink_metadata (ct_path target) f in
  match metadata with
  | Err _ => f
  | Ok metadata =>
      if decide (md_identity metadata <> ct_identity target) then f
      else (set_permissions (ct_path target) 448 f).1
  end.

Definition remove_created_target (f : F) (target : CreatedTarget) : F :=
  if negb (ct_remove_on_cleanup target) then f
  else
    let '(f, metadata) := symlink_metadata (ct_path target) f in
    match metadata with
    | Err _ => f
    | Ok metadata =>
        if decide (md_identity metadata <> ct_identity target) then f
        else match ct_kind target with
             | TargetFile => (remove_file (ct_path target) f).1
             | TargetDirectory => (remove_dir (ct_path target) f).1
             end
    end.

Definition cleanup_created_targets (created_targets : list CreatedTarget) (f : F) : F :=
  let f := foldl restore_created_directory_permissions f
    (filter (fun t => ct_kind t = TargetDirectory /\ ct_remove_on_cleanup t = true) created_targets) in
  foldl remove_created_target f (reverse created_targets).

(** ** Opening and closing files *)

Definition open_materialize_output (path : str) : M F MaterializeWriteError (FileIdentity * FileIdentity) :=
  file ← map_error without_created_target (fs_call (open_new path 384));
  metadata ← map_error without_created_target (fs_call (file_metadata file));
  mret (file, md_identity metadata).

Definition open_final_materialized_file (entry : MaterializeEntryPlan) (remove_on_cleanup : bool) :
    M F MaterializeWriteError MaterializeFileTarget :=
  out ← open_materialize_output (me_target_path entry);
  mret (mkMaterializeFileTarget out.1
          (mkCreatedTarget (me_target_path entry) out.2 TargetFile remove_on_cleanup)
          (me_target_path entry) remove_on_cleanup false).

Definition finalize_materialized_file (write_target : CreatedTarget) (final_path : str)
    (final_remove_on_cleanup replace_on_success : bool) (bytes_written : Z) :
    M F MaterializeWriteError CreatedTarget :=
  _ ← (if replace_on_success then
         map_error (fun error => with_target (io_error_to_status error) write_target bytes_written)
           (rename (ct_path write_target) final_path)
       else mret tt);
  mret (mkCreatedTarget final_path (ct_identity write_target) TargetFile final_remove_on_cleanup).

Definition read_local_materialized_chunk (path : str) (offset length : Z) : M F Status (list byte) :=
  file ← fs_call (open_file path);
  bytes ← fs_call (file_read_at file offset length);
  if negb (len bytes =? length) then fail Io else mret bytes.
End fs.

(** [std::process::id()] and the value of [MATERIALIZE_TEMP_COUNTER] make the
    name unique. *)
Definition materialize_temp_path (process_id : Z) (target_path : str) (attempt : Z) : Result str :=
  parent ← ok_or (path_parent target_path) InvalidArgument;
  file_name ← ok_or (path_file_name target_path) InvalidArgument;
  let temp_name := bs "." ++ file_name ++ bs ".fuse-promise-tmp-" ++ u64_to_string process_id ++ bs "-"
                     ++ u64_to_string attempt in
  Ok (path_join parent temp_name).

(** ** The operation *)

(** The daemon's state, the file system, the client at the other end of the
    progress reports, and [MATERIALIZE_TEMP_COUNTER]. *)
Record World (F C : Type) : Type := mkWorld {
  w_ipc : IpcState;
  w_fs : F;
  w_client : C;
  w_temp_counter : Z;
}.
Arguments mkWorld {F C}.
Arguments w_ipc {F C}.
Arguments w_fs {F C}.
Arguments w_client {F C}.
Arguments w_temp_counter {F C}.

Section operation.
Context {F C : Type} `{!FileSystem F, !Router}.
Context (process_id : Z) (report_progress : C -> MaterializeProgress -> C * Result ()).

Implicit Types (w : World F C).

Definition set_w_ipc (s : IpcState) w : World F C := mkWorld s (w_fs w) (w_client w) (w_temp_counter w).
Definition set_w_fs (f : F) w : World F C := mkWorld (w_ipc w) f (w_client w) (w_temp_counter w).
Definition set_w_client (c : C) w : World F C := mkWorld (w_ipc w) (w_fs w) c (w_temp_counter w).
Definition set_w_temp (n : Z) w : World F C := mkWorld (w_ipc w) (w_fs w) (w_client w) n.

Definition on_fs {E A} (m : M F E A) : M (World F C) E A := zoom w_fs set_w_fs m.
Definition get_ipc {E} : M (World F C) E IpcState := fun w => (w, Ok (w_ipc w)).

Definition report (progress : MaterializeProgress) : M (World F C) Status () := fun w =>
  let '(c, r) := report_progress (w_client w) progress in (set_w_client c w, r).

Definition cleanup_world (created : list CreatedTarget) w : World F C :=
  set_w_fs (cleanup_created_targets created (w_fs w)) w.

Definition with_progress (progress : MaterializeProgress) (status : Status) : MaterializeOperationError :=
  mkMaterializeOperationError status (Some progress).

Definition without_progress (status : Status) : MaterializeOperationError :=
  mkMaterializeOperationError status None.

(** [cleanup_created_targets(&created_targets)] before the error is returned. *)
Definition or_clean_up {A} (created : list CreatedTarget) (progress : MaterializeProgress)
    (m : M (World F C) Status A) : M (World F C) MaterializeOperationError A :=
  on_error (cleanup_world created) (with_progress progress) m.

(** *** Planning *)

Definition plan_entry (target_path relative_path : str) (node : PromiseNode) : Result MaterializeEntryPlan :=
  suffix ← subtree_target_suffix relative_path (pn_relative_path node);
  let entry_target := if decide (suffix = []) then target_path else path_join target_path suffix in
  Ok (mkMaterializeEntryPlan (pn_relative_path node) entry_target (pn_kind node)
        (attr_size (pn_attr node)) (attr_mode (pn_attr node)) (attr_mtime_nsec (pn_attr node))).

(** The nodes to copy: the promise is available, its provider live. *)
Definition plan_nodes (runtime : Runtime) (promise_id relative_path : str) : Result (list PromiseNode) :=
  tree ← ok_or (Runtime_promise runtime promise_id) NotFound;
  if decide (pt_state tree <> Available \/ Runtime_has_provider runtime (pt_provider_id tree) = false)
  then Err ProviderGone
  else default (Err Io) (PromiseTree_subtree_nodes tree relative_path).

Definition plan_materialize (request : MaterializeRequest) : M (World F C) Status MaterializePlan :=
  _ ← on_fs (validate_target_dir (mr_target_dir request));
  s ← get_ipc;
  source ← lift (resolve_visible_path (st_mount_status s) (mr_source_path request));
  let '(promise_id, relative_path) := source in
  nodes ← lift (plan_nodes (st_runtime s) promise_id relative_path);
  root ← lift (ok_or (head nodes) NotFound);
  target_name ← lift (materialize_target_name promise_id root);
  target_path ← on_fs (materialize_target_path (mr_target_dir request) target_name (pn_kind root)
                         (mr_conflict_policy request));
  entries ← lift (collect (plan_entry target_path relative_path) nodes);
  _ ← on_fs (preflight_materialize_targets entries (mr_conflict_policy request));
  mret (mkMaterializePlan promise_id target_path (mr_conflict_policy request) entries).

(** *** Reading *)

Definition read_materialize_provider_chunk (plan : ProviderReadPlan) : M (World F C) Status (list byte) := fun w =>
  let '(s, request_id) := next_provider_read_request_id (w_ipc w) in
  let request :=
    mkProviderReadRequest request_id (prp_provider_id plan) (prp_promise_id plan) (prp_relative_path plan)
      (prp_provider_node_id plan) (prp_offset plan) (prp_length plan) in
  let '(s, response) := router_read s request in
  (set_w_ipc s w,
   response ← map_err io_error_to_status response;
   if decide (rs_status response = PrOk) then Ok (rs_bytes response)
   else Err (provider_read_status_to_status (rs_status response))).

Definition read_materialize_chunk (promise_id : str) (entry : MaterializeEntryPlan) (offset length : Z) :
    M (World F C) Status (list byte) :=
  s ← get_ipc;
  provider_read_plan ←
    match Runtime_plan_provider_read (st_runtime s) promise_id (me_relative_path entry) offset length with
    | Ok plan => mret (Some plan)
    | Err ProviderGone => mret None
    | Err status => fail status
    end;
  match provider_read_plan with
  | Some plan => read_materialize_provider_chunk plan
  | None =>
      s ← get_ipc;
      read_plan ← lift (Runtime_plan_read (st_runtime s) promise_id (me_relative_path entry) offset length);
      match read_plan with
      | RequestPlan plan => read_materialize_provider_chunk plan
      | MaterializedPlan plan => on_fs (read_local_materialized_chunk (mrp_path plan) (mrp_offset plan) (mrp_length plan))
      | CachedPlan bytes => mret bytes
      | Eof => fail Io
      end
  end.

(** *** Writing *)

(** [for _ in 0..16]. *)
Fixpoint replacement_loop (n : nat) (entry : MaterializeEntryPlan) :
    M (World F C) MaterializeWriteError MaterializeFileTarget :=
  match n with
  | O => fail (without_created_target AlreadyExists)
  | S n => fun w =>
      let attempt := w_temp_counter w in
      let w := set_w_temp (wrapping_add attempt 1) w in
      match materialize_temp_path process_id (me_target_path entry) attempt with
      | Err status => (w, Err (without_created_target status))
      | Ok temp_path =>
          let '(w, out) := on_fs (open_materialize_output temp_path) w in
          match out with
          | Ok (file, identity) =>
              (w, Ok (mkMaterializeFileTarget file (mkCreatedTarget temp_path identity TargetFile true)
                        (me_target_path entry) false true))
          | Err error =>
              if decide (we_status error = AlreadyExists) then replacement_loop n entry w else (w, Err error)
          end
      end
  end.

Definition open_replacement_materialized_file (entry : MaterializeEntryPlan) :
    M (World F C) MaterializeWriteError MaterializeFileTarget := replacement_loop 16 entry.

Definition open_materialized_file (entry : MaterializeEntryPlan) (conflict_policy : MaterializeConflictPolicy) :
    M (World F C) MaterializeWriteError MaterializeFileTarget :=
  metadata ← on_fs (try_ (symlink_metadata (me_target_path entry)));
  target_exists ←
    match metadata with
    | Ok metadata =>
        _ ← lift (map_err without_created_target
                    (validate_existing_materialize_target entry metadata conflict_policy));
        mret true
    | Err error =>
        if decide (io_kind error = KNotFound) then mret false
        else fail (without_created_target (io_error_to_status error))
    end;
  match conflict_policy with
  | PolicyFail => on_fs (open_final_materialized_file entry true)
  | PolicyOverwrite =>
      if (target_exists : bool) then open_replacement_materialized_file entry
      else on_fs (open_final_materialized_file entry true)
  | PolicyRename => on_fs (open_final_materialized_file entry true)
  end.

(** [while offset < entry.size]; each round writes at least one byte. *)
Fixpoint write_loop (fuel : nat) (promise_id : str) (entry : MaterializeEntryPlan) (file : FileIdentity)
    (write_target : CreatedTarget) (report_file_progress : Z -> M (World F C) Status ()) (offset : Z) :
    M (World F C) MaterializeWriteError Z :=
  match fuel with
  | O => mret offset
  | S fuel =>
      if offset <? me_size entry then
        let length := Z.min (me_size entry - offset) MAX_PROVIDER_READ_LEN in
        bytes ← map_error (fun status => with_target status write_target offset)
                  (read_materialize_chunk promise_id entry offset length);
        if decide (bytes = []) then fail (with_target Io write_target offset)
        else
          _ ← map_error (fun error => with_target (io_error_to_status error) write_target offset)
                (on_fs (file_write_all file bytes));
          match checked_add offset (len bytes) with
          | None => fail (with_target InvalidArgument write_target offset)
          | Some offset =>
              _ ← map_error (fun status => with_target status write_target offset)
                    (report_file_progress offset);
              write_loop fuel promise_id entry file write_target report_file_progress offset
          end
      else mret offset
  end.

Definition write_materialized_file (promise_id : str) (entry : MaterializeEntryPlan)
    (conflict_policy : MaterializeConflictPolicy) (report_file_progress : Z -> M (World F C) Status ()) :
    M (World F C) MaterializeWriteError MaterializeFileOutcome :=
  target ← open_materialized_file entry conflict_policy;
  offset ← write_loop (S (Z.to_nat (me_size entry))) promise_id entry (mt_file target) (mt_write_target target)
             report_file_progress 0;
  let failed status := with_target status (mt_write_target target) offset in
  _ ← map_error failed (on_fs (fs_call (file_set_permissions (mt_file target) (Z.land (me_mode entry) 4095))));
  _ ← map_error failed (on_fs (apply_mtime (mt_file target) (me_mtime_nsec entry)));
  created ← on_fs (finalize_materialized_file (mt_write_target target) (mt_final_path target)
                     (mt_final_remove_on_cleanup target) (mt_replace_on_success target) offset);
  mret (mkMaterializeFileOutcome offset created).

(** *** The phases *)

Fixpoint create_directories (policy : MaterializeConflictPolicy) (entries : list MaterializeEntryPlan)
    (progress : MaterializeProgress) (created : list CreatedTarget) :
    M (World F C) MaterializeOperationError (MaterializeProgress * list CreatedTarget) :=
  match entries with
  | [] => mret (progress, created)
  | entry :: entries =>
      target ← or_clean_up created progress (on_fs (create_materialized_directory entry policy));
      let progress := directory_done (ct_remove_on_cleanup target) progress in
      let created := created ++ [target] in
      _ ← or_clean_up created progress (report progress);
      create_directories policy entries progress created
  end.

Fixpoint write_files (promise_id : str) (policy : MaterializeConflictPolicy)
    (entries : list MaterializeEntryPlan) (progress : MaterializeProgress) (created : list CreatedTarget) :
    M (World F C) MaterializeOperationError (MaterializeProgress * list CreatedTarget) :=
  match entries with
  | [] => mret (progress, created)
  | entry :: entries =>
      let bytes_before_file := mg_bytes_written progress in
      outcome ← try_ (write_materialized_file promise_id entry policy (fun file_bytes_written =>
        report (set_bytes_written (wrapping_add bytes_before_file file_bytes_written) progress)));
      match outcome with
      | Ok outcome =>
          let progress := file_done (set_bytes_written
            (wrapping_add bytes_before_file (fo_bytes_written outcome)) progress) in
          let created := created ++ [fo_target outcome] in
          _ ← or_clean_up created progress (report progress);
          write_files promise_id policy entries progress created
      | Err error =>
          let progress := set_bytes_written (wrapping_add bytes_before_file (we_bytes_written error)) progress in
          let created := created ++ option_list (we_target error) in
          or_clean_up created progress (fail (we_status error))
      end
  end.

(** [created.path == entry.target_path] compares components. *)
Definition find_created (created : list CreatedTarget) (entry : MaterializeEntryPlan) : option CreatedTarget :=
  head (filter (fun t => ct_kind t = TargetDirectory /\ components (ct_path t) = components (me_target_path entry))
          created).

Definition apply_directories (created : list CreatedTarget) (entries : list MaterializeEntryPlan) : M F Status () :=
  for_each entries (fun entry =>
    match find_created created entry with
    | None => fail Io
    | Some target => apply_directory_metadata entry (ct_identity target)
    end).

Definition mark_materialized (promise_id : str) (entries : list MaterializeEntryPlan) : M (World F C) Status () :=
  for_each entries (fun entry w =>
    let '(runtime, r) := Runtime_mark_node_materialized (st_runtime (w_ipc w)) promise_id
                           (me_relative_path entry) (me_target_path entry) in
    (set_w_ipc (set_runtime runtime (w_ipc w)) w, r)).

Definition materialize_node_in_state (body : MaterializeBody) :
    M (World F C) MaterializeOperationError MaterializeCounters :=
  request ← map_error without_progress (lift (MaterializeRequest_from_body body));
  plan ← map_error without_progress (plan_materialize request);
  let progress := MaterializeProgress_new (mp_target_path plan) (mp_entries plan) in
  _ ← or_clean_up [] progress (report progress);
  r ← create_directories (mp_conflict_policy plan) (filter is_dir_entry (mp_entries plan)) progress [];
  r ← write_files (mp_promise_id plan) (mp_conflict_policy plan) (filter is_file_entry (mp_entries plan)) r.1 r.2;
  let '(progress, created) := r in
  _ ← or_clean_up created progress (on_fs (apply_directories created (filter is_dir_entry (reverse (mp_entries plan)))));
  _ ← or_clean_up created progress (mark_materialized (mp_promise_id plan) (mp_entries plan));
  mret (progress_counters progress).
End operation.

(** ** The request handler *)

(** The daemon's end of a connection: what the handler does with it. *)
Class DaemonEnd (C : Type) := {
  end_reply : C -> Response -> C * IoResult ();
  end_request : C -> C * IoResult (option Request);
}.

#[export] Instance client_end `{!Bincode Request, !Bincode Response} : DaemonEnd Client := {|
  end_reply := reply;
  end_request c := let '(reader, r) := read_frame (cl_reader c) in (set_reader reader c, r);
|}.

Section handler.
Context {F C : Type} `{!FileSystem F, !Router, !DaemonEnd C}.
Context (process_id : Z).

(** Send a progress frame, wait for the client to go on or to cancel. *)
Definition client_progress (c : C) (progress : MaterializeProgress) : C * Result () :=
  let '(c, r) := end_reply c (ResponseMaterializeProgress (progress_counters progress)) in
  match r with
  | Err _ => (c, Err Cancelled)
  | Ok _ =>
      let '(c, r) := end_request c in
      (c,
       match r with
       | Err _ => Err Cancelled
       | Ok (Some RequestMaterializeContinue) => Ok tt
       | Ok (Some RequestMaterializeCancel) | Ok None => Err Cancelled
       | Ok (Some _) => Err InvalidArgument
       end)
  end.

(** [write_status_error]. *)
Definition end_status_error (c : C) (status : Status) : C * IoResult () :=
  end_reply c (ResponseError (mkErrorBody (status_to_error_code status) (Status_as_str status))).

Definition handle_materialize (body : MaterializeBody) (w : World F C) : World F C * IoResult () :=
  let '(w, r) := materialize_node_in_state process_id client_progress body w in
  let '(c, r) :=
    match r with
    | Ok counters => end_reply (w_client w) (ResponseMaterialized counters)
    | Err error =>
        match oe_progress error with
        | Some progress =>
            if has_partial progress
            then end_reply (w_client w) (ResponseMaterializeFailed (to_failed_body error progress))
            else end_status_error (w_client w) (oe_status error)
        | None => end_status_error (w_client w) (oe_status error)
        end
    end in
  (set_w_client c w, r).
End handler.
