(* ===== verification/ModelFs.v ===== *)
(** * A file system that satisfies the laws

    A finite tree with a schedule of faults: it shows that the laws of
    [FileSystemOk] can hold together, and runs the sample operations of the
    materialization files. *)

From S2P Require Import Prelude Types Paths Messages Effect Fs Materialize.

(** Names by path, objects with the inode of their directory, and for each
    coming call whether it fails. *)
Record ModelFs : Type := mkModelFs {
  mf_names : gmap str Z;
  mf_objects : gmap Z (FsObject * Z);
  mf_faults : list bool;
}.

Definition model_id (ino : Z) : FileIdentity := mkFileIdentity 0 ino.

(** ** The view *)

Definition model_obj (f : ModelFs) (id : FileIdentity) : option FsObject :=
  if decide (fi_dev id = 0) then fst <$> mf_objects f !! fi_ino id else None.

Definition model_at (f : ModelFs) (p : str) : option FileIdentity :=
  ino ← mf_names f !! p; if decide (is_Some (mf_objects f !! ino)) then Some (model_id ino) else None.

Definition model_dir (f : ModelFs) (ino : Z) : option Z :=
  x ← mf_objects f !! ino; if decide (fo_kind x.1 = FsDirectory) then Some ino else None.

Definition model_parent (f : ModelFs) (id : FileIdentity) : option FileIdentity :=
  if decide (fi_dev id = 0) then
    x ← mf_objects f !! fi_ino id; d ← model_dir f x.2; Some (model_id d)
  else None.

#[export] Instance model_view : FsView ModelFs := {
  fs_at := model_at;
  fs_obj := model_obj;
  fs_parent := model_parent;
  fs_single f id := forall p q, mf_names f !! p = Some (fi_ino id) -> mf_names f !! q = Some (fi_ino id) -> p = q;
  fs_reliable f := mf_faults f = [];
}.

(** ** The calls *)

Definition set_names (v : gmap str Z) (f : ModelFs) : ModelFs := mkModelFs v (mf_objects f) (mf_faults f).
Definition set_objects (v : gmap Z (FsObject * Z)) (f : ModelFs) : ModelFs := mkModelFs (mf_names f) v (mf_faults f).
Definition set_faults (v : list bool) (f : ModelFs) : ModelFs := mkModelFs (mf_names f) (mf_objects f) v.

(** Each call first takes the next entry of the schedule. *)
Definition faulty {A} (m : M ModelFs IoError A) : M ModelFs IoError A := fun f =>
  match mf_faults f with
  | true :: l => (set_faults l f, Err (mkIoError OtherKind (bs "input/output error")))
  | _ => m (set_faults (tail (mf_faults f)) f)
  end.

Definition model_error {A} (kind : ErrorKind) : M ModelFs IoError A := fail (mkIoError kind (bs "os error")).

(** An inode number in use nowhere. *)
Definition fresh_ino (f : ModelFs) : Z :=
  1 + foldr Z.max 0 ((map_to_list (mf_names f)).*2 ++ (map_to_list (mf_objects f)).*1 ++
                       (snd <$> (map_to_list (mf_objects f)).*2)).

Definition model_create (kind : FsKind) (p : str) (mode : Z) : M ModelFs IoError FileIdentity := fun f =>
  match mf_names f !! p, (d ← path_parent p; ino ← mf_names f !! d; model_dir f ino) with
  | Some _, _ => model_error KAlreadyExists f
  | None, None => model_error KNotFound f
  | None, Some d =>
      let ino := fresh_ino f in
      (set_names (<[p := ino]> (mf_names f))
         (set_objects (<[ino := (mkFsObject kind [] mode (mkTimespec 0 0), d)]> (mf_objects f)) f),
       Ok (model_id ino))
  end.

Definition model_update (id : FileIdentity) (g : FsObject -> FsObject) : M ModelFs IoError () := fun f =>
  if decide (fi_dev id = 0) then
    match mf_objects f !! fi_ino id with
    | None => model_error KNotFound f
    | Some (o, d) => (set_objects (<[fi_ino id := (g o, d)]> (mf_objects f)) f, Ok tt)
    end
  else model_error KNotFound f.

Definition model_lookup (p : str) : M ModelFs IoError FileIdentity := fun f =>
  match model_at f p with
  | None => model_error KNotFound f
  | Some id => (f, Ok id)
  end.

Definition named_elsewhere (f : ModelFs) (p : str) (ino : Z) : Prop :=
  Exists (fun kv => kv.1 <> p /\ kv.2 = ino) (map_to_list (mf_names f)).

Definition model_unlink (p : str) (ino : Z) (f : ModelFs) : ModelFs :=
  set_names (delete p (mf_names f))
    (if decide (named_elsewhere f p ino) then f else set_objects (delete ino (mf_objects f)) f).

Definition has_children (f : ModelFs) (ino : Z) : Prop :=
  Exists (fun kv => model_parent f (model_id kv.1) = Some (model_id ino)) (map_to_list (mf_objects f)).

Definition model_remove (kind : FsKind) (p : str) : M ModelFs IoError () := fun f =>
  match model_at f p with
  | None => model_error KNotFound f
  | Some id =>
      if decide (fo_kind <$> model_obj f id = Some kind) then
        if decide (has_children f (fi_ino id)) then model_error OtherKind f
        else (model_unlink p (fi_ino id) f, Ok tt)
      else model_error OtherKind f
  end.

Definition model_rename (p q : str) : M ModelFs IoError () := fun f =>
  match model_at f p with
  | None => model_error KNotFound f
  | Some id =>
      if decide (fo_kind <$> model_obj f id = Some FsFile) then
        match mf_names f !! q with
        | None => (set_names (<[q := fi_ino id]> (delete p (mf_names f))) f, Ok tt)
        | Some old =>
            if decide (old = fi_ino id) then (f, Ok tt)
            else if decide (fo_kind <$> model_obj f (model_id old) = Some FsFile) then
              let f := model_unlink q old f in
              (set_names (<[q := fi_ino id]> (delete p (mf_names f))) f, Ok tt)
            else model_error OtherKind f
        end
      else model_error OtherKind f
  end.

#[export] Instance model_fs : FileSystem ModelFs := {
  symlink_metadata p := faulty (fun f =>
    match model_at f p with
    | None => model_error KNotFound f
    | Some id => (f, Ok (mkMetadata id (from_option fo_kind FsOther (model_obj f id))))
    end);
  create_dir p mode := faulty (fun f => let '(f, r) := model_create FsDirectory p mode f in (f, (fun _ => tt) <$> r));
  open_new p mode := faulty (model_create FsFile p mode);
  open_file p := faulty (model_lookup p);
  file_metadata id := faulty (fun f =>
    match model_obj f id with
    | None => model_error KNotFound f
    | Some o => (f, Ok (mkMetadata id (fo_kind o)))
    end);
  file_write_all id bytes := faulty (model_update id (fun o => with_bytes (fo_bytes o ++ bytes) o));
  file_read_at id offset length := faulty (fun f =>
    match model_obj f id with
    | None => model_error KNotFound f
    | Some o => (f, Ok (slice (fo_bytes o) offset (offset + length)))
    end);
  file_set_permissions id mode := faulty (model_update id (with_mode mode));
  futimens id t := faulty (
    if decide (0 <= tv_nsec t < 1000000000) then model_update id (with_mtime t) else model_error KInvalidInput);
  set_permissions p mode := faulty (id ← model_lookup p; model_update id (with_mode mode));
  rename p q := faulty (model_rename p q);
  remove_file p := faulty (model_remove FsFile p);
  remove_dir p := faulty (model_remove FsDirectory p);
}.

(** ** The laws *)

Lemma faulty_law {A} (m : M ModelFs IoError A) f (law : ModelFs -> result IoError A -> Prop) :
  (forall e l, mf_faults f <> [] -> io_kind e = OtherKind -> law (set_faults l f) (Err e)) ->
  (forall l, (mf_faults f = [] -> l = []) -> let '(f', r) := m (set_faults l f) in law f' r) ->
  let '(f', r) := faulty m f in law f' r.
Proof.
  intros He Hm. unfold faulty. destruct (mf_faults f) as [|[] l] eqn:Hf.
  - by apply (Hm []).
  - by apply He.
  - by apply (Hm l).
Qed.

Lemma faults_view l f : (mf_faults f = [] -> l = []) -> same_view f (set_faults l f).
Proof. intros H. split_and!; try done. Qed.

Lemma foldr_max_ge (l : list Z) x : x ∈ l -> x <= foldr Z.max 0 l.
Proof. induction 1; cbn; lia. Qed.

Lemma fresh_ino_spec f :
  mf_objects f !! fresh_ino f = None /\ (forall p, mf_names f !! p <> Some (fresh_ino f)) /\
  (forall i o d, mf_objects f !! i = Some (o, d) -> d <> fresh_ino f).
Proof.
  assert (H : forall x, x ∈ (map_to_list (mf_names f)).*2 ++ (map_to_list (mf_objects f)).*1 ++
    (snd <$> (map_to_list (mf_objects f)).*2) -> x < fresh_ino f).
  { intros x Hx%foldr_max_ge. unfold fresh_ino. lia. }
  split_and!.
  - destruct (mf_objects f !! fresh_ino f) as [o|] eqn:Ho; [|done].
    enough (fresh_ino f < fresh_ino f) by lia. apply H. rewrite !elem_of_app. right. left.
    apply list_elem_of_fmap. exists (fresh_ino f, o). split; [done|]. by apply elem_of_map_to_list.
  - intros p Hp. enough (fresh_ino f < fresh_ino f) by lia. apply H. rewrite !elem_of_app. left.
    apply list_elem_of_fmap. exists (p, fresh_ino f). split; [done|]. by apply elem_of_map_to_list.
  - intros i o d Hd ->. enough (fresh_ino f < fresh_ino f) by lia. apply H. rewrite !elem_of_app. right. right.
    apply list_elem_of_fmap. exists (o, fresh_ino f). split; [done|]. apply list_elem_of_fmap.
    exists (i, (o, fresh_ino f)). split; [done|]. by apply elem_of_map_to_list.
Qed.

Lemma model_obj_id f ino : model_obj f (model_id ino) = fst <$> mf_objects f !! ino.
Proof. done. Qed.

Lemma model_at_Some f p id :
  model_at f p = Some id <-> fi_dev id = 0 /\ mf_names f !! p = Some (fi_ino id) /\ is_Some (mf_objects f !! fi_ino id).
Proof.
  unfold model_at. destruct (mf_names f !! p) as [ino|]; cbn; [|naive_solver].
  case_decide as H; split; [|intros (Hd & [= ->] & _)|done|intros (_ & [= ->] & ?); done].
  - by intros [= <-].
  - f_equal. destruct id. cbn in *. by subst.
Qed.

Lemma model_id_ne ino i : fi_dev i = 0 -> i <> model_id ino -> ino <> fi_ino i.
Proof. intros Hd Hi ->. apply Hi. destruct i. cbn in *. by subst. Qed.

Lemma model_create_ok kind p mode f :
  let '(f', r) := model_create kind p mode f in
  match r with
  | Ok id => exists o, creates p id o f f' /\ fo_kind o = kind /\ fo_bytes o = []
  | Err _ => f' = f
  end.
Proof.
  unfold model_create. destruct (mf_names f !! p) as [x|] eqn:Hp; [done|].
  destruct (d ← path_parent p; ino ← mf_names f !! d; model_dir f ino) as [d|] eqn:Hd; [|done].
  destruct (fresh_ino_spec f) as (F1 & F2 & F3). set (ino := fresh_ino f) in *.
  assert (Hdir : exists x, mf_objects f !! d = Some x /\ fo_kind x.1 = FsDirectory).
  { apply bind_Some in Hd as (q & _ & (i & _ & Hi)%bind_Some). unfold model_dir in Hi.
    apply bind_Some in Hi as (x & Hx & Hk). case_decide; [|done]. injection Hk as ->. eauto. }
  destruct Hdir as (x & Hx & Hk). assert (Hdne : d <> ino) by congruence.
  exists (mkFsObject kind [] mode (mkTimespec 0 0)). split; [|done]. unfold creates. split_and!.
  - cbn. unfold model_at. by rewrite Hp.
  - cbn. by rewrite model_obj_id, F1.
  - apply model_at_Some. cbn. split_and!; [done|by rewrite lookup_insert_eq|by rewrite lookup_insert_eq; eauto].
  - cbn. rewrite model_obj_id. cbn. by rewrite lookup_insert_eq.
  - exists (model_id d). split; [cbn; rewrite model_obj_id, Hx; by eexists|].
    cbn. unfold model_parent, model_dir. cbn. rewrite lookup_insert_eq. cbn. rewrite lookup_insert_ne, Hx by done. cbn.
    by rewrite (decide_True (P := fo_kind x.1 = FsDirectory)).
  - intros q. cbn. destruct (decide (q = p)) as [->|Hq].
    + right. split; [unfold model_at; by rewrite Hp|]. apply model_at_Some. cbn.
      split_and!; [done|by rewrite lookup_insert_eq|by rewrite lookup_insert_eq; eauto].
    + left. unfold model_at. cbn. rewrite lookup_insert_ne by done. destruct (mf_names f !! q) as [i|] eqn:Hqi; [|done]. cbn.
      rewrite lookup_insert_ne; [done|]. intros <-. by apply (F2 q).
  - intros i Hi. cbn. unfold model_obj. case_decide as Hdev; [|constructor]. cbn.
    rewrite lookup_insert_ne by by apply model_id_ne.
    destruct (mf_objects f !! fi_ino i); cbn; by constructor.
  - intros i Hi. cbn. unfold model_parent. case_decide as Hdev; [|done]. cbn.
    rewrite lookup_insert_ne by by apply model_id_ne.
    destruct (mf_objects f !! fi_ino i) as [[o e]|] eqn:Ho; [|done]. cbn. unfold model_dir. cbn.
    rewrite lookup_insert_ne; [done|]. intros <-. by apply (F3 _ _ _ Ho).
  - intros i Hi a b. cbn. rewrite !lookup_insert_Some.
    intros [[<- Ha]|[Hap Ha]] [[<- Hb]|[Hbp Hb]]; try done.
    + rewrite <- Ha in Hb. by apply F2 in Hb.
    + rewrite <- Hb in Ha. by apply F2 in Ha.
    + destruct Hi as [->|Hi]; [by apply F2 in Ha|]. by apply Hi.
  - done.
Qed.

Lemma model_update_ok id g f :
  (forall o, fo_kind (g o) = fo_kind o) ->
  let '(f', r) := model_update id g f in
  match r with
  | Ok _ => changes_object id (fun o o' => o' = g o) f f'
  | Err _ => f' = f
  end.
Proof.
  intros Hg. unfold model_update. case_decide as Hdev; [|done].
  destruct (mf_objects f !! fi_ino id) as [[o d]|] eqn:Ho; [|done].
  assert (Hkeys : forall i, is_Some (<[fi_ino id:=(g o, d)]> (mf_objects f) !! i) <-> is_Some (mf_objects f !! i)).
  { intros i. rewrite lookup_insert_is_Some'. split; [|by right]. intros [<-|?]; [|done]. rewrite Ho. by eexists. }
  assert (Hdir : forall i, model_dir (set_objects (<[fi_ino id:=(g o, d)]> (mf_objects f)) f) i = model_dir f i).
  { intros i. unfold model_dir. cbn. rewrite lookup_insert. case_decide as Hi; [|done]. subst i. rewrite Ho. cbn.
    by rewrite Hg. }
  split_and!; try done.
  - intros p. cbn. unfold model_at. cbn. destruct (mf_names f !! p) as [ino|]; [|done]. cbn.
    by rewrite (decide_ext _ _ _ _ (Hkeys ino)).
  - intros i. cbn. unfold model_parent. case_decide; [|done]. cbn. rewrite lookup_insert.
    case_decide as Hi; [|]. 
    + rewrite <- Hi, Ho. cbn. by rewrite Hdir.
    + destruct (mf_objects f !! fi_ino i) as [[o' d']|]; [|done]. cbn. by rewrite Hdir.
  - intros i Hi. cbn. unfold model_obj. case_decide as Hdi; [|done]. cbn. rewrite lookup_insert_ne; [done|].
    intros Heq. apply Hi. destruct i, id. cbn in *. by subst.
  - cbn. unfold model_obj. rewrite !(decide_True (P := fi_dev id = 0)) by done. cbn. rewrite lookup_insert_eq, Ho. by constructor.
Qed.

Lemma decide_iff {A} (P Q : Prop) `{Decision P, Decision Q} (x y : A) :
  (P <-> Q) -> (if decide P then x else y) = (if decide Q then x else y).
Proof. intros. by apply decide_ext. Qed.

Lemma not_named_elsewhere f p ino q :
  ~ named_elsewhere f p ino -> mf_names f !! q = Some ino -> q = p.
Proof.
  intros Hno Hq. destruct (decide (q = p)) as [|Hne]; [done|]. exfalso. apply Hno. apply Exists_exists.
  exists (q, ino). split; [by apply elem_of_map_to_list|done].
Qed.

(** Removing a name of an object without children. *)
Lemma model_unlink_ok p id f :
  model_at f p = Some id -> ~ has_children f (fi_ino id) -> removes p id f (model_unlink p (fi_ino id) f).
Proof.
  intros (Hdev & Hp & Hobj)%model_at_Some Hch.
  assert (Hid : id = model_id (fi_ino id)) by (destruct id; cbn in *; by subst).
  set (ino := fi_ino id) in *. unfold model_unlink. unfold removes. split_and!.
  - apply model_at_Some. done.
  - cbn. unfold model_at. cbn. destruct (decide (named_elsewhere f p ino)); cbn; by rewrite lookup_delete_eq.
  - intros Hs. cbn in Hs. assert (Hno : ~ named_elsewhere f p ino).
    { intros (kv & Hkv & Hne & Heq)%Exists_exists. destruct kv as [q i]. cbn in *. subst i.
      apply elem_of_map_to_list in Hkv. apply Hne. by apply Hs. }
    rewrite decide_False by done. split.
    + cbn. unfold model_obj. rewrite decide_True by done. cbn. by rewrite lookup_delete_eq.
    + intros q (_ & Hq & _)%model_at_Some. apply (not_named_elsewhere f p ino q Hno) in Hq as ->.
      cbn. unfold model_at. cbn. by rewrite lookup_delete_eq.
  - intros q Hq. cbn. unfold model_at. cbn. destruct (decide (q = p)) as [->|Hqp].
    { exfalso. apply Hq. apply model_at_Some. done. }
    destruct (decide (named_elsewhere f p ino)) as [Hel|Hel]; cbn; rewrite lookup_delete_ne by done; [done|].
    destruct (mf_names f !! q) as [i|] eqn:Hi; [|done]. cbn. apply decide_iff.
    rewrite lookup_delete_ne; [done|]. intros <-. by apply (not_named_elsewhere f p ino q Hel) in Hi.
  - intros i Hi. cbn. unfold model_obj. case_decide as Hdi; [|constructor].
    destruct (decide (named_elsewhere f p ino)); cbn; [|rewrite lookup_delete_ne by (rewrite Hid in Hi; by apply model_id_ne)];
      destruct (mf_objects f !! fi_ino i); by constructor.
  - intros i Hi. cbn. unfold model_parent. case_decide as Hdi; [|done].
    destruct (decide (named_elsewhere f p ino)); cbn; [done|].
    rewrite lookup_delete_ne by (rewrite Hid in Hi; by apply model_id_ne).
    destruct (mf_objects f !! fi_ino i) as [[o d]|] eqn:Ho; [|done]. cbn. f_equal. unfold model_dir. cbn.
    rewrite lookup_delete. case_decide as Hd; [|done]. subst d. destruct (mf_objects f !! ino) as [x|] eqn:Hx; [|done].
    cbn. case_decide as Hk; [|done]. exfalso. apply Hch. apply Exists_exists. exists (fi_ino i, (o, ino)).
    split; [by apply elem_of_map_to_list|]. cbn. unfold model_parent, model_dir. cbn. rewrite Ho. cbn. rewrite Hx. cbn.
    by rewrite (decide_True (P := fo_kind x.1 = FsDirectory)).
  - intros i _ Hs a b. cbn. destruct (decide (named_elsewhere f p ino)); cbn;
      rewrite !lookup_delete_Some; intros [_ Ha] [_ Hb]; by apply Hs.
  - cbn. by destruct (decide (named_elsewhere f p ino)).
Qed.

Lemma model_remove_ok kind p f :
  let '(f', r) := model_remove kind p f in
  match r with
  | Ok _ => exists id, removes p id f f'
  | Err _ => f' = f
  end.
Proof.
  unfold model_remove. destruct (model_at f p) as [id|] eqn:Hp; [|done]. case_decide; [|done].
  destruct (decide (has_children f (fi_ino id))); [done|]. exists id. by apply model_unlink_ok.
Qed.

(** A regular file has no children. *)
Lemma file_no_children f id :
  fi_dev id = 0 -> fo_kind <$> model_obj f id = Some FsFile -> ~ has_children f (fi_ino id).
Proof.
  intros Hd Hk (kv & _ & Hp)%Exists_exists. destruct kv as [i x]. unfold model_parent in Hp. cbn in Hp.
  apply bind_Some in Hp as (y & _ & (d & Hd' & [= ->])%bind_Some). unfold model_dir in Hd'.
  apply bind_Some in Hd' as (z & Hz & Hdk). unfold model_obj in Hk. rewrite decide_True in Hk by done.
  case_decide as Hzk; [|done]. injection Hdk as Hdk. rewrite Hdk in Hz. rewrite Hz in Hk. cbn in Hk. congruence.
Qed.

Lemma model_rename_ok p q f :
  let '(f', r) := model_rename p q f in
  match r with
  | Ok _ => exists id, moves p q id f f'
  | Err _ => f' = f
  end.
Proof.
  unfold model_rename. destruct (model_at f p) as [id|] eqn:Hat; [|done].
  pose proof Hat as (Hdev & Hp & Hobj)%model_at_Some. case_decide as Hk; [|done].
  assert (Hid : id = model_id (fi_ino id)) by (destruct id; cbn in *; by subst).
  assert (Hrefl : forall i, option_Forall2 same_object (model_obj f i) (model_obj f i)).
  { intros i. destruct (model_obj f i); by constructor. }
  assert (Hgen : forall f1, (forall i r, i <> id -> model_at f q <> Some i -> model_at f r = Some i -> model_at f1 r = Some i) ->
    (forall i r, i <> id -> model_at f1 r = Some i -> model_at f r = Some i) ->
    is_Some (mf_objects f1 !! fi_ino id) -> mf_faults f1 = mf_faults f ->
    (forall i, model_at f q <> Some i -> option_Forall2 same_object (model_obj f i) (model_obj f1 i)) ->
    moves p q id f (set_names (<[q:=fi_ino id]> (delete p (mf_names f1))) f1)).
  { intros f1 H1 H1' H2 H3 H4. unfold moves. cbn.
    assert (Hat1 : forall r, r <> q -> r <> p -> model_at (set_names (<[q:=fi_ino id]> (delete p (mf_names f1))) f1) r = model_at f1 r).
    { intros r Hr Hrp. unfold model_at. cbn. by rewrite lookup_insert_ne, lookup_delete_ne by done. }
    assert (Hatq : model_at (set_names (<[q:=fi_ino id]> (delete p (mf_names f1))) f1) q = Some id).
    { apply model_at_Some. cbn. rewrite lookup_insert_eq. done. }
    split_and!; try done.
    - intros r i Hi Hq Hr. destruct (decide (r = q)) as [->|Hrq]; [done|].
      destruct (decide (r = p)) as [->|Hrp]; [congruence|]. rewrite Hat1 by done. by apply H1.
    - intros r i Hi Hr. destruct (decide (r = q)) as [->|Hrq]; [congruence|].
      destruct (decide (r = p)) as [->|Hrp].
      { apply model_at_Some in Hr as (_ & Hr & _). cbn in Hr. by rewrite lookup_insert_ne, lookup_delete_eq in Hr by done. }
      rewrite Hat1 in Hr by done. by apply H1'.
    - by rewrite H3. }
  destruct (mf_names f !! q) as [old|] eqn:Hq.
  - destruct (decide (old = fi_ino id)) as [->|Hold].
    { exists id. unfold moves. split_and!; try done. apply model_at_Some. done. }
    destruct (decide (fo_kind <$> model_obj f (model_id old) = Some FsFile)) as [Hok|]; [|done].
    exists id. assert (Hqat : model_at f q = Some (model_id old)).
    { apply model_at_Some. cbn. split_and!; [done..|]. unfold model_obj in Hok. cbn in Hok.
      destruct (mf_objects f !! old); [by eexists|done]. }
    pose proof (model_unlink_ok q (model_id old) f Hqat (file_no_children f (model_id old) eq_refl Hok)) as Hrm.
    change (fi_ino (model_id old)) with old in Hrm. destruct Hrm as (_ & Rq & Rs & Rat & Robj & _ & _ & Rrel). cbn in Rat, Robj.
    assert (Hne : model_id old <> id) by (intros <-; done).
    assert (Hobj' : mf_objects (model_unlink q old f) !! fi_ino id = mf_objects f !! fi_ino id).
    { unfold model_unlink. cbn. destruct (decide (named_elsewhere f q old)); cbn; [done|]. by rewrite lookup_delete_ne. }
    apply Hgen.
    + intros i r Hi Hqi Hr. rewrite Rat; [done|]. rewrite Hr. congruence.
    + intros i r Hi Hr. destruct (decide (model_at f r = Some (model_id old))) as [Heq|Heq]; [|by rewrite <- (Rat r Heq)].
      pose proof Heq as (_ & Hn & _)%model_at_Some. cbn in Hn. pose proof Hr as (Hd' & Hn' & _)%model_at_Some.
      assert (Hdel : delete q (mf_names f) !! r = Some (fi_ino i)).
      { unfold model_unlink in Hn'. cbn in Hn'. by destruct (decide (named_elsewhere f q old)). }
      apply lookup_delete_Some in Hdel as [_ Hdel]. rewrite Hn in Hdel. injection Hdel as ->.
      rewrite Heq. f_equal. destruct i. cbn in *. by subst.
    + by rewrite Hobj'.
    + unfold model_unlink. cbn. by destruct (decide (named_elsewhere f q old)).
    + intros i Hi. apply Robj. congruence.
  - exists id. by apply Hgen.
Qed.

(** The names and the objects after [q] was replaced. *)
Lemma model_replaced_settles p q f f' id old :
  model_at f p = Some id -> model_at f q = Some (model_id old) -> old <> fi_ino id ->
  (forall r, mf_names f' !! r = if decide (r = q) then Some (fi_ino id) else if decide (r = p) then None else mf_names f !! r) ->
  (forall i, mf_objects f' !! i = if decide (i = old /\ ~ named_elsewhere f q old) then None else mf_objects f !! i) ->
  settles q id f f'.
Proof.
  intros (Hdev & Hp & Hobj)%model_at_Some Hqat Hold Hn Ho. pose proof Hqat as (_ & Hq & Hqo)%model_at_Some. cbn in Hq, Hqo.
  split_and!; cbn; rewrite ?Hqat.
  - intros Hs _ r (_ & Hr & _)%model_at_Some. assert (r = p) as -> by by apply Hs. unfold model_at. rewrite Hn.
    rewrite decide_False, decide_True by congruence. done.
  - intros r (_ & Hr & Hro)%model_at_Some. rewrite Hn in Hr. case_decide as Hrq; [subst r; by right|].
    case_decide; [done|]. left. apply model_at_Some. done.
  - intros r i [= <-] (_ & Hr & _)%model_at_Some. cbn in Hr. destruct (decide (r = q)) as [->|Hrq].
    { left. apply model_at_Some. rewrite Hn, decide_True by done. split_and!; [done..|]. rewrite Ho, decide_False by naive_solver. done. }
    right. apply model_at_Some. cbn. rewrite Hn, !decide_False by congruence. split_and!; [done..|]. rewrite Ho, decide_False; [done|].
    intros [_ Hno]. apply Hno, Exists_exists. exists (r, old). split; [by apply elem_of_map_to_list|done].
  - intros i o [= <-]. rewrite !model_obj_id, Ho. intros Hio. case_decide; cbn; [by left|]. right. by exists o.
Qed.

Lemma model_rename_settles p q f id :
  (model_rename p q f).2 = Ok tt -> model_at f p = Some id -> settles q id f (model_rename p q f).1.
Proof.
  unfold model_rename. intros Hr Hat. rewrite Hat in *. pose proof Hat as (Hdev & Hp & Hobj)%model_at_Some.
  case_decide; [|done]. destruct (mf_names f !! q) as [old|] eqn:Hq; [destruct (decide (old = fi_ino id)) as [->|Hold]|]; cbn [fst].
  - assert (Hqat : model_at f q = Some id) by (apply model_at_Some; done). split_and!; cbn; [done|by left|naive_solver|].
    intros i o _ Ho. right. exists o. done.
  - case_decide as Hok; [|done]. cbn [fst]. set (f' := set_names _ _).
    assert (Hqat : model_at f q = Some (model_id old)).
    { apply model_at_Some. cbn. split_and!; [done..|]. unfold model_obj in Hok. cbn in Hok.
      destruct (mf_objects f !! old); [by eexists|done]. }
    assert (Hn : forall r, mf_names f' !! r = if decide (r = q) then Some (fi_ino id) else if decide (r = p) then None else mf_names f !! r).
    { intros r. unfold f', model_unlink. cbn. rewrite lookup_insert, (decide_ext _ (r = q)) by naive_solver. case_decide as Hrq; [done|].
      rewrite lookup_delete, (decide_ext _ (r = p)) by naive_solver. case_decide; [done|].
      destruct (decide (named_elsewhere f q old)); cbn; by rewrite lookup_delete_ne by done. }
    assert (Ho : forall i, mf_objects f' !! i = if decide (i = old /\ ~ named_elsewhere f q old) then None else mf_objects f !! i).
    { intros i. unfold f', model_unlink. cbn. destruct (decide (named_elsewhere f q old)); cbn; [by rewrite decide_False by naive_solver|].
      rewrite lookup_delete. destruct (decide (old = i)) as [->|]; [by rewrite decide_True by done|by rewrite decide_False by naive_solver]. }
    by eapply model_replaced_settles.
  - set (f' := set_names _ _). assert (Hqat : model_at f q = None) by (unfold model_at; by rewrite Hq).
    split_and!; cbn; rewrite ?Hqat; [| |done..].
    + intros Hs _ r (_ & Hrn & _)%model_at_Some. assert (r = p) as -> by by apply Hs. unfold model_at, f'. cbn.
      rewrite lookup_insert_ne by congruence. by rewrite lookup_delete_eq.
    + intros r (_ & Hrn & Hro)%model_at_Some. unfold f' in Hrn. cbn in Hrn. apply lookup_insert_Some in Hrn as [[<- _]|[_ Hrn]]; [by right|].
      apply lookup_delete_Some in Hrn as [_ Hrn]. left. by apply model_at_Some.
Qed.

(** Dropping an entry of the schedule cannot be seen. *)
Section pop.
Context (f : ModelFs) (l : list bool) (Hl : mf_faults f = [] -> l = []).

Lemma pop_same f' : same_view (set_faults l f) f' -> same_view f f'.
Proof. intros (A & B & D & E & G). split_and!; try done. intros Hf. apply G. by apply Hl. Qed.

Lemma pop_changes id Q f' : changes_object id Q (set_faults l f) f' -> changes_object id Q f f'.
Proof. intros (A & B & D & E & G & H). split_and!; try done. intros Hf. apply H. by apply Hl. Qed.

Lemma pop_creates p id o f' : creates p id o (set_faults l f) f' -> creates p id o f f'.
Proof.
  intros (A & B & D & E & G & H & I & J & K & L). unfold creates. split_and!; try done. intros Hf. apply L. by apply Hl.
Qed.

Lemma pop_removes p id f' : removes p id (set_faults l f) f' -> removes p id f f'.
Proof.
  intros (A & B & D & E & G & H & I & J). unfold removes. split_and!; try done; try apply D. intros Hf. apply J. by apply Hl.
Qed.

Lemma pop_moves p q id f' : moves p q id (set_faults l f) f' -> moves p q id f f'.
Proof. intros (A & B & D & E & G & H). unfold moves. split_and!; try done. intros Hf. apply H. by apply Hl. Qed.

Lemma pop_here : same_view f (set_faults l f).
Proof. by apply faults_view. Qed.
End pop.

Lemma faults_pop f l : mf_faults f <> [] -> same_view f (set_faults l f).
Proof. intros Hf. by apply faults_view. Qed.

(** The calls that change one object, or take one name away. *)
Lemma faulty_update id g f :
  (forall o, fo_kind (g o) = fo_kind o) ->
  let '(f', r) := faulty (model_update id g) f in
  match r with
  | Ok _ => changes_object id (fun o o' => o' = g o) f f'
  | Err _ => same_view f f'
  end.
Proof.
  intros Hg. apply faulty_law; [by intros; apply faults_pop|]. intros l Hl.
  pose proof (model_update_ok id g (set_faults l f) Hg) as H.
  destruct (model_update id _ (set_faults l f)) as [f' [u|e]]; [by eapply pop_changes|]. rewrite H. by apply pop_here.
Qed.

Lemma faulty_remove kind p f :
  let '(f', r) := faulty (model_remove kind p) f in
  match r with
  | Ok _ => exists id, removes p id f f'
  | Err _ => same_view f f'
  end.
Proof.
  apply faulty_law; [by intros; apply faults_pop|]. intros l Hl. pose proof (model_remove_ok kind p (set_faults l f)) as H.
  destruct (model_remove kind p (set_faults l f)) as [f' [u|e]].
  - destruct H as [id H]. exists id. by eapply pop_removes.
  - subst. by apply pop_here.
Qed.

Lemma remove_reliable kind p id o f :
  mf_faults f = [] -> model_at f p = Some id -> model_obj f id = Some o -> fo_kind o = kind ->
  ~ has_children f (fi_ino id) -> is_ok (faulty (model_remove kind p) f).2 = true.
Proof.
  intros Hf Hp Ho Hk Hno. unfold faulty. rewrite Hf. unfold model_remove. cbn [tail].
  change (model_at (set_faults [] f) p) with (model_at f p). rewrite Hp.
  change (model_obj (set_faults [] f) id) with (model_obj f id). rewrite Ho. cbn. rewrite decide_True by congruence.
  by rewrite decide_False.
Qed.

(** A write that fails may have written something. *)
Lemma faulty_write id bytes f :
  let '(f', r) := file_write_all id bytes f in
  changes_object id (fun o o' => fo_kind o' = fo_kind o /\ fo_mode o' = fo_mode o /\
    match r with Ok _ => fo_bytes o' = fo_bytes o ++ bytes | Err _ => True end) f f'.
Proof.
  pose proof (faulty_update id (fun o => with_bytes (fo_bytes o ++ bytes) o) f) as H. cbn in *.
  destruct (faulty _ f) as [f' [u|e]].
  - destruct H as (A & B & D & E & G); [done|]. split_and!; try done; try apply G. destruct E as [o o' ->|]; by constructor.
  - destruct H as (A & B & D & E & G); [done|]. split_and!; try done. rewrite B. destruct (fs_obj f id); by constructor.
Qed.

#[export] Instance model_fs_ok : FileSystemOk ModelFs.
Proof.
  split.
  - intros f p id (Hd & _ & [x Hx])%model_at_Some. cbn. unfold model_obj. rewrite decide_True by done.
    rewrite Hx. by eexists.
  - intros f id d _ Hp. cbn in *. unfold model_parent in Hp. case_decide; [|done].
    apply bind_Some in Hp as (x & _ & (i & Hi & [= <-])%bind_Some). unfold model_dir in Hi.
    apply bind_Some in Hi as (y & Hy & Hk). case_decide; [|done]. injection Hk as <-. rewrite model_obj_id, Hy. by eexists.
  - intros f p. cbn. apply faulty_law.
    { intros e l Hf He. split; [by apply faults_pop|]. split; [congruence|done]. }
    intros l Hl. change (model_at (set_faults l f) p) with (model_at f p). destruct (model_at f p) as [id|] eqn:Hp.
    + split; [by apply pop_here|]. split; [done|]. pose proof Hp as (Hd & _ & [x Hx])%model_at_Some. cbn.
      unfold model_obj. cbn. rewrite (decide_True (P := fi_dev id = 0)) by done. rewrite Hx. cbn. by eexists.
    + split; [by apply pop_here|done].
  - intros f p mode. cbn. apply faulty_law; [by intros; apply faults_pop|]. intros l Hl.
    pose proof (model_create_ok FsDirectory p mode (set_faults l f)) as H.
    destruct (model_create FsDirectory p mode (set_faults l f)) as [f' [id|e]]; cbn.
    + destruct H as (o & H & Hk & _). exists id, o. split; [by eapply pop_creates|done].
    + subst. by apply pop_here.
  - intros f p mode. cbn. apply faulty_law; [by intros; apply faults_pop|]. intros l Hl.
    pose proof (model_create_ok FsFile p mode (set_faults l f)) as H.
    destruct (model_create FsFile p mode (set_faults l f)) as [f' [id|e]]; cbn.
    + destruct H as (o & H & Hk). exists o. split; [by eapply pop_creates|done].
    + subst. by apply pop_here.
  - intros f p. cbn. apply faulty_law; [intros; split; [by apply faults_pop|done]|]. intros l Hl. unfold model_lookup.
    change (model_at (set_faults l f) p) with (model_at f p).
    destruct (model_at f p) as [id|] eqn:Hp; (split; [by apply pop_here|]); [|done]. intros i o. congruence.
  - intros f id. cbn. apply faulty_law; [intros; split; [by apply faults_pop|done]|]. intros l Hl.
    change (model_obj (set_faults l f) id) with (model_obj f id).
    destruct (model_obj f id); (split; [by apply pop_here|done]).
  - intros f id bytes. apply faulty_write.
  - intros f id a b. cbn. apply faulty_law; [intros; split; [by apply faults_pop|done]|]. intros l Hl.
    change (model_obj (set_faults l f) id) with (model_obj f id).
    destruct (model_obj f id) as [o|]; (split; [by apply pop_here|]); [|done]. by intros o' [= ->].
  - intros f id mode. by apply faulty_update.
  - intros f id t _. cbn. case_decide as Hr.
    + pose proof (faulty_update id (with_mtime t) f) as H. destruct (faulty _ f) as [f' [u|e]]; auto.
    + apply faulty_law; [by intros; apply faults_pop|]. intros l Hl. by apply pop_here.
  - intros f id t Hf Hr. cbn in *. unfold faulty. rewrite Hf. rewrite decide_False by lia. cbn. eauto.
  - intros f p mode. cbn. apply faulty_law; [by intros; apply faults_pop|]. intros l Hl.
    unfold mbind, M_bind, model_lookup. change (model_at (set_faults l f) p) with (model_at f p).
    destruct (model_at f p) as [id|] eqn:Hp; [|cbn; by intros].
    pose proof (model_update_ok id (with_mode mode) (set_faults l f)) as H.
    destruct (model_update id _ (set_faults l f)) as [f' [u|e]]; intros id' o [= <-] Ho Hk.
    + by eapply pop_changes, H.
    + rewrite H by done. by apply pop_here.
  - intros f p q. cbn. apply faulty_law; [by intros; apply faults_pop|]. intros l Hl.
    pose proof (model_rename_ok p q (set_faults l f)) as H.
    pose proof (model_rename_settles p q (set_faults l f)) as Hs.
    destruct (model_rename p q (set_faults l f)) as [f' [[]|e]].
    + destruct H as [id H]. exists id. split; [by eapply pop_moves|]. apply (Hs id eq_refl). by destruct H as [? _].
    + subst. by apply pop_here.
  - intros f p. apply faulty_remove.
  - intros f p. apply faulty_remove.
  - intros f p id o Hf Hp Ho Hk. eapply remove_reliable; [done..|]. pose proof Hp as (Hd & _)%model_at_Some.
    apply file_no_children; [done|]. change (fs_obj f id) with (model_obj f id) in Ho. rewrite Ho. cbn. congruence.
  - intros f p id o Hf Hp Ho Hk Hempty. eapply remove_reliable; [done..|]. pose proof Hp as (Hd & _)%model_at_Some.
    intros ([i x] & Hkv & Hpar)%Exists_exists. apply elem_of_map_to_list in Hkv. cbn in Hpar, Hkv.
    apply (Hempty (model_id i)); cbn; [rewrite model_obj_id, Hkv; by eexists|]. rewrite Hpar. f_equal. destruct id. cbn in *. by subst.
Qed.
