(* ===== verification/MaterializeSample.v ===== *)
(** * A sample materialization

    The sample promise of [FuseAdapter], mounted at [/mnt], and a file system
    with a directory [/home] to copy it to. *)

From S2P Require Import Prelude Types Paths Tree Runtime Messages Mount IpcState Routing Router Content FuseAdapter Effect Fs Materialize ModelFs.

Definition sample_answers (id : Z) : ReadEnv :=
  mkReadEnv (Ok tt)
    [EnvComplete [1] (mkProviderReadResponseBody id PbOk (replicate (if id =? 1 then 5 else 12) (byte_of 97)))].

Definition sample_ready_mount : IpcState := set_mount_status sample_mount (IpcMountStatus_commit_ready (bs "/mnt")).

(** The root and [/home] with one file. *)
Definition sample_fs : ModelFs :=
  mkModelFs
    (<[bs "/" := 1]> (<[bs "/home" := 2]> (<[bs "/home/notes.txt" := 3]> ∅)))
    (<[1 := (mkFsObject FsDirectory [] 493 (mkTimespec 0 0), 0)]>
      (<[2 := (mkFsObject FsDirectory [] 493 (mkTimespec 0 0), 1)]>
        (<[3 := (mkFsObject FsFile (bs "notes") 420 (mkTimespec 0 0), 2)]> ∅))) [].

Definition sample_request_body (policy : MaterializeConflictPolicyBody) : MaterializeBody :=
  mkMaterializeBody (bs "/mnt/promise-1/docs") (bs "/home") policy.

(** A client that acknowledges [n] reports and then cancels. *)
Definition patient (n : nat) (progress : MaterializeProgress) : nat * Result () :=
  match n with
  | O => (O, Err Cancelled)
  | S n => (n, Ok tt)
  end.

Definition sample_world (n : nat) : World ModelFs nat := mkWorld sample_ready_mount sample_fs n 0.

Definition sample_materialize (n : nat) : World ModelFs nat * result MaterializeOperationError MaterializeCounters :=
  @materialize_node_in_state ModelFs nat _ (routed sample_answers) 7 patient (sample_request_body FailBody) (sample_world n).

(** It runs to the end, and the file system then holds the files. *)
Example sample_materialize_names :
  (map_to_list (mf_names (w_fs (sample_materialize 10).1))).*1 ≡ₚ
    [bs "/"; bs "/home"; bs "/home/notes.txt"; bs "/home/docs"; bs "/home/docs/guides";
     bs "/home/docs/guides/setup.txt"; bs "/home/docs/readme.txt"].
Proof. apply (bool_decide_unpack _). vm_compute. exact I. Qed.
