(* ===== verification/MaterializeSafety.v ===== *)
(** * Materialization leaves other files alone, and cleans up after itself

    The invariant relates the file system at the start of an operation to the
    file system while it runs, given the targets created so far.  It holds for
    the conflict policies that never touch an existing target ([Fail] and
    [Rename]); what [Overwrite] may do is the subject of [MaterializeReplace]. *)

From S2P Require Import Prelude Types Paths Tree Runtime ReadPlan Messages Mount IpcState Routing Router Effect Fs Materialize ModelFs MaterializeSample.

Section safety.
Context {F : Type} `{!FileSystem F, !FsView F, !FileSystemOk F}.
Implicit Types (f : F) (t : CreatedTarget) (created : list CreatedTarget).

(** ** Relations between file systems *)

(** Every name still names the same object, and every object is unchanged (up
    to the modification time of directories). *)
Definition extends f0 f : Prop :=
  (forall p i, fs_at f0 p = Some i -> fs_at f p = Some i) /\
  (forall i o, fs_obj f0 i = Some o -> exists o', fs_obj f i = Some o' /\ same_object o o').

(** Moreover nothing is there that was not, if the file system is reliable. *)
Definition restored f0 f : Prop :=
  extends f0 f /\
  (fs_reliable f0 -> (forall p, fs_at f p = fs_at f0 p) /\ (forall i, fs_obj f0 i = None -> fs_obj f i = None)).

Definition target_kind t : FsKind :=
  match ct_kind t with TargetFile => FsFile | TargetDirectory => FsDirectory end.

Record created_inv f0 created f : Prop := {
  ci_extends : extends f0 f;
  ci_new : Forall (fun t => fs_obj f0 (ct_identity t) = None /\ ct_remove_on_cleanup t = true) created;
  ci_nodup : NoDup (ct_identity <$> created);
  ci_there : Forall (fun t => fs_at f (ct_path t) = Some (ct_identity t) /\ fs_single f (ct_identity t) /\
    exists o, fs_obj f (ct_identity t) = Some o /\ fo_kind o = target_kind t) created;
  ci_reliable : fs_reliable f0 -> fs_reliable f;
  ci_obj : fs_reliable f0 -> forall i, is_Some (fs_obj f i) ->
    is_Some (fs_obj f0 i) \/ i ∈ ct_identity <$> created;
  ci_at : fs_reliable f0 -> forall p i, fs_at f p = Some i ->
    fs_at f0 p = Some i \/ i ∈ ct_identity <$> created;
  ci_parent0 : fs_reliable f0 -> forall i, is_Some (fs_obj f0 i) -> fs_parent f i = fs_parent f0 i;
  ci_parent : fs_reliable f0 -> forall j t, created !! j = Some t ->
    exists d, fs_parent f (ct_identity t) = Some d /\
      (is_Some (fs_obj f0 d) \/ d ∈ ct_identity <$> take j created);
}.

Lemma same_object_refl o : same_object o o.
Proof. done. Qed.

Lemma same_object_trans a b c : same_object a b -> same_object b c -> same_object a c.
Proof.
  intros (H1 & H2 & H3 & H4) (H5 & H6 & H7 & H8). split_and!; try congruence.
  intros H. rewrite H8 by congruence. by apply H4.
Qed.

Lemma extends_refl f : extends f f.
Proof. split; [done|]. intros i o Ho. exists o. split; [done|apply same_object_refl]. Qed.

Lemma created_inv_start f : created_inv f [] f.
Proof.
  split; cbn; auto using extends_refl, NoDup_nil_2. intros _ j t. by rewrite lookup_nil.
Qed.

(** ** Calls *)

Lemma inv_same_view f0 created f f' : same_view f f' -> created_inv f0 created f -> created_inv f0 created f'.
Proof.
  intros (Ha & Ho & Hp & Hs & Hr) [[E1 E2] N D T R O A P0 P]. split; try done.
  - split; [intros p i Hi; rewrite Ha; by apply E1|]. intros i o Hi. rewrite Ho. by apply E2.
  - eapply Forall_impl; [exact T|]. intros t (H1 & H2 & H3). rewrite Ha, Ho. auto.
  - auto.
  - intros Hrel i. rewrite Ho. by apply O.
  - intros Hrel p i. rewrite Ha. by apply A.
  - intros Hrel i Hi. rewrite Hp. by apply P0.
  - intros Hrel j t Ht. rewrite Hp. by apply P.
Qed.

(** A change of a created object that keeps its kind. *)
Lemma inv_changes f0 created f f' id (Q : FsObject -> FsObject -> Prop) :
  changes_object id Q f f' -> (forall o o', Q o o' -> fo_kind o' = fo_kind o) ->
  id ∈ ct_identity <$> created -> created_inv f0 created f -> created_inv f0 created f'.
Proof.
  intros (Ha & Hp & Hother & Hid & Hs & Hr) HQ Hin [[E1 E2] N D T R O A P0 P].
  assert (Hnew : fs_obj f0 id = None).
  { apply list_elem_of_fmap in Hin as (t & -> & Ht). rewrite Forall_forall in N. by apply N. }
  assert (Hobj : forall i o, fs_obj f i = Some o -> exists o', fs_obj f' i = Some o' /\ fo_kind o' = fo_kind o).
  { intros i o Hi. destruct (decide (i = id)) as [->|Hne]; [|rewrite Hother by done; eauto].
    rewrite Hi in Hid. inversion Hid; subst. eauto. }
  split; try done.
  - split; [intros p i Hi; rewrite Ha; by apply E1|]. intros i o Hi. rewrite Hother by congruence. by apply E2.
  - eapply Forall_impl; [exact T|]. intros t (H1 & H2 & o & H3 & H4). rewrite Ha.
    destruct (Hobj _ _ H3) as (o' & Ho' & Hk). split_and!; auto. exists o'. split; [done|congruence].
  - auto.
  - intros Hrel i Hi. apply O; [done|]. destruct (decide (i = id)) as [->|Hne]; [|by rewrite <- Hother].
    destruct Hi as [x Hx]. rewrite Hx in Hid. inversion Hid; subst. eauto.
  - intros Hrel p i. rewrite Ha. by apply A.
  - intros Hrel i Hi. rewrite Hp. by apply P0.
  - intros Hrel j t Ht. rewrite Hp. by apply P.
Qed.

Lemma creates_extends p id o f0 f f' : creates p id o f f' -> extends f0 f -> extends f0 f'.
Proof.
  intros (H1 & H2 & H3 & H4 & _ & Hat & Hobj & _) [E1 E2]. split.
  - intros q i Hq. apply E1 in Hq. destruct (Hat q) as [->|[? _]]; [done|congruence].
  - intros i x Hi. destruct (E2 i x Hi) as (x1 & Hx1 & Hs1).
    assert (Hne : i <> id) by congruence. specialize (Hobj i Hne). rewrite Hx1 in Hobj.
    inversion Hobj as [a b Hab Ha Hb|]; subst. exists b. split; [done|by eapply same_object_trans].
Qed.

Lemma creates_fresh p id o f0 f f' : creates p id o f f' -> extends f0 f -> fs_obj f0 id = None.
Proof.
  intros (_ & H2 & _) [_ E2]. destruct (fs_obj f0 id) as [x|] eqn:Hx; [|done].
  destruct (E2 _ _ Hx) as (x' & Hx' & _). congruence.
Qed.

(** A new target. *)
Lemma inv_creates f0 created f f' p id o t :
  creates p id o f f' -> ct_path t = p -> ct_identity t = id -> ct_remove_on_cleanup t = true ->
  fo_kind o = target_kind t -> created_inv f0 created f -> created_inv f0 (created ++ [t]) f'.
Proof.
  intros Hc <- <- Hrm Hk [E N D T R O A P0 P].
  pose proof (creates_fresh _ _ _ _ _ _ Hc E) as Hfresh. pose proof (creates_extends _ _ _ _ _ _ Hc E) as HE.
  destruct Hc as (H1 & H2 & H3 & H4 & (d & Hd & Hpar) & Hat & Hobj & Hpo & Hs & Hr).
  assert (Hnotin : ct_identity t ∉ ct_identity <$> created).
  { intros (t' & Heq & Ht')%list_elem_of_fmap. rewrite Forall_forall in T.
    destruct (T t' Ht') as (_ & _ & x & Hx & _). congruence. }
  split.
  - done.
  - apply Forall_app. split; [done|]. by constructor.
  - rewrite fmap_app. apply NoDup_app. split; [done|]. split; [|by constructor; [apply not_elem_of_nil|constructor]].
    intros i Hi ->%list_elem_of_singleton. done.
  - apply Forall_app. split.
    + rewrite Forall_forall in T |- *. intros t' Ht'. destruct (T t' Ht') as (T1 & T2 & x & T3 & T4).
      assert (Hne : ct_identity t' <> ct_identity t) by congruence.
      specialize (Hobj _ Hne). rewrite T3 in Hobj. inversion Hobj as [a b (Hab & _) Ha Hb|]; subst. split_and!.
      * destruct (Hat (ct_path t')) as [->|[? _]]; [done|congruence].
      * auto.
      * exists b. split; [done|congruence].
    + constructor; [|constructor]. split_and!; [done|auto|eauto].
  - auto.
  - intros Hrel i Hi. rewrite fmap_app, elem_of_app. destruct (decide (i = ct_identity t)) as [->|Hne].
    { right. right. by left. }
    specialize (Hobj i Hne). destruct Hi as [x Hx]. rewrite Hx in Hobj. inversion Hobj as [a b Hab Ha Hb|]; subst.
    destruct (O Hrel i) as [?|?]; eauto.
  - intros Hrel q i Hq. rewrite fmap_app, elem_of_app. destruct (Hat q) as [Heq|[_ Heq]].
    + rewrite Heq in Hq. destruct (A Hrel q i Hq); auto.
    + rewrite Heq in Hq. injection Hq as <-. right. right. by left.
  - intros Hrel i Hi. rewrite Hpo; [by apply P0|]. intros ->. rewrite Hfresh in Hi. by destruct Hi.
  - intros Hrel j t' Ht'. destruct (decide (j < length created)%nat) as [Hj|Hj].
    + rewrite lookup_app_l in Ht' by done. rewrite take_app_le by lia. rewrite Hpo; [by apply P|].
      apply list_elem_of_lookup_2 in Ht'. intros Heq. apply Hnotin. rewrite <- Heq. by apply list_elem_of_fmap_2.
    + rewrite lookup_app_r in Ht' by lia. destruct (j - length created)%nat as [|k] eqn:Hk'; [|by destruct k].
      injection Ht' as <-. exists d. split; [done|]. rewrite take_app_length' by lia.
      by apply O.
Qed.

(** A new object that nobody keeps: only on an unreliable file system. *)
Lemma inv_creates_leak f0 created f f' p id o :
  creates p id o f f' -> ~ fs_reliable f0 -> created_inv f0 created f -> created_inv f0 created f'.
Proof.
  intros Hc Hun [E N D T R O A P0 P]. pose proof (creates_extends _ _ _ _ _ _ Hc E) as HE.
  destruct Hc as (H1 & H2 & H3 & H4 & _ & Hat & Hobj & _ & Hs & _).
  split; try done. rewrite Forall_forall in T |- *. intros t Ht. destruct (T t Ht) as (T1 & T2 & x & T3 & T4).
  assert (Hne : ct_identity t <> id) by congruence. specialize (Hobj _ Hne). rewrite T3 in Hobj.
  inversion Hobj as [a b (Hab & _) Ha Hb|]; subst. split_and!.
  - destruct (Hat (ct_path t)) as [->|[? _]]; [done|congruence].
  - auto.
  - exists b. split; [done|congruence].
Qed.

(** ** Clean-up *)

(** Forgetting the last target, which is only sound for one that is gone or on
    an unreliable file system. *)
Lemma inv_forget f0 created t f :
  ~ fs_reliable f0 -> created_inv f0 (created ++ [t]) f -> created_inv f0 created f.
Proof.
  intros Hun [E N D T R O A P0 P]. apply Forall_app in N as [N _]. apply Forall_app in T as [T _].
  rewrite fmap_app in D. apply NoDup_app in D as [D _]. by split.
Qed.

Lemma inv_removes f0 created t f f' :
  removes (ct_path t) (ct_identity t) f f' ->
  created_inv f0 (created ++ [t]) f -> created_inv f0 created f'.
Proof.
  intros (H1 & H2 & Hsingle & Hat & Hobj & Hpar & Hs & Hr) [[E1 E2] N D T R O A P0 P].
  apply Forall_app in N as [N Nt]. apply Forall_singleton in Nt as [Hnew _].
  apply Forall_app in T as [T Tt]. apply Forall_singleton in Tt as (_ & Ts & _).
  destruct (Hsingle Ts) as [Hgone Hnames].
  rewrite fmap_app in D. apply NoDup_app in D as (D & Hdisj & _).
  assert (Hother : forall t', t' ∈ created -> ct_identity t' <> ct_identity t).
  { intros t' Ht' Heq. apply (Hdisj (ct_identity t')); [by apply list_elem_of_fmap_2|]. rewrite Heq. by left. }
  assert (Hback : forall i, is_Some (fs_obj f' i) -> i <> ct_identity t /\ is_Some (fs_obj f i)).
  { intros i [x Hx]. assert (Hne : i <> ct_identity t) by congruence. split; [done|].
    specialize (Hobj i Hne). rewrite Hx in Hobj. inversion Hobj; eauto. }
  split; try done.
  - split.
    + intros p i Hp. rewrite Hat; [by apply E1|]. rewrite (E1 _ _ Hp). intros [= ->].
      apply fs_at_obj in Hp. rewrite Hnew in Hp. by destruct Hp.
    + intros i x Hi. destruct (E2 i x Hi) as (x1 & Hx1 & Hs1). assert (Hne : i <> ct_identity t) by congruence.
      specialize (Hobj i Hne). rewrite Hx1 in Hobj. inversion Hobj as [a b Hab Ha Hb|]; subst.
      exists b. split; [done|by eapply same_object_trans].
  - rewrite Forall_forall in T |- *. intros t' Ht'. destruct (T t' Ht') as (T1 & T2 & x & T3 & T4).
    pose proof (Hother t' Ht') as Hne. specialize (Hobj _ Hne). rewrite T3 in Hobj.
    inversion Hobj as [a b (Hab & _) Ha Hb|]; subst. split_and!.
    + rewrite Hat; [done|]. rewrite T1. congruence.
    + auto.
    + exists b. split; [done|congruence].
  - auto.
  - intros Hrel i [Hne Hi]%Hback. destruct (O Hrel i Hi) as [?|Hin]; [by left|].
    rewrite fmap_app, elem_of_app in Hin. destruct Hin as [?|Hin]; [by right|by apply list_elem_of_singleton in Hin].
  - intros Hrel p i Hp. pose proof (fs_at_obj _ _ _ Hp) as [Hne Hi]%Hback.
    assert (Hq : fs_at f p = Some i).
    { destruct (decide (fs_at f p = Some (ct_identity t))) as [Heq|Heq]; [|by rewrite <- Hat].
      by rewrite (Hnames p Heq) in Hp. }
    destruct (A Hrel p i Hq) as [?|Hin]; [by left|].
    rewrite fmap_app, elem_of_app in Hin. destruct Hin as [?|Hin]; [by right|by apply list_elem_of_singleton in Hin].
  - intros Hrel i Hi. rewrite Hpar; [by apply P0|]. intros ->. rewrite Hnew in Hi. by destruct Hi.
  - intros Hrel j t' Ht'. rewrite Hpar by (by apply Hother; eapply list_elem_of_lookup_2).
    pose proof (lookup_lt_Some _ _ _ Ht') as Hj.
    destruct (P Hrel j t') as (d & Hd & Hin); [by apply lookup_app_l_Some|]. exists d. split; [done|].
    by rewrite take_app_le in Hin by lia.
Qed.

(** The last created directory is empty when it is about to be removed. *)
Lemma inv_last_empty f0 created t f :
  fs_reliable f0 -> created_inv f0 (created ++ [t]) f ->
  forall i, is_Some (fs_obj f i) -> fs_parent f i <> Some (ct_identity t).
Proof.
  intros Hrel [E N D T R O A P0 P] i Hi Hpar.
  apply Forall_app in N as [N Nt]. apply Forall_singleton in Nt as [Hnew _].
  destruct (O Hrel i Hi) as [Hi0|Hin].
  - rewrite P0 in Hpar by done. apply (fs_parent_obj _ _ _ Hi0) in Hpar. rewrite Hnew in Hpar. by destruct Hpar.
  - apply list_elem_of_fmap in Hin as (t' & -> & (j & Hj)%list_elem_of_lookup).
    destruct (P Hrel j t' Hj) as (d & Hd & [Hd0|Hd0]); rewrite Hpar in Hd; injection Hd as <-.
    + rewrite Hnew in Hd0. by destruct Hd0.
    + pose proof (lookup_lt_Some _ _ _ Hj) as Hlt. rewrite length_app in Hlt. cbn in Hlt.
      rewrite take_app_le in Hd0 by lia. rewrite fmap_app in D. apply NoDup_app in D as (_ & Hdisj & _).
      apply (Hdisj (ct_identity t)); [|by left].
      rewrite <- (take_drop j created), fmap_app. apply elem_of_app. by left.
Qed.

Lemma stat_run f p : exists f' r, symlink_metadata p f = (f', r) /\ same_view f f' /\
  match r with
  | Ok m => fs_at f p = Some (md_identity m) /\ exists o, fs_obj f (md_identity m) = Some o /\ fo_kind o = md_kind m
  | Err e => (io_kind e = KNotFound -> fs_at f p = None) /\ (fs_reliable f -> fs_at f p = None)
  end.
Proof.
  pose proof (symlink_metadata_ok f p) as H. destruct (symlink_metadata p f) as [f' r]. by exists f', r.
Qed.

Lemma restore_inv f0 created t f :
  t ∈ created -> ct_kind t = TargetDirectory -> created_inv f0 created f ->
  created_inv f0 created (restore_created_directory_permissions f t).
Proof.
  intros Hin Hk Hinv. unfold restore_created_directory_permissions.
  destruct (stat_run f (ct_path t)) as (f1 & r & -> & Hv & _).
  pose proof (inv_same_view _ _ _ _ Hv Hinv) as Hinv1. destruct r as [m|e]; [|done].
  case_decide as Hid; [done|]. pose proof (set_permissions_ok f1 (ct_path t) 448) as Hsp.
  destruct (set_permissions (ct_path t) 448 f1) as [f2 r2]. cbn.
  pose proof (ci_there _ _ _ Hinv1) as T. rewrite Forall_forall in T. destruct (T t Hin) as (T1 & _ & o & T2 & T3).
  unfold target_kind in T3. rewrite Hk in T3. specialize (Hsp _ _ T1 T2 ltac:(congruence)).
  destruct r2; [|by eapply inv_same_view].
  eapply inv_changes; [exact Hsp|by intros ? ? ->|by apply list_elem_of_fmap_2|done].
Qed.

Lemma restores_inv f0 created l f :
  (forall t, t ∈ l -> t ∈ created /\ ct_kind t = TargetDirectory) -> created_inv f0 created f ->
  created_inv f0 created (foldl restore_created_directory_permissions f l).
Proof.
  revert f. induction l as [|t l IH]; intros f Hl Hinv; cbn; [done|].
  apply IH; [intros; apply Hl; by right|]. destruct (Hl t) as [Hin Hk]; [by left|]. by apply restore_inv.
Qed.

Lemma remove_inv f0 created t f :
  created_inv f0 (created ++ [t]) f -> created_inv f0 created (remove_created_target f t).
Proof.
  intros Hinv. unfold remove_created_target.
  pose proof (ci_new _ _ _ Hinv) as N. apply Forall_app in N as [_ [_ Hrm]%Forall_singleton]. rewrite Hrm. cbn.
  pose proof (ci_there _ _ _ Hinv) as T. apply Forall_app in T as [_ (T1 & T2 & o & T3 & T4)%Forall_singleton].
  destruct (stat_run f (ct_path t)) as (f1 & r & -> & Hv & Hm).
  pose proof (inv_same_view _ _ _ _ Hv Hinv) as Hinv1. destruct r as [m|e].
  2:{ destruct Hm as [_ Hm]. eapply inv_forget; [|exact Hinv1]. intros Hrel%(ci_reliable _ _ _ Hinv).
      specialize (Hm Hrel). congruence. }
  destruct Hm as [Hm _]. rewrite T1 in Hm. injection Hm as Hm. rewrite decide_False by congruence.
  destruct Hv as (Va & Vo & _). rewrite <- Va in T1. rewrite <- Vo in T3.
  assert (Hcase : forall f2 (r : IoResult ()),
    match r with Ok _ => exists id, removes (ct_path t) id f1 f2 | Err e => same_view f1 f2 end ->
    (fs_reliable f0 -> is_ok r = true) -> created_inv f0 created f2).
  { intros f2 r Hr Hrel. destruct r as [u|e].
    - destruct Hr as [id Hr]. assert (id = ct_identity t) as -> by (destruct Hr as [Hr _]; congruence).
      by eapply inv_removes.
    - eapply inv_forget; [|by eapply inv_same_view]. intros H%Hrel. done. }
  unfold target_kind in T4. destruct (ct_kind t).
  - pose proof (remove_file_ok f1 (ct_path t)) as Hr. pose proof (remove_file_reliable f1) as Hrel.
    destruct (remove_file (ct_path t) f1) as [f2 r] eqn:Heq. apply (Hcase _ r Hr).
    intros Hr0. specialize (Hrel _ _ _ (ci_reliable _ _ _ Hinv1 Hr0) T1 T3 T4). by rewrite Heq in Hrel.
  - pose proof (remove_dir_ok f1 (ct_path t)) as Hr. pose proof (remove_dir_reliable f1) as Hrel.
    destruct (remove_dir (ct_path t) f1) as [f2 r] eqn:Heq. apply (Hcase _ r Hr).
    intros Hr0. specialize (Hrel _ _ _ (ci_reliable _ _ _ Hinv1 Hr0) T1 T3 T4 (inv_last_empty _ _ _ _ Hr0 Hinv1)).
    by rewrite Heq in Hrel.
Qed.

Lemma inv_restored f0 f : created_inv f0 [] f -> restored f0 f.
Proof.
  intros [E N D T R O A P0 P]. split; [done|]. intros Hrel. split.
  - intros p. destruct (fs_at f p) as [i|] eqn:Hp.
    + destruct (A Hrel p i Hp) as [?|Hin]; [done|by apply elem_of_nil in Hin].
    + destruct (fs_at f0 p) as [i|] eqn:Hp0; [|done]. destruct E as [E _]. apply E in Hp0. congruence.
  - intros i Hi. destruct (fs_obj f i) as [o|] eqn:Ho; [|done].
    destruct (O Hrel i) as [[? ?]|Hin]; [by eauto|congruence|by apply elem_of_nil in Hin].
Qed.

(** Clean-up undoes what was created. *)
Lemma cleanup_restores f0 created f : created_inv f0 created f -> restored f0 (cleanup_created_targets created f).
Proof.
  intros Hinv. unfold cleanup_created_targets. apply inv_restored.
  apply (restores_inv f0 created (filter (fun t => ct_kind t = TargetDirectory /\ ct_remove_on_cleanup t = true) created))
    in Hinv; [|intros t [[? _] ?]%list_elem_of_filter; auto].
  revert Hinv. generalize (foldl restore_created_directory_permissions f
    (filter (fun t => ct_kind t = TargetDirectory /\ ct_remove_on_cleanup t = true) created)). clear f.
  induction created as [|t created IH] using rev_ind; intros f Hinv; [done|].
  rewrite reverse_snoc. cbn. apply IH. by apply remove_inv.
Qed.
End safety.

(** ** The phases keep the invariant *)

Section phases.
Context {F C : Type} `{!FileSystem F, !FsView F, !FileSystemOk F, Hrouter : !Router}.
Context (process_id : Z) (report_progress : C -> MaterializeProgress -> C * Result ()).
Context (f0 : F) (policy : MaterializeConflictPolicy) (Hpolicy : policy <> PolicyOverwrite).
Implicit Types (f : F) (w : World F C) (created : list CreatedTarget).

Abbreviation inv_w := (fun created w => created_inv f0 created (w_fs w)).

(** Whatever happened to the file system could not be seen. *)
Definition unseen {E A} (m : M (World F C) E A) : Prop := forall w, same_view (w_fs w) (w_fs (m w).1).

Lemma same_view_refl f : same_view f f.
Proof. done. Qed.

Lemma same_view_trans f1 f2 f3 : same_view f1 f2 -> same_view f2 f3 -> same_view f1 f3.
Proof.
  intros (A & B & D & E & G) (A' & B' & D' & E' & G'). split_and!; auto; intros; congruence.
Qed.

Lemma unseen_keeps {E A} (m : M (World F C) E A) created : unseen m -> keeps (inv_w created) m.
Proof.
  intros H w Hw. specialize (H w). destruct (m w) as [w' r]. by eapply inv_same_view.
Qed.

Lemma unseen_bind {E A B} (m : M (World F C) E A) (k : A -> M (World F C) E B) :
  unseen m -> (forall a, unseen (k a)) -> unseen (m ≫= k).
Proof.
  intros Hm Hk w. unfold mbind, M_bind. specialize (Hm w). destruct (m w) as [w1 [a|e]]; [|done].
  eapply same_view_trans; [exact Hm|apply Hk].
Qed.

Lemma unseen_id {E A} (m : M (World F C) E A) : (forall w, w_fs (m w).1 = w_fs w) -> unseen m.
Proof. intros H w. rewrite H. apply same_view_refl. Qed.

Lemma unseen_map_error {E E' A} (g : E -> E') (m : M (World F C) E A) : unseen m -> unseen (map_error g m).
Proof. intros H w. specialize (H w). unfold map_error. by destruct (m w). Qed.

Lemma unseen_on_fs {E A} (m : M F E A) : (forall f, same_view f (m f).1) -> unseen (on_fs m).
Proof. intros H w. unfold on_fs, zoom. specialize (H (w_fs w)). by destruct (m (w_fs w)). Qed.

Lemma view_bind {E A B} (m : M F E A) (k : A -> M F E B) :
  (forall f, same_view f (m f).1) -> (forall a f, same_view f (k a f).1) -> forall f, same_view f ((m ≫= k) f).1.
Proof.
  intros Hm Hk f. unfold mbind, M_bind. specialize (Hm f). destruct (m f) as [f1 [a|e]]; [|done].
  eapply same_view_trans; [exact Hm|apply Hk].
Qed.

Lemma view_fs_call {A} (m : M F IoError A) f : same_view f (m f).1 -> same_view f (fs_call m f).1.
Proof. unfold fs_call, map_error. by destruct (m f). Qed.

Lemma view_try {E E' A} (m : M F E A) f : same_view f (m f).1 -> same_view f ((try_ m : M F E' _) f).1.
Proof. unfold try_. by destruct (m f). Qed.

Lemma view_stat p f : same_view f (symlink_metadata p f).1.
Proof. destruct (stat_run f p) as (f' & r & -> & Hv & _). exact Hv. Qed.

Lemma view_open_file p f : same_view f (open_file p f).1.
Proof. pose proof (open_file_ok f p) as H. destruct (open_file p f). by destruct H. Qed.

Lemma view_file_metadata i f : same_view f (file_metadata i f).1.
Proof. pose proof (file_metadata_ok f i) as H. destruct (file_metadata i f). by destruct H. Qed.

Lemma view_read_at i a b f : same_view f (file_read_at i a b f).1.
Proof. pose proof (file_read_at_ok f i a b) as H. destruct (file_read_at i a b f). by destruct H. Qed.

Lemma view_validate_target_dir p f : same_view f (validate_target_dir p f).1.
Proof.
  unfold validate_target_dir. destruct (negb _); [apply same_view_refl|].
  apply view_bind; [intros; apply view_fs_call, view_stat|]. intros m f'. case_decide; apply same_view_refl.
Qed.

Lemma view_preflight entries pol f : same_view f (preflight_materialize_targets entries pol f).1.
Proof.
  unfold preflight_materialize_targets. revert f. induction entries as [|e es IH]; intros f; cbn [for_each].
  - apply same_view_refl.
  - revert f. apply view_bind; [|done]. apply view_bind; [intros; apply view_try, view_stat|].
    intros [m|err] f; [|case_decide]; apply same_view_refl.
Qed.

Lemma view_unique n a dir name kind f : same_view f (unique_loop n a dir name kind f).1.
Proof.
  revert a f. induction n as [|n IH]; intros a f; cbn [unique_loop]; [apply same_view_refl|].
  revert f. apply view_bind; [intros; apply view_try, view_stat|].
  intros [m|err] f; [apply IH|]. case_decide; apply same_view_refl.
Qed.

Lemma view_read_local p a b f : same_view f (read_local_materialized_chunk p a b f).1.
Proof.
  unfold read_local_materialized_chunk. revert f. apply view_bind; [intros; apply view_fs_call, view_open_file|].
  intros i. apply view_bind; [intros; apply view_fs_call, view_read_at|]. intros bytes f. destruct (negb _); apply same_view_refl.
Qed.

Lemma unseen_plan request : unseen (plan_materialize (C := C) request).
Proof.
  unfold plan_materialize. apply unseen_bind; [apply unseen_on_fs, view_validate_target_dir|]. intros _.
  apply unseen_bind; [by apply unseen_id|]. intros s.
  apply unseen_bind; [by apply unseen_id|]. intros [pid rel].
  apply unseen_bind; [by apply unseen_id|]. intros nodes.
  apply unseen_bind; [by apply unseen_id|]. intros root.
  apply unseen_bind; [by apply unseen_id|]. intros name.
  apply unseen_bind; [apply unseen_on_fs; intros f; unfold materialize_target_path; case_decide;
    [apply same_view_refl|apply view_unique]|]. intros target.
  apply unseen_bind; [by apply unseen_id|]. intros entries.
  apply unseen_bind; [apply unseen_on_fs, view_preflight|]. intros _. by apply unseen_id.
Qed.

Lemma unseen_provider_chunk plan : unseen (read_materialize_provider_chunk (F := F) (C := C) plan).
Proof.
  apply unseen_id. intros w. unfold read_materialize_provider_chunk. cbn.
  by destruct (router_read _ _).
Qed.

Lemma unseen_read_chunk pid entry a b : unseen (read_materialize_chunk (F := F) (C := C) pid entry a b).
Proof.
  unfold read_materialize_chunk. apply unseen_bind; [by apply unseen_id|]. intros s.
  apply unseen_bind.
  { destruct (Runtime_plan_provider_read _ _ _ _ _) as [p|[]]; by apply unseen_id. }
  intros [plan|]; [apply unseen_provider_chunk|].
  apply unseen_bind; [by apply unseen_id|]. intros s'. apply unseen_bind; [by apply unseen_id|].
  intros [plan|plan|bytes|]; [apply unseen_provider_chunk|apply unseen_on_fs, view_read_local|by apply unseen_id..].
Qed.

Lemma unseen_report g : unseen (report (F := F) report_progress g).
Proof. apply unseen_id. intros w. unfold report. by destruct (report_progress _ _). Qed.

(** *** Creating directories *)

Lemma existing_refused entry m : exists e, validate_existing_materialize_target entry m policy = Err e.
Proof.
  unfold validate_existing_materialize_target. case_decide; [eauto|]. by destruct policy; eauto.
Qed.

Lemma create_directory_inv created entry f :
  created_inv f0 created f ->
  let '(f', r) := create_materialized_directory entry policy f in
  created_inv f0 (created ++ match r with Ok t => [t] | Err _ => [] end) f' /\
  match r with Ok t => ct_path t = me_target_path entry /\ ct_kind t = TargetDirectory | Err _ => True end.
Proof.
  intros Hinv. unfold create_materialized_directory, mbind, M_bind, try_, fs_call, map_error.
  destruct (stat_run f (me_target_path entry)) as (f1 & r & -> & Hv & _).
  pose proof (inv_same_view _ _ _ _ Hv Hinv) as Hinv1. cbn. destruct r as [m|e].
  { unfold lift. destruct (existing_refused entry m) as [e ->]. by rewrite app_nil_r. }
  destruct (decide (io_kind e = KNotFound)) as [Hnf|_]; [|cbn; by rewrite app_nil_r].
  pose proof (create_dir_ok f1 (me_target_path entry) 448) as Hc.
  destruct (create_dir (me_target_path entry) 448 f1) as [f2 [u|e2]]; cbn.
  2:{ rewrite app_nil_r. split; [|done]. by eapply inv_same_view. }
  destruct Hc as (id & o & Hc & Hk).
  destruct (stat_run f2 (me_target_path entry)) as (f3 & r & -> & Hv3 & Hm). destruct r as [m|e3]; cbn.
  - split; [|done]. eapply inv_same_view; [exact Hv3|]. eapply inv_creates; try done.
    destruct Hm as [Hm _]. destruct Hc as (_ & _ & Hat & _). cbn. congruence.
  - rewrite app_nil_r. split; [|done]. eapply inv_same_view; [exact Hv3|]. eapply inv_creates_leak; [exact Hc| |exact Hinv1].
    intros Hrel. destruct Hm as [_ Hm]. destruct Hc as (_ & _ & Hat & _ & _ & _ & _ & _ & _ & Hr).
    rewrite Hm in Hat; [done|]. apply Hr. by apply (ci_reliable _ _ _ Hinv1).
Qed.

(** What a clean-up leaves. *)
Lemma or_clean_up_inv {A} created progress (m : M (World F C) Status A) (Q : A -> World F C -> Prop) :
  triple (inv_w created) m (fun r w => match r with Ok a => Q a w | Err _ => inv_w created w end) ->
  triple (inv_w created) (or_clean_up created progress m)
    (fun r w => match r with Ok a => Q a w | Err _ => restored f0 (w_fs w) end).
Proof.
  intros H. apply triple_on_error. eapply triple_conseq; [exact H|done|].
  intros [a|e] w Hw; [done|]. by apply cleanup_restores.
Qed.

Lemma report_inv created g : triple (inv_w created) (report report_progress g) (fun _ => inv_w created).
Proof. apply unseen_keeps, unseen_report. Qed.

Lemma report_or_clean_up created g :
  triple (inv_w created) (or_clean_up created g (report report_progress g))
    (fun r w => match r with Ok _ => inv_w created w | Err _ => restored f0 (w_fs w) end).
Proof.
  apply (or_clean_up_inv created g _ (fun _ => inv_w created)).
  eapply triple_conseq; [apply (report_inv created)|intros w Hw; exact Hw|]. by intros [] w.
Qed.

Lemma create_directories_inv entries g created :
  triple (inv_w created) (create_directories report_progress policy entries g created)
    (fun r w => match r with Ok x => inv_w x.2 w | Err _ => restored f0 (w_fs w) end).
Proof.
  revert g created. induction entries as [|entry entries IH]; intros g created; cbn [create_directories].
  - by apply triple_ret.
  - eapply triple_bind; [apply (or_clean_up_inv created g _ (fun t => inv_w (created ++ [t])))| |done].
    + apply triple_zoom. intros w Hw f ->. pose proof (create_directory_inv created entry (w_fs w) Hw) as H.
      destruct (create_materialized_directory entry policy (w_fs w)) as [f' [t|e]]; destruct H as [H _]; [done|].
      by rewrite app_nil_r in H.
    + intros t. eapply triple_bind; [apply report_or_clean_up|intros []; apply IH|done].
Qed.

(** *** Writing files *)

Definition target_ok (entry : MaterializeEntryPlan) (t : MaterializeFileTarget) : Prop :=
  mt_file t = ct_identity (mt_write_target t) /\ mt_replace_on_success t = false /\
  mt_final_path t = ct_path (mt_write_target t) /\ mt_final_remove_on_cleanup t = true /\
  ct_path (mt_write_target t) = me_target_path entry /\ ct_kind (mt_write_target t) = TargetFile.

Lemma open_final_inv created entry f :
  created_inv f0 created f ->
  let '(f', r) := open_final_materialized_file entry true f in
  match r with
  | Ok t => created_inv f0 (created ++ [mt_write_target t]) f' /\ target_ok entry t
  | Err e => created_inv f0 created f' /\ we_target e = None
  end.
Proof.
  intros Hinv. unfold open_final_materialized_file, open_materialize_output, mbind, M_bind, fs_call, map_error.
  pose proof (open_new_ok f (me_target_path entry) 384) as Hc.
  destruct (open_new (me_target_path entry) 384 f) as [f1 [id|e]]; cbn.
  2:{ split; [|done]. by eapply inv_same_view. }
  destruct Hc as (o & Hc & Hk & _). pose proof (file_metadata_ok f1 id) as Hm.
  destruct (file_metadata id f1) as [f2 [m|e]]; destruct Hm as [Hv Hm]; cbn.
  - split; [|by split_and!]. eapply inv_same_view; [exact Hv|]. by eapply inv_creates.
  - split; [|done]. eapply inv_same_view; [exact Hv|]. eapply inv_creates_leak; [exact Hc| |exact Hinv].
    intros Hrel. destruct Hc as (_ & _ & _ & Ho & _ & _ & _ & _ & _ & Hr).
    rewrite Hm in Ho; [done|]. apply Hr. by apply (ci_reliable _ _ _ Hinv).
Qed.

Lemma open_materialized_file_inv created entry :
  triple (inv_w created) (open_materialized_file process_id entry policy)
    (fun r w => match r with
       | Ok t => inv_w (created ++ [mt_write_target t]) w /\ target_ok entry t
       | Err e => inv_w created w /\ we_target e = None
       end).
Proof.
  unfold open_materialized_file. eapply triple_bind with (R := fun r w => inv_w created w /\ is_ok r = true).
  { intros w Hw. unfold on_fs, zoom, try_. destruct (stat_run (w_fs w) (me_target_path entry)) as (f1 & r & -> & Hv & _).
    split; [|done]. by eapply inv_same_view. }
  2:{ by intros e w [_ ?]. }
  intros md. eapply triple_bind with (R := fun r w => inv_w created w /\ match r with Err e => we_target e = None | Ok _ => True end).
  { destruct md as [m|e].
    - intros w [Hw _]. unfold mbind, M_bind, lift. by destruct (existing_refused entry m) as [e ->].
    - case_decide; [apply triple_ret|apply triple_fail]; by intros w [Hw _]. }
  2:{ by intros e w. }
  intros exists_. assert (Hopen : triple (inv_w created) (on_fs (open_final_materialized_file entry true))
    (fun r w => match r with
       | Ok t => inv_w (created ++ [mt_write_target t]) w /\ target_ok entry t
       | Err e => inv_w created w /\ we_target e = None
       end)).
  { apply triple_zoom. intros w Hw f ->. pose proof (open_final_inv created entry (w_fs w) Hw) as H.
    by destruct (open_final_materialized_file entry true (w_fs w)) as [f' [t|e]]. }
  destruct policy; [|done|]; (eapply triple_conseq; [exact Hopen|by intros w [? _]|done]).
Qed.

(** The error paths after the file was opened name it for the clean-up. *)
Definition after_open created (t : CreatedTarget) {A} (r : result MaterializeWriteError A) w : Prop :=
  inv_w (created ++ [t]) w /\ match r with Ok _ => True | Err e => we_target e = Some t end.

Lemma unseen_after {A} created t (m : M (World F C) Status A) g :
  unseen m -> triple (inv_w (created ++ [t])) (map_error (fun s => with_target s t g) m) (after_open created t).
Proof.
  intros H. apply triple_map_error. eapply triple_conseq; [exact (unseen_keeps m (created ++ [t]) H)|done|].
  intros [a|e] w Hw; by split.
Qed.

(** A call on the open file. *)
Lemma handle_call_after {E A} created t (m : M F E A) (g : E -> MaterializeWriteError) :
  (forall e, we_target (g e) = Some t) ->
  (forall f, exists Q, changes_object (ct_identity t) Q f (m f).1 /\ (forall o o', Q o o' -> fo_kind o' = fo_kind o)) \/
  (forall f, match (m f).2 with
             | Ok _ => exists Q, changes_object (ct_identity t) Q f (m f).1 /\ (forall o o', Q o o' -> fo_kind o' = fo_kind o)
             | Err _ => same_view f (m f).1
             end) ->
  triple (inv_w (created ++ [t])) (map_error g (on_fs m)) (after_open created t).
Proof.
  intros Hg H. apply triple_map_error, triple_zoom. intros w Hw f ->.
  assert (Hin : ct_identity t ∈ ct_identity <$> created ++ [t]).
  { rewrite fmap_app, elem_of_app. right. by left. }
  assert (Hinv : created_inv f0 (created ++ [t]) (m (w_fs w)).1).
  { destruct H as [H|H]; specialize (H (w_fs w)).
    - destruct H as (Q & HQ & Hk). by eapply inv_changes.
    - destruct (m (w_fs w)) as [f' [a|e]]; cbn in *; [|by eapply inv_same_view].
      destruct H as (Q & HQ & Hk). by eapply inv_changes. }
  destruct (m (w_fs w)) as [f' [a|e]]; split; try done. apply Hg.
Qed.

Lemma write_loop_inv created t fuel pid entry rep offset :
  (forall n, unseen (rep n)) ->
  triple (inv_w (created ++ [t])) (write_loop fuel pid entry (ct_identity t) t rep offset) (after_open created t).
Proof.
  intros Hrep. revert offset. induction fuel as [|fuel IH]; intros offset; cbn [write_loop].
  { apply triple_ret. by split. }
  destruct (offset <? me_size entry); [|apply triple_ret; by split].
  eapply triple_bind; [apply unseen_after, unseen_read_chunk| |by intros e w [? ?]]. intros bytes.
  case_decide; [apply triple_fail; by intros w [? _]|].
  eapply triple_bind.
  { eapply triple_conseq; [apply (handle_call_after created t (file_write_all (ct_identity t) bytes)); [done|]
      |by intros w [? _]|intros r w Hw; exact Hw].
    left. intros f. pose proof (file_write_all_ok f (ct_identity t) bytes) as Hwr.
    destruct (file_write_all _ _ f) as [f' r]. eexists. split; [exact Hwr|]. by intros o o' [? _]. }
  2:{ by intros e w [? ?]. }
  intros ?. destruct (checked_add offset (len bytes)) as [offset'|]; [|apply triple_fail; by intros w [? _]].
  eapply triple_bind; [eapply triple_conseq; [apply unseen_after, Hrep|by intros w [? _]|intros r w Hw; exact Hw]| |by intros e w [? ?]].
  intros ?. eapply triple_conseq; [apply IH|by intros w [? _]|done].
Qed.

Lemma set_permissions_call t mode f :
  match (fs_call (file_set_permissions (ct_identity t) mode) f).2 with
  | Ok _ => exists Q, changes_object (ct_identity t) Q f (fs_call (file_set_permissions (ct_identity t) mode) f).1 /\
      (forall o o', Q o o' -> fo_kind o' = fo_kind o)
  | Err _ => same_view f (fs_call (file_set_permissions (ct_identity t) mode) f).1
  end.
Proof.
  unfold fs_call, map_error. pose proof (file_set_permissions_ok f (ct_identity t) mode) as H.
  destruct (file_set_permissions _ _ f) as [f' [u|e]]; cbn; [|done]. eexists. split; [exact H|]. by intros o o' ->.
Qed.

Lemma timespec_bound mtime : Z.rem mtime 1000000000 < 1000000000.
Proof. pose proof (Z.rem_bound_abs mtime 1000000000). lia. Qed.

Lemma apply_mtime_call t mtime f :
  match (apply_mtime (ct_identity t) mtime f).2 with
  | Ok _ => exists Q, changes_object (ct_identity t) Q f (apply_mtime (ct_identity t) mtime f).1 /\
      (forall o o', Q o o' -> fo_kind o' = fo_kind o)
  | Err _ => same_view f (apply_mtime (ct_identity t) mtime f).1
  end.
Proof.
  unfold apply_mtime, fs_call, map_error.
  match goal with |- context [futimens ?i ?ts f] => pose proof (futimens_ok f i ts) as H; specialize (H (timespec_bound mtime)); destruct (futimens i ts f) as [f' [u|e]] end;
    cbn; [|done]. eexists. split; [apply H|]. by intros o o' ->.
Qed.

Lemma write_materialized_file_inv created pid entry rep :
  (forall n, unseen (rep n)) ->
  triple (inv_w created) (write_materialized_file process_id pid entry policy rep)
    (fun r w => match r with
       | Ok outcome => inv_w (created ++ [fo_target outcome]) w
       | Err e => inv_w (created ++ option_list (we_target e)) w
       end).
Proof.
  intros Hrep. unfold write_materialized_file.
  eapply triple_bind; [apply open_materialized_file_inv| |].
  2:{ intros e w [Hw ->]. cbn. by rewrite app_nil_r. }
  intros target w [Hw (Hfile & Hrepl & Hpath & Hrm & Hpath' & Hkind)].
  revert w Hw. set (t := mt_write_target target) in *.
  assert (Herr : forall A (e : MaterializeWriteError) w, after_open created t (Err e : result _ A) w ->
    inv_w (created ++ option_list (we_target e)) w).
  { intros A e w [Hw He]. by rewrite He. }
  change (triple (inv_w (created ++ [t])) (offset ← write_loop (S (Z.to_nat (me_size entry))) pid entry (mt_file target) t rep 0;
    _ ← map_error (fun status => with_target status t offset)
          (on_fs (fs_call (file_set_permissions (mt_file target) (Z.land (me_mode entry) 4095))));
    _ ← map_error (fun status => with_target status t offset) (on_fs (apply_mtime (mt_file target) (me_mtime_nsec entry)));
    c ← on_fs (finalize_materialized_file t (mt_final_path target) (mt_final_remove_on_cleanup target)
                 (mt_replace_on_success target) offset);
    mret (mkMaterializeFileOutcome offset c))
    (fun r w => match r with
       | Ok outcome => inv_w (created ++ [fo_target outcome]) w
       | Err e => inv_w (created ++ option_list (we_target e)) w
       end)).
  rewrite Hfile, Hrepl, Hpath, Hrm.
  eapply triple_bind; [by apply write_loop_inv| |apply Herr]. intros offset.
  eapply triple_bind; [eapply triple_conseq; [eapply handle_call_after; [done|right; apply set_permissions_call]
    |by intros w [? _]|intros r w Hw; exact Hw]| |apply Herr]. intros ?.
  eapply triple_bind; [eapply triple_conseq; [eapply handle_call_after; [done|right; apply apply_mtime_call]
    |by intros w [? _]|intros r w Hw; exact Hw]| |apply Herr]. intros ?.
  intros w [Hw _]. cbn. pose proof (ci_new _ _ _ Hw) as N. apply Forall_app in N as [_ [_ Hrt]%Forall_singleton].
  destruct t as [tp ti tk tr]. cbn in *. by subst.
Qed.

Lemma write_files_inv pid entries g created :
  triple (inv_w created) (write_files process_id report_progress pid policy entries g created)
    (fun r w => match r with Ok x => inv_w x.2 w | Err _ => restored f0 (w_fs w) end).
Proof.
  revert g created. induction entries as [|entry entries IH]; intros g created; cbn [write_files].
  { by apply triple_ret. }
  eapply triple_bind with (R := fun x w => match x with
    | Ok (Ok outcome) => inv_w (created ++ [fo_target outcome]) w
    | Ok (Err e) => inv_w (created ++ option_list (we_target e)) w
    | Err _ => False
    end).
  - apply triple_try. eapply triple_conseq; [apply (write_materialized_file_inv created)|done|by intros [] w].
    intros n. apply unseen_report.
  - intros [outcome|e].
    + eapply triple_bind; [apply report_or_clean_up|intros []; apply IH|done].
    + cbn beta iota. apply (or_clean_up_inv _ _ _ (fun x => inv_w x.2)). by apply triple_fail.
  - by intros e w.
Qed.

Lemma apply_directory_metadata_inv created entry t f :
  t ∈ created -> created_inv f0 created f ->
  created_inv f0 created (apply_directory_metadata entry (ct_identity t) f).1.
Proof.
  intros Hin Hinv. unfold apply_directory_metadata, mbind, M_bind, fs_call, map_error.
  pose proof (open_file_ok f (me_target_path entry)) as Ho.
  destruct (open_file (me_target_path entry) f) as [f1 [d|e]]; destruct Ho as [Hv _];
    (apply (inv_same_view f0 created f f1 Hv) in Hinv; cbn); [|done].
  pose proof (file_metadata_ok f1 d) as Hm.
  destruct (file_metadata d f1) as [f2 [m|e]]; destruct Hm as [Hv2 Hm];
    (apply (inv_same_view f0 created f1 f2 Hv2) in Hinv; cbn); [|done].
  case_decide as Hid; [done|].
  assert (d = ct_identity t) as -> by congruence.
  assert (Hids : ct_identity t ∈ ct_identity <$> created) by by apply list_elem_of_fmap_2.
  pose proof (file_set_permissions_ok f2 (ct_identity t) (Z.land (me_mode entry) 4095)) as Hp.
  destruct (file_set_permissions _ _ f2) as [f3 [u|e]]; cbn; [|by eapply inv_same_view].
  apply (inv_changes f0 created f2 f3 _ _ Hp) in Hinv; [|by intros o o' ->|done].
  pose proof (apply_mtime_call t (me_mtime_nsec entry) f3) as Ht.
  destruct (apply_mtime (ct_identity t) (me_mtime_nsec entry) f3) as [f4 [u'|e]]; cbn in *; [|by eapply inv_same_view].
  destruct Ht as (Q & HQ & Hk). by eapply inv_changes.
Qed.

Lemma find_created_in created entry t : find_created created entry = Some t -> t ∈ created /\ ct_kind t = TargetDirectory /\
  components (ct_path t) = components (me_target_path entry).
Proof.
  unfold find_created. intros H. apply head_Some_elem_of in H. by apply list_elem_of_filter in H as [[? ?] ?].
Qed.

Lemma apply_directories_inv created entries f :
  created_inv f0 created f -> created_inv f0 created (apply_directories created entries f).1.
Proof.
  unfold apply_directories. revert f. induction entries as [|entry entries IH]; intros f Hinv; cbn [for_each]; [done|].
  unfold mbind, M_bind. destruct (find_created created entry) as [t|] eqn:Ht; [|done].
  apply find_created_in in Ht as [Ht _]. pose proof (apply_directory_metadata_inv created entry t f Ht Hinv) as Hinv1.
  destruct (apply_directory_metadata entry (ct_identity t) f) as [f1 [u|e]]; [|done]. by apply IH.
Qed.

Lemma unseen_mark pid entries : unseen (mark_materialized (F := F) (C := C) pid entries).
Proof.
  unfold mark_materialized. induction entries as [|entry entries IH]; cbn [for_each]; [by apply unseen_id|].
  apply unseen_bind; [|done]. apply unseen_id. intros w. by destruct (Runtime_mark_node_materialized _ _ _ _).
Qed.

Lemma plan_policy request w w' plan :
  plan_materialize (F := F) (C := C) request w = (w', Ok plan) -> mp_conflict_policy plan = mr_conflict_policy request.
Proof.
  unfold plan_materialize. intros H. apply bind_run in H as (w1 & [] & _ & H). apply bind_run in H as (w2 & s & _ & H).
  apply bind_run in H as (w3 & [pid rel] & _ & H). inv_run H. by injection H as <- <-.
Qed.
End phases.

(** ** Properties *)

(** C6: materialization that must not overwrite leaves everything else alone,
    and on failure leaves nothing behind.  Whatever the client, the provider,
    other threads and the file system do, every path that named something
    before names the same, unchanged object afterwards (directories may have a
    new modification time).  If the operation fails, for whatever reason, and
    the file system itself is reliable, moreover every path and every object
    created in between is gone. *)
Theorem materialize_restores_on_failure {F C} `{!FileSystem F, !FsView F, !FileSystemOk F, !Router}
    process_id (report_progress : C -> MaterializeProgress -> C * Result ()) body (w : World F C) :
  mb_conflict_policy body <> OverwriteBody ->
  let '(w', r) := materialize_node_in_state process_id report_progress body w in
  match r with
  | Ok _ => extends (w_fs w) (w_fs w')
  | Err _ => restored (w_fs w) (w_fs w')
  end.
Proof.
  intros Hbody. set (f0 := w_fs w).
  assert (Hpol : forall request, MaterializeRequest_from_body body = Ok request ->
    mr_conflict_policy request <> PolicyOverwrite).
  { intros request. unfold MaterializeRequest_from_body. case_decide; [done|]. intros [= <-]. cbn.
    by destruct (mb_conflict_policy body). }
  assert (Hstart : forall w1 : World F C, created_inv f0 [] (w_fs w1) -> restored f0 (w_fs w1)).
  { intros w1 Hw1. by apply inv_restored. }
  enough (Ht : triple (fun w1 : World F C => created_inv f0 [] (w_fs w1))
    (materialize_node_in_state process_id report_progress body)
    (fun r w1 => match r with Ok _ => extends f0 (w_fs w1) | Err _ => restored f0 (w_fs w1) end)).
  { apply (Ht w). apply created_inv_start. }
  unfold materialize_node_in_state.
  eapply triple_bind with (R := fun r w1 => created_inv f0 [] (w_fs w1) /\
    match r with Ok request => mr_conflict_policy request <> PolicyOverwrite | Err _ => True end).
  { apply triple_map_error, triple_lift. intros w1 Hw1. destruct (MaterializeRequest_from_body body) eqn:Hreq; cbn; auto. }
  2:{ intros e w1 [Hw1 _]. by apply Hstart. }
  intros request. apply triple_pure. intros Hreq.
  eapply triple_bind with (R := fun r w1 => created_inv f0 [] (w_fs w1) /\
    match r with Ok plan => mp_conflict_policy plan <> PolicyOverwrite | Err _ => True end).
  { apply triple_map_error. intros w1 Hw1.
    pose proof (unseen_keeps f0 _ [] (unseen_plan request) w1 Hw1) as Hk. pose proof (plan_policy request w1) as Hpp.
    destruct (plan_materialize request w1) as [w2 [plan|e]]; cbn; [|done].
    split; [done|]. by rewrite (Hpp _ _ eq_refl). }
  2:{ intros e w1 [Hw1 _]. by apply Hstart. }
  intros plan. apply triple_pure. intros Hplan.
  eapply triple_bind; [apply report_or_clean_up| |done]. intros ?.
  eapply triple_bind; [by apply create_directories_inv| |done]. intros [g created].
  eapply triple_bind; [by apply write_files_inv| |done]. clear g created. intros [g created].
  eapply triple_bind; [apply (or_clean_up_inv f0 created g _ (fun _ w1 => created_inv f0 created (w_fs w1)))| |done].
  { apply triple_zoom. intros w1 Hw1 f ->. pose proof (apply_directories_inv f0 created
      (filter is_dir_entry (reverse (mp_entries plan))) (w_fs w1) Hw1) as Ha.
    by destruct (apply_directories _ _ _) as [f' [u|e]]. }
  intros ?.
  eapply triple_bind; [apply (or_clean_up_inv f0 created g _ (fun _ w1 => created_inv f0 created (w_fs w1)))| |done].
  { eapply triple_conseq; [apply (unseen_keeps f0 _ created), unseen_mark|done|by intros [] w1]. }
  intros u. apply triple_ret. by intros w1 [].
Qed.

(** The client cancels after two directories: nothing is left of them. *)
Lemma materialize_restores_on_failure_witness :
  let '(w', r) := sample_materialize 2 in
  match r with
  | Ok _ => False
  | Err e => oe_status e = Cancelled /\ (forall p, fs_at (w_fs w') p = fs_at sample_fs p) /\
      mg_directories_created <$> oe_progress e = Some 2
  end.
Proof.
  assert (Hr : (fun r => match r with Err e => (oe_status e, mg_directories_created <$> oe_progress e) | Ok _ => (StatusOk, None) end)
    (sample_materialize 2).2 = (Cancelled, Some 2)) by (vm_compute; reflexivity).
  pose proof (@materialize_restores_on_failure ModelFs nat _ _ _ (routed sample_answers) 7 patient
    (sample_request_body FailBody) (sample_world 2) ltac:(discriminate)) as H.
  unfold sample_materialize in *. destruct (materialize_node_in_state _ _ _ _) as [w' [c|e]]; cbn in Hr; [discriminate Hr|].
  injection Hr as Hr1 Hr2. split; [exact Hr1|]. split; [|exact Hr2]. apply H. reflexivity.
Defined.
