(* ===== verification/MaterializeCorrect.v ===== *)
(** * Materialization copies the subtree

    What a successful [materialize_node_in_state] has done, under the policies
    that do not overwrite: every node of the subtree is at its place in the file
    system with its kind, permissions, modification time and bytes; the counters
    say so; and the nodes are marked as materialized.

    The bytes are right because the provider's answers, the read cache and files
    materialized earlier are ([content] gives the bytes of each file). *)

From S2P Require Import Prelude Types Paths Cache Tree Runtime ReadPlan Messages Mount IpcState Routing Router Content FuseAdapter Effect Fs Materialize ModelFs MaterializeSample MaterializeSafety.

Lemma extends_view {F} `{!FsView F} (f0 f f' : F) : extends f0 f -> same_view f f' -> extends f0 f'.
Proof.
  intros [E1 E2] (Ha & Ho & _). split.
  - intros p i Hi. rewrite Ha. by apply E1.
  - intros i o Hi. rewrite Ho. by apply E2.
Qed.

Lemma extends_trans {F} `{!FsView F} (f0 f f' : F) : extends f0 f -> extends f f' -> extends f0 f'.
Proof.
  intros [E1 E2] [E1' E2']. split; [by auto|]. intros i o Hi.
  destruct (E2 i o Hi) as (o1 & Ho1 & Hs1). destruct (E2' i o1 Ho1) as (o2 & Ho2 & Hs2).
  exists o2. split; [done|by eapply same_object_trans].
Qed.

(** ** Finished entries *)

Section objects.
Context (content : CacheKey -> Z -> option byte).
Context {F C : Type} `{!FileSystem F, !FsView F, !FileSystemOk F}.
Context (f0 : F) (pid : str).
Implicit Types (w : World F C) (e : MaterializeEntryPlan).

Definition entry_of (n : PromiseNode) e : Prop :=
  me_relative_path e = pn_relative_path n /\ me_kind e = pn_kind n /\ me_size e = attr_size (pn_attr n) /\
  me_mode e = attr_mode (pn_attr n) /\ me_mtime_nsec e = attr_mtime_nsec (pn_attr n).

Definition entry_key e : CacheKey := mkCacheKey pid (me_relative_path e).

Lemma changes_extends f f' id Q : changes_object id Q f f' -> fs_obj f0 id = None -> extends f0 f -> extends f0 f'.
Proof.
  intros (Ha & _ & Ho & _) Hnew [E1 E2]. split.
  - intros p i Hi. rewrite Ha. by apply E1.
  - intros i o Hi. rewrite Ho by congruence. by apply E2.
Qed.

(** A finished entry: the object [id] is what the node promises. *)
Definition timespec_nsec (t : Timespec) : Z := tv_sec t * 1000000000 + tv_nsec t.

Definition copied (f : F) e (id : FileIdentity) : Prop := exists o,
  fs_obj f id = Some o /\
  fo_kind o = match me_kind e with File => FsFile | Directory => FsDirectory end /\
  fo_mode o = Z.land (me_mode e) 4095 /\ timespec_nsec (fo_mtime o) = me_mtime_nsec e /\
  (me_kind e = File -> len (fo_bytes o) = me_size e /\ bytes_sound content (entry_key e) 0 (fo_bytes o)).

Lemma copied_view f f' e id : same_view f f' -> copied f e id -> copied f' e id.
Proof. intros (_ & Ho & _) (o & H). exists o. by rewrite Ho. Qed.

(** Later targets leave a finished file alone. *)
Lemma copied_extends f f' e id : extends f f' -> me_kind e = File -> copied f e id -> copied f' e id.
Proof.
  intros [_ E] Hk (o & Ho & H1 & H2 & H3 & H4). destruct (E _ _ Ho) as (o' & Ho' & S1 & S2 & S3 & S4).
  rewrite Hk in H1. exists o'. rewrite Hk, S1, S2, S3, S4, H1 by congruence. split_and!; auto.
Qed.

(** Permissions and times of an open file or directory. *)
Lemma apply_attributes_run e id f f1 f2 o :
  fs_obj f id = Some o ->
  fs_call (file_set_permissions id (Z.land (me_mode e) 4095)) f = (f1, Ok tt) ->
  apply_mtime id (me_mtime_nsec e) f1 = (f2, Ok tt) ->
  changes_object id (fun a b => fo_kind b = fo_kind a /\ fo_bytes b = fo_bytes a /\
    fo_mode b = Z.land (me_mode e) 4095 /\ timespec_nsec (fo_mtime b) = me_mtime_nsec e) f f2.
Proof.
  intros Ho H1%map_error_run H2%map_error_run.
  pose proof (file_set_permissions_ok f id (Z.land (me_mode e) 4095)) as C1. rewrite H1 in C1.
  pose proof (futimens_ok f1 id (mkTimespec (Z.quot (me_mtime_nsec e) 1000000000) (Z.rem (me_mtime_nsec e) 1000000000))
    (timespec_bound _)) as C2. rewrite H2 in C2. destruct C2 as [C2 _].
  destruct C1 as (A1 & B1 & D1 & E1 & G1 & R1), C2 as (A2 & B2 & D2 & E2 & G2 & R2). split_and!.
  - intros p. by rewrite A2.
  - intros i. by rewrite B2.
  - intros i Hi. rewrite D2 by done. by apply D1.
  - rewrite Ho in E1 |- *. inversion E1 as [x y Hy Hx Hy'|]; subst. rewrite <- Hy' in E2.
    inversion E2 as [x' z Hz Hx' Hz'|]; subst. constructor. cbn. split_and!; [done..|].
    unfold timespec_nsec. cbn. rewrite (Z.quot_rem' (me_mtime_nsec e) 1000000000) at 3. lia.
  - auto.
  - auto.
Qed.

(** *** Directories *)

Definition dir_target e t : Prop := ct_path t = me_target_path e /\ ct_kind t = TargetDirectory.

Lemma apply_directory_run created e t expected f f' :
  created_inv f0 created f -> t ∈ created -> dir_target e t -> is_dir_entry e ->
  apply_directory_metadata e expected f = (f', Ok tt) ->
  copied f' e (ct_identity t) /\ (forall i, i <> ct_identity t -> fs_obj f' i = fs_obj f i).
Proof.
  intros Hinv Hin [Hpath Hk] He Hrun. pose proof (ci_there _ _ _ Hinv) as T. rewrite Forall_forall in T.
  destruct (T t Hin) as (Hat & _ & o & Ho & Hko). unfold target_kind in Hko. rewrite Hk in Hko. rewrite Hpath in Hat.
  unfold apply_directory_metadata in Hrun. apply bind_run in Hrun as (f1 & d & Hopen%map_error_run & Hrun).
  apply bind_run in Hrun as (f2 & m & Hm%map_error_run & Hrun). case_decide; [done|].
  apply bind_run in Hrun as (f3 & [] & Hp & Hrun).
  pose proof (open_file_ok f (me_target_path e)) as Hof. rewrite Hopen in Hof. destruct Hof as [(_ & V1 & _) Hid].
  rewrite (Hid _ _ Hat Ho ltac:(congruence)) in *.
  pose proof (view_file_metadata (ct_identity t) f1) as V2. rewrite Hm in V2. destruct V2 as (_ & V2 & _). cbn in V2.
  assert (Ho2 : fs_obj f2 (ct_identity t) = Some o) by by rewrite V2, V1.
  pose proof (apply_attributes_run e _ _ _ _ _ Ho2 Hp Hrun) as (_ & _ & Hother & Hch & _). split.
  - rewrite Ho2 in Hch. inversion Hch as [x o' (A1 & A2 & A3 & A4) Hx Hy|]; subst.
    exists o'. unfold is_dir_entry in He. rewrite He, A1. by split_and!.
  - intros i Hi. by rewrite Hother, V2, V1.
Qed.

Lemma apply_directories_run created es ts f f' :
  created_inv f0 created f -> Forall2 dir_target es ts -> Forall is_dir_entry es -> ts ⊆ created ->
  NoDup (ct_identity <$> ts) -> apply_directories created es f = (f', Ok tt) ->
  Forall2 (fun e t => dir_target e t /\ copied f' e (ct_identity t)) es ts /\
  (forall i, i ∉ ct_identity <$> ts -> fs_obj f' i = fs_obj f i).
Proof.
  intros Hinv Hts. revert f Hinv. induction Hts as [|e t es ts He Hts IH]; intros f Hinv Hdir Hsub Hnd Hrun.
  { injection Hrun as <-. split; [constructor|done]. }
  apply Forall_cons in Hdir as [Hde Hdir]. apply NoDup_cons in Hnd as [Hnew Hnd].
  unfold apply_directories in Hrun. cbn [for_each] in Hrun. apply bind_run in Hrun as (f1 & [] & H1 & Hrun).
  destruct (find_created created e) as [t0|] eqn:Hfc; [|done]. apply find_created_in in Hfc as [Ht0 _].
  pose proof (apply_directory_metadata_inv f0 created e t0 f Ht0 Hinv) as Hinv1. rewrite H1 in Hinv1.
  apply (apply_directory_run created e t) in H1 as [Hcop Hother]; [|done|apply Hsub; by left|done..].
  destruct (IH f1 Hinv1 Hdir) as [Hrest Hother']; [set_solver|done|exact Hrun|]. split.
  - constructor; [|done]. split; [done|]. destruct Hcop as (o & Ho & H). exists o. by rewrite Hother'.
  - intros i Hi. rewrite Hother' by set_solver. apply Hother. set_solver.
Qed.

(** Marking sets the materialized path of the listed nodes, nothing else. *)
Definition marked (entries : list MaterializeEntryPlan) (ps ps' : gmap str PromiseTree) : Prop :=
  (forall pid', pid' <> pid -> ps' !! pid' = ps !! pid') /\
  option_Forall2 (fun t t' =>
    pt_promise_id t' = pt_promise_id t /\ pt_provider_id t' = pt_provider_id t /\ pt_state t' = pt_state t /\
    pt_children t' = pt_children t /\
    (forall e, e ∈ entries -> exists n, pt_nodes t !! me_relative_path e = Some n /\
       pt_nodes t' !! me_relative_path e = Some (with_materialized_path n (me_target_path e))) /\
    (forall p, p ∉ me_relative_path <$> entries -> pt_nodes t' !! p = pt_nodes t !! p))
    (ps !! pid) (ps' !! pid).

Lemma mark_run entries w w' :
  Forall (fun e => safe_path (me_relative_path e)) entries -> NoDup (me_relative_path <$> entries) ->
  mark_materialized pid entries w = (w', Ok tt) ->
  w_fs w' = w_fs w /\ marked entries (rt_promises (st_runtime (w_ipc w))) (rt_promises (st_runtime (w_ipc w'))).
Proof.
  intros Hsafe. revert w. induction Hsafe as [|e es He Hes IH]; intros w Hnd Hrun; unfold mark_materialized in Hrun; cbn [for_each] in Hrun.
  { injection Hrun as <-. split; [done|]. split; [done|]. destruct (_ !! pid); constructor. split_and!; try done. by intros e ?%not_elem_of_nil. }
  apply NoDup_cons in Hnd as [Hnew Hnd]. apply bind_run in Hrun as (w1 & [] & H1 & Hrun).
  pose proof (mark_node_materialized_cases (st_runtime (w_ipc w)) pid (me_relative_path e) (me_target_path e)) as Hm.
  destruct (Runtime_mark_node_materialized _ _ _ _) as [rt r]. injection H1 as <- ->.
  destruct Hm as [[_ ?]|(p & t & n & Hp & Ht & Hn & _ & _ & ->)]; [done|].
  rewrite normalize_safe_id in Hp by done. injection Hp as <-.
  destruct (IH _ Hnd Hrun) as [Hf [Hother Hpid]]. split; [done|]. cbn in Hother, Hpid. rewrite lookup_insert_eq in Hpid.
  split; [intros; rewrite Hother by done; by apply lookup_insert_ne|].
  rewrite Ht. inversion Hpid as [x t' (A1 & A2 & A3 & A4 & A5 & A6) Hx Hy|]; subst. constructor.
  cbn in A5, A6. split_and!; try done.
  - intros e' [->|He']%elem_of_cons.
    + exists n. split; [done|]. by rewrite A6, lookup_insert_eq by done.
    + destruct (A5 e' He') as (n' & Hn' & Hn''). exists n'. split; [|done].
      rewrite <- Hn'. symmetry. apply lookup_insert_ne. intros Heq. apply Hnew. rewrite Heq. by apply list_elem_of_fmap_2.
  - intros p Hp. rewrite fmap_cons, not_elem_of_cons in Hp. destruct Hp as [Hp1 Hp2].
    rewrite A6 by done. by apply lookup_insert_ne.
Qed.
End objects.

(** ** Reading *)

Section reading.
Context (content : CacheKey -> Z -> option byte).
Context {F C : Type} `{!FileSystem F, !FsView F, !FileSystemOk F, Hrouter : !Router}.
Context (inv : IpcState -> Prop) (budget : Z) (Hbudget : 0 <= budget).
Context `{Hrok : !RouterOk inv (fun op => op_good content op /\ op_quiet op) budget}.
Context (Hhonest : provider_honest content).
Context (f0 : F) (pid : str) (nodes : gmap str PromiseNode).
Implicit Types (w : World F C) (e : MaterializeEntryPlan).

(** What is read from [path], now or later, is the file's content. *)
Definition local_honest (key : CacheKey) (path : str) : Prop :=
  forall f offset length bytes, extends f0 f ->
    (read_local_materialized_chunk path offset length f).2 = Ok bytes -> bytes_sound content key offset bytes.

Context (Hlocal : forall p n path, nodes !! p = Some n -> pn_materialized_path n = Some path ->
  local_honest (mkCacheKey pid p) path).

(** The state between two provider reads; [k] more are possible. *)
Record copying (k : Z) w : Prop := {
  cp_ready : ready content inv budget k (w_ipc w);
  cp_promise : exists t, rt_promises (st_runtime (w_ipc w)) !! pid = Some t /\ pt_nodes t = nodes;
  cp_fs : extends f0 (w_fs w);
}.

Lemma copying_view k w w' :
  copying k w -> w_ipc w' = w_ipc w -> same_view (w_fs w) (w_fs w') -> copying k w'.
Proof. intros [Hr Hp Hf] Hi Hv. split; rewrite ?Hi; [done..|by eapply extends_view]. Qed.

Lemma copying_file k w e n :
  copying k w -> nodes !! pn_relative_path n = Some n -> entry_of n e -> pn_kind n = File ->
  exists t, pt_nodes t = nodes /\ file_of (st_runtime (w_ipc w)) pid (me_relative_path e) t n.
Proof.
  intros [Hr (t & Ht & Hn) _] Hin (He & _) Hk. exists t. split; [done|]. split_and!; [done| |done].
  pose proof (rs_wf _ _ (rd_sound _ _ _ _ _ Hr)) as Hwf. destruct (rw_tree _ Hwf _ _ Ht) as [Htw _].
  rewrite Hn in Htw. destruct (twf_path _ _ Htw _ _ Hin) as [_ Hs].
  unfold PromiseTree_get. by rewrite He, normalize_safe_id, Hn.
Qed.

Lemma provider_chunk_run k plan w w' bytes :
  copying (k + 1) w -> 0 <= k -> 0 <= prp_length plan ->
  read_materialize_provider_chunk plan w = (w', Ok bytes) ->
  copying k w' /\ same_view (w_fs w) (w_fs w') /\ len bytes <= prp_length plan /\
  bytes_sound content (mkCacheKey (prp_promise_id plan) (prp_relative_path plan)) (prp_offset plan) bytes.
Proof.
  intros [[Hs Hi Hid Hp Hq] (t & Ht & Hn) Hf] Hk Hl. unfold read_materialize_provider_chunk.
  set (r0 := mkProviderReadRequest 0 (prp_provider_id plan) (prp_promise_id plan) (prp_relative_path plan)
               (prp_provider_node_id plan) (prp_offset plan) (prp_length plan)).
  pose proof (router_call (w_ipc w) r0 Hi Hl ltac:(lia)) as Hcall. cbv zeta in Hcall.
  destruct (next_provider_read_request_id (w_ipc w)) as [s1 id]. cbn [fst snd] in Hcall.
  change (mkProviderReadRequest id _ _ _ _ _ _) with (with_request_id r0 id).
  destruct (router_read s1 (with_request_id r0 id)) as [s2 x] eqn:Hx.
  destruct Hcall as (Hi' & Hans & Hnext & ops & Hops & Hlen & Hrt).
  intros [= <- Hr]. apply bind_Ok in Hr as (response & Hresp%map_err_Ok & Hr). subst x.
  case_decide as Hst; [|done]. injection Hr as <-.
  apply Forall_and in Hops as [Hgood Hquiet].
  assert (Hids : ids_left (st_runtime (w_ipc w)) ops) by (unfold ids_left; lia).
  destruct (run_ops_sound content _ ops Hs Hids Hgood) as (Hs' & _ & H1 & H2).
  destruct (run_ops_quiet (st_runtime (w_ipc w)) ops pid t (rs_wf _ _ Hs) Hids) as (t' & Ht' & Hn');
    [eapply Forall_impl; [exact Hgood|by intros ? []]|done..|].
  rewrite <- Hrt in Hs', H1, H2, Ht'. split; [|split; [apply same_view_refl|split]].
  - split; cbn; [split; (done || lia)|exists t'; split; [done|congruence]|done].
  - destruct (Hans _ eq_refl) as (_ & _ & _ & H & _). by apply H.
  - exact (Hhonest _ _ _ _ Hx (Hans _ eq_refl) Hst).
Qed.

(** Each chunk is a piece of the file, no longer than asked. *)
Lemma read_chunk_run k e n offset w w' bytes :
  nodes !! pn_relative_path n = Some n -> entry_of n e -> pn_kind n = File -> 0 <= offset < me_size e ->
  copying (k + 1) w -> 0 <= k ->
  read_materialize_chunk pid e offset (Z.min (me_size e - offset) MAX_PROVIDER_READ_LEN) w = (w', Ok bytes) ->
  copying k w' /\ same_view (w_fs w) (w_fs w') /\ offset + len bytes <= me_size e /\
  bytes_sound content (entry_key pid e) offset bytes.
Proof.
  intros Hin He Hk Hoff Hc Hk0 Hrun.
  destruct (copying_file _ _ _ _ Hc Hin He Hk) as (t & Hn & Hf). pose proof He as (Hrel & _ & Hsize & _).
  pose proof (cp_ready _ _ Hc) as Hr. pose proof (rd_sound _ _ _ _ _ Hr) as Hs. pose proof (rs_wf _ _ Hs) as Hwf.
  destruct (file_of_canonical _ _ _ _ _ Hwf Hf) as (_ & _ & _ & [_ Hmax]).
  set (L := Z.min (me_size e - offset) MAX_PROVIDER_READ_LEN) in *.
  assert (HL : 0 < L /\ offset + L <= me_size e /\ in_u32 L) by (unfold L, in_u32, MAX_PROVIDER_READ_LEN, u32_max; lia).
  destruct HL as (HL0 & HL1 & HL2).
  assert (Hclamp : clamp (attr_size (pn_attr n)) offset L = L) by (unfold clamp; lia).
  unfold read_materialize_chunk in Hrun. apply bind_run in Hrun as (w1 & s & [= <- <-] & Hrun).
  rewrite (plan_provider_read_file _ _ _ _ _ _ _ Hwf Hf) in Hrun by (done || lia).
  rewrite (proj2 (Z.eqb_neq L 0)), (proj2 (Z.leb_gt _ offset)) in Hrun by lia. cbn [orb] in Hrun.
  case_decide as Hav.
  - apply bind_run in Hrun as (w1 & plan & [= <- <-] & Hrun).
    apply (provider_chunk_run k) in Hrun as (H1 & H2 & H3 & H4); [|done|lia|cbn; lia].
    cbn in H3, H4. rewrite Hclamp in H3. split; [done|]. split; [done|]. split; [lia|].
    unfold entry_key. by rewrite Hrel.
  - apply bind_run in Hrun as (w1 & plan & [= <- <-] & Hrun). apply bind_run in Hrun as (w1 & s & [= <- <-] & Hrun).
    rewrite (plan_read_file _ _ _ _ _ _ _ Hwf Hf) in Hrun by (done || lia). cbv zeta in Hrun. rewrite Hclamp in Hrun.
    rewrite (proj2 (Z.eqb_neq L 0)) in Hrun by lia.
    assert (Hc' : copying k w).
    { destruct Hc as [[? ? ? ? ?] ? ?]. split; [split; (done || lia)|done..]. }
    destruct (pn_materialized_path n) as [mp|] eqn:Hmp.
    + apply bind_run in Hrun as (w1 & rp & [-> [= <-]]%lift_run & Hrun). cbn in Hrun.
      apply zoom_run in Hrun as (f' & Hrun & ->).
      pose proof (view_read_local mp offset L (w_fs w)) as Hv. rewrite Hrun in Hv. cbn [fst] in Hv.
      assert (Hb : len bytes = L).
      { unfold read_local_materialized_chunk in Hrun. inv_run Hrun.
        destruct (Z.eqb_spec (len a0) L); [|done]. by injection Hrun as _ <-. }
      split; [by eapply copying_view|]. split; [done|]. split; [lia|].
      unfold entry_key. rewrite Hrel. eapply (Hlocal _ _ _ Hin Hmp (w_fs w) offset L); [apply Hc|]. by rewrite Hrun.
    + rewrite decide_False in Hrun by done. destruct (CachePolicy_chunk_size (rt_cache_policy (st_runtime (w_ipc w)))) as [cs|] eqn:Hcs; cbn in Hrun;
        [|by apply bind_run in Hrun as (w1 & rp & [_ ?]%lift_run & _)].
      destruct (ReadCache_read _ _ _ _ _ _) as [b|] eqn:Hread;
        [|by apply bind_run in Hrun as (w1 & rp & [_ ?]%lift_run & _)].
      apply bind_run in Hrun as (w1 & rp & [-> [= <-]]%lift_run & Hrun). injection Hrun as <- <-.
      apply CachePolicy_chunk_size_pos in Hcs as [Hcs _].
      apply (cache_read_sound content) in Hread as [Hb Hsound]; [|apply Hwf|apply Hs|done|lia|lia|lia].
      split; [done|]. split; [apply same_view_refl|]. split; [lia|]. unfold entry_key. by rewrite Hrel.
Qed.

(** ** Writing one file *)

Lemma copying_weaken k k' w : copying k w -> k' <= k -> copying k' w.
Proof. intros [Hr Hp Hf] Hk. split; [by eapply ready_weaken|done..]. Qed.

(** The open file [id] holds the first bytes of the file, and nobody else's. *)
Definition written e (f : F) (id : FileIdentity) (offset : Z) : Prop :=
  fs_obj f0 id = None /\ exists o, fs_obj f id = Some o /\ fo_kind o = FsFile /\ len (fo_bytes o) = offset /\
    bytes_sound content (entry_key pid e) 0 (fo_bytes o).

Lemma written_view e f f' id offset : same_view f f' -> written e f id offset -> written e f' id offset.
Proof. intros (_ & Ho & _) (Hnew & o & H). split; [done|]. exists o. by rewrite Ho. Qed.

Lemma bytes_sound_append key a b :
  bytes_sound content key 0 a -> bytes_sound content key (len a) b -> bytes_sound content key 0 (a ++ b).
Proof.
  intros Ha Hb i x Hi. pose proof (zlookup_Some _ _ _ Hi). rewrite zlookup_app in Hi by lia. destruct (Z.ltb_spec i (len a)).
  - by apply Ha.
  - apply Hb in Hi. rewrite <- Hi. f_equal. lia.
Qed.

Definition silent (rep : Z -> M (World F C) Status ()) : Prop :=
  forall n w w', rep n w = (w', Ok tt) -> w_ipc w' = w_ipc w /\ w_fs w' = w_fs w.

Lemma write_loop_run e n fuel k id t rep offset w w' offset' :
  nodes !! pn_relative_path n = Some n -> entry_of n e -> pn_kind n = File -> silent rep ->
  (Z.to_nat (me_size e - offset) < fuel)%nat -> 0 <= offset <= me_size e -> 0 <= k ->
  copying (k + (me_size e - offset)) w -> written e (w_fs w) id offset ->
  write_loop fuel pid e id t rep offset w = (w', Ok offset') ->
  offset' = me_size e /\ copying k w' /\ written e (w_fs w') id (me_size e).
Proof.
  intros Hin He Hkind Hrep. revert offset w. induction fuel as [|fuel IH]; intros offset w Hfuel Hoff Hk Hc Hw; [lia|].
  cbn [write_loop]. destruct (Z.ltb_spec offset (me_size e)) as [Hlt|Hge].
  2:{ intros [= <- <-]. assert (offset = me_size e) as -> by lia. split_and!; [done| |done..].
      eapply copying_weaken; [exact Hc|lia]. }
  intros Hrun. apply bind_run in Hrun as (w1 & bytes & Hread%map_error_run & Hrun).
  eapply (read_chunk_run (k + (me_size e - offset) - 1)) in Hread as (Hc1 & Hv1 & Hlen & Hb);
    [|exact Hin|exact He|exact Hkind|lia|by rewrite Z.sub_add|lia].
  apply (written_view _ _ _ _ _ Hv1) in Hw. case_decide as Hne; [done|].
  assert (Hpos : 0 < len bytes) by by apply len_pos.
  apply bind_run in Hrun as (w2 & [] & Hwr%map_error_run & Hrun). apply zoom_run in Hwr as (f2 & Hwr & ->).
  pose proof (file_write_all_ok (w_fs w1) id bytes) as Hch. rewrite Hwr in Hch.
  destruct Hw as (Hnew & o & Ho & Hk1 & Hl & Hs).
  assert (Hw2 : written e f2 id (offset + len bytes)).
  { split; [done|]. destruct Hch as (_ & _ & _ & Hid & _). rewrite Ho in Hid.
    inversion Hid as [x o2 (Hk2 & _ & Hbytes) Hx Hy|]; subst. exists o2. split_and!; [done|congruence| |].
    - rewrite Hbytes, len_app. lia.
    - rewrite Hbytes. by apply bytes_sound_append. }
  destruct (checked_add offset (len bytes)) as [off2|] eqn:Hadd; [|done].
  apply checked_add_Some in Hadd as [-> _].
  apply bind_run in Hrun as (w3 & [] & Hr%map_error_run & Hrun). apply Hrep in Hr as [Hi3 Hf3].
  cbn in Hi3, Hf3. eapply IH in Hrun; [exact Hrun|lia|lia|lia| |by rewrite Hf3].
  apply (copying_weaken (k + (me_size e - offset) - 1)); [|lia].
  destruct Hc1 as [H1 H2 H3]. split; rewrite ?Hi3, ?Hf3; [done..|]. by eapply changes_extends.
Qed.

Context (process_id : Z) (report_progress : C -> MaterializeProgress -> C * Result ()).
Context (policy : MaterializeConflictPolicy) (Hpolicy : policy <> PolicyOverwrite).

Lemma open_materialized_file_run e w w' target :
  extends f0 (w_fs w) -> open_materialized_file process_id e policy w = (w', Ok target) ->
  w_ipc w' = w_ipc w /\ extends f0 (w_fs w') /\ target_ok e target /\ written e (w_fs w') (mt_file target) 0.
Proof.
  intros Hext Hrun. pose proof (open_materialized_file_inv process_id (w_fs w) policy Hpolicy [] e w (created_inv_start _)) as Hinv.
  rewrite Hrun in Hinv. destruct Hinv as [Hinv Hok]. pose proof (ci_extends _ _ _ Hinv) as Hext'.
  assert (Hex : extends f0 (w_fs w')) by by eapply extends_trans.
  unfold open_materialized_file in Hrun. apply bind_run in Hrun as (w1 & md & Hmd & Hrun).
  apply zoom_run in Hmd as (f1 & Hmd & ->). apply try_run in Hmd. apply bind_run in Hrun as (w2 & ex & Hx & Hrun).
  assert (w2 = set_w_fs f1 w) as ->.
  { destruct md as [m|err]; [|case_decide; [by injection Hx as <-|done]].
    apply bind_run in Hx as (w3 & [] & [-> _]%lift_run & [= <- _]). done. }
  assert (Hopen : on_fs (open_final_materialized_file e true) (set_w_fs f1 w) = (w', Ok target)) by by destruct policy.
  apply zoom_run in Hopen as (f2 & Hopen & ->). cbn in Hopen |- *.
  split; [done|]. split; [exact Hex|]. split; [exact Hok|].
  apply bind_run in Hopen as (f3 & [file identity] & Hout & [= -> <-]). clear Hrun. cbn in Hout |- *.
  apply bind_run in Hout as (f4 & id & Hnew%map_error_run%map_error_run & Hout).
  apply bind_run in Hout as (f5 & m & Hm%map_error_run%map_error_run & [= <- <- _]).
  pose proof (open_new_ok f1 (me_target_path e) 384) as Hc. rewrite Hnew in Hc. destruct Hc as (o & Hc & Hk & Hb).
  pose proof (symlink_metadata_ok (w_fs w) (me_target_path e)) as Hv1. rewrite Hmd in Hv1. destruct Hv1 as [Hv1 _].
  pose proof (view_file_metadata id f4) as Hv5. rewrite Hm in Hv5. cbn in Hv5.
  split; [eapply creates_fresh; [exact Hc|exact (extends_view _ _ _ Hext Hv1)]|].
  destruct Hc as (_ & _ & _ & Ho & _). exists o. destruct Hv5 as (_ & Hv5 & _). rewrite Hv5, Hb.
  split_and!; [done..|]. intros i b Hi. pose proof (zlookup_Some _ _ _ Hi) as Hr. unfold len in Hr. cbn in Hr. lia.
Qed.

Lemma write_file_run e n k rep w w' outcome :
  nodes !! pn_relative_path n = Some n -> entry_of n e -> pn_kind n = File -> silent rep -> 0 <= k ->
  copying (k + me_size e) w -> 0 <= me_size e ->
  write_materialized_file process_id pid e policy rep w = (w', Ok outcome) ->
  copying k w' /\ fo_bytes_written outcome = me_size e /\ ct_path (fo_target outcome) = me_target_path e /\
  ct_kind (fo_target outcome) = TargetFile /\ copied content pid (w_fs w') e (ct_identity (fo_target outcome)).
Proof.
  intros Hin He Hkind Hrep Hk Hc Hsz Hrun. unfold write_materialized_file in Hrun.
  apply bind_run in Hrun as (w1 & target & Hopen & Hrun).
  apply open_materialized_file_run in Hopen as (Hi1 & Hf1 & (Hfile & Hrepl & Hpath & Hrm & Hpath' & Hk1) & Hw1); [|apply Hc].
  apply bind_run in Hrun as (w2 & offset & Hloop & Hrun).
  apply (write_loop_run e n _ k) in Hloop as (-> & Hc2 & Hw2); try done; [|rewrite Z.sub_0_r; lia|].
  2:{ rewrite Z.sub_0_r. destruct Hc as [H1 H2 _]. split; rewrite ?Hi1; done. }
  apply bind_run in Hrun as (w3 & [] & Hp%map_error_run & Hrun). apply zoom_run in Hp as (f3 & Hp & ->).
  apply bind_run in Hrun as (w4 & [] & Ht%map_error_run & Hrun). apply zoom_run in Ht as (f4 & Ht & ->).
  cbn in Ht. rewrite Hrepl in Hrun. cbn in Hrun. injection Hrun as <- <-. cbn.
  destruct Hw2 as (Hnew & o & Ho & Hko & Hlen & Hsound).
  pose proof (apply_attributes_run e _ _ _ _ _ Ho Hp Ht) as Hch.
  split; [destruct Hc2 as [H1 H2 H3]; split; [done..|]; by eapply changes_extends|].
  split_and!; [done|congruence|done|]. rewrite <- Hfile.
  destruct Hch as (_ & _ & _ & Hid & _). rewrite Ho in Hid. inversion Hid as [x o' (A1 & A2 & A3 & A4) Hx Hy|]; subst.
  exists o'. destruct He as (_ & Hke & _). rewrite Hke, Hkind, A2, A1. split_and!; done.
Qed.

(** ** The phases *)

Definition advanced (dirs files bytes : Z) (g : MaterializeProgress) : MaterializeProgress :=
  mkMaterializeProgress (mg_target_path g) (mg_entries_done g + dirs + files) (mg_entries_total g)
    (mg_bytes_written g + bytes) (mg_bytes_total g) (mg_files_written g + files) (mg_files_total g)
    (mg_directories_created g + dirs) (mg_directories_total g).

Lemma advanced_0 g : advanced 0 0 0 g = g.
Proof. destruct g. unfold advanced. cbn. f_equal; lia. Qed.

Lemma report_run g w w' u : report report_progress g w = (w', Ok u) -> w_ipc w' = w_ipc w /\ w_fs w' = w_fs w.
Proof. unfold report. destruct (report_progress _ _). by intros [= <- _]. Qed.

Lemma create_directories_run k entries g created w w' g' created' :
  copying k w -> created_inv f0 created (w_fs w) ->
  create_directories report_progress policy entries g created w = (w', Ok (g', created')) ->
  exists ts, created' = created ++ ts /\ Forall2 dir_target entries ts /\ created_inv f0 created' (w_fs w') /\
    copying k w' /\ w_ipc w' = w_ipc w /\ g' = advanced (len entries) 0 0 g.
Proof.
  revert g created w. induction entries as [|e entries IH]; intros g created w Hc Hinv; cbn [create_directories].
  { intros [= <- <- <-]. exists []. rewrite app_nil_r, len_nil, advanced_0. by split_and!. }
  intros Hrun. apply bind_run in Hrun as (w1 & t & Hcr%on_error_run & Hrun). apply zoom_run in Hcr as (f1 & Hcr & ->).
  apply bind_run in Hrun as (w2 & u & Hrep%on_error_run%report_run & Hrun). destruct Hrep as [Hi2 Hf2]. cbn in Hi2, Hf2.
  pose proof (create_directory_inv f0 policy Hpolicy created e (w_fs w) Hinv) as H1. rewrite Hcr in H1. destruct H1 as [H1 Ht].
  assert (Hrm : ct_remove_on_cleanup t = true).
  { pose proof (ci_new _ _ _ H1) as N. by apply Forall_app in N as [_ [_ ?]%Forall_singleton]. }
  eapply IH in Hrun as (ts & -> & Hts & Hinv' & Hc' & Hi' & ->); [| |by rewrite Hf2].
  2:{ destruct Hc as [A1 A2 A3]. split; rewrite ?Hi2, ?Hf2; [done..|]. by apply H1. }
  exists (t :: ts). rewrite <- app_assoc. split_and!; [done|by constructor|by rewrite <- app_assoc in Hinv'|done|congruence|].
  rewrite Hrm, len_cons. unfold advanced, directory_done. cbn. f_equal; lia.
Qed.

Definition total_bytes (entries : list MaterializeEntryPlan) : Z := foldr (fun e acc => me_size e + acc) 0 entries.

Definition node_entry e : Prop := exists n, nodes !! pn_relative_path n = Some n /\ entry_of n e.

Lemma node_entry_size k w e : copying k w -> node_entry e -> 0 <= me_size e.
Proof.
  intros [Hr (t & Ht & Hn) _] (n & Hin & _ & _ & -> & _).
  destruct (rw_tree _ (rs_wf _ _ (rd_sound _ _ _ _ _ Hr)) _ _ Ht) as [_ Hty]. rewrite Hn in Hty. by apply (Hty _ _ Hin).
Qed.

Lemma total_bytes_nonneg k w entries : copying k w -> Forall node_entry entries -> 0 <= total_bytes entries.
Proof.
  intros Hc. induction 1 as [|e es He Hn IH]; cbn; [done|].
  pose proof (node_entry_size _ _ _ Hc He). unfold total_bytes in IH. lia.
Qed.

Definition file_target f e t : Prop :=
  ct_path t = me_target_path e /\ ct_kind t = TargetFile /\ copied content pid f e (ct_identity t).

Lemma write_files_run k entries g created w w' g' created' :
  Forall node_entry entries -> Forall is_file_entry entries -> 0 <= k -> copying (k + total_bytes entries) w ->
  0 <= mg_bytes_written g -> mg_bytes_written g + total_bytes entries <= u64_max ->
  created_inv f0 created (w_fs w) ->
  write_files process_id report_progress pid policy entries g created w = (w', Ok (g', created')) ->
  exists ts, created' = created ++ ts /\ Forall2 (file_target (w_fs w')) entries ts /\
    created_inv f0 created' (w_fs w') /\ copying k w' /\ extends (w_fs w) (w_fs w') /\
    g' = advanced 0 (len entries) (total_bytes entries) g.
Proof.
  intros Hn Hf Hk. revert g created w. induction Hn as [|e entries He Hn IH]; intros g created w Hc Hg Hmax Hinv; cbn [write_files].
  { intros [= <- <- <-]. exists []. change (total_bytes []) with 0 in *. rewrite Z.add_0_r in Hc.
    split; [by rewrite app_nil_r|]. split; [done|]. split; [done|]. split; [done|]. split; [apply extends_refl|].
    symmetry. apply advanced_0. }
  apply Forall_cons in Hf as [Hfe Hf]. pose proof (node_entry_size _ _ _ Hc He) as Hsz. cbn [total_bytes foldr] in *.
  fold (total_bytes entries) in *. destruct He as (n & Hin & He).
  assert (Hkind : pn_kind n = File) by (destruct He as (_ & <- & _); exact Hfe).
  intros Hrun. apply bind_run in Hrun as (w1 & out & Hw%try_run & Hrun). destruct out as [outcome|err].
  2:{ unfold or_clean_up, on_error in Hrun. cbn in Hrun. done. }
  assert (Hsil : forall n0, unseen (report (F := F) report_progress
    (set_bytes_written (wrapping_add (mg_bytes_written g) n0) g))) by (intros; apply unseen_report).
  pose proof (write_materialized_file_inv process_id f0 policy Hpolicy created pid e _ Hsil w Hinv) as Hinv1.
  pose proof (write_materialized_file_inv process_id (w_fs w) policy Hpolicy [] pid e _ Hsil w (created_inv_start _)) as Hext1.
  rewrite Hw in Hinv1, Hext1. apply ci_extends in Hext1.
  pose proof (total_bytes_nonneg _ _ _ Hc Hn) as Hrest.
  eapply (write_file_run e n (k + total_bytes entries)) in Hw as (Hc1 & Hb & Hpath & Hkd & Hcop); try done;
    [|intros ? ? ? ?; by eapply report_run|lia|by rewrite <- Z.add_assoc, (Z.add_comm _ (me_size e))].
  apply bind_run in Hrun as (w2 & u & Hrep%on_error_run%report_run & Hrun). destruct Hrep as [Hi2 Hf2].
  rewrite Hb, wrapping_add_in in Hrun by lia.
  eapply IH in Hrun as (ts & -> & Hts & Hinv' & Hc' & Hext & ->); [|done|..|by rewrite Hf2]; cbn; [|destruct Hc1; by split; rewrite ?Hi2, ?Hf2|lia|lia].
  rewrite Hf2 in Hext. exists (fo_target outcome :: ts). rewrite <- app_assoc in *. split_and!; try done.
  - constructor; [|done]. split_and!; try done. by eapply copied_extends.
  - by eapply extends_trans.
  - rewrite len_cons. unfold advanced. cbn. f_equal; lia.
Qed.

End reading.

(** ** Planning *)

Section planning.
Context {F C : Type} `{!FileSystem F, !FsView F, !FileSystemOk F}.
Implicit Types (f : F) (w : World F C).

Definition candidate (dir name : str) (kind : NodeKind) (attempt : Z) : str :=
  path_join dir (if attempt =? 0 then name else rename_candidate_name name kind attempt).

(** The target is the node's name in the target directory; under [Rename] it is
    the first free one of the numbered names. *)
Definition target_chosen f (request : MaterializeRequest) (promise_id : str) (root : PromiseNode) (target : str) : Prop :=
  exists name attempt, materialize_target_name promise_id root = Ok name /\ 0 <= attempt < 1024 /\
    target = candidate (mr_target_dir request) name (pn_kind root) attempt /\
    match mr_conflict_policy request with
    | PolicyRename => forall a, 0 <= a < attempt -> is_Some (fs_at f (candidate (mr_target_dir request) name (pn_kind root) a))
    | _ => attempt = 0
    end.

Lemma unique_loop_run n a dir name kind f f' path :
  unique_loop n a dir name kind f = (f', Ok path) ->
  exists b, a <= b < a + Z.of_nat n /\ path = candidate dir name kind b /\
    forall c, a <= c < b -> is_Some (fs_at f (candidate dir name kind c)).
Proof.
  revert a f. induction n as [|n IH]; intros a f; cbn [unique_loop]; [done|].
  intros Hrun. apply bind_run in Hrun as (f1 & md & Hmd & Hrun). apply try_run in Hmd.
  fold (candidate dir name kind a) in Hmd, Hrun.
  pose proof (symlink_metadata_ok f (candidate dir name kind a)) as Hst. rewrite Hmd in Hst. destruct Hst as [(Hat & _) Hst].
  destruct md as [m|err].
  - apply IH in Hrun as (b & Hb & -> & Hc). exists b. split; [lia|]. split; [done|]. intros c Hc'.
    destruct (decide (c = a)) as [->|]; [destruct Hst as [-> _]; by eexists|]. rewrite <- Hat. apply Hc. lia.
  - case_decide; [|done]. injection Hrun as _ <-. exists a. split; [lia|]. split; [done|]. lia.
Qed.

Lemma preflight_run entries policy f f' :
  policy <> PolicyOverwrite -> preflight_materialize_targets entries policy f = (f', Ok tt) ->
  Forall (fun e => fs_at f (me_target_path e) = None) entries.
Proof.
  intros Hp. unfold preflight_materialize_targets. revert f. induction entries as [|e es IH]; intros f Hrun; [constructor|].
  cbn [for_each] in Hrun. apply bind_run in Hrun as (f1 & [] & H1 & Hrun). apply bind_run in H1 as (f2 & md & Hmd & H1).
  apply try_run in Hmd. pose proof (symlink_metadata_ok f (me_target_path e)) as Hst. rewrite Hmd in Hst.
  destruct Hst as [(Hat & _) Hst]. destruct md as [m|err].
  - apply lift_run in H1 as [_ H1]. by destruct (existing_refused policy Hp e m) as [err He]; rewrite He in H1.
  - case_decide as Hnf; [|done]. injection H1 as <-. constructor; [by apply (proj1 Hst)|].
    eapply Forall_impl; [by apply (IH f2)|]. intros x Hx. by rewrite <- Hat.
Qed.

Lemma plan_run request w w' plan promise_id rel t nodes :
  mr_conflict_policy request <> PolicyOverwrite ->
  resolve_visible_path (st_mount_status (w_ipc w)) (mr_source_path request) = Ok (promise_id, rel) ->
  rt_promises (st_runtime (w_ipc w)) !! promise_id = Some t ->
  PromiseTree_subtree_nodes t rel = Some (Ok nodes) ->
  plan_materialize (C := C) request w = (w', Ok plan) ->
  w_ipc w' = w_ipc w /\ mp_promise_id plan = promise_id /\ mp_conflict_policy plan = mr_conflict_policy request /\
  Forall2 (fun n e => plan_entry (mp_target_path plan) rel n = Ok e) nodes (mp_entries plan) /\
  Forall (fun e => fs_at (w_fs w) (me_target_path e) = None) (mp_entries plan) /\
  exists root, head nodes = Some root /\ target_chosen (w_fs w) request promise_id root (mp_target_path plan).
Proof.
  intros Hpol Hres Ht Hsub Hrun. pose proof (plan_policy _ _ _ _ Hrun) as Hpp. unfold plan_materialize in Hrun.
  apply bind_run in Hrun as (w1 & [] & Hdir & Hrun). apply zoom_run in Hdir as (f1 & Hdir & ->).
  pose proof (view_validate_target_dir (mr_target_dir request) (w_fs w)) as V1. rewrite Hdir in V1. cbn in V1.
  apply bind_run in Hrun as (w1 & s & [= <- <-] & Hrun). cbn in Hrun.
  apply bind_run in Hrun as (w1 & [? ?] & [-> Hs]%lift_run & Hrun). rewrite Hres in Hs. injection Hs as <- <-.
  apply bind_run in Hrun as (w1 & ns & [-> Hns]%lift_run & Hrun). unfold plan_nodes, Runtime_promise in Hns.
  rewrite Ht in Hns. cbn in Hns. case_decide; [done|]. rewrite Hsub in Hns. injection Hns as <-.
  apply bind_run in Hrun as (w1 & root & [-> Hroot%ok_or_Ok]%lift_run & Hrun).
  apply bind_run in Hrun as (w1 & name & [-> Hname]%lift_run & Hrun).
  apply bind_run in Hrun as (w1 & target & Htp & Hrun). apply zoom_run in Htp as (f2 & Htp & ->). cbn in Htp.
  apply bind_run in Hrun as (w1 & entries & [-> Hent%collect_Ok]%lift_run & Hrun).
  apply bind_run in Hrun as (w1 & [] & Hpre & [= <- <-]). apply zoom_run in Hpre as (f3 & Hpre & ->). cbn in *.
  assert (V2 : same_view f1 f2).
  { pose proof (view_unique 1024 0 (mr_target_dir request) name (pn_kind root) f1) as V.
    unfold materialize_target_path, unique_materialize_target_path in Htp. case_decide; [by injection Htp as <-|]. by rewrite Htp in V. }
  destruct V1 as (A1 & _), V2 as (A2 & _).
  split_and!; try done.
  - apply preflight_run in Hpre; [|done]. eapply Forall_impl; [exact Hpre|]. intros e He. by rewrite <- A1, <- A2.
  - exists root. split; [done|]. unfold materialize_target_path in Htp. exists name. case_decide as Hr.
    + injection Htp as _ <-. exists 0. split_and!; try done. by destruct (mr_conflict_policy request).
    + destruct (mr_conflict_policy request); try done.
      apply unique_loop_run in Htp as (b & Hb & -> & Hc). exists b. split_and!; try done; try lia.
      intros a Ha. rewrite <- A1. by apply Hc.
Qed.
End planning.

(** ** Sums *)

Definition node_bytes (nodes : list PromiseNode) : Z :=
  foldr (fun n acc => (if decide (pn_kind n = File) then attr_size (pn_attr n) else 0) + acc) 0 nodes.

Section entries.
Context (target rel : str).
Context (nodes : list PromiseNode) (entries : list MaterializeEntryPlan).
Context (Hentries : Forall2 (fun n e => plan_entry target rel n = Ok e) nodes entries).

Lemma plan_entry_of n e : plan_entry target rel n = Ok e -> entry_of n e.
Proof. unfold plan_entry. intros (suffix & _ & [= <-])%bind_Ok. done. Qed.

Lemma entries_bytes : total_bytes (filter is_file_entry entries) = node_bytes nodes.
Proof.
  induction Hentries as [|n e ns es Hn Hes IH]; [done|]. apply plan_entry_of in Hn as (_ & Hk & Hs & _).
  rewrite filter_cons. cbn [node_bytes foldr]. fold (node_bytes ns). rewrite <- IH by done.
  destruct (decide (is_file_entry e)) as [Hf|Hf]; unfold is_file_entry in Hf; rewrite Hk in Hf; case_decide; try done.
  cbn. by rewrite Hs.
Qed.

Lemma entries_paths : me_relative_path <$> entries = pn_relative_path <$> nodes.
Proof.
  induction Hentries as [|n e ns es Hn Hes IH]; [done|]. apply plan_entry_of in Hn as (Hp & _). cbn. by rewrite Hp, IH.
Qed.

Lemma entries_split : len (filter is_dir_entry entries) + len (filter is_file_entry entries) = len entries.
Proof.
  clear Hentries. induction entries as [|e es IH]; [done|]. rewrite !filter_cons.
  destruct (decide (is_dir_entry e)) as [H1|H1], (decide (is_file_entry e)) as [H2|H2]; rewrite ?len_cons; try lia;
    unfold is_dir_entry, is_file_entry in H1, H2; by destruct (me_kind e).
Qed.
End entries.

Lemma u64_sum_total entries :
  (forall e, e ∈ entries -> 0 <= me_size e) -> total_bytes entries <= u64_max ->
  u64_sum (me_size <$> entries) = total_bytes entries.
Proof.
  intros Hpos Hmax. unfold u64_sum.
  assert (H : forall a, 0 <= a -> a + total_bytes entries <= u64_max ->
    foldl wrapping_add a (me_size <$> entries) = a + total_bytes entries); [|apply H; lia].
  clear Hmax. induction entries as [|e es IH]; intros a Ha Hsum; [change (total_bytes []) with 0; cbn; lia|].
  cbn [total_bytes foldr] in *. fold (total_bytes es) in *. cbn. assert (0 <= me_size e) by (apply Hpos; by left).
  assert (0 <= total_bytes es).
  { clear -Hpos. induction es as [|e' es IH]; [done|]. cbn [total_bytes foldr]. fold (total_bytes es).
    assert (0 <= me_size e') by (apply Hpos; by right; left). assert (0 <= total_bytes es); [|lia].
    apply IH. intros x [->|Hx]%elem_of_cons; apply Hpos; [by left|by right; right]. }
  rewrite wrapping_add_in by lia. rewrite IH; [lia| |lia|lia]. intros x Hx. apply Hpos. by right.
Qed.

(** The last phase completes the directories, and with them all entries. *)
Lemma finish_entries {F C} `{!FileSystem F, !FsView F, !FileSystemOk F} content (f0 : F) pid entries ds fs (w : World F C) f' :
  created_inv f0 (ds ++ fs) (w_fs w) -> Forall2 dir_target (filter is_dir_entry entries) ds ->
  Forall2 (file_target content pid (w_fs w)) (filter is_file_entry entries) fs ->
  apply_directories (ds ++ fs) (filter is_dir_entry (reverse entries)) (w_fs w) = (f', Ok tt) ->
  forall e, e ∈ entries -> exists id, fs_at f' (me_target_path e) = Some id /\ copied content pid f' e id.
Proof.
  intros Hinv Hds Hfs Hap.
  pose proof (apply_directories_inv f0 (ds ++ fs) (filter is_dir_entry (reverse entries)) (w_fs w) Hinv) as Hinv'.
  rewrite Hap in Hinv'. cbn [fst] in Hinv'.
  pose proof (ci_nodup _ _ _ Hinv) as Hnd. rewrite fmap_app in Hnd. apply NoDup_app in Hnd as (Hnd & Hdisj & _).
  apply (apply_directories_run content f0 pid (ds ++ fs) _ (reverse ds)) in Hap as [Hdone Hother];
    [|done|rewrite filter_reverse; by apply Forall2_reverse
     |apply Forall_forall; by intros e [? _]%list_elem_of_filter
     |intros x Hx; rewrite elem_of_reverse in Hx; apply elem_of_app; by left|by rewrite reverse_Permutation].
  pose proof (ci_there _ _ _ Hinv') as There. rewrite Forall_forall in There.
  intros e He. destruct (me_kind e) eqn:Hk.
  - assert (He' : e ∈ filter is_file_entry entries) by by apply list_elem_of_filter.
    destruct (Forall2_elem_l _ _ _ _ Hfs He') as (x & Hx & Hpath & _ & o & Ho & Hcop).
    exists (ct_identity x). split; [rewrite <- Hpath; apply There, elem_of_app; by right|].
    exists o. rewrite Hother; [done|]. rewrite fmap_reverse, elem_of_reverse. intros Hin.
    by eapply Hdisj, list_elem_of_fmap_2.
  - assert (He' : e ∈ filter is_dir_entry (reverse entries)) by (apply list_elem_of_filter; by rewrite elem_of_reverse).
    destruct (Forall2_elem_l _ _ _ _ Hdone He') as (x & Hx & [Hpath _] & Hcop).
    rewrite elem_of_reverse in Hx. exists (ct_identity x). split; [rewrite <- Hpath; apply There, elem_of_app; by left|done].
Qed.

(** The counters at the end. *)
Lemma final_counters target entries total :
  (forall e, e ∈ filter is_file_entry entries -> 0 <= me_size e) ->
  total_bytes (filter is_file_entry entries) = total -> total <= u64_max ->
  progress_counters (advanced 0 (len (filter is_file_entry entries)) (total_bytes (filter is_file_entry entries))
    (advanced (len (filter is_dir_entry entries)) 0 0 (MaterializeProgress_new target entries))) =
  mkMaterializeCounters (to_string_lossy target) (len entries) (len entries) total total
    (len (filter is_file_entry entries)) (len (filter is_file_entry entries))
    (len (filter is_dir_entry entries)) (len (filter is_dir_entry entries)).
Proof.
  intros Hpos Htot Hmax. pose proof (entries_split entries) as Hsplit.
  unfold progress_counters, advanced, MaterializeProgress_new. cbn [mg_target_path mg_entries_done mg_entries_total
    mg_bytes_written mg_bytes_total mg_files_written mg_files_total mg_directories_created mg_directories_total].
  rewrite u64_sum_total by (done || lia). f_equal; lia.
Qed.

(** ** Properties *)

Lemma request_policy body request :
  MaterializeRequest_from_body body = Ok request -> mb_conflict_policy body <> OverwriteBody ->
  mr_conflict_policy request <> PolicyOverwrite /\ mr_source_path request = mb_source_path body.
Proof.
  unfold MaterializeRequest_from_body. case_decide; [done|]. intros [= <-] Hbody. cbn.
  split; [by destruct (mb_conflict_policy body)|done].
Qed.

(** The entries of a plan are nodes of the tree. *)
Lemma plan_node_entries t target rel nodes entries :
  (forall n, n ∈ nodes -> pt_nodes t !! pn_relative_path n = Some n) ->
  Forall2 (fun n e => plan_entry target rel n = Ok e) nodes entries -> Forall (node_entry (pt_nodes t)) entries.
Proof.
  intros Hn Hent. apply Forall_forall. intros e He. destruct (Forall2_elem_r _ _ _ _ Hent He) as (n & Hin & Hp).
  exists n. split; [by apply Hn|by eapply plan_entry_of].
Qed.

(** C4: a successful materialization that must not overwrite has copied the
    whole subtree.  Suppose that the source path resolves to the node [rel] of
    the promise [pid], whose subtree is [nodes]; that providers answer with
    pieces of the promised bytes, possibly short ones; that the read cache and
    files materialized earlier hold promised bytes; that no other thread marks
    nodes as materialized meanwhile; and that request ids suffice for a read per
    byte.  Then the target is new, the first free name under
    [Rename]; every node of the subtree is at its place below it, where nothing
    was before, with its kind, permissions and modification time, a file with
    exactly its promised bytes; every counter has reached its total; and in the
    promise exactly the nodes of the subtree are marked with their new paths. *)
Theorem materialize_copies_subtree {F C} `{!FileSystem F, !FsView F, !FileSystemOk F, Hrouter : !Router}
    (content : CacheKey -> Z -> option byte) (inv : IpcState -> Prop) (budget : Z)
    process_id (report_progress : C -> MaterializeProgress -> C * Result ())
    body (w w' : World F C) counters pid rel t nodes :
  0 <= budget -> RouterOk inv (fun op => op_good content op /\ op_quiet op) budget ->
  provider_honest content ->
  mb_conflict_policy body <> OverwriteBody ->
  resolve_visible_path (st_mount_status (w_ipc w)) (mb_source_path body) = Ok (pid, rel) ->
  rt_promises (st_runtime (w_ipc w)) !! pid = Some t ->
  PromiseTree_subtree_nodes t rel = Some (Ok nodes) ->
  (forall p n path, pt_nodes t !! p = Some n -> pn_materialized_path n = Some path ->
     local_honest content (w_fs w) (mkCacheKey pid p) path) ->
  ready content inv budget (node_bytes nodes) (w_ipc w) ->
  materialize_node_in_state process_id report_progress body w = (w', Ok counters) ->
  exists target entries request root t',
    MaterializeRequest_from_body body = Ok request /\ head nodes = Some root /\
    target_chosen (w_fs w) request pid root target /\
    Forall2 (fun n e => plan_entry target rel n = Ok e) nodes entries /\
    Forall (fun e => fs_at (w_fs w) (me_target_path e) = None /\
      exists id, fs_at (w_fs w') (me_target_path e) = Some id /\ copied content pid (w_fs w') e id) entries /\
    rt_promises (st_runtime (w_ipc w')) !! pid = Some t' /\
    (forall e, e ∈ entries -> exists n, pt_nodes t !! me_relative_path e = Some n /\
       pt_nodes t' !! me_relative_path e = Some (with_materialized_path n (me_target_path e))) /\
    (forall p, p ∉ me_relative_path <$> entries -> pt_nodes t' !! p = pt_nodes t !! p) /\
    let files := len (filter is_file_entry entries) in
    let dirs := len (filter is_dir_entry entries) in
    counters = mkMaterializeCounters (to_string_lossy target) (len nodes) (len nodes)
                 (node_bytes nodes) (node_bytes nodes) files files dirs dirs.
Proof.
  intros Hb Hrok Hhonest Hbody Hres Ht Hsub Hlocal Hready Hrun. unfold materialize_node_in_state in Hrun.
  apply bind_run in Hrun as (w1 & request & Hreq%map_error_run & Hrun). apply lift_run in Hreq as [-> Hreq].
  destruct (request_policy _ _ Hreq Hbody) as [Hpol Hsrc]. rewrite <- Hsrc in Hres.
  apply bind_run in Hrun as (w1 & plan & Hplan%map_error_run & Hrun).
  pose proof (unseen_plan request w) as V1. rewrite Hplan in V1. cbn [fst] in V1.
  destruct (plan_run _ _ _ _ _ _ _ _ Hpol Hres Ht Hsub Hplan) as (Hi1 & Hpid & Hpp & Hent & Hfree & root & Hroot & Hchosen).
  destruct plan as [pid' target policy entries].
  cbn [mp_promise_id mp_target_path mp_conflict_policy mp_entries] in *. subst pid' policy.
  assert (Hc1 : copying content inv budget (w_fs w) pid (pt_nodes t) (node_bytes nodes) w1).
  { split; rewrite ?Hi1; [done|by eauto|]. eapply extends_view; [apply extends_refl|exact V1]. }
  pose proof (inv_same_view _ _ _ _ V1 (created_inv_start (w_fs w))) as Hinv1.
  pose proof (rs_wf _ _ (rd_sound _ _ _ _ _ Hready)) as Hwf. destruct (rw_tree _ Hwf _ _ Ht) as [Htw _].
  destruct (subtree_nodes_list t Htw _ _ Hsub) as (r & _ & Hsl).
  assert (Hne : Forall (node_entry (pt_nodes t)) entries).
  { eapply plan_node_entries; [|exact Hent]. intros n Hn. by apply (sl_elem _ _ _ Hsl). }
  assert (Hnef : Forall (node_entry (pt_nodes t)) (filter is_file_entry entries)).
  { rewrite Forall_forall in Hne |- *. intros e [_ He]%list_elem_of_filter. by apply Hne. }
  apply bind_run in Hrun as (w2 & u2 & Hrep%on_error_run%report_run & Hrun). destruct Hrep as [Hi2 Hf2].
  assert (Hc2 : copying content inv budget (w_fs w) pid (pt_nodes t) (node_bytes nodes) w2).
  { destruct Hc1. by split; rewrite ?Hi2, ?Hf2. }
  rewrite <- Hf2 in Hinv1.
  apply bind_run in Hrun as (w3 & [g3 cr3] & Hdirs & Hrun).
  eapply create_directories_run in Hdirs as (ds & -> & Hds & Hinv3 & Hc3 & _ & ->); [|done..].
  cbn [fst snd app] in Hinv3, Hrun.
  apply bind_run in Hrun as (w4 & [g4 cr4] & Hfiles & Hrun).
  pose proof (entries_bytes _ _ _ _ Hent) as Htot.
  assert (Hmax : 0 <= node_bytes nodes <= u64_max).
  { rewrite <- Htot. split; [eapply total_bytes_nonneg; [exact Hc3|done]|].
    rewrite Htot. pose proof (rd_ids _ _ _ _ _ Hready). pose proof (router_id _ (rd_inv _ _ _ _ _ Hready)). lia. }
  eapply (write_files_run content inv budget Hb Hhonest (w_fs w) pid (pt_nodes t) Hlocal _ _ _ Hpol 0)
    in Hfiles as (fs & -> & Hfs & Hinv4 & Hc4 & Hext4 & ->);
    [|done|apply Forall_forall; by intros e [? _]%list_elem_of_filter|done
     |by rewrite Htot|cbn; lia|cbn; lia|done].
  apply bind_run in Hrun as (w5 & u5 & Hap%on_error_run & Hrun). apply zoom_run in Hap as (f5 & Hap & ->).
  destruct u5. apply bind_run in Hrun as (w6 & u6 & Hmark%on_error_run & [= <- <-]). destruct u6.
  pose proof (finish_entries content _ pid entries ds fs w4 f5 Hinv4 Hds Hfs Hap) as Hcopied.
  destruct (cp_promise _ _ _ _ _ _ _ _ Hc4) as (t4 & Ht4 & Hn4).
  apply mark_run in Hmark as [Hf6 [_ Hpid]]; [|apply Forall_forall; intros e He|].
  2:{ rewrite Forall_forall in Hne. destruct (Hne e He) as (n & Hn & -> & _). by apply (twf_path _ _ Htw _ _ Hn). }
  2:{ rewrite (entries_paths _ _ _ _ Hent). apply (sl_nodup _ _ _ Hsl). }
  cbn [w_ipc w_fs set_w_fs] in Hpid, Hf6. rewrite Ht4 in Hpid. inversion Hpid as [x t6 (_ & _ & _ & _ & Hm1 & Hm2) Hx Hy|]; subst x.
  rewrite Hn4 in Hm1, Hm2. exists target, entries, request, root, t6. split_and!; try done.
  - rewrite Forall_forall in Hfree |- *. intros e He. rewrite Hf6. split; [by apply Hfree|by apply Hcopied].
  - assert (len nodes = len entries) as -> by (unfold len; by rewrite (Forall2_length _ _ _ Hent)). apply final_counters; [|done|lia].
    intros e He. rewrite Forall_forall in Hnef. eapply node_entry_size; [exact Hc4|by apply Hnef].
Qed.

Lemma sample_ready_ready k : k <= 1000 -> ready sample_content ipc_inv 1 k sample_ready_mount.
Proof.
  intros Hk. eapply ready_weaken; [lia| |exact Hk]. destruct sample_mount_ready_1000 as [A1 (reads & A2 & A3) A4 A5 A6].
  split; [exact A1| |exact A4|exact A5|exact A6]. exists reads. split; [|exact A3].
  by apply (quiet_inv sample_mount).
Qed.

Lemma sample_answers_ok :
  @RouterOk (routed sample_answers) ipc_inv (fun op => op_good sample_content op /\ op_quiet op) 1.
Proof. apply routed_ok; [lia|done|]. intros i. split; [constructor|done]. Qed.

Lemma sample_answers_honest : @provider_honest sample_content (routed sample_answers).
Proof.
  intros s r s' resp Hr _ _. apply route_response_source in Hr as (reg & body & Hin & Hbody).
  apply list_elem_of_singleton in Hin. injection Hin as -> ->.
  assert (Hall : Forall (fun b => b = byte_of 97) (rs_bytes resp)).
  { unfold ProviderReadResponse_from_body, ProviderReadResponse_validated in Hbody. inv_ok. subst resp.
    apply Forall_replicate. reflexivity. }
  intros i b Hi. unfold sample_content. f_equal. symmetry. rewrite Forall_lookup in Hall.
  unfold zlookup in Hi. destruct (decide _) in Hi; [by eapply Hall|done].
Qed.

Lemma sample_subtree : exists t nodes, rt_promises (st_runtime sample_ready_mount) !! bs "promise-1" = Some t /\
  PromiseTree_subtree_nodes t (bs "docs") = Some (Ok nodes) /\ node_bytes nodes = 17 /\ len nodes = 4 /\
  (forall p n path, pt_nodes t !! p = Some n -> pn_materialized_path n = Some path ->
     local_honest sample_content sample_fs (mkCacheKey (bs "promise-1") p) path).
Proof.
  assert (H : (t ← rt_promises (st_runtime sample_ready_mount) !! bs "promise-1";
    r ← PromiseTree_subtree_nodes t (bs "docs");
    match r with
    | Ok nodes => Some (node_bytes nodes, len nodes,
        bool_decide (Forall (fun n => pn_materialized_path n = None) (map_to_list (pt_nodes t)).*2))
    | Err _ => None
    end) = Some (17, 4, true)) by (vm_compute; reflexivity).
  apply bind_Some in H as (t & Ht & H). apply bind_Some in H as (r & Hr & H). destruct r as [nodes|e]; [|discriminate H].
  injection H as Hbytes Hlen Hnone%bool_decide_eq_true. exists t, nodes. rename Hr into Hsub.
  split; [exact Ht|]. split; [exact Hsub|]. split; [exact Hbytes|]. split; [exact Hlen|].
  intros p n path Hn Hp. exfalso. rewrite Forall_forall in Hnone. specialize (Hnone n).
  rewrite Hnone in Hp; [discriminate Hp|]. apply list_elem_of_fmap. exists (p, n).
  split; [reflexivity|]. by apply elem_of_map_to_list.
Qed.

Lemma materialize_copies_subtree_witness : exists w' counters nodes target entries,
  sample_materialize 10 = (w', Ok counters) /\ mc_bytes_written counters = 17 /\
  Forall2 (fun n e => plan_entry target (bs "docs") n = Ok e) nodes entries /\ len nodes = 4 /\
  Forall (fun e => exists id, fs_at (w_fs w') (me_target_path e) = Some id /\
    copied sample_content (bs "promise-1") (w_fs w') e id) entries.
Proof.
  assert (Hr : (fun r => match r with Ok c => mc_bytes_written c | Err _ => 0 end) (sample_materialize 10).2 = 17)
    by (vm_compute; reflexivity).
  destruct sample_subtree as (t & nodes & Ht & Hsub & Hbytes & Hlen & Hlocal).
  destruct (sample_materialize 10) as [w' [counters|e]] eqn:Hrun; cbn in Hr; [|discriminate Hr].
  pose proof (sample_ready_ready (node_bytes nodes) ltac:(lia)) as Hready.
  pose proof (@materialize_copies_subtree ModelFs nat _ _ _ (routed sample_answers) sample_content ipc_inv 1 7 patient
    (sample_request_body FailBody) (sample_world 10) w' counters (bs "promise-1") (bs "docs") t nodes
    ltac:(lia) sample_answers_ok sample_answers_honest ltac:(discriminate) ltac:(vm_compute; reflexivity) Ht Hsub Hlocal
    Hready Hrun) as (target & entries & request & root & t' & _ & _ & _ & Hent & Hcop & _).
  exists w', counters, nodes, target, entries. split; [reflexivity|]. split; [exact Hr|]. split; [exact Hent|].
  split; [exact Hlen|]. eapply Forall_impl; [exact Hcop|]. intros e [_ H]. exact H.
Defined.

(** Rust's [%] keeps the sign of the dividend. *)
Lemma apply_mtime_nonnegative {F} `{!FileSystem F, !FsView F, !FileSystemOk F} id mtime (f f' : F) u :
  apply_mtime id mtime f = (f', Ok u) -> 0 <= Z.rem mtime 1000000000.
Proof.
  intros H%map_error_run.
  pose proof (futimens_ok f id (mkTimespec (Z.quot mtime 1000000000) (Z.rem mtime 1000000000)) (timespec_bound _)) as Hf.
  rewrite H in Hf. cbn in Hf. lia.
Qed.

(** Why [validate_attr] admits no time before 1970: the nanoseconds of one that
    is not a whole number of seconds would be computed as a negative number,
    which [futimens] refuses, so that neither a file nor a directory with such a
    time could be finished. *)
Theorem fractional_mtime_before_1970_refused {F C} `{!FileSystem F, !FsView F, !FileSystemOk F, Hrouter : !Router}
    process_id pid e policy rep (w : World F C) expected (f : F) :
  Z.rem (me_mtime_nsec e) 1000000000 < 0 ->
  is_ok (write_materialized_file process_id pid e policy rep w).2 = false /\
  is_ok (apply_directory_metadata e expected f).2 = false /\
  (forall id, fs_reliable f -> (apply_mtime id (me_mtime_nsec e) f).2 = Err InvalidArgument).
Proof.
  intros Hneg. split_and!.
  - destruct (write_materialized_file process_id pid e policy rep w) as [w' [outcome|err]] eqn:Hrun; [exfalso|done].
    unfold write_materialized_file in Hrun. apply bind_run in Hrun as (w1 & target & _ & Hrun).
    apply bind_run in Hrun as (w2 & offset & _ & Hrun). apply bind_run in Hrun as (w3 & u3 & _ & Hrun).
    apply bind_run in Hrun as (w4 & u4 & Ht%map_error_run & _). apply zoom_run in Ht as (f4 & Ht%apply_mtime_nonnegative & _). lia.
  - destruct (apply_directory_metadata e expected f) as [f' [u|err]] eqn:Hrun; [exfalso|done].
    unfold apply_directory_metadata in Hrun. apply bind_run in Hrun as (f1 & d & _ & Hrun).
    apply bind_run in Hrun as (f2 & m & _ & Hrun). case_decide; [done|].
    apply bind_run in Hrun as (f3 & u3 & _ & Hrun%apply_mtime_nonnegative). lia.
  - intros id Hrel. unfold apply_mtime, fs_call, map_error.
    destruct (futimens_range f id (mkTimespec (Z.quot (me_mtime_nsec e) 1000000000) (Z.rem (me_mtime_nsec e) 1000000000))
      Hrel Hneg) as (err & Herr & Hkind).
    destruct (futimens _ _ f) as [f' r]. cbn in Herr. subst r. cbn. unfold io_error_to_status. by rewrite Hkind.
Qed.

(** Half a second before 1970. *)
Lemma fractional_mtime_before_1970_refused_witness :
  (apply_mtime (mkFileIdentity 0 3) (-500000000) sample_fs).2 = Err InvalidArgument.
Proof.
  exact (proj2 (proj2 (@fractional_mtime_before_1970_refused ModelFs nat _ _ _ (routed sample_answers) 7 (bs "promise-1")
    (mkMaterializeEntryPlan (bs "a") (bs "/home/a") File 0 420 (-500000000)) PolicyFail
    (fun _ => mret tt) (sample_world 1) (mkFileIdentity 0 3) sample_fs ltac:(vm_compute; reflexivity)))
    (mkFileIdentity 0 3) eq_refl).
Defined.
