(* ===== verification/MaterializeReplace.v ===== *)
(** * Overwriting a file

    Under [Overwrite] an existing file is replaced by writing a temporary file
    beside it and renaming that over it.  The target therefore always names
    either the old file, unchanged, or the new file, complete. *)

From S2P Require Import Prelude Types Paths Cache Tree Runtime ReadPlan Messages Mount IpcState Routing Router Content FuseAdapter Effect Fs Materialize ModelFs MaterializeSample MaterializeSafety MaterializeCorrect.

Section replace.
Context {F C : Type} `{!FileSystem F, !FsView F, !FileSystemOk F, Hrouter : !Router}.
Context (process_id : Z).
Implicit Types (f : F) (w : World F C) (e : MaterializeEntryPlan).

(** The file that is written, and what is done with it in the end. *)
Definition replacement_of e (t : MaterializeFileTarget) : Prop :=
  mt_file t = ct_identity (mt_write_target t) /\ mt_replace_on_success t = true /\
  mt_final_path t = me_target_path e /\ mt_final_remove_on_cleanup t = false /\
  ct_kind (mt_write_target t) = TargetFile.

Definition fresh_file f f' (id : FileIdentity) : Prop :=
  fs_obj f id = None /\ exists o, fs_obj f' id = Some o /\ fo_kind o = FsFile /\ fo_bytes o = [].

Lemma open_output_inv f0 path f :
  created_inv f0 [] f ->
  let '(f', r) := open_materialize_output path f in
  match r with
  | Ok (file, identity) => file = identity /\ created_inv f0 [mkCreatedTarget path identity TargetFile true] f' /\
      fresh_file f0 f' file
  | Err err => created_inv f0 [] f' /\ we_target err = None
  end.
Proof.
  intros Hinv. unfold open_materialize_output, mbind, M_bind, fs_call, map_error.
  pose proof (open_new_ok f path 384) as Hc. destruct (open_new path 384 f) as [f1 [id|err]]; cbn.
  2:{ split; [|done]. by eapply inv_same_view. }
  destruct Hc as (o & Hc & Hk & Hb). pose proof (file_metadata_ok f1 id) as Hm.
  destruct (file_metadata id f1) as [f2 [m|err]]; destruct Hm as [Hv Hm]; cbn.
  - split; [done|]. split.
    + eapply inv_same_view; [exact Hv|]. by eapply (inv_creates f0 [] f f1 path id o).
    + split; [eapply creates_fresh; [exact Hc|apply Hinv]|]. exists o. destruct Hv as (_ & Hv & _). rewrite Hv.
      by destruct Hc as (_ & _ & _ & Ho & _).
  - split; [|done]. eapply inv_same_view; [exact Hv|]. eapply inv_creates_leak; [exact Hc| |exact Hinv].
    intros Hrel. destruct Hc as (_ & _ & _ & Ho & _ & _ & _ & _ & _ & Hr).
    rewrite Hm in Ho; [done|]. apply Hr. by apply (ci_reliable _ _ _ Hinv).
Qed.

Definition opened f0 e (r : result MaterializeWriteError MaterializeFileTarget) w : Prop :=
  match r with
  | Ok t => created_inv f0 [mt_write_target t] (w_fs w) /\ replacement_of e t /\ fresh_file f0 (w_fs w) (mt_file t)
  | Err err => created_inv f0 [] (w_fs w) /\ we_target err = None
  end.

Lemma replacement_loop_inv f0 n e :
  triple (fun w => created_inv f0 [] (w_fs w)) (replacement_loop (C := C) process_id n e) (opened f0 e).
Proof.
  induction n as [|n IH]; cbn [replacement_loop]; [by apply triple_fail|]. intros w Hw.
  destruct (materialize_temp_path process_id (me_target_path e) (w_temp_counter w)) as [path|s]; [|done].
  unfold on_fs, zoom. cbn [w_fs set_w_temp].
  pose proof (open_output_inv f0 path (w_fs w) Hw) as H.
  destruct (open_materialize_output path (w_fs w)) as [f1 [[file identity]|err]]; cbn.
  - destruct H as (-> & H1 & H2). split; [exact H1|]. split; [by split_and!|exact H2].
  - destruct H as [H1 H2]. case_decide; [by apply (IH (set_w_fs f1 (set_w_temp _ w)))|done].
Qed.

(** Opening, when the target is a regular file. *)
Lemma open_existing_inv e w old o :
  fs_at (w_fs w) (me_target_path e) = Some old -> fs_obj (w_fs w) old = Some o -> fo_kind o = FsFile ->
  is_file_entry e ->
  let '(w', r) := open_materialized_file process_id e PolicyOverwrite w in
  opened (w_fs w) e r w'.
Proof.
  intros Hat Ho Hk He. unfold open_materialized_file, on_fs, zoom, mbind, M_bind, try_.
  destruct (stat_run (w_fs w) (me_target_path e)) as (f1 & r & -> & Hv & Hm).
  pose proof (inv_same_view _ _ _ _ Hv (created_inv_start (w_fs w))) as Hinv. destruct r as [m|err].
  - destruct Hm as [Hm (o' & Ho' & Hk')]. rewrite Hat in Hm. injection Hm as Hm.
    rewrite <- Hm, Ho in Ho'. injection Ho' as <-.
    unfold validate_existing_materialize_target, is_file_entry in *. rewrite decide_False, He, decide_True by congruence.
    exact (replacement_loop_inv (w_fs w) 16 e (set_w_fs f1 w) Hinv).
  - case_decide as Hnf; cbn; [|by split]. destruct Hm as [Hm _]. rewrite Hm in Hat by done. done.
Qed.

(** Until the rename only the temporary file has changed. *)
Lemma replacement_errors e w old o pid rep :
  fs_at (w_fs w) (me_target_path e) = Some old -> fs_obj (w_fs w) old = Some o -> fo_kind o = FsFile ->
  is_file_entry e -> (forall n, unseen (rep n)) ->
  let '(w', r) := write_materialized_file process_id pid e PolicyOverwrite rep w in
  match r with
  | Ok _ => True
  | Err err => created_inv (w_fs w) (option_list (we_target err)) (w_fs w')
  end.
Proof.
  intros Hat Ho Hk He Hrep. pose proof (open_existing_inv e w old o Hat Ho Hk He) as Hopen.
  unfold write_materialized_file. unfold mbind at 1, M_bind at 1.
  destruct (open_materialized_file process_id e PolicyOverwrite w) as [w1 [target|err]]; cbn in Hopen.
  2:{ destruct Hopen as [H1 ->]. exact H1. }
  destruct Hopen as (H1 & (Hfile & Hrepl & Hpath & Hrm & Hkind) & _). rewrite Hfile, Hrepl.
  set (t := mt_write_target target) in *. set (f0 := w_fs w) in *. revert w1 H1.
  assert (Herr : forall A (err : MaterializeWriteError) w1, after_open f0 [] t (Err err : result _ A) w1 ->
    created_inv f0 (option_list (we_target err)) (w_fs w1)).
  { intros A err w1 [Hw1 Hwe]. by rewrite Hwe. }
  match goal with |- forall w1, _ -> let '(_, _) := ?m w1 in _ =>
    enough (Ht : triple (fun w1 => created_inv f0 [t] (w_fs w1)) m
      (fun r w1 => match r with Ok _ => True | Err err => created_inv f0 (option_list (we_target err)) (w_fs w1) end))
      by (intros w1 H1; exact (Ht w1 H1)) end.
  eapply triple_bind; [by apply (write_loop_inv f0 [] t)| |apply Herr]. intros offset.
  eapply triple_bind; [eapply triple_conseq; [eapply (handle_call_after f0 [] t); [done|right; apply set_permissions_call]
    |by intros w1 [? _]|intros r w1 Hw1; exact Hw1]| |apply Herr]. intros ?.
  eapply triple_bind; [eapply triple_conseq; [eapply (handle_call_after f0 [] t); [done|right; apply apply_mtime_call]
    |by intros w1 [? _]|intros r w1 Hw1; exact Hw1]| |apply Herr]. intros ?.
  eapply triple_bind with (R := fun r w1 => match r with Ok _ => True | Err err => created_inv f0 (option_list (we_target err)) (w_fs w1) end);
    [|intros ?; by apply triple_ret|done].
  apply triple_zoom. intros w1 [Hw1 _] f ->. unfold finalize_materialized_file, mbind, M_bind, map_error.
  pose proof (rename_ok (w_fs w1) (ct_path t) (mt_final_path target)) as Hr.
  destruct (rename (ct_path t) (mt_final_path target) (w_fs w1)) as [f1 [u|err]]; cbn; [done|]. by eapply inv_same_view.
Qed.
End replace.

(** ** The new file *)

Lemma replacement_loop_ipc {F C} `{!FileSystem F} process_id n e (w : World F C) :
  w_ipc (replacement_loop process_id n e w).1 = w_ipc w.
Proof.
  revert w. induction n as [|n IH]; intros w; cbn [replacement_loop]; [done|].
  destruct (materialize_temp_path _ _ _) as [path|s]; [|done]. unfold on_fs, zoom. cbn [w_fs set_w_temp].
  destruct (open_materialize_output path (w_fs w)) as [f1 [[file identity]|err]]; [done|].
  case_decide; [|done]. by rewrite IH.
Qed.

Lemma open_materialized_file_ipc {F C} `{!FileSystem F} process_id e policy (w : World F C) :
  w_ipc (open_materialized_file process_id e policy w).1 = w_ipc w.
Proof.
  unfold open_materialized_file, mbind, M_bind, on_fs, zoom, try_.
  destruct (symlink_metadata _ (w_fs w)) as [f1 md].
  pose proof (replacement_loop_ipc process_id 16 e (set_w_fs f1 w)) as Hloop.
  destruct (open_final_materialized_file e true (w_fs (set_w_fs f1 w))) as [f2 r] eqn:Hopen. destruct md as [m|err].
  - unfold lift, mret, M_ret. destruct (map_err _ _); [|reflexivity]. cbn beta iota.
    destruct policy; cbn beta iota; rewrite ?Hopen; (reflexivity || exact Hloop).
  - case_decide; [|reflexivity]. unfold mret, M_ret. destruct policy; cbn beta iota; rewrite ?Hopen; reflexivity.
Qed.

Section success.
Context (content : CacheKey -> Z -> option byte).
Context {F C : Type} `{!FileSystem F, !FsView F, !FileSystemOk F, Hrouter : !Router}.
Context (inv : IpcState -> Prop) (budget : Z) (Hbudget : 0 <= budget).
Context `{Hrok : !RouterOk inv (fun op => op_good content op /\ op_quiet op) budget}.
Context (Hhonest : provider_honest content).
Context (process_id : Z) (pid : str) (nodes : gmap str PromiseNode).
Implicit Types (w : World F C) (e : MaterializeEntryPlan).

(** A handle call on the temporary file, in a successful run. *)
Lemma handle_call_run {A} f0 t (m : M F Status A) f f' a :
  (forall f, match (m f).2 with
             | Ok _ => exists Q, changes_object (ct_identity t) Q f (m f).1 /\ (forall o o', Q o o' -> fo_kind o' = fo_kind o)
             | Err _ => same_view f (m f).1
             end) ->
  created_inv f0 [t] f -> m f = (f', Ok a) -> created_inv f0 [t] f'.
Proof.
  intros H Hinv Hm. specialize (H f). rewrite Hm in H. destruct H as (Q & HQ & Hk).
  eapply inv_changes; [exact HQ|exact Hk|by left|done].
Qed.

Lemma replacement_run e n w w' old o rep outcome :
  (forall p n path, nodes !! p = Some n -> pn_materialized_path n = Some path ->
     local_honest content (w_fs w) (mkCacheKey pid p) path) ->
  fs_at (w_fs w) (me_target_path e) = Some old -> fs_obj (w_fs w) old = Some o -> fo_kind o = FsFile ->
  nodes !! pn_relative_path n = Some n -> entry_of n e -> pn_kind n = File ->
  silent rep -> (forall k, unseen (rep k)) -> 0 <= me_size e ->
  copying content inv budget (w_fs w) pid nodes (me_size e) w ->
  write_materialized_file process_id pid e PolicyOverwrite rep w = (w', Ok outcome) ->
  exists f1 t, created_inv (w_fs w) [t] f1 /\ moves (ct_path t) (me_target_path e) (ct_identity t) f1 (w_fs w') /\
    settles (me_target_path e) (ct_identity t) f1 (w_fs w') /\
    fo_target outcome = mkCreatedTarget (me_target_path e) (ct_identity t) TargetFile false /\
    fo_bytes_written outcome = me_size e /\ copied content pid f1 e (ct_identity t).
Proof.
  intros Hlocal Hat Ho Hk Hin He Hkind Hsil Huns Hsz Hc Hrun.
  assert (Hfe : is_file_entry e) by (unfold is_file_entry; destruct He as (_ & -> & _); done).
  pose proof (open_existing_inv process_id e w old o Hat Ho Hk Hfe) as Hopen.
  pose proof (open_materialized_file_ipc process_id e PolicyOverwrite w) as Hipc.
  unfold write_materialized_file in Hrun. apply bind_run in Hrun as (w1 & target & Hop & Hrun).
  rewrite Hop in Hopen, Hipc. cbn [fst] in Hipc. destruct Hopen as (Hinv1 & (Hfile & Hrepl & Hpath & Hrm & Hkd) & Hnew & o1 & Ho1 & Hk1 & Hb1).
  set (t := mt_write_target target) in *.
  apply bind_run in Hrun as (w2 & offset & Hloop & Hrun). rewrite Hfile in Hloop.
  pose proof (write_loop_inv (w_fs w) [] t (S (Z.to_nat (me_size e))) pid e rep 0 Huns w1 Hinv1) as Hinv2.
  rewrite Hloop in Hinv2. destruct Hinv2 as [Hinv2 _].
  apply (write_loop_run content inv budget Hbudget Hhonest (w_fs w) pid nodes Hlocal e n _ 0) in Hloop as (-> & _ & Hw2); try done;
    [|rewrite Z.sub_0_r; lia| |].
  2:{ rewrite Z.sub_0_r, Z.add_0_l. destruct Hc as [A1 A2 A3]. split; rewrite ?Hipc; [done..|apply Hinv1]. }
  2:{ rewrite <- Hfile. split; [done|]. exists o1. rewrite Hb1. split_and!; try done. intros i b Hi.
      pose proof (zlookup_Some _ _ _ Hi) as Hr. unfold len in Hr. cbn in Hr. lia. }
  apply bind_run in Hrun as (w3 & [] & Hp%map_error_run & Hrun). apply zoom_run in Hp as (f3 & Hp & ->).
  apply bind_run in Hrun as (w4 & [] & Htm%map_error_run & Hrun). apply zoom_run in Htm as (f4 & Htm & ->).
  rewrite Hfile in Hp, Htm. cbn [w_fs set_w_fs] in Htm.
  pose proof (handle_call_run (w_fs w) t _ _ _ _ (set_permissions_call t _) Hinv2 Hp) as Hinv3.
  pose proof (handle_call_run (w_fs w) t _ _ _ _ (apply_mtime_call t _) Hinv3 Htm) as Hinv4.
  destruct Hw2 as (_ & o2 & Ho2 & Hk2 & Hlen & Hsound).
  pose proof (apply_attributes_run e _ _ _ _ _ Ho2 Hp Htm) as (_ & _ & _ & Hch & _). rewrite Ho2 in Hch.
  inversion Hch as [x o' (A1 & A2 & A3 & A4) Hx Hy|]; subst x.
  apply bind_run in Hrun as (w5 & c & Hfin & [= <- <-]). apply zoom_run in Hfin as (f5 & Hfin & ->).
  unfold finalize_materialized_file in Hfin. rewrite Hrepl, Hpath, Hrm in Hfin.
  apply bind_run in Hfin as (f6 & [] & Hren%map_error_run & [= <- <-]). cbn [w_fs set_w_fs] in Hren.
  pose proof (rename_ok f4 (ct_path t) (me_target_path e)) as Hmv. rewrite Hren in Hmv. destruct Hmv as (id & Hmv & Hse).
  exists f4, t. split; [exact Hinv4|].
  assert (id = ct_identity t) as ->.
  { pose proof (ci_there _ _ _ Hinv4) as T. apply Forall_singleton in T as (T & _). destruct Hmv as [Hmv _]. congruence. }
  split; [exact Hmv|]. split; [exact Hse|].
  split; [done|]. split; [done|]. exists o'. unfold is_file_entry in Hfe. rewrite Hfe, A1, A2. by split_and!.
Qed.
End success.

(** ** The names and objects afterwards *)

Section settled.
Context {F : Type} `{!FileSystem F, !FsView F, !FileSystemOk F}.

(** What a replacement of [old] by [new] leaves: other objects and their names
    are as before; a path of [old] names [new] or, as another link, still
    [old], which is then unchanged; and on a reliable file system no other path
    and no other object has appeared. *)
Record replaced (old new : FileIdentity) (f f' : F) : Prop := {
  rp_names : forall p i, fs_at f p = Some i -> i <> old -> fs_at f' p = Some i;
  rp_links : forall p, fs_at f p = Some old -> fs_at f' p = Some new \/ fs_at f' p = Some old;
  rp_objects : forall i x, fs_obj f i = Some x -> (i = old /\ fs_obj f' i = None) \/
    exists x', fs_obj f' i = Some x' /\ same_object x x';
  rp_no_name : fs_reliable f -> forall p, fs_at f p = None -> fs_at f' p = None;
  rp_no_object : fs_reliable f -> forall i, fs_obj f i = None -> i <> new -> fs_obj f' i = None;
}.

Lemma replaced_by_move f0 f1 f2 t q old :
  created_inv f0 [t] f1 -> fs_at f0 q = Some old ->
  moves (ct_path t) q (ct_identity t) f1 f2 -> settles q (ct_identity t) f1 f2 ->
  replaced old (ct_identity t) f0 f2.
Proof.
  intros Hinv Hat (_ & M2 & M3 & M4 & M5 & _) (S1 & S2 & S3 & S4). destruct (ci_extends _ _ _ Hinv) as [E1 E2].
  pose proof (E1 _ _ Hat) as Hat1. pose proof (ci_new _ _ _ Hinv) as [Hnew _]%Forall_singleton.
  pose proof (ci_there _ _ _ Hinv) as (_ & Hsingle & _)%Forall_singleton.
  assert (Hne : ct_identity t <> old) by (intros Heq; apply fs_at_obj in Hat as [x Hx]; congruence). split.
  - intros p i Hp Hi. apply M3; [|congruence|by apply E1]. intros ->. apply fs_at_obj in Hp as [x Hx]. congruence.
  - intros p Hp. apply S3; [done|by apply E1].
  - intros i x Hx. destruct (E2 i x Hx) as (x1 & Hx1 & Hs). destruct (decide (i = old)) as [->|Hi].
    + destruct (S4 _ _ Hat1 Hx1) as [?|(x2 & ? & ?)]; [by left|right]. exists x2. split; [done|by eapply same_object_trans].
    + specialize (M5 i ltac:(congruence)). rewrite Hx1 in M5. inversion M5 as [a b Hab Ha Hb|]; subst a.
      right. exists b. split; [done|by eapply same_object_trans].
  - intros Hrel p Hp. destruct (fs_at f2 p) as [i|] eqn:Hp2; [|done]. exfalso.
    assert (Hback : forall j, fs_at f1 p = Some j -> j = ct_identity t).
    { intros j Hj. destruct (ci_at _ _ _ Hinv Hrel p j Hj) as [?|Hj']; [congruence|]. by apply list_elem_of_singleton in Hj'. }
    destruct (decide (i = ct_identity t)) as [->|Hi]; [|by apply Hi, Hback, M4].
    destruct (S2 p Hp2) as [H1|H1]; [|rewrite Hat1 in H1; by apply Hback in H1].
    rewrite (S1 Hsingle ltac:(congruence) p H1) in Hp2. done.
  - intros Hrel i Hi Hin. specialize (M5 i). destruct (fs_obj f2 i) as [x|] eqn:Hx; [|done]. exfalso.
    assert (Hi1 : is_Some (fs_obj f1 i)).
    { destruct (decide (i = old)) as [->|]; [apply fs_at_obj in Hat as [y Hy]; congruence|].
      specialize (M5 ltac:(congruence)). inversion M5; subst. by eexists. }
    destruct (ci_obj _ _ _ Hinv Hrel i Hi1) as [[y Hy]|Hj]; [congruence|]. by apply list_elem_of_singleton in Hj.
Qed.
End settled.

(** ** Properties *)


(** The sample's [setup.txt] over [/home/notes.txt]. *)
Definition sample_overwrite_entry : MaterializeEntryPlan :=
  mkMaterializeEntryPlan (bs "docs/guides/setup.txt") (bs "/home/notes.txt") File 5 420 0.

Lemma sample_tree : exists t, rt_promises (st_runtime sample_ready_mount) !! bs "promise-1" = Some t /\
  (forall p n path, pt_nodes t !! p = Some n -> pn_materialized_path n = Some path ->
     local_honest sample_content sample_fs (mkCacheKey (bs "promise-1") p) path) /\
  exists n, pt_nodes t !! bs "docs/guides/setup.txt" = Some n /\ pn_relative_path n = bs "docs/guides/setup.txt" /\
    pn_kind n = File /\ pn_attr n = mkNodeAttr 420 5 0.
Proof.
  destruct sample_subtree as (t & nodes & Ht & _ & _ & _ & Hlocal). exists t. split; [exact Ht|]. split; [exact Hlocal|].
  assert (Hn : (x ← rt_promises (st_runtime sample_ready_mount) !! bs "promise-1"; n ← pt_nodes x !! bs "docs/guides/setup.txt";
    Some (pn_relative_path n, pn_kind n, pn_attr n)) = Some (bs "docs/guides/setup.txt", File, mkNodeAttr 420 5 0))
    by (vm_compute; reflexivity).
  rewrite Ht in Hn. cbn [mbind option_bind] in Hn. apply bind_Some in Hn as (n & Hn & [= H1 H2 H3]). exists n. split; [exact Hn|].
  split; [exact H1|]. split; [exact H2|exact H3].
Qed.

