(* ===== verification/MaterializeServer.v ===== *)
(** * Materialization inside the connection server

    [Server] is verified against an interface of [handle_materialize]
    ([materialize_frame]); here the handler of [Materialize] is shown to meet
    it, with provider reads by [route_provider_read].  During such a read the
    other threads may answer and fail reads, remove routes, unregister
    providers, record cached bytes and mark nodes; they do not register
    providers or commit promises, which the interface rules out for the
    handler's own connection. *)

From S2P Require Import Prelude Types Paths Cache Tree Runtime ReadPlan Messages Frame Mount IpcState Routing Server Router Effect Fs Materialize ModelFs MaterializeSample.

(** ** Steps that register and commit nothing *)

Record calm (s s' : IpcState) : Prop := {
  cm_wf : st_wf s -> st_wf s';
  cm_provider : rt_next_provider_id (st_runtime s') = rt_next_provider_id (st_runtime s);
  cm_promise : rt_next_promise_id (st_runtime s') = rt_next_promise_id (st_runtime s);
  cm_live : forall id, Runtime_has_provider (st_runtime s') id = true -> Runtime_has_provider (st_runtime s) id = true;
}.

#[export] Instance calm_preorder : PreOrder calm.
Proof.
  split.
  - intros s. by split.
  - intros s1 s2 s3 [A1 A2 A3 A4] [B1 B2 B3 B4]. split; [auto|congruence|congruence|auto].
Qed.

Lemma calm_tables s s' :
  st_runtime s' = st_runtime s -> st_mount_status s' = st_mount_status s ->
  st_provider_routes s' ⊆ st_provider_routes s -> calm s s'.
Proof.
  intros Hr Hm Hro. split; rewrite ?Hr; try done. intros [H1 H2 H3]. split; rewrite ?Hr, ?Hm; try done.
  intros id route Hid. eapply H3, lookup_weaken; done.
Qed.

Definition op_calm (op : RuntimeOp) : Prop :=
  match op with
  | OpUnregisterProvider _ | OpMarkNodeMaterialized _ _ _ => True
  | OpRecordCachedRead _ _ offset _ => in_u64 offset
  | _ => False
  end.

Lemma calm_runtime s op : op_calm op -> calm s (set_runtime (run_op (st_runtime s) op) s).
Proof.
  intros Hop. assert (Hfields : rt_next_provider_id (run_op (st_runtime s) op) = rt_next_provider_id (st_runtime s) /\
    rt_next_promise_id (run_op (st_runtime s) op) = rt_next_promise_id (st_runtime s) /\
    (forall id, Runtime_has_provider (run_op (st_runtime s) op) id = true -> Runtime_has_provider (st_runtime s) id = true) /\
    (forall id, is_Some (rt_providers (st_runtime s) !! id) -> is_Some (rt_providers (run_op (st_runtime s) op) !! id)) /\
    (rt_wf (st_runtime s) -> rt_wf (run_op (st_runtime s) op))).
  { destruct op; try done; cbn [run_op].
    - split_and!.
      + unfold Runtime_unregister_provider. by destruct (_ !! _).
      + unfold Runtime_unregister_provider. by destruct (_ !! _).
      + intros id. unfold Runtime_has_provider, Runtime_unregister_provider.
        destruct (rt_providers (st_runtime s) !! provider_id) as [p|] eqn:Hp; [cbn|done].
        rewrite lookup_insert. case_decide; [by rewrite bool_decide_eq_false_2|done].
      + intros id. apply unregister_known.
      + apply unregister_provider_wf.
    - pose proof (record_cached_read_wf (st_runtime s) promise_id relative_path offset bytes) as Hw.
      pose proof (record_cached_read_cases (st_runtime s) promise_id relative_path offset bytes) as Hc.
      destruct (Runtime_record_cached_read _ _ _ _ _) as [rt r]. cbn in *.
      destruct Hc as [->|(? & ? & ? & _ & _ & _ & _ & _ & _ & _ & ->)]; split_and!; auto.
    - pose proof (mark_node_materialized_wf (st_runtime s) promise_id relative_path materialized_path) as Hw.
      pose proof (mark_node_materialized_cases (st_runtime s) promise_id relative_path materialized_path) as Hc.
      destruct (Runtime_mark_node_materialized _ _ _ _) as [rt r]. cbn in *.
      destruct Hc as [[-> _]|(? & ? & ? & _ & _ & _ & _ & _ & ->)]; split_and!; auto. }
  destruct Hfields as (H1 & H2 & H3 & H4 & H5). split; [|done..]. intros Hwf. apply set_runtime_wf; [done|apply H5, Hwf|done].
Qed.

(** ** Provider reads *)

Definition env_calm (op : EnvOp) : Prop :=
  match op with
  | EnvRoute _ _ _ => False
  | EnvRuntime op => op_calm op
  | EnvMount m => mount_wf m
  | _ => True
  end.

Lemma run_env_calm s op : env_calm op -> calm s (run_env s op).
Proof.
  destruct op; cbn [run_env env_calm]; intros H.
  - destruct (complete_fields s registered response) as (H1 & H2 & H3). apply calm_tables; [done..|by rewrite H2].
  - destruct (fail_reads_fields s provider_id kind) as (H1 & H2 & H3). apply calm_tables; [done..|by rewrite H2].
  - done.
  - apply calm_tables; [done..|]. cbn. apply delete_subseteq.
  - by apply calm_runtime.
  - split; [|done..]. intros [H1 _ H3]. by split.
Qed.

Lemma run_envs_calm s ops : Forall env_calm ops -> calm s (run_envs s ops).
Proof.
  intros Hops. revert s. induction Hops as [|op ops Hop Hops IH]; intros s; [reflexivity|].
  etrans; [by apply run_env_calm|apply IH].
Qed.

Lemma disconnect_calm s id : calm s (disconnect_provider_id s id).
Proof.
  unfold disconnect_provider_id, ProviderId_from_raw. destruct (Z.eqb_spec id 0).
  - apply (run_env_calm s (EnvRemoveRoute id) I).
  - etrans; [apply (run_env_calm s (EnvRemoveRoute id) I)|].
    etrans; [apply (run_env_calm _ (EnvRuntime (OpUnregisterProvider id)) I)|].
    apply (run_env_calm _ (EnvFailReads id KBrokenPipe) I).
Qed.

Lemma route_calm env s r : Forall env_calm (en_meanwhile env) -> calm s (route_provider_read env s r).1.
Proof.
  intros Henv. unfold route_provider_read. destruct (route_lookup s r); [|reflexivity].
  destruct (route_insert s r (new_channel s)) as [s1 r1] eqn:Hri.
  assert (H1 : calm s s1) by (unfold route_insert in Hri; injection Hri as <- _; by apply calm_tables).
  destruct r1; [|done]. etrans; [exact H1|]. destruct (en_write env) as [?|e]; cbn [fst].
  - etrans; [by apply run_envs_calm|]. generalize (run_envs s1 (en_meanwhile env)). intros s2.
    assert (H2 : calm s2 (drop_received s2 (new_channel s))).
    { unfold drop_received. by destruct (st_channels s2 !! _) as [[|x q]|]; apply calm_tables. }
    etrans; [exact H2|]. by destruct (recv_timeout s2 (new_channel s)); apply calm_tables.
  - unfold route_write_failed. etrans; [by apply (calm_tables s1 (remove_pending_read s1 (rq_request_id r)))|].
    apply disconnect_calm.
Qed.

(** ** The connection *)

Definition same_connection (c c' : Client) : Prop :=
  cl_id c' = cl_id c /\ cl_negotiated c' = cl_negotiated c /\ cl_registered c' = cl_registered c /\
  (length (rd_bytes (cl_reader c')) <= length (rd_bytes (cl_reader c)))%nat.

Lemma same_connection_trans a b c : same_connection a b -> same_connection b c -> same_connection a c.
Proof. intros (A1 & A2 & A3 & A4) (B1 & B2 & B3 & B4). split_and!; [congruence..|lia]. Qed.

Section connection.
Context `{!Bincode Request, !Bincode Response}.

Lemma read_frame_le (r : Reader) : (length (rd_bytes (read_frame (T := Request) r).1) <= length (rd_bytes r))%nat.
Proof.
  assert (Hx : forall r n, (length (rd_bytes (read_exact r n).1) <= length (rd_bytes r))%nat).
  { intros r' n. unfold read_exact. case_decide; cbn; [rewrite length_drop; lia|lia]. }
  unfold read_frame. destruct (read_byte r) as [r1 first] eqn:Hb.
  assert (H1 : (length (rd_bytes r1) <= length (rd_bytes r))%nat).
  { unfold read_byte in Hb. repeat case_match; injection Hb as <- _; cbn; try lia; rewrite ?H; cbn; lia. }
  destruct first as [[b0|]|e]; cbn; [|done..]. pose proof (Hx r1 3%nat) as H2.
  destruct (read_exact r1 3) as [r2 [rest|e]]; cbn in *; [|lia]. destruct (_ <? _); cbn; [lia|].
  match goal with |- context [read_exact r2 ?n] => pose proof (Hx r2 n) as H3; destruct (read_exact r2 n) as [r3 body] end.
  cbn in *. lia.
Qed.

Lemma reply_same c response : same_connection c (reply c response).1.
Proof.
  pose proof (reply_client c response) as H. destruct (reply c response) as [c' r].
  destruct H as (H0 & H1 & H2 & H3). cbn. split_and!; [done..|]. by rewrite H1.
Qed.

Lemma reply_status_error_same c status : same_connection c (reply_status_error c status).1.
Proof.
  pose proof (reply_error_client c (status_to_error_code status) (Status_as_str status)) as H.
  change (reply_status_error c status) with (reply_error c (status_to_error_code status) (Status_as_str status)).
  destruct (reply_error c _ _) as [c' r]. destruct H as (H0 & H1 & H2 & H3). cbn. split_and!; [done..|]. by rewrite H1.
Qed.

Lemma client_progress_same c progress : same_connection c (client_progress c progress).1.
Proof.
  unfold client_progress. cbn [client_end end_reply end_request]. pose proof (reply_same c (ResponseMaterializeProgress (progress_counters progress))) as H.
  destruct (reply c _) as [c1 [u|e]]; [|done]. pose proof (read_frame_le (cl_reader c1)) as Hr.
  destruct (read_frame (cl_reader c1)) as [reader r]. cbn in *.
  eapply same_connection_trans; [exact H|]. by split_and!.
Qed.
End connection.

(** ** The phases *)

(** What can be said of the daemon's state between the two ends of a
    materialization, when at most [n] provider reads are made in between. *)
Class Tracking `{!Router} (R : Z -> IpcState -> IpcState -> Prop) : Prop := {
  tk_refl : forall s, R 0 s s;
  tk_trans : forall a b s1 s2 s3, 0 <= a -> 0 <= b -> R a s1 s2 -> R b s2 s3 -> R (a + b) s1 s3;
  tk_weaken : forall a b s s', 0 <= a <= b -> R a s s' -> R b s s';
  tk_read : forall s r, 0 <= rq_length r ->
    R 1 s (router_read (next_provider_read_request_id s).1
             (with_request_id r (next_provider_read_request_id s).2)).1;
  tk_mark : forall s pid path target,
    R 0 s (set_runtime (Runtime_mark_node_materialized (st_runtime s) pid path target).1 s);
}.

(** A read per byte, at most. *)
Definition reads_of (entries : list MaterializeEntryPlan) : Z := foldr (fun e n => Z.max 0 (me_size e) + n) 0 entries.

Lemma reads_of_nonneg entries : 0 <= reads_of entries.
Proof. induction entries as [|e es IH]; cbn; [done|]. fold (reads_of es). lia. Qed.

Section tracked.
Context {F : Type} `{!FileSystem F, !Bincode Request, !Bincode Response, Hrouter : !Router}.
Context (R : Z -> IpcState -> IpcState -> Prop) `{!Tracking R}.
Context (process_id : Z).
Implicit Types (w : World F Client).

Definition steady (n : Z) (w w' : World F Client) : Prop :=
  R n (w_ipc w) (w_ipc w') /\ same_connection (w_client w) (w_client w').

Definition tracked {E A} (n : Z) (m : M (World F Client) E A) : Prop := forall w, steady n w (m w).1.

Lemma steady_refl w : steady 0 w w.
Proof. split; [apply tk_refl|by split_and!]. Qed.

Lemma steady_trans a b n w1 w2 w3 :
  0 <= a -> 0 <= b -> a + b <= n -> steady a w1 w2 -> steady b w2 w3 -> steady n w1 w3.
Proof.
  intros Ha Hb Hn [A1 A2] [B1 B2]. split; [|by eapply same_connection_trans].
  apply (tk_weaken (a + b)); [lia|]. by apply (tk_trans a b _ (w_ipc w2)).
Qed.

Lemma steady_weaken a n w w' : 0 <= a <= n -> steady a w w' -> steady n w w'.
Proof. intros Ha [H1 H2]. split; [by apply (tk_weaken a)|done]. Qed.

Lemma tracked_weaken {E A} a n (m : M (World F Client) E A) : 0 <= a <= n -> tracked a m -> tracked n m.
Proof. intros Ha Hm w. by apply (steady_weaken a). Qed.

Lemma tracked_bind {E A B} a b n (m : M (World F Client) E A) (k : A -> M (World F Client) E B) :
  0 <= a -> 0 <= b -> a + b <= n -> tracked a m -> (forall x, tracked b (k x)) -> tracked n (m ≫= k).
Proof.
  intros Ha Hb Hn Hm Hk w. unfold mbind, M_bind. specialize (Hm w). destruct (m w) as [w1 [x|e]].
  - apply (steady_trans a b _ _ w1); [done..|apply Hk].
  - apply (steady_weaken a); [lia|done].
Qed.

Lemma tracked_seq {E A B} n (m : M (World F Client) E A) (k : A -> M (World F Client) E B) :
  0 <= n -> tracked 0 m -> (forall x, tracked n (k x)) -> tracked n (m ≫= k).
Proof. intros Hn. by apply tracked_bind. Qed.

Lemma tracked_same {E A} (m : M (World F Client) E A) :
  (forall w, w_ipc (m w).1 = w_ipc w /\ w_client (m w).1 = w_client w) -> tracked 0 m.
Proof. intros H w. destruct (H w) as [H1 H2]. split; rewrite ?H1, ?H2; [apply tk_refl|by split_and!]. Qed.

Lemma tracked_on_fs {E A} (m : M F E A) : tracked 0 (on_fs m).
Proof. apply tracked_same. intros w. unfold on_fs, zoom. by destruct (m (w_fs w)). Qed.

Lemma tracked_map_error {E E' A} n (g : E -> E') (m : M (World F Client) E A) : tracked n m -> tracked n (map_error g m).
Proof. intros H w. specialize (H w). unfold map_error. by destruct (m w). Qed.

Lemma tracked_try {E E' A} n (m : M (World F Client) E A) : tracked n m -> tracked n (try_ m : M _ E' _).
Proof. intros H w. specialize (H w). unfold try_. by destruct (m w). Qed.

Lemma tracked_clean_up {A} n created progress (m : M (World F Client) Status A) :
  tracked n m -> tracked n (or_clean_up created progress m).
Proof. intros H w. specialize (H w). unfold or_clean_up, on_error. destruct (m w) as [w1 [a|e]]; [done|]. exact H. Qed.

Lemma tracked_report g : tracked 0 (report client_progress g).
Proof.
  intros w. unfold report. pose proof (client_progress_same (w_client w) g) as H.
  destruct (client_progress (w_client w) g) as [c r]. split; [apply tk_refl|exact H].
Qed.

Lemma tracked_provider_chunk plan : 0 <= prp_length plan -> tracked 1 (read_materialize_provider_chunk plan).
Proof.
  intros Hl w. pose proof (tk_read (w_ipc w) (mkProviderReadRequest 0 (prp_provider_id plan) (prp_promise_id plan)
    (prp_relative_path plan) (prp_provider_node_id plan) (prp_offset plan) (prp_length plan)) Hl) as H.
  unfold read_materialize_provider_chunk, next_provider_read_request_id in *. cbn [fst snd with_request_id] in H.
  match goal with |- context [router_read ?s ?r] => change (R 1 (w_ipc w) (router_read s r).1) in H;
    destruct (router_read s r) as [s2 x] end.
  split; [exact H|by split_and!].
Qed.

Create HintDb tracked.
#[local] Hint Resolve tracked_on_fs tracked_map_error tracked_try tracked_clean_up tracked_report : tracked.
#[local] Hint Extern 1 (tracked 0 (_ ≫= _)) => apply tracked_seq; [done| |intros ?] : tracked.
#[local] Hint Extern 2 (tracked 0 (mret _)) => by apply tracked_same : tracked.
#[local] Hint Extern 2 (tracked 0 (fail _)) => by apply tracked_same : tracked.
#[local] Hint Extern 2 (tracked 0 (lift _)) => by apply tracked_same : tracked.
#[local] Hint Extern 2 (tracked 0 get_ipc) => by apply tracked_same : tracked.

Ltac idle_tracked := apply (tracked_weaken 0); [split; [done|try done; try lia]|eauto with tracked].

Lemma tracked_plan request : tracked 0 (plan_materialize request).
Proof. unfold plan_materialize. repeat (apply tracked_seq; [done|solve [eauto with tracked]|intros ?]); repeat case_match; eauto 10 with tracked. Qed.

Lemma tracked_read_chunk pid entry a b : 0 <= a -> 0 <= b -> tracked 1 (read_materialize_chunk pid entry a b).
Proof.
  intros Ha Hb w. unfold read_materialize_chunk, mbind at 1, M_bind at 1, get_ipc at 1.
  destruct (Runtime_plan_provider_read _ _ _ _ _) as [plan|st] eqn:Hp.
  { apply plan_provider_length in Hp as [Hl _]; [|done..]. by apply tracked_provider_chunk. }
  destruct st; try (apply (steady_weaken 0); [done|apply steady_refl]).
  unfold mbind at 1, M_bind at 1, mret at 1, M_ret at 1, mbind at 1, M_bind at 1, get_ipc at 1, mbind at 1, M_bind at 1, lift at 1.
  destruct (Runtime_plan_read _ _ _ _ _) as [plan|st] eqn:Hr; [|apply (steady_weaken 0); [done|apply steady_refl]].
  destruct plan; [..|].
  all: try (apply (steady_weaken 0); [done|first [apply steady_refl|apply tracked_on_fs]]).
  apply tracked_provider_chunk. by apply plan_read_request_length in Hr.
Qed.

Lemma tracked_replacement n entry : tracked 0 (replacement_loop process_id n entry).
Proof.
  induction n as [|n IH]; cbn [replacement_loop]; [eauto with tracked|]. intros w.
  destruct (materialize_temp_path _ _ _) as [path|s]; [|split; [apply tk_refl|by split_and!]].
  pose proof (tracked_on_fs (open_materialize_output path) (set_w_temp (wrapping_add (w_temp_counter w) 1) w)) as H.
  destruct (on_fs _ _) as [w1 [[file identity]|err]]; [exact H|]. case_decide; [|exact H].
  eapply steady_trans; [| | |exact H|apply IH]; done.
Qed.

Lemma tracked_write_loop fuel pid entry file t rep offset :
  0 <= offset -> (forall n, tracked 0 (rep n)) ->
  tracked (Z.max 0 (me_size entry - offset)) (write_loop fuel pid entry file t rep offset).
Proof.
  intros Hoff Hrep. revert offset Hoff. induction fuel as [|fuel IH]; intros offset Hoff; cbn [write_loop].
  { idle_tracked. }
  destruct (Z.ltb_spec offset (me_size entry)); [|idle_tracked].
  apply (tracked_bind 1 (me_size entry - offset - 1)); [lia..| |intros bytes].
  { apply tracked_map_error, tracked_read_chunk; [done|]. unfold MAX_PROVIDER_READ_LEN. lia. }
  case_decide as Hb; [idle_tracked|]. assert (1 <= len bytes).
  { destruct bytes; [done|]. rewrite len_cons. pose proof (len_nonneg bytes). lia. }
  apply tracked_seq; [lia|eauto with tracked|intros _].
  destruct (checked_add offset (len bytes)) as [next|] eqn:Hadd; [|idle_tracked]. apply checked_add_Some in Hadd as [-> _].
  apply tracked_seq; [lia|eauto with tracked|intros _].
  eapply tracked_weaken; [|apply IH; lia]. lia.
Qed.

Lemma tracked_open entry policy : tracked 0 (open_materialized_file process_id entry policy).
Proof.
  unfold open_materialized_file. apply tracked_seq; [done|eauto with tracked|intros md].
  apply tracked_seq; [done|destruct md; [eauto with tracked|case_decide; eauto with tracked]|].
  intros b. destruct policy; [eauto with tracked| |eauto with tracked]. destruct b; [apply tracked_replacement|eauto with tracked].
Qed.

Lemma tracked_write_file pid entry policy rep :
  (forall n, tracked 0 (rep n)) ->
  tracked (Z.max 0 (me_size entry)) (write_materialized_file process_id pid entry policy rep).
Proof.
  intros Hrep. unfold write_materialized_file. apply tracked_seq; [lia|apply tracked_open|intros target].
  apply (tracked_bind (Z.max 0 (me_size entry)) 0); [lia..| |intros offset; eauto 10 with tracked].
  eapply tracked_weaken; [|by apply tracked_write_loop]. lia.
Qed.

Lemma tracked_create_directories policy entries g created :
  tracked 0 (create_directories client_progress policy entries g created).
Proof.
  revert g created. induction entries as [|e es IH]; intros g created; cbn [create_directories]; [eauto with tracked|].
  apply tracked_seq; [done|eauto with tracked|intros t]. apply tracked_seq; [done|eauto with tracked|intros _; apply IH].
Qed.

Lemma tracked_write_files pid policy entries g created :
  tracked (reads_of entries) (write_files process_id client_progress pid policy entries g created).
Proof.
  revert g created. induction entries as [|e es IH]; intros g created; cbn [write_files reads_of foldr]; [eauto with tracked|].
  fold (reads_of es). pose proof (reads_of_nonneg es).
  apply (tracked_bind (Z.max 0 (me_size e)) (reads_of es)); [lia..| |].
  { apply tracked_try, tracked_write_file. intros n. eauto with tracked. }
  intros [outcome|err]; [|idle_tracked]. apply tracked_seq; [done|eauto with tracked|intros _; apply IH].
Qed.

Lemma tracked_mark pid entries : tracked 0 (mark_materialized pid entries).
Proof.
  unfold mark_materialized. induction entries as [|e es IH]; cbn [for_each]; [eauto with tracked|].
  apply tracked_seq; [done| |done]. intros w.
  pose proof (tk_mark (w_ipc w) pid (me_relative_path e) (me_target_path e)) as H.
  destruct (Runtime_mark_node_materialized _ _ _ _) as [rt r]. split; [exact H|by split_and!].
Qed.

(** The operation reads the files that were planned. *)
Lemma tracked_materialize n body w :
  0 <= n ->
  (forall request plan w1, MaterializeRequest_from_body body = Ok request -> plan_materialize request w = (w1, Ok plan) ->
     reads_of (filter is_file_entry (mp_entries plan)) <= n) ->
  steady n w (materialize_node_in_state process_id client_progress body w).1.
Proof.
  intros Hn Hplan. unfold materialize_node_in_state.
  unfold mbind at 1, M_bind at 1, map_error at 1, lift at 1.
  destruct (MaterializeRequest_from_body body) as [request|x] eqn:Hreq; cbn [map_err fst];
    [|apply (steady_weaken 0); [lia|apply steady_refl]].
  unfold mbind at 1, M_bind at 1, map_error at 1. pose proof (tracked_plan request w) as Hp.
  destruct (plan_materialize request w) as [w1 [plan|x]] eqn:Hrun; cbn [map_err fst] in *;
    [|by apply (steady_weaken 0)].
  specialize (Hplan _ _ _ eq_refl Hrun). pose proof (reads_of_nonneg (filter is_file_entry (mp_entries plan))).
  eapply (steady_trans 0 (reads_of (filter is_file_entry (mp_entries plan)))); [lia..|exact Hp|].
  refine ((_ : tracked _ _) w1). apply tracked_seq; [done|eauto with tracked|intros _].
  apply tracked_seq; [done|apply tracked_create_directories|intros r1].
  apply (tracked_bind (reads_of (filter is_file_entry (mp_entries plan))) 0); [lia..|apply tracked_write_files|intros [g created]].
  apply tracked_seq; [done|eauto with tracked|intros _]. apply tracked_seq; [done|apply tracked_clean_up, tracked_mark|intros _].
  eauto with tracked.
Qed.

(** The final answer. *)
Lemma tracked_handle n body w :
  0 <= n ->
  (forall request plan w1, MaterializeRequest_from_body body = Ok request -> plan_materialize request w = (w1, Ok plan) ->
     reads_of (filter is_file_entry (mp_entries plan)) <= n) ->
  steady n w (handle_materialize process_id body w).1.
Proof.
  intros Hn Hplan. pose proof (tracked_materialize n body w Hn Hplan) as [Hr Hc]. unfold handle_materialize.
  destruct (materialize_node_in_state _ _ _ _) as [w1 r]. cbn [fst] in Hr, Hc.
  match goal with |- context [let '(_, _) := ?x in (set_w_client _ _, _)] =>
    assert (Hx : same_connection (w_client w1) x.1); [|destruct x as [c' res]] end.
  { destruct r as [counters|err]; [apply reply_same|]. destruct (oe_progress err) as [g|]; [|apply reply_status_error_same].
    destruct (has_partial g); [apply reply_same|apply reply_status_error_same]. }
  split; [exact Hr|by eapply same_connection_trans].
Qed.

Lemma tracked_handle_some body w : exists n, steady n w (handle_materialize process_id body w).1.
Proof.
  destruct (MaterializeRequest_from_body body) as [request|x] eqn:Hreq.
  2:{ exists 0. apply tracked_handle; [done|]. intros. congruence. }
  destruct (plan_materialize request w) as [w1 [plan|x]] eqn:Hplan.
  - exists (reads_of (filter is_file_entry (mp_entries plan))). apply tracked_handle; [apply reads_of_nonneg|].
    intros ? ? ? Hr H. rewrite Hreq in Hr. injection Hr as <-.
    rewrite Hplan in H. by injection H as _ <-.
  - exists 0. apply tracked_handle; [done|]. intros ? ? ? Hr H. rewrite Hreq in Hr.
    injection Hr as <-. by rewrite Hplan in H.
Qed.
End tracked.

(** What [route_provider_read] leaves alone. *)
Lemma calm_tracking env :
  (forall i, Forall env_calm (en_meanwhile (env i))) -> @Tracking (routed env) (fun _ => calm).
Proof.
  intros Henv. split; try done.
  - intros a b s1 s2 s3 _ _. apply transitivity.
  - intros s r _. unfold router_read, routed, routed_by.
    etrans; [|apply route_calm, Henv]. by apply calm_tables.
  - intros s pid path target. apply (calm_runtime s (OpMarkNodeMaterialized pid path target) I).
Qed.

(** The handler as a branch of [handle_request]: the file system and the
    counter of temporary names are the daemon's, not the connection's. *)
Definition materialize_branch {F} `{!FileSystem F, !Router, !Bincode Request, !Bincode Response}
    (process_id : Z) (f : F) (temp_counter : Z) (s : IpcState) (c : Client) (body : MaterializeBody) : Handled :=
  let '(w, r) := handle_materialize process_id body (mkWorld s f c temp_counter) in (w_ipc w, (w_client w, r)).

Lemma materialize_branch_frame {F} `{!FileSystem F, !Bincode Request, !Bincode Response}
    (env : Z -> ReadEnv) process_id (f : F) temp_counter :
  (forall i, Forall env_calm (en_meanwhile (env i))) ->
  materialize_frame (@materialize_branch F _ (routed env) _ _ process_id f temp_counter).
Proof.
  intros Henv s c body Hwf. unfold materialize_branch.
  destruct (@tracked_handle_some F _ _ _ (routed env) (fun _ => calm) (calm_tracking env Henv) process_id
    body (mkWorld s f c temp_counter)) as (_ & [C1 C2 C3 C4] & _ & H1 & H2 & H3).
  destruct (handle_materialize _ _ _) as [w r]. cbn in *. split_and!; auto.
Qed.

(** ** Properties *)

(** C26: [handle_materialize] is a well-behaved branch of the connection server.
    Whatever it is asked, whatever the client answers to the progress reports
    and whatever the file system does, it keeps the daemon's state well formed,
    registers no provider and commits no promise, revives no provider, leaves
    the connection's variables alone and only consumes bytes of the stream: it
    meets the interface that the server's theorems assume.  (While its provider
    reads wait, other threads may answer reads, disconnect providers and mark
    nodes, but not register or commit.) *)
Theorem handle_materialize_meets_interface {F} `{!FileSystem F, !Bincode Request, !Bincode Response}
    (env : Z -> ReadEnv) process_id (f : F) temp_counter :
  (forall i, Forall env_calm (en_meanwhile (env i))) ->
  materialize_frame (@materialize_branch F _ (routed env) _ _ process_id f temp_counter).
Proof. apply materialize_branch_frame. Qed.

(** An encoding of requests and responses that always fails. *)
Lemma handle_materialize_meets_interface_witness :
  @materialize_frame (@materialize_branch ModelFs _ (routed sample_answers)
    (Build_Bincode Request (fun _ => Err []) (fun _ => Err [])) (Build_Bincode Response (fun _ => Err []) (fun _ => Err [])) 7 sample_fs 0).
Proof.
  apply (@handle_materialize_meets_interface ModelFs _ _ _ sample_answers 7 sample_fs 0).
  intros i. repeat constructor.
Defined.
