(* ===== verification/Host.v ===== *)
(** * The operating system as the programs see it

    What [crates/fuse-promise-runtime/src/lib.rs] and
    [crates/fuse-promise-ipc/src/lib.rs] look up outside the process: the
    environment, what a path names, the user, the current directory; and the
    checks they make of the runtime directory, the mount point and the control
    socket.

    A [Host] is a moment of it.  The calls that change it ([mkdir], [unlink],
    [bind]) are arguments: computations on the host that can fail. *)

From S2P Require Import Prelude Types Paths Messages Mount Effect.

Inductive PathKind : Type := PathDirectory | PathSocket | PathSymlink | PathOther.

#[export] Instance PathKind_eq_decision : EqDecision PathKind.
Proof. solve_decision. Defined.

(** What the code reads of [fs::Metadata]. *)
Record PathMetadata : Type := mkPathMetadata {
  pa_kind : PathKind;
  pa_uid : Z;
  pa_mode : Z;
}.

Definition is_dir (m : PathMetadata) : bool := bool_decide (pa_kind m = PathDirectory).
Definition is_socket (m : PathMetadata) : bool := bool_decide (pa_kind m = PathSocket).
Definition is_symlink (m : PathMetadata) : bool := bool_decide (pa_kind m = PathSymlink).

Record Host : Type := mkHost {
  ho_xdg_runtime_dir : option str;
  (** [fs::metadata] follows links, [fs::symlink_metadata] does not. *)
  ho_metadata : str -> IoResult PathMetadata;
  ho_symlink_metadata : str -> IoResult PathMetadata;
  ho_current_uid : Z;
  ho_current_dir : IoResult str;
  (** whether a connection to the socket at the path succeeds *)
  ho_connect : str -> IoResult ();
}.

(** [mode & 0o077 != 0]: group or others have some permission. *)
Definition open_to_others (mode : Z) : bool := negb (Z.land mode 63 =? 0).

(** ** The runtime directory *)

Definition validate_runtime_dir_path (host : Host) (runtime_dir : str) : Result () :=
  if negb (is_absolute runtime_dir) then Err InvalidArgument
  else
    metadata ← map_err (fun _ => Unavailable) (ho_metadata host runtime_dir);
    if negb (is_dir metadata) then Err InvalidArgument
    else if negb (pa_uid metadata =? ho_current_uid host) then Err Permission
    else if open_to_others (pa_mode metadata) then Err Permission
    else Ok tt.

Definition default_mount_path (host : Host) : Result str :=
  match ho_xdg_runtime_dir host with
  | None => Err Unavailable
  | Some runtime_dir =>
      _ ← validate_runtime_dir_path host runtime_dir;
      Ok (path_join runtime_dir (bs "fuse-promise"))
  end.

Definition default_control_socket_path (host : Host) : Result str :=
  match ho_xdg_runtime_dir host with
  | None => Err Unavailable
  | Some runtime_dir =>
      _ ← validate_runtime_dir_path host runtime_dir;
      Ok (path_join runtime_dir (bs "fuse-promise.sock"))
  end.

(** ** The mount point *)

Definition validate_mount_dir_path (host : Host) (mount_path : str) : Result () :=
  if negb (is_absolute mount_path) then Err InvalidArgument
  else
    metadata ← map_err (fun _ => Unavailable) (ho_symlink_metadata host mount_path);
    if negb (is_dir metadata) then Err InvalidArgument
    else if negb (pa_uid metadata =? ho_current_uid host) then Err Permission
    else if open_to_others (pa_mode metadata) then Err Permission
    else Ok tt.

Section changes.
(** [DirBuilder::new().mode(mode).create(path)], [fs::create_dir_all],
    [fs::remove_file] and [UnixListener::bind]. *)
Context (create_dir : str -> Z -> M Host IoError ()).
Context (create_dir_all : str -> M Host IoError ()).
Context (remove_file : str -> M Host IoError ()).
Context (bind : str -> M Host IoError ()).

Definition create_dir_status (error : IoError) : Status :=
  match io_kind error with
  | KPermissionDenied => Permission
  | KAlreadyExists => AlreadyExists
  | _ => Io
  end.

Definition prepare_mount_dir (mount_path : str) : M Host Status () := fun host =>
  if negb (is_absolute mount_path) then (host, Err InvalidArgument)
  else
    match ho_symlink_metadata host mount_path with
    | Ok _ => (host, validate_mount_dir_path host mount_path)
    | Err error =>
        match io_kind error with
        | KNotFound =>
            let '(host, r) := create_dir mount_path 448 host in
            match r with
            | Err error => (host, Err (create_dir_status error))
            | Ok _ => (host, validate_mount_dir_path host mount_path)
            end
        | KPermissionDenied => (host, Err Permission)
        | _ => (host, Err Unavailable)
        end
    end.

(** ** The control socket *)

Definition remove_stale_socket (socket_path : str) : M Host IoError () := fun host =>
  match ho_symlink_metadata host socket_path with
  | Err _ => (host, Ok tt)
  | Ok metadata =>
      if negb (is_socket metadata)
      then (host, Err (mkIoError KAlreadyExists (bs "control socket path exists and is not a socket")))
      else if negb (pa_uid metadata =? ho_current_uid host)
      then (host, Err (mkIoError KPermissionDenied (bs "stale control socket is not owned by the current user")))
      else
        let '(host, r) := remove_file socket_path host in
        (host,
         match r with
         | Ok _ => Ok tt
         | Err error => if decide (io_kind error = KNotFound) then Ok tt else Err error
         end)
  end.

(** [listener.incoming()]: a thread is started for each connection, up to the
    first that cannot be accepted. *)
Fixpoint accept_loop {C} (incoming : list (IoResult C)) : list C * IoResult () :=
  match incoming with
  | [] => ([], Ok tt)
  | Err error :: _ => ([], Err error)
  | Ok stream :: incoming =>
      let '(threads, r) := accept_loop incoming in (stream :: threads, r)
  end.

Definition bind_status_socket {C} (socket_path : str) (incoming : list (IoResult C)) :
    M Host IoError (list C * IoResult ()) :=
  match path_parent socket_path with Some parent => create_dir_all parent | None => mret tt end;;
  remove_stale_socket socket_path;;
  bind socket_path;;
  mret (accept_loop incoming).

Definition serve_state {C} (incoming : list (IoResult C)) : M Host IoError (list C * IoResult ()) := fun host =>
  (socket_path ← lift (map_err status_to_io (default_control_socket_path host));
   bind_status_socket socket_path incoming) host.
End changes.

(** ** Properties *)

(** A directory that only the user can enter. *)
Definition private_dir (host : Host) (look : str -> IoResult PathMetadata) (path : str) : Prop :=
  is_absolute path = true /\
  exists mode, look path = Ok (mkPathMetadata PathDirectory (ho_current_uid host) mode) /\ Z.land mode 63 = 0.

Lemma open_to_others_false mode : open_to_others mode = false <-> Z.land mode 63 = 0.
Proof. unfold open_to_others. destruct (Z.eqb_spec (Z.land mode 63) 0); naive_solver. Qed.

Lemma validate_dir_Ok (host : Host) (look : str -> IoResult PathMetadata) path :
  (if negb (is_absolute path) then Err InvalidArgument
   else
     metadata ← map_err (fun _ => Unavailable) (look path);
     if negb (is_dir metadata) then Err InvalidArgument
     else if negb (pa_uid metadata =? ho_current_uid host) then Err Permission
     else if open_to_others (pa_mode metadata) then Err Permission
     else Ok tt) = Ok tt <-> private_dir host look path.
Proof.
  unfold private_dir. destruct (is_absolute path); cbn; [|naive_solver].
  destruct (look path) as [[kind uid mode]|e]; cbn; [|naive_solver].
  unfold is_dir. cbn. case_bool_decide as Hk; cbn; [subst|naive_solver].
  destruct (Z.eqb_spec uid (ho_current_uid host)) as [->|]; cbn; [|naive_solver].
  destruct (open_to_others mode) eqn:Ho; [|apply open_to_others_false in Ho; naive_solver].
  split; [done|]. intros (_ & mode' & [= <-] & H%open_to_others_false). congruence.
Qed.

Lemma prepare_mount_dir_private create_dir mount_path host host' :
  prepare_mount_dir create_dir mount_path host = (host', Ok tt) ->
  private_dir host' (ho_symlink_metadata host') mount_path.
Proof.
  unfold prepare_mount_dir. destruct (is_absolute mount_path); [cbn|done].
  destruct (ho_symlink_metadata host mount_path) as [m|e].
  - intros [= <- Hv]. by apply validate_dir_Ok in Hv.
  - destruct (io_kind e); try done. destruct (create_dir mount_path 448 host) as [h [[]|e']]; [|done].
    intros [= <- Hv]. by apply validate_dir_Ok in Hv.
Qed.

(** C32: the daemon works in private directories.  A default mount path or
    control socket path is given out only under a runtime directory that is
    absolute, belongs to the user and admits nobody else; [prepare_mount_dir]
    succeeds only when the mount point, whether it found or created it, is
    itself such a directory and not a link to one, and it creates nothing when
    something, or something it may not see, is there already. *)
Theorem directories_private create_dir host mount_path :
  (forall p, default_mount_path host = Ok p \/ default_control_socket_path host = Ok p ->
     exists dir, ho_xdg_runtime_dir host = Some dir /\ private_dir host (ho_metadata host) dir /\
       (p = path_join dir (bs "fuse-promise") \/ p = path_join dir (bs "fuse-promise.sock"))) /\
  (forall host', prepare_mount_dir create_dir mount_path host = (host', Ok tt) ->
     private_dir host' (ho_symlink_metadata host') mount_path) /\
  (forall host' r, prepare_mount_dir create_dir mount_path host = (host', r) ->
     (exists e, ho_symlink_metadata host mount_path = Err e /\ io_kind e = KNotFound /\
        host' = (create_dir mount_path 448 host).1) \/ host' = host).
Proof.
  split_and!.
  - intros p. unfold default_mount_path, default_control_socket_path.
    destruct (ho_xdg_runtime_dir host) as [dir|]; [|naive_solver]. exists dir. split; [done|].
    destruct (validate_runtime_dir_path host dir) as [[]|e] eqn:Hv; [|naive_solver].
    apply validate_dir_Ok in Hv. split; [done|]. cbn in H. naive_solver.
  - intros host'. apply prepare_mount_dir_private.
  - intros host' r. unfold prepare_mount_dir. destruct (is_absolute mount_path); [cbn|naive_solver].
    destruct (ho_symlink_metadata host mount_path) as [m|e]; [naive_solver|].
    destruct (io_kind e) eqn:Hk; try naive_solver.
    intros H. left. exists e. split_and!; [done..|]. destruct (create_dir mount_path 448 host) as [h [[]|e']]; naive_solver.
Qed.

(** A stale control socket is removed only if it is one.  Whatever is at the
    socket's path, [remove_stale_socket] removes it only when it is a socket of
    the user's own; anything else there makes the daemon refuse to start and is
    left alone. *)
Theorem remove_stale_socket_safe remove_file socket_path host :
  let '(host', r) := remove_stale_socket remove_file socket_path host in
  match ho_symlink_metadata host socket_path with
  | Err _ => host' = host /\ r = Ok tt
  | Ok metadata =>
      if decide (pa_kind metadata = PathSocket /\ pa_uid metadata = ho_current_uid host)
      then host' = (remove_file socket_path host).1
      else host' = host /\ is_ok r = false
  end.
Proof.
  unfold remove_stale_socket. destruct (ho_symlink_metadata host socket_path) as [[kind uid mode]|e]; [|done].
  unfold is_socket. cbn. case_bool_decide as Hk; cbn; [subst|by rewrite decide_False by naive_solver].
  destruct (Z.eqb_spec uid (ho_current_uid host)) as [->|]; cbn; [|by rewrite decide_False by naive_solver].
  destruct (remove_file socket_path host). by rewrite decide_True.
Qed.
