(* ===== verification/Client.v ===== *)
(** * The client's side of the protocol

    The functions of [crates/fuse-promise-ipc/src/lib.rs] that the C interface
    and [fpctl] call: each connects to the control socket, greets the daemon,
    sends one request and reads what comes back.

    A client computation is a computation on the stream of its connection: the
    bytes the daemon sends on it and those it accepts.  The loop of a
    materialization only receives and sends, which is the class [ClientEnd]. *)

From S2P Require Import Prelude Types Paths Messages Frame Commit Report Effect Host.

Record Stream : Type := mkStream {
  sm_reader : Reader;
  sm_writer : Writer;
}.

Record ProviderRegistration : Type := mkProviderRegistration {
  pg_provider_id : Z;
  pg_provider_owner_token : Z;
}.

(** The stream of a [ProviderConnection] is the state of the computations. *)
Record ProviderConnection : Type := mkProviderConnection {
  pc_provider_id : Z;
  pc_provider_owner_token : Z;
}.

Record PromiseCommitResponse : Type := mkPromiseCommitResponse {
  pm_promise_id : str;
  pm_visible_path : str;
}.

(** ** Errors and text *)

Definition counters_fields (c : MaterializeCounters) : list (str * Z) :=
  [ (bs "entries_done", mc_entries_done c); (bs "entries_total", mc_entries_total c);
    (bs "bytes_written", mc_bytes_written c); (bs "bytes_total", mc_bytes_total c);
    (bs "files_written", mc_files_written c); (bs "files_total", mc_files_total c);
    (bs "directories_created", mc_directories_created c); (bs "directories_total", mc_directories_total c) ].

Definition number_field (kv : str * Z) : str := field kv.1 (u64_to_string kv.2).

Definition materialize_failure_to_io (error : MaterializeFailedBody) : IoError :=
  mkIoError (error_code_to_io_kind (mf_code error))
    (mf_message error ++ bs "; " ++ field (bs "target_path") (mc_target_path (mf_counters error)) ++
     concat ((fun kv => bs "; " ++ number_field kv) <$> counters_fields (mf_counters error))).

(** [PathBuf::from] keeps the bytes; the other fields are copied. *)
Definition MaterializeResponse_from_body (body : MaterializeCounters) : MaterializeCounters :=
  mkMaterializeCounters (mc_target_path body) (mc_entries_done body) (mc_entries_total body)
    (mc_bytes_written body) (mc_bytes_total body) (mc_files_written body) (mc_files_total body)
    (mc_directories_created body) (mc_directories_total body).

Definition MaterializeResponse_encode_text (self : MaterializeCounters) : str :=
  line (bs "ok") ++ line (field (bs "target_path") (to_string_lossy (mc_target_path self))) ++
  concat ((fun kv => line (number_field kv)) <$> counters_fields self).

Definition MaterializeProgressReport_from_body (body : MaterializeCounters) : MaterializeCounters :=
  mkMaterializeCounters (mc_target_path body) (mc_entries_done body) (mc_entries_total body)
    (mc_bytes_written body) (mc_bytes_total body) (mc_files_written body) (mc_files_total body)
    (mc_directories_created body) (mc_directories_total body).

Definition MaterializeProgressReport_encode_text (self : MaterializeCounters) : str :=
  bs "progress " ++ field (bs "target_path") (to_string_lossy (mc_target_path self)) ++
  concat ((fun kv => bs " " ++ number_field kv) <$> counters_fields self).

(** ** Connecting *)

Definition validate_control_socket_for_connect (host : Host) (socket_path : str) : IoResult () :=
  metadata ← ho_symlink_metadata host socket_path;
  if negb (is_socket metadata)
  then Err (mkIoError KInvalidInput (bs "control socket path is not a socket"))
  else if negb (pa_uid metadata =? ho_current_uid host)
  then Err (mkIoError KPermissionDenied (bs "control socket is not owned by the current user"))
  else Ok tt.

Section client.
Context `{!Bincode Request, !Bincode Response}.

Definition send_request (request : Request) : M Stream IoError () := fun s =>
  let '(w, r) := write_frame (sm_writer s) request in (mkStream (sm_reader s) w, r).

Definition receive : M Stream IoError Response := fun s =>
  let '(reader, r) := read_response (sm_reader s) in (mkStream reader (sm_writer s), r).

Definition connect_and_hello (host : Host) (socket_path : str) : M Stream IoError () :=
  lift (validate_control_socket_for_connect host socket_path);;
  lift (ho_connect host socket_path);;
  send_request (RequestHello IPC_PROTOCOL_VERSION API_VERSION);;
  response ← receive;
  lift (expect_hello response).

(** What each function makes of the daemon's answer. *)
Definition status_answer (response : Response) : IoResult str :=
  match response with
  | ResponseStatus status => Ok (StatusBody_encode_text status)
  | ResponseError error => Err (error_to_io error)
  | _ => Err (invalid_data (bs "daemon returned an unexpected status response"))
  end.

Definition inspect_answer (response : Response) : IoResult str :=
  match response with
  | ResponseInspect inspect => Ok (InspectBody_encode_text inspect)
  | ResponseError error => Err (error_to_io error)
  | _ => Err (invalid_data (bs "daemon returned an unexpected inspect response"))
  end.

Definition register_answer (response : Response) : IoResult ProviderConnection :=
  match response with
  | ResponseProviderRegistered provider_id provider_owner_token =>
      Ok (mkProviderConnection provider_id provider_owner_token)
  | ResponseError error => Err (error_to_io error)
  | _ => Err (invalid_data (bs "daemon returned an unexpected provider register response"))
  end.

Definition unregister_answer (response : Response) : IoResult () :=
  match response with
  | ResponseProviderUnregistered => Ok tt
  | ResponseError error => Err (error_to_io error)
  | _ => Err (invalid_data (bs "daemon returned an unexpected provider unregister response"))
  end.

Definition commit_answer (response : Response) : IoResult PromiseCommitResponse :=
  match response with
  | ResponsePromiseCommitted response =>
      Ok (mkPromiseCommitResponse (cd_promise_id response) (cd_visible_path response))
  | ResponseError error => Err (error_to_io error)
  | _ => Err (invalid_data (bs "daemon returned an unexpected promise commit response"))
  end.

Definition query_status (host : Host) (socket_path : str) : M Stream IoError str :=
  connect_and_hello host socket_path;;
  send_request RequestStatus;;
  response ← receive;
  lift (status_answer response).

Definition query_inspect (host : Host) (socket_path : str) : M Stream IoError str :=
  connect_and_hello host socket_path;;
  send_request RequestInspect;;
  response ← receive;
  lift (inspect_answer response).

Definition connect_provider (host : Host) (socket_path : str) : M Stream IoError ProviderConnection :=
  connect_and_hello host socket_path;;
  send_request RequestProviderRegister;;
  response ← receive;
  lift (register_answer response).

(** The connection is dropped when the function returns. *)
Definition register_provider (host : Host) (socket_path : str) : M Stream IoError ProviderRegistration :=
  connection ← connect_provider host socket_path;
  mret (mkProviderRegistration (pc_provider_id connection) (pc_provider_owner_token connection)).

Definition unregister_provider (host : Host) (socket_path : str)
    (provider_id provider_owner_token : Z) : M Stream IoError () :=
  connect_and_hello host socket_path;;
  send_request (RequestProviderUnregister provider_id provider_owner_token);;
  response ← receive;
  lift (unregister_answer response).

Definition commit_promise (host : Host) (socket_path : str) (request : PromiseCommitRequest) :
    M Stream IoError PromiseCommitResponse :=
  connect_and_hello host socket_path;;
  send_request (RequestPromiseCommit (PromiseCommitRequest_into_body request));;
  response ← receive;
  lift (commit_answer response).

(** ** The provider's connection *)

Definition write_provider_read_request (writer : Writer) (request : ProviderReadRequest) :
    Writer * IoResult () :=
  match ProviderReadRequest_into_body request with
  | Err e => (writer, Err e)
  | Ok body => write_frame writer (ResponseProviderReadRequest body)
  end.

Definition read_provider_read_request (reader : Reader) : Reader * IoResult (option ProviderReadRequest) :=
  let '(reader, r) := read_frame reader in
  (reader,
   response ← r;
   match response with
   | Some (ResponseProviderReadRequest request) => Some <$> ProviderReadRequest_from_body request
   | Some (ResponseError error) => Err (error_to_io error)
   | Some _ => Err (invalid_data (bs "non-provider-read response received where request was expected"))
   | None => Ok None
   end).

Definition write_provider_read_response (writer : Writer) (response : ProviderReadResponse) :
    Writer * IoResult () :=
  match ProviderReadResponse_into_body response with
  | Err e => (writer, Err e)
  | Ok body => write_frame writer (RequestProviderReadResponse body)
  end.

Definition read_provider_read_response (reader : Reader) : Reader * IoResult (option ProviderReadResponse) :=
  let '(reader, r) := read_frame reader in
  (reader,
   request ← r;
   match request with
   | Some (RequestProviderReadResponse response) => Some <$> ProviderReadResponse_from_body response
   | Some _ => Err (invalid_data (bs "non-provider-read request received where response was expected"))
   | None => Ok None
   end).

Definition ProviderConnection_read_provider_read_request :
    M Stream IoError (option ProviderReadRequest) := fun s =>
  let '(reader, r) := read_provider_read_request (sm_reader s) in (mkStream reader (sm_writer s), r).

Definition ProviderConnection_write_provider_read_response (response : ProviderReadResponse) :
    M Stream IoError () := fun s =>
  let '(w, r) := write_provider_read_response (sm_writer s) response in (mkStream (sm_reader s) w, r).

Definition ProviderConnection_unregister (self : ProviderConnection) : M Stream IoError () :=
  send_request (RequestProviderUnregister (pc_provider_id self) (pc_provider_owner_token self));;
  response ← receive;
  lift (unregister_answer response).
End client.

(** ** Materializing with progress *)

Definition materialize_answer (response : Response) : IoResult MaterializeCounters :=
  match response with
  | ResponseMaterialized response => Ok (MaterializeResponse_from_body response)
  | ResponseMaterializeFailed error => Err (materialize_failure_to_io error)
  | ResponseError error => Err (error_to_io error)
  | _ => Err (invalid_data (bs "daemon returned an unexpected materialize response"))
  end.

(** The client's end of a connection: what the loop does with it. *)
Class ClientEnd (S : Type) := {
  end_receive : S -> S * IoResult Response;
  end_send : Request -> S -> S * IoResult ();
}.

#[export] Instance stream_end `{!Bincode Request, !Bincode Response} : ClientEnd Stream := {|
  end_receive := receive;
  end_send := send_request;
|}.

(** The caller's callback keeps its own state [U].  Its errors are values of
    [E], an [io::Error] that may carry something else than a message, and
    [wrap] are the errors that do not come from it. *)
Section materialize_client.
Context {U E : Type} (wrap : IoError -> E).
Context (on_progress : U -> MaterializeCounters -> U * result E ()).

(** The [loop], on at most [fuel] responses. *)
Fixpoint materialize_loop {S} `{!ClientEnd S} (fuel : nat) (s : S) (u : U) :
    option (S * U * result E MaterializeCounters) :=
  match fuel with
  | O => None
  | Datatypes.S fuel =>
      let '(s, r) := end_receive s in
      match r with
      | Err e => Some (s, u, Err (wrap e))
      | Ok (ResponseMaterializeProgress progress) =>
          let '(u, r) := on_progress u (MaterializeProgressReport_from_body progress) in
          match r with
          | Err error =>
              let s := (end_send RequestMaterializeCancel s).1 in
              let s := (end_receive s).1 in
              Some (s, u, Err error)
          | Ok _ =>
              let '(s, r) := end_send RequestMaterializeContinue s in
              match r with
              | Err e => Some (s, u, Err (wrap e))
              | Ok _ => materialize_loop fuel s u
              end
          end
      | Ok response => Some (s, u, map_err wrap (materialize_answer response))
      end
  end.

Definition materialize_file_with_progress `{!Bincode Request, !Bincode Response} (fuel : nat) (host : Host) (socket_path : str)
    (request : MaterializeRequest) (s : Stream) (u : U) : option (Stream * U * result E MaterializeCounters) :=
  let '(s, r) := (connect_and_hello host socket_path;;
                  body ← lift (MaterializeRequest_into_body request);
                  send_request (RequestMaterialize body)) s in
  match r with
  | Err e => Some (s, u, Err (wrap e))
  | Ok _ => materialize_loop fuel s u
  end.
End materialize_client.

Definition materialize_file `{!Bincode Request, !Bincode Response} (fuel : nat) (host : Host)
    (socket_path : str) (request : MaterializeRequest) (s : Stream) :
    option (Stream * () * IoResult MaterializeCounters) :=
  materialize_file_with_progress id (fun u _ => (u, Ok tt)) fuel host socket_path request s tt.

(** ** A codec *)

(** A message is its position in a table: a codec for the messages of an
    example. *)
Section table_codec.
Context {T : Type} `{!EqDecision T}.

Definition table_codec (table : list T) : Bincode T := {|
  encode_to_vec := fun m =>
    match list_find (fun x => x = m) table with
    | Some (i, _) => Ok [byte_of (Z.of_nat i)]
    | None => Err []
    end;
  decode_from_slice := fun body =>
    match body with
    | [b] => match table !! Z.to_nat (byte_val b) with Some m => Ok (m, 1) | None => Err [] end
    | _ => Err []
    end |}.

Lemma table_codec_ok table : (length table <= 256)%nat -> @BincodeOk T (table_codec table).
Proof.
  intros Hlen m body. cbn. destruct (list_find (fun x => x = m) table) as [[i x]|] eqn:Hf; [|done].
  apply list_find_Some in Hf as (Hi & -> & _). intros [= <-]. pose proof (lookup_lt_Some _ _ _ Hi).
  rewrite byte_val_of, Nat2Z.id, Hi by lia. done.
Qed.
End table_codec.

(** ** Streams of frames *)

(** The frame of a message that can be sent. *)
Definition encodable {T} `{!Bincode T} (m : T) : Prop :=
  exists body, encode_to_vec m = Ok body /\ len body <= MAX_FRAME_LEN.

(** An answer of the size that is allowed fits in a frame. *)
Lemma answer_encodable `{!Bincode Request, !BincodeCompact} body :
  in_u64 (rb_request_id body) -> len (rb_bytes body) <= MAX_PROVIDER_READ_LEN ->
  encodable (RequestProviderReadResponse body).
Proof.
  intros Hid Hlen. unfold MAX_PROVIDER_READ_LEN in Hlen.
  destruct (bincode_compact body) as (bytes & Hb & Hl); [done|unfold u32_max; lia|].
  exists bytes. split; [done|]. unfold MAX_FRAME_LEN. lia.
Qed.

Definition message_frame {T} `{!Bincode T} (m : T) : list byte :=
  match encode_to_vec m with Ok body => frame_of body | Err _ => [] end.

Section framed.
Context {T : Type} `{!Bincode T}.

Lemma write_message out (m : T) :
  encodable m -> write_frame (mkWriter out None) m = (mkWriter (out ++ message_frame m) None, Ok tt).
Proof. intros (body & Hm & Hl). unfold message_frame. rewrite Hm. by apply write_frame_unlimited. Qed.

Lemma read_message `{!BincodeOk T} (m : T) rest e :
  encodable m -> read_frame (mkReader (message_frame m ++ rest) e) = (mkReader rest e, Ok (Some m)).
Proof.
  intros (body & Hm & Hl). unfold message_frame. rewrite Hm, read_frame_body by done.
  rewrite (bincode_roundtrip m body Hm). cbn. by rewrite Z.eqb_refl.
Qed.

Lemma read_message_end e : read_frame (T := T) (mkReader [] e) = (mkReader [] e, match e with None => Ok None | Some e => Err e end).
Proof. by destruct e. Qed.

(** A whole stream. *)
Lemma read_messages `{!BincodeOk T} (ms : list T) :
  Forall encodable ms ->
  let bytes := concat (message_frame <$> ms) in
  read_frames (S (length bytes)) (mkReader bytes None) = Some (ms, Ok tt).
Proof.
  intros Hms bytes. assert (H : exists fuel, read_frames fuel (mkReader bytes None) = Some (ms, Ok tt)).
  { unfold bytes. clear bytes. induction Hms as [|m ms Hm Hms [fuel IH]]; [by exists 1%nat|].
    exists (S fuel). cbn [fmap list_fmap concat read_frames]. rewrite read_message by done. by rewrite IH. }
  destruct H as [fuel Hf]. destruct (read_frames_total (T := T) (S (length bytes)) (mkReader bytes None)) as [x Hx]; [cbn; lia|].
  rewrite Hx. apply (read_frames_fuel _ (fuel + S (length bytes))) in Hx, Hf; [congruence|lia..].
Qed.
End framed.

Section client_lemmas.
Context `{!Bincode Request, !Bincode Response}.

Lemma send_message rd out (q : Request) :
  encodable q -> send_request q (mkStream rd (mkWriter out None)) = (mkStream rd (mkWriter (out ++ message_frame q) None), Ok tt).
Proof. intros Hq. unfold send_request. cbn. by rewrite write_message. Qed.

Lemma receive_message `{!BincodeOk Response} (response : Response) rest e w :
  encodable response ->
  receive (mkStream (mkReader (message_frame response ++ rest) e) w) = (mkStream (mkReader rest e) w, Ok response).
Proof. intros Hr. unfold receive, read_response. cbn. by rewrite read_message. Qed.

Lemma receive_shrinks s s' response :
  receive s = (s', Ok response) -> (length (rd_bytes (sm_reader s')) < length (rd_bytes (sm_reader s)))%nat.
Proof.
  unfold receive, read_response. destruct (read_frame (sm_reader s)) as [r' [[m|]|e]] eqn:Hr; cbn; try done.
  intros [= <- <-]. cbn. by eapply read_frame_shrinks.
Qed.

Lemma send_reader s s' q r : send_request q s = (s', r) -> sm_reader s' = sm_reader s.
Proof. unfold send_request. destruct (write_frame _ _). by intros [= <- _]. Qed.

(** The [loop] ends: every turn consumes bytes of the stream. *)
Section loop_ends.
Context {S U E : Type} `{!ClientEnd S} (wrap : IoError -> E) (f : U -> MaterializeCounters -> U * result E ()).
Context (size : S -> nat) (Hreceive : forall s s' r, end_receive s = (s', Ok r) -> (size s' < size s)%nat)
  (Hsend : forall q s s' r, end_send q s = (s', r) -> size s' = size s).

Lemma loop_total fuel s u : (size s < fuel)%nat -> is_Some (materialize_loop wrap f fuel s u).
Proof.
  revert s u. induction fuel as [|fuel IH]; intros s u Hf; [lia|]. cbn.
  destruct (end_receive s) as [s1 [response|e]] eqn:Hr; [|eauto]. apply Hreceive in Hr.
  destruct response; eauto. destruct (f u _) as [u1 [[]|e]]; [|eauto].
  destruct (end_send RequestMaterializeContinue s1) as [s2 [[]|e]] eqn:Hs; [|eauto].
  apply Hsend in Hs. apply IH. rewrite Hs. lia.
Qed.

Lemma loop_fuel fuel fuel' s u x :
  materialize_loop wrap f fuel s u = Some x -> (fuel <= fuel')%nat -> materialize_loop wrap f fuel' s u = Some x.
Proof.
  revert fuel' s u. induction fuel as [|fuel IH]; intros [|fuel'] s u; cbn; try done; [lia|].
  destruct (end_receive s) as [s1 [response|e]]; [|done]. destruct response; try done.
  destruct (f u _) as [u1 [[]|e]]; [|done]. destruct (end_send _ s1) as [s2 [[]|e]]; [|done].
  intros H Hle. apply IH; [done|lia].
Qed.

(** Any result is the result with as much fuel as there are bytes. *)
Lemma loop_enough fuel fuel' s u x :
  materialize_loop wrap f fuel s u = Some x -> (size s < fuel')%nat -> materialize_loop wrap f fuel' s u = Some x.
Proof.
  intros Hx Hf. destruct (loop_total fuel' s u Hf) as [y Hy]. rewrite Hy.
  apply (loop_fuel _ (fuel + fuel')) in Hx, Hy; [congruence|lia..].
Qed.
End loop_ends.

Definition stream_size (s : Stream) : nat := length (rd_bytes (sm_reader s)).

Lemma materialize_loop_total {U E} (wrap : IoError -> E) (f : U -> MaterializeCounters -> U * result E ()) fuel s u :
  (length (rd_bytes (sm_reader s)) < fuel)%nat -> is_Some (materialize_loop wrap f fuel s u).
Proof.
  apply (loop_total wrap f stream_size); [apply receive_shrinks|]. intros q s1 s2 r Hs%send_reader. unfold stream_size. by rewrite Hs.
Qed.

Lemma materialize_loop_enough {U E} (wrap : IoError -> E) (f : U -> MaterializeCounters -> U * result E ()) fuel fuel' s u x :
  materialize_loop wrap f fuel s u = Some x -> (length (rd_bytes (sm_reader s)) < fuel')%nat ->
  materialize_loop wrap f fuel' s u = Some x.
Proof.
  apply (loop_enough wrap f stream_size); [apply receive_shrinks|]. intros q s1 s2 r Hs%send_reader. unfold stream_size. by rewrite Hs.
Qed.

(** So does the whole call, whatever the daemon sends. *)
Lemma materialize_with_progress_total {U E} (wrap : IoError -> E) (f : U -> MaterializeCounters -> U * result E ())
    fuel host socket_path request s u :
  (length (rd_bytes (sm_reader s)) < fuel)%nat ->
  is_Some (materialize_file_with_progress wrap f fuel host socket_path request s u).
Proof.
  intros Hf. unfold materialize_file_with_progress.
  assert (Hs : forall s' r, (connect_and_hello host socket_path;; body ← lift (MaterializeRequest_into_body request);
    send_request (RequestMaterialize body)) s = (s', Ok r) -> (length (rd_bytes (sm_reader s')) <= length (rd_bytes (sm_reader s)))%nat).
  { intros s' r (s1 & [] & Hc & (s2 & body & [= <- Hb] & Hsend)%bind_run)%bind_run.
    unfold connect_and_hello in Hc. apply bind_run in Hc as (s3 & [] & [= <- _] & (s4 & [] & [= <- _] & Hc)%bind_run).
    apply bind_run in Hc as (s5 & [] & Hh%send_reader & (s6 & response & Hr%receive_shrinks & [= <- _])%bind_run).
    apply send_reader in Hsend. rewrite Hsend. rewrite Hh in Hr. lia. }
  match goal with |- context [match ?m with _ => _ end] => destruct m as [s' [r|e]]; [|by eexists] end.
  apply materialize_loop_total. specialize (Hs s' r eq_refl). lia.
Qed.

End client_lemmas.

(** ** The progress protocol *)

Section protocol.
Context `{!Bincode Request, !Bincode Response}.
Context {U E : Type} (wrap : IoError -> E) (on_progress : U -> MaterializeCounters -> U * result E ()).

(** The callback on a sequence of reports: its state, the number of reports it
    accepted, and what it returned for the one it did not accept. *)
Fixpoint feed (u : U) (reports : list MaterializeCounters) : U * nat * option E :=
  match reports with
  | [] => (u, 0%nat, None)
  | report :: reports =>
      let '(u, r) := on_progress u report in
      match r with
      | Err e => (u, 0%nat, Some e)
      | Ok _ => let '(u, n, r) := feed u reports in (u, S n, r)
      end
  end.

Definition progress_frames (reports : list MaterializeCounters) : list byte :=
  concat ((fun p => message_frame (ResponseMaterializeProgress p)) <$> reports).

Definition continue_frames (n : nat) : list byte :=
  concat (replicate n (message_frame RequestMaterializeContinue)).

Definition is_progress (response : Response) : bool :=
  match response with ResponseMaterializeProgress _ => true | _ => false end.

Lemma progress_frames_cons p reports :
  progress_frames (p :: reports) = message_frame (ResponseMaterializeProgress p) ++ progress_frames reports.
Proof. done. Qed.

Lemma continue_frames_S n :
  continue_frames (S n) = message_frame RequestMaterializeContinue ++ continue_frames n.
Proof. done. Qed.

Lemma from_body_id p : MaterializeProgressReport_from_body p = p.
Proof. by destruct p. Qed.

(** What the client answers: [n] reports were accepted, and possibly one was not. *)
Definition acks (n : nat) (refused : option E) : list byte :=
  continue_frames n ++ match refused with Some _ => message_frame RequestMaterializeCancel | None => [] end.

(** The loop on a connection that delivers the given bytes and has accepted
    others; [conn input out] is what it may be, and [stopped out c] that it has
    nothing more to deliver. *)
Section over.
Context {S : Type} `{!ClientEnd S} (conn : list byte -> list byte -> S) (stopped : list byte -> S -> Prop).
Context (Hreceive : forall (m : Response) rest out, encodable m ->
  end_receive (conn (message_frame m ++ rest) out) = (conn rest out, Ok m)).
Context (Hsend : forall (q : Request) input out, encodable q ->
  end_send q (conn input out) = (conn input (out ++ message_frame q), Ok tt)).
Context (Hempty : forall out, exists s e, end_receive (conn [] out) = (s, Err e) /\ stopped out s).
Context (Hcont : encodable RequestMaterializeContinue) (Hcanc : encodable RequestMaterializeCancel).

Lemma loop_protocol reports final rest :
  Forall (fun p => encodable (ResponseMaterializeProgress p)) reports -> encodable final -> is_progress final = false ->
  forall u out, let '(u', n, refused) := feed u reports in
  exists fuel, materialize_loop wrap on_progress fuel (conn (progress_frames reports ++ message_frame final ++ rest) out) u =
  Some (match refused with
        | None => (conn rest (out ++ acks n refused), u', map_err wrap (materialize_answer final))
        | Some e => ((end_receive (conn (progress_frames (drop (Datatypes.S n) reports) ++ message_frame final ++ rest)
                                     (out ++ acks n refused))).1, u', Err e)
        end).
Proof.
  intros Hreports Hfinal Hnot. induction Hreports as [|p reports Hp Hreports IH]; intros u out; cbn [feed].
  - exists 1%nat. cbn [materialize_loop]. unfold acks, progress_frames, continue_frames. cbn [fmap list_fmap concat replicate app].
    rewrite Hreceive, app_nil_r by done. by destruct final.
  - destruct (on_progress u p) as [u1 [[]|e]] eqn:Hcb.
    + specialize (IH u1 (out ++ message_frame RequestMaterializeContinue)).
      destruct (feed u1 reports) as [[u2 n] refused]. destruct IH as (fuel & IH).
      exists (Datatypes.S fuel). cbn [materialize_loop]. rewrite progress_frames_cons, <- app_assoc, Hreceive by done.
      unfold acks in *. rewrite from_body_id, Hcb, Hsend, IH, continue_frames_S by done. by rewrite <- !app_assoc.
    + exists 1%nat. cbn [materialize_loop]. rewrite progress_frames_cons, <- app_assoc, Hreceive by done.
      rewrite from_body_id, Hcb, Hsend by done. done.
Qed.

(** Nothing follows the reports: the client has answered them, and then found
    nothing. *)
Lemma loop_stops reports :
  Forall (fun p => encodable (ResponseMaterializeProgress p)) reports ->
  forall u out, let '(u', n, refused) := feed u reports in
  (if refused then length reports = Datatypes.S n else True) ->
  exists fuel s r, materialize_loop wrap on_progress fuel (conn (progress_frames reports) out) u = Some (s, u', r) /\
    stopped (out ++ acks n refused) s.
Proof.
  intros Hreports. induction Hreports as [|p reports Hp Hreports IH]; intros u out; cbn [feed].
  - intros _. destruct (Hempty out) as (s & e & Hr & Hs). exists 1%nat, s, (Err (wrap e)). cbn [materialize_loop].
    change (progress_frames []) with (@nil byte). rewrite Hr. unfold acks, continue_frames. cbn. by rewrite app_nil_r.
  - destruct (on_progress u p) as [u1 [[]|e]] eqn:Hcb.
    + specialize (IH u1 (out ++ message_frame RequestMaterializeContinue)).
      destruct (feed u1 reports) as [[u2 n] refused]. intros Hl. destruct IH as (fuel & s & r & IH & Hs).
      { destruct refused; [cbn in Hl; lia|done]. }
      exists (Datatypes.S fuel), s, r. cbn [materialize_loop]. rewrite progress_frames_cons, Hreceive by done.
      rewrite from_body_id, Hcb, Hsend by done. split; [done|]. unfold acks in *. by rewrite continue_frames_S, <- !app_assoc, app_assoc.
    + cbn [length]. intros Hl. destruct reports as [|? ?]; [|done].
      destruct (Hempty (out ++ message_frame RequestMaterializeCancel)) as (s & x & Hr & Hs).
      exists 1%nat, s, (Err e). cbn [materialize_loop]. rewrite progress_frames_cons, Hreceive by done.
      rewrite from_body_id, Hcb, Hsend by done. change (progress_frames []) with (@nil byte). cbn [fst]. by rewrite Hr.
Qed.
End over.

Lemma materialize_loop_protocol `{!BincodeOk Response} reports final rest :
  Forall (fun p => encodable (ResponseMaterializeProgress p)) reports -> encodable final -> is_progress final = false ->
  encodable RequestMaterializeContinue -> encodable RequestMaterializeCancel ->
  forall u out, let '(u', n, refused) := feed u reports in
  exists fuel, materialize_loop wrap on_progress fuel
    (mkStream (mkReader (progress_frames reports ++ message_frame final ++ rest) None) (mkWriter out None)) u =
  Some (match refused with
        | None => (mkStream (mkReader rest None) (mkWriter (out ++ acks n refused) None), u',
                   map_err wrap (materialize_answer final))
        | Some e => (mkStream (read_response (mkReader (progress_frames (drop (S n) reports) ++ message_frame final ++ rest) None)).1
                       (mkWriter (out ++ acks n refused) None), u', Err e)
        end).
Proof.
  intros Hreports Hfinal Hnot Hcont Hcanc u out.
  pose proof (loop_protocol (fun input out => mkStream (mkReader input None) (mkWriter out None))) as H.
  specialize (H ltac:(intros; by apply receive_message) ltac:(intros; by apply send_message) Hcont Hcanc reports final rest Hreports Hfinal Hnot u out).
  destruct (feed u reports) as [[u' n] [e|]]; [|done]. destruct H as [fuel H]. exists fuel. rewrite H. cbn. unfold receive. cbn.
  by destruct (read_response _) as [reader r].
Qed.
End protocol.
