(* ===== verification/ClientServer.v ===== *)
(** * The client and the daemon together

    The functions of [Client] run against the connection server of [Server]:
    the bytes that one side writes are those that the other side reads. *)

From S2P Require Import Prelude Types Paths Cache Tree Runtime Messages Frame Commit Mount IpcState Routing Report Server Effect Host Client.

Section served.
Context `{!Bincode Request, !Bincode Response}.
Context (default_mount_path default_control_socket_path : Result str).
Context (handle_materialize : IpcState -> Client -> MaterializeBody -> Handled).

(** The daemon in state [s] serves a connection on which the client runs
    [call]: the call returns [result] after it has read all that the daemon
    wrote; the daemon, which has then read all that the client wrote and found
    the end of the stream, is in state [s'] and holds [registered] as the
    connection's providers, which it is about to disconnect. *)
Definition served {A} (s : IpcState) (id : ConnId) (env : RegisterEnv) (call : M Stream IoError A)
    (s' : IpcState) (registered : list ProviderId) (result : IoResult A) : Prop :=
  exists requests replies,
    call (mkStream (mkReader replies None) (mkWriter [] None)) =
      (mkStream (mkReader [] None) (mkWriter requests None), result) /\
    handle_client_requests default_mount_path default_control_socket_path handle_materialize s
      (mkClient id (mkReader requests None) (mkWriter [] None) false []) [env; env; env] =
      Some (s', (mkClient id (mkReader [] None) (mkWriter replies None) true registered, Ok tt)).

(** A host on which the control socket is the user's own and accepts. *)
Definition host_ok (host : Host) (socket_path : str) : Prop :=
  (exists mode, ho_symlink_metadata host socket_path = Ok (mkPathMetadata PathSocket (ho_current_uid host) mode)) /\
  ho_connect host socket_path = Ok tt.

Definition hello_request : Request := RequestHello IPC_PROTOCOL_VERSION API_VERSION.
Definition hello_response : Response := ResponseHello IPC_PROTOCOL_VERSION API_VERSION.

Definition hello_ok : Prop := encodable hello_request /\ encodable hello_response.

Context `{!BincodeOk Request, !BincodeOk Response}.

(** ** Serving one message *)

Abbreviation serve := (handle_client_requests default_mount_path default_control_socket_path handle_materialize).
Abbreviation handle := (handle_request default_mount_path default_control_socket_path handle_materialize).

Lemma serve_message s c env envs q rest s1 c1 :
  cl_reader c = mkReader (message_frame q ++ rest) None -> encodable q ->
  handle s (set_reader (mkReader rest None) c) env q = (s1, (c1, Ok tt)) ->
  serve s c (env :: envs) = serve s1 c1 envs.
Proof. intros Hc Hq Hh. cbn [handle_client_requests]. rewrite Hc, read_message by done. by rewrite Hh. Qed.

Lemma serve_end s c env envs :
  cl_reader c = mkReader [] None -> serve s c (env :: envs) = Some (s, (c, Ok tt)).
Proof. intros Hc. cbn [handle_client_requests]. rewrite Hc, read_message_end. destruct c; cbn in *. by subst. Qed.

Lemma reply_message c out response :
  cl_writer c = mkWriter out None -> encodable response ->
  reply c response = (set_writer (mkWriter (out ++ message_frame response) None) c, Ok tt).
Proof. intros Hc Hr. unfold reply. by rewrite Hc, write_message. Qed.

(** ** One call *)

Context (host : Host) (socket_path : str).
Context (Hhost : host_ok host socket_path) (Hhello : hello_ok).

Lemma connect_and_hello_ok replies :
  connect_and_hello host socket_path (mkStream (mkReader (message_frame hello_response ++ replies) None) (mkWriter [] None)) =
    (mkStream (mkReader replies None) (mkWriter (message_frame hello_request) None), Ok tt).
Proof.
  destruct Hhost as [[mode Hm] Hc], Hhello as [H1 H2].
  unfold connect_and_hello, validate_control_socket_for_connect. rewrite Hm, Hc. cbn.
  rewrite Z.eqb_refl. cbn. unfold mbind, M_bind, lift. fold hello_request.
  rewrite send_message by done. rewrite receive_message by done. done.
Qed.

(** The connection once the greeting is over. *)
Definition greeted (id : ConnId) (requests : list byte) : Client :=
  mkClient id (mkReader requests None) (mkWriter (message_frame hello_response) None) true [].

Lemma handle_hello s id env requests :
  handle s (mkClient id (mkReader requests None) (mkWriter [] None) false []) env hello_request =
    (s, (greeted id requests, Ok tt)).
Proof. unfold handle_request, hello_request. cbn [Z.eqb Pos.eqb andb IPC_PROTOCOL_VERSION API_VERSION]. by erewrite reply_message; [|done|apply Hhello]. Qed.

(** One request, answered by one response. *)
Lemma served_exchange {A} s id env q (k : Response -> IoResult A) s' registered response :
  encodable q -> encodable response ->
  handle_request default_mount_path default_control_socket_path handle_materialize s (greeted id []) env q =
    (s', (mkClient id (mkReader [] None)
            (mkWriter (message_frame hello_response ++ message_frame response) None) true registered, Ok tt)) ->
  served s id env
    (connect_and_hello host socket_path;; send_request q;; r ← receive; lift (k r)) s' registered (k response).
Proof.
  intros Hq Hr Hh. exists (message_frame hello_request ++ message_frame q),
    (message_frame hello_response ++ message_frame response). split.
  - erewrite bind_step by apply connect_and_hello_ok. erewrite bind_step by by apply send_message.
    erewrite bind_step; [done|]. rewrite <- (app_nil_r (message_frame response)). by apply receive_message.
  - erewrite serve_message; [|done|apply Hhello|apply handle_hello].
    erewrite serve_message; [|cbn; by rewrite app_nil_r|done|exact Hh].
    by apply serve_end.
Qed.
End served.

(** The result of a call, processed further by the client. *)
Lemma served_map `{!Bincode Request, !Bincode Response} dm ds hm {A B} s id env (m : M Stream IoError A) (f : A -> B) s' reg r :
  served dm ds hm s id env m s' reg r -> served dm ds hm s id env (a ← m; mret (f a)) s' reg (f <$> r).
Proof.
  intros (requests & replies & Hm & Hs). exists requests, replies. split; [|done].
  unfold mbind, M_bind. rewrite Hm. by destruct r.
Qed.

(** The requests that the client sends before the first report. *)
Lemma materialize_sends `{!Bincode Request, !Bincode Response, !BincodeOk Response} {U E} (wrap : IoError -> E)
    (f : U -> MaterializeCounters -> U * result E ()) fuel host socket_path request body replies u :
  host_ok host socket_path -> hello_ok -> MaterializeRequest_into_body request = Ok body ->
  encodable (RequestMaterialize body) ->
  materialize_file_with_progress wrap f fuel host socket_path request
    (mkStream (mkReader (message_frame hello_response ++ replies) None) (mkWriter [] None)) u =
  materialize_loop wrap f fuel (mkStream (mkReader replies None)
    (mkWriter (message_frame hello_request ++ message_frame (RequestMaterialize body)) None)) u.
Proof.
  intros Hhost Hhello Hb He. unfold materialize_file_with_progress.
  erewrite bind_step by by apply connect_and_hello_ok. erewrite bind_step by (unfold lift; by rewrite Hb).
  by rewrite send_message.
Qed.

(** ** Commits *)

Lemma same_nodes_length m m' : same_nodes m m' -> len (btree_items m') = len (btree_items m).
Proof.
  intros Hs. unfold len. rewrite !btree_items_length, <- !size_dom. do 2 f_equal.
  apply set_eq. intros p. rewrite !elem_of_dom. by apply same_nodes_is_Some.
Qed.

Lemma same_nodes_trans m1 m2 m3 : same_nodes m1 m2 -> same_nodes m2 m3 -> same_nodes m1 m3.
Proof.
  intros H1 H2 p. specialize (H1 p). specialize (H2 p). destruct H1 as [a b Hab|]; inversion H2; subst; constructor.
  unfold same_shape in *. destruct_and!. split_and!; congruence.
Qed.

(** A runtime with ids left for the builder's nodes commits them. *)
Lemma commit_promise_numbered rt b :
  rt_wf rt -> rt_next_promise_id rt < u64_max -> Runtime_has_provider rt (pb_provider_id b) = true ->
  rt_next_node_id rt + len (btree_items (pb_nodes b)) <= u64_max ->
  rt_next_inode rt + len (btree_items (pb_nodes b)) <= u64_max ->
  exists tree, (Runtime_commit_promise rt b).2 = Ok tree /\
    rt_promises (Runtime_commit_promise rt b).1 = <[pt_promise_id tree := tree]> (rt_promises rt) /\
    pt_promise_id tree = promise_name (rt_next_promise_id rt) /\ pt_provider_id tree = pb_provider_id b /\
    pt_state tree = Available /\ pt_children tree = pb_children b /\ same_nodes (pb_nodes b) (pt_nodes tree) /\
    (forall p n, pt_nodes tree !! p = Some n -> exists m, pb_nodes b !! p = Some m /\ pn_materialized_path n = pn_materialized_path m).
Proof.
  intros Hwf Hmax Hlive Hn Hi. pose proof (rw_promise_id _ Hwf).
  pose proof (commit_promise_cases rt b Hmax ltac:(lia)) as Hc.
  pose proof (commit_promise_total rt b Hmax ltac:(lia)) as Ht.
  destruct (Runtime_commit_promise rt b) as [rt' r]. destruct (Ht Hlive Hn Hi) as [tree ->].
  destruct Hc as [(Hno & _)|(_ & nid & ino & _ & _ & [(e & He & _)|(_ & _ & Heq & ->)])]; [congruence|done|].
  injection Heq as ->. eexists. split_and!; try done; [apply numbered_same|].
  intros p n. cbn. intros (i & m & Hm%list_elem_of_lookup_2%elem_of_btree_items & ->)%numbered_nodes. eauto.
Qed.

(** What a commit needs of the daemon. *)
Record commit_allowed (s : IpcState) (provider_id token : Z) (mount_path : str) (nodes : Z) : Prop := {
  cw_wf : st_wf s;
  cw_provider : provider_id <> 0;
  cw_route : exists route, st_provider_routes s !! provider_id = Some route /\ pr_owner_token route = token;
  cw_live : Runtime_has_provider (st_runtime s) provider_id = true;
  cw_ready : mo_ready_for_commits (st_mount_status s) = true;
  cw_mount : mo_mount_path (st_mount_status s) = Some mount_path;
  cw_promise_ids : rt_next_promise_id (st_runtime s) < u64_max;
  cw_node_ids : rt_next_node_id (st_runtime s) + nodes <= u64_max;
  cw_inodes : rt_next_inode (st_runtime s) + nodes <= u64_max;
}.

Definition committed_response (s : IpcState) (mount_path : str) : PromiseCommittedBody :=
  let name := promise_name (rt_next_promise_id (st_runtime s)) in
  mkPromiseCommittedBody name (to_string_lossy (path_join mount_path name)).

Section commit.
Context `{!Bincode Request, !Bincode Response}.

Lemma handle_commit_accepted s c out body builder provider_id token mount_path :
  cl_writer c = mkWriter out None ->
  cb_provider_id body = provider_id -> cb_provider_owner_token body = token ->
  add_node_bodies (PromiseBuilder_new provider_id) (cb_nodes body) = (builder, Ok tt) ->
  pb_provider_id builder = provider_id ->
  commit_allowed s provider_id token mount_path (len (btree_items (pb_nodes builder))) ->
  encodable (ResponsePromiseCommitted (committed_response s mount_path)) ->
  handle_promise_commit s c body =
    (set_runtime (Runtime_commit_promise (st_runtime s) builder).1 s,
     (set_writer (mkWriter (out ++ message_frame (ResponsePromiseCommitted (committed_response s mount_path))) None) c,
      Ok tt)).
Proof.
  intros Hc <- <- Hadd Hb [Hwf Hid (route & Hro & Htok) Hlive Hready Hmp Hpid Hnid Hino] Henc.
  unfold handle_promise_commit, ProviderId_from_raw. destruct (Z.eqb_spec (cb_provider_id body) 0); [done|].
  unfold validate_provider_owner. rewrite Hro, Htok, Z.eqb_refl, Hready. cbn [negb]. rewrite Hadd.
  destruct (commit_promise_numbered (st_runtime s) builder) as (tree & Hr & _ & Hn & _); try done;
    [apply Hwf|by rewrite Hb|].
  destruct (Runtime_commit_promise (st_runtime s) builder) as [rt' r]. cbn in Hr. subst r.
  unfold visible_promise_path. rewrite Hready, Hmp. cbn [negb ok_or fmap option_fmap option_map].
  erewrite reply_message; [|done|]; rewrite Hn; done.
Qed.
End commit.

Lemma request_body_typed provider_id calls token :
  Forall call_typed calls ->
  body_typed (PromiseCommitRequest_into_body
    (PromiseCommitRequest_from_builder_with_owner_token (built provider_id calls) token)).
Proof.
  intros Hcalls. unfold body_typed. cbn. rewrite <- list_fmap_compose. apply Forall_fmap, Forall_forall.
  intros n [_ [p Hp]%elem_of_btree_values]%list_elem_of_filter. by apply (built_typed provider_id calls Hcalls p n).
Qed.

(** No node of a builder has been materialized. *)
Definition unmaterialized (nodes : gmap str PromiseNode) : Prop :=
  map_Forall (fun _ n => pn_materialized_path n = None) nodes.

Lemma add_node_unmaterialized b rel attr pid kind :
  unmaterialized (pb_nodes b) -> unmaterialized (pb_nodes (PromiseBuilder_add_node b rel attr pid kind).1).
Proof.
  intros H. pose proof (add_node_cases b rel attr pid kind) as Hc.
  destruct (PromiseBuilder_add_node b rel attr pid kind) as [b' r].
  destruct Hc as [(e & _ & ->)|(path & pn & _ & _ & _ & _ & _ & _ & _ & _ & ->)]; [done|].
  cbn [fst]. rewrite insert_node_nodes. by apply map_Forall_insert_2.
Qed.

Lemma add_node_bodies_unmaterialized b ns :
  unmaterialized (pb_nodes b) -> unmaterialized (pb_nodes (add_node_bodies b ns).1).
Proof.
  revert b. induction ns as [|n ns IH]; intros b H; [done|]. cbn [add_node_bodies].
  assert (H1 : unmaterialized (pb_nodes (add_node_body b n).1))
    by (unfold add_node_body; destruct (nb_kind n); by apply add_node_unmaterialized).
  destruct (add_node_body b n) as [b1 [[]|e]]; [by apply IH|done].
Qed.

Lemma new_unmaterialized provider_id : unmaterialized (pb_nodes (PromiseBuilder_new provider_id)).
Proof. intros p n. cbn. by intros [<- <-]%lookup_singleton_Some. Qed.

(** A commit that is allowed goes through: it commits a builder [b'] that the
    daemon has rebuilt. *)
Lemma commit_promise_served `{!Bincode Request, !Bincode Response, !BincodeOk Request, !BincodeOk Response}
    dm ds hm host socket_path s id env provider_id token calls mount_path :
  let b := built provider_id calls in
  let request := PromiseCommitRequest_from_builder_with_owner_token b token in
  host_ok host socket_path -> hello_ok -> Forall call_typed calls ->
  encodable (RequestPromiseCommit (PromiseCommitRequest_into_body request)) ->
  encodable (ResponsePromiseCommitted (committed_response s mount_path)) ->
  commit_allowed s provider_id token mount_path (len (btree_items (pb_nodes b))) ->
  exists s' tree,
    served dm ds hm s id env (commit_promise host socket_path request) s' []
      (Ok (mkPromiseCommitResponse (pt_promise_id tree) (to_string_lossy (path_join mount_path (pt_promise_id tree))))) /\
    rt_promises (st_runtime s) !! pt_promise_id tree = None /\
    rt_promises (st_runtime s') = <[pt_promise_id tree := tree]> (rt_promises (st_runtime s)) /\
    pt_provider_id tree = provider_id /\ pt_state tree = Available /\
    pt_children tree = pb_children b /\ same_nodes (pb_nodes b) (pt_nodes tree) /\ st_wf s' /\
    exists b', s' = set_runtime (Runtime_commit_promise (st_runtime s) b').1 s /\
      op_typed (OpCommitPromise b') /\ unmaterialized (pt_nodes tree) /\
      pt_promise_id tree = promise_name (rt_next_promise_id (st_runtime s)).
Proof.
  intros b request Hhost Hhello Hcalls Hq Hr Hallowed.
  destruct (commit_body_replay provider_id calls token) as (Hbp & Hbt & b' & Hadd & Hp & Hch & Hsame).
  fold b in Hbp, Hbt, Hadd, Hch, Hsame. fold request in Hbp, Hbt, Hadd. rewrite <- (same_nodes_length _ _ Hsame) in Hallowed.
  destruct (commit_promise_numbered (st_runtime s) b') as (tree & Htree & Hins & Hname & Hprov & Hst & Hchild & Hnodes & Hmat);
    try apply Hallowed; [rewrite Hp; apply Hallowed|].
  exists (set_runtime (Runtime_commit_promise (st_runtime s) b').1 s), tree. rewrite Hname.
  split_and!; try done.
  - apply served_exchange with (response := ResponsePromiseCommitted (committed_response s mount_path)); [done..|].
    unfold handle_request. cbn [greeted cl_negotiated].
    by erewrite handle_commit_accepted.
  - pose proof (commit_tree_added (st_runtime s) b' (sw_runtime _ (cw_wf _ _ _ _ _ Hallowed)) (cw_promise_ids _ _ _ _ _ Hallowed)) as Hadded.
    destruct (Runtime_commit_promise (st_runtime s) b') as [rt' r]. cbn in Htree. subst r. rewrite <- Hname. apply Hadded.
  - rewrite <- Hname. exact Hins.
  - congruence.
  - congruence.
  - by eapply same_nodes_trans.
  - pose proof (handle_promise_commit_wf s (greeted id []) (PromiseCommitRequest_into_body request)) as Hw.
    erewrite handle_commit_accepted in Hw by done. apply Hw; [apply Hallowed|by apply request_body_typed|apply Hallowed].
  - exists b'. split; [done|]. pose proof (add_node_bodies_spec (PromiseBuilder_new provider_id)
      (cb_nodes (PromiseCommitRequest_into_body request)) (builder_new_wf _) (new_builder_typed _)
      (request_body_typed _ _ _ Hcalls)) as Hspec.
    pose proof (add_node_bodies_unmaterialized (PromiseBuilder_new provider_id)
      (cb_nodes (PromiseCommitRequest_into_body request)) (new_unmaterialized _)) as Hun.
    rewrite Hadd in Hspec, Hun. cbn [fst] in Hspec, Hun. destruct Hspec as (H1 & H2 & _). split; [done|].
    split; [|done]. intros p n (m & Hm & ->)%Hmat. by apply (Hun p m).
Qed.

(** ** Properties *)

(** C8: [commit_promise] from end to end.  A client that built a tree for a
    provider it owns calls [commit_promise] while the mount is ready: the call
    returns the promise's id and its path under the mount, the daemon has read
    exactly what the client wrote, and its runtime has one more promise, under
    that id, owned by that provider and available, whose nodes and child index
    are those the client built; the daemon's state stays well formed.  (The
    socket is the user's own, and the handshake, the commit and its answer fit in
    a frame.) *)
Theorem commit_promise_end_to_end `{!Bincode Request, !Bincode Response, !BincodeOk Request, !BincodeOk Response}
    dm ds hm host socket_path s id env provider_id token calls mount_path :
  let b := built provider_id calls in
  let request := PromiseCommitRequest_from_builder_with_owner_token b token in
  host_ok host socket_path -> hello_ok -> Forall call_typed calls ->
  encodable (RequestPromiseCommit (PromiseCommitRequest_into_body request)) ->
  encodable (ResponsePromiseCommitted (committed_response s mount_path)) ->
  commit_allowed s provider_id token mount_path (len (btree_items (pb_nodes b))) ->
  exists s' tree,
    served dm ds hm s id env (commit_promise host socket_path request) s' []
      (Ok (mkPromiseCommitResponse (pt_promise_id tree) (to_string_lossy (path_join mount_path (pt_promise_id tree))))) /\
    rt_promises (st_runtime s) !! pt_promise_id tree = None /\
    rt_promises (st_runtime s') = <[pt_promise_id tree := tree]> (rt_promises (st_runtime s)) /\
    pt_provider_id tree = provider_id /\ pt_state tree = Available /\
    pt_children tree = pb_children b /\ same_nodes (pb_nodes b) (pt_nodes tree) /\ st_wf s'.
Proof.
  intros b request Hhost Hhello Hcalls Hq Hr Hallowed.
  destruct (commit_promise_served dm ds hm host socket_path s id env provider_id token calls mount_path
    Hhost Hhello Hcalls Hq Hr Hallowed) as (s' & tree & H1 & H2 & H3 & H4 & H5 & H6 & H7 & H8 & _).
  exists s', tree. by split_and!.
Qed.

Definition client_request : PromiseCommitRequest :=
  PromiseCommitRequest_from_builder_with_owner_token (built 1 sample_calls) 42.

Definition client_mount : str := bs "/run/fuse-promise".

#[local] Instance sample_requests : Bincode Request :=
  table_codec [hello_request; RequestPromiseCommit (PromiseCommitRequest_into_body client_request);
               RequestProviderRegister].

#[local] Instance sample_responses : Bincode Response :=
  table_codec [hello_response; ResponsePromiseCommitted (committed_response ready_state client_mount);
               ResponseProviderRegistered 1 42].

#[local] Instance sample_requests_ok : BincodeOk Request.
Proof. apply table_codec_ok. cbn. lia. Qed.

#[local] Instance sample_responses_ok : BincodeOk Response.
Proof. apply table_codec_ok. cbn. lia. Qed.

(** A user session with a private runtime directory and a control socket. *)
Definition sample_host : Host :=
  mkHost (Some (bs "/run/user/1000")) (fun _ => Ok (mkPathMetadata PathDirectory 1000 448))
    (fun _ => Ok (mkPathMetadata PathSocket 1000 448)) 1000 (Ok (bs "/home/me")) (fun _ => Ok tt).

Lemma sample_host_ok socket_path : host_ok sample_host socket_path.
Proof. split; [by eexists|done]. Qed.

Lemma one_byte_encodable {T} `{!Bincode T} (m : T) b : encode_to_vec m = Ok [b] -> encodable m.
Proof. intros H. exists [b]. split; [exact H|]. vm_compute. congruence. Qed.

Lemma sample_hello_ok : hello_ok.
Proof. split; eapply one_byte_encodable; vm_compute; reflexivity. Qed.

Lemma sample_commit_allowed : commit_allowed ready_state 1 42 client_mount (len (btree_items (pb_nodes (built 1 sample_calls)))).
Proof.
  split; [exact ready_state_wf|discriminate|eexists; split; vm_compute; reflexivity|vm_compute; reflexivity..| |];
    vm_compute; congruence.
Qed.

Lemma commit_promise_end_to_end_witness :
  exists s' tree,
    served (Ok []) (Ok []) no_materialize ready_state 7 sample_env (commit_promise sample_host (bs "/run/s") client_request) s' []
      (Ok (mkPromiseCommitResponse (pt_promise_id tree) (to_string_lossy (path_join client_mount (pt_promise_id tree))))) /\
    rt_promises (st_runtime s') !! pt_promise_id tree = Some tree.
Proof.
  destruct (commit_promise_end_to_end (Ok []) (Ok []) no_materialize sample_host (bs "/run/s") ready_state 7 sample_env
              1 42 sample_calls client_mount) as (s' & tree & Hs & _ & Hp & _).
  - apply sample_host_ok.
  - exact sample_hello_ok.
  - exact sample_calls_typed.
  - apply (one_byte_encodable _ Byte.x01). vm_compute. reflexivity.
  - apply (one_byte_encodable _ Byte.x01). vm_compute. reflexivity.
  - exact sample_commit_allowed.
  - exists s', tree. split; [exact Hs|]. rewrite Hp. apply lookup_insert_eq.
Defined.

(** C40: [register_provider] returns a provider that is already gone.  The call
    itself succeeds and returns the id and token of a live provider, but it drops the
    connection that registered it, and when the daemon has seen the end of that
    connection the provider is disconnected and has no route: no commit with
    the returned id and token can succeed. *)
Theorem register_provider_drops_provider `{!Bincode Request, !Bincode Response, !BincodeOk Request, !BincodeOk Response}
    dm ds hm host socket_path s id token :
  let pid := rt_next_provider_id (st_runtime s) in
  host_ok host socket_path -> hello_ok -> st_wf s -> pid < u64_max ->
  encodable RequestProviderRegister -> encodable (ResponseProviderRegistered pid token) ->
  exists s', served dm ds hm s id (mkRegisterEnv (Ok token) (Ok tt)) (register_provider host socket_path) s' [pid]
      (Ok (mkProviderRegistration pid token)) /\
    Runtime_has_provider (st_runtime s') pid = true /\
    let closed := disconnect_registered_providers s' [pid] in
    Runtime_has_provider (st_runtime closed) pid = false /\ st_provider_routes closed !! pid = None /\
    validate_provider_owner closed pid token = Err ProviderGone.
Proof.
  intros pid Hhost Hhello Hwf Hmax Hq Hr. pose proof (rw_provider_id _ (sw_runtime _ Hwf)).
  set (s1 := set_runtime (Runtime_register_provider (st_runtime s)).1 s).
  exists (register_provider_route s1 pid token id (Ok tt)).1. split; [|split].
  - apply (served_map _ _ _ _ _ _ (connect_provider host socket_path)
      (fun c => mkProviderRegistration (pc_provider_id c) (pc_provider_owner_token c)) _ _ (Ok (mkProviderConnection pid token))).
    apply served_exchange with (response := ResponseProviderRegistered pid token); [done..|].
    unfold handle_request, handle_register. cbn [greeted cl_negotiated re_token re_clone].
    cbn -[reply message_frame]. by erewrite reply_message.
  - unfold Runtime_has_provider. cbn. by rewrite lookup_insert_eq.
  - intros closed. unfold closed. cbn [disconnect_registered_providers foldl].
    destruct (disconnect_fields (register_provider_route s1 pid token id (Ok tt)).1 pid ltac:(lia)) as (Hrt & Hro & _).
    unfold validate_provider_owner. rewrite Hrt, Hro, unregister_has_provider, decide_True, lookup_delete_eq by done.
    split_and!; try done. cbn. unfold Runtime_provider, Runtime_unregister_provider. cbn. by rewrite !lookup_insert_eq; cbn; rewrite lookup_insert_eq.
Qed.

Lemma register_provider_drops_provider_witness :
  exists s', served (Ok []) (Ok []) no_materialize (IpcState_new Runtime_new) 7 sample_env
      (register_provider sample_host (bs "/run/s")) s' [1] (Ok (mkProviderRegistration 1 42)) /\
    validate_provider_owner (disconnect_registered_providers s' [1]) 1 42 = Err ProviderGone.
Proof.
  destruct (register_provider_drops_provider (Ok []) (Ok []) no_materialize sample_host (bs "/run/s") (IpcState_new Runtime_new) 7 42)
    as (s' & Hs & _ & _ & _ & Hv).
  - apply sample_host_ok.
  - exact sample_hello_ok.
  - exact init_st_wf.
  - vm_compute. reflexivity.
  - apply (one_byte_encodable _ Byte.x02). vm_compute. reflexivity.
  - apply (one_byte_encodable _ Byte.x02). vm_compute. reflexivity.
  - exists s'. split; [exact Hs|exact Hv].
Defined.
