(* ===== verification/Connections.v ===== *)
(** * Many connections at once

    [bind_status_socket] gives every accepted connection a thread of its own,
    and all threads share one [IpcState].  [dstep] interleaves them: a
    connection thread is a [Connection], whose steps are the critical sections
    of [handle_client_with_state] of [crates/fuse-promise-ipc/src/lib.rs] in the
    order in which the thread runs them; the readers of [Routing] (the FUSE
    threads and materializations) and the file system threads that record what
    they have read take their steps in between.  An [IpcState] lock is held
    within one step only.

    [ServerRefines] ties this to [Server]: what [handle_client_with_state] does
    without interruption is one of these runs. *)

From S2P Require Import Prelude Types Paths Cache Tree Runtime Messages Frame Commit Mount IpcState Routing Report Server Client.

(** ** Connection threads *)

(** The critical sections that a thread has still to run. *)
Inductive Todo : Type :=
| TodoRoute (id : ProviderId) (token : Z) (try_clone : IoResult ())
| TodoUnregisterRequest (id : ProviderId)
| TodoCommit (builder : PromiseBuilder)
| TodoRemoveRoute (id : ProviderId)
| TodoUnregister (id : ProviderId)
| TodoFailReads (id : ProviderId).

Record Connection : Type := mkConnection {
  cn_registered : list ProviderId;
  cn_todo : list Todo;
  cn_closing : bool;
}.

Record Daemon : Type := mkDaemon {
  d_state : IpcState;
  d_reads : gmap ChannelId ReadThread;
  d_connections : gmap ConnId Connection;
  (** the providers whose registration failed half way *)
  d_leaked : gset Z;
}.

Definition idle (registered : list ProviderId) : Connection := mkConnection registered [] false.

(** [disconnect_provider_id]. *)
Definition disconnect_todo (id : ProviderId) : list Todo :=
  [TodoRemoveRoute id; TodoUnregister id; TodoFailReads id].

(** [disconnect_registered_providers], when the requests are over. *)
Definition closing (registered : list ProviderId) : Connection :=
  mkConnection [] (registered ≫= disconnect_todo) true.

(** One critical section of the connection [conn], and what the thread does next. *)
Definition perform (conn : ConnId) (todo : Todo) (s : IpcState) (c : Connection) :
    IpcState * Connection * gset Z :=
  match todo with
  | TodoRoute id token try_clone =>
      let '(s, r) := register_provider_route s id token conn try_clone in
      match r with
      | Ok _ => (s, mkConnection (cn_registered c ++ [id]) (cn_todo c) (cn_closing c), ∅)
      | Err _ => (s, closing (cn_registered c), {[ id ]})
      end
  | TodoUnregisterRequest id =>
      let '(runtime, r) := Runtime_unregister_provider (st_runtime s) id in
      (set_runtime runtime s,
       match r with
       | Ok _ => mkConnection (filter (fun i => i <> id) (cn_registered c)) (disconnect_todo id ++ cn_todo c) (cn_closing c)
       | Err _ => c
       end, ∅)
  | TodoCommit builder => (set_runtime (Runtime_commit_promise (st_runtime s) builder).1 s, c, ∅)
  | TodoRemoveRoute id => (remove_route s id, c, ∅)
  | TodoUnregister id => (unregister_in_runtime s id, c, ∅)
  | TodoFailReads id => (fail_provider_pending_reads s id KBrokenPipe, c, ∅)
  end.

Definition ids_room (s : IpcState) : Prop :=
  rt_next_provider_id (st_runtime s) < u64_max /\ rt_next_promise_id (st_runtime s) < u64_max.

(** What other parts of the daemon do to the runtime: materializations mark
    nodes, the FUSE threads record what they have read, and the start of the
    daemon sets the cache policy. *)
Definition op_inner (op : RuntimeOp) : Prop :=
  match op with
  | OpMarkNodeMaterialized _ _ _ | OpRecordCachedRead _ _ _ _ | OpSetCachePolicy _ => True
  | _ => False
  end.

Inductive dstep : Daemon -> Daemon -> Prop :=
| d_open s reads conns leaked conn :
    conns !! conn = None ->
    dstep (mkDaemon s reads conns leaked) (mkDaemon s reads (<[conn := idle []]> conns) leaked)
| d_register s reads conns leaked conn registered token try_clone :
    conns !! conn = Some (idle registered) -> ids_room s ->
    let '(runtime, id) := Runtime_register_provider (st_runtime s) in
    dstep (mkDaemon s reads conns leaked)
          (mkDaemon (set_runtime runtime s) reads
             (<[conn := mkConnection registered [TodoRoute id token try_clone] false]> conns) leaked)
| d_register_no_token s reads conns leaked conn registered :
    conns !! conn = Some (idle registered) -> ids_room s ->
    let '(runtime, id) := Runtime_register_provider (st_runtime s) in
    dstep (mkDaemon s reads conns leaked)
          (mkDaemon (set_runtime runtime s) reads (<[conn := closing registered]> conns) ({[ id ]} ∪ leaked))
| d_unregister s reads conns leaked conn registered raw id token :
    conns !! conn = Some (idle registered) -> ProviderId_from_raw raw = Some id ->
    validate_provider_owner s id token = Ok tt ->
    dstep (mkDaemon s reads conns leaked)
          (mkDaemon s reads (<[conn := mkConnection registered [TodoUnregisterRequest id] false]> conns) leaked)
| d_commit s reads conns leaked conn registered builder token :
    conns !! conn = Some (idle registered) -> op_typed (OpCommitPromise builder) ->
    validate_provider_owner s (pb_provider_id builder) token = Ok tt ->
    mo_ready_for_commits (st_mount_status s) = true ->
    dstep (mkDaemon s reads conns leaked)
          (mkDaemon s reads (<[conn := mkConnection registered [TodoCommit builder] false]> conns) leaked)
| d_answer s reads conns leaked conn registered body :
    conns !! conn = Some (idle registered) ->
    dstep (mkDaemon s reads conns leaked)
          (mkDaemon (complete_provider_read s registered body).1 reads conns leaked)
| d_work s reads conns leaked conn registered todo rest closing s' c' lost :
    conns !! conn = Some (mkConnection registered (todo :: rest) closing) ->
    (forall builder, todo = TodoCommit builder -> ids_room s) ->
    perform conn todo s (mkConnection registered rest closing) = (s', c', lost) ->
    dstep (mkDaemon s reads conns leaked) (mkDaemon s' reads (<[conn := c']> conns) (lost ∪ leaked))
| d_close s reads conns leaked conn registered :
    conns !! conn = Some (idle registered) ->
    dstep (mkDaemon s reads conns leaked) (mkDaemon s reads (<[conn := closing registered]> conns) leaked)
| d_end s reads conns leaked conn :
    conns !! conn = Some (mkConnection [] [] true) ->
    dstep (mkDaemon s reads conns leaked) (mkDaemon s reads (delete conn conns) leaked)
| d_read s reads conns leaked s' reads' :
    step (mkSystem s reads) (mkSystem s' reads') -> reads' <> reads ->
    dstep (mkDaemon s reads conns leaked) (mkDaemon s' reads' conns leaked)
| d_inner s reads conns leaked op :
    op_inner op -> op_typed op -> ids_room s ->
    dstep (mkDaemon s reads conns leaked) (mkDaemon (set_runtime (run_op (st_runtime s) op) s) reads conns leaked)
| d_mount s reads conns leaked m :
    dstep (mkDaemon s reads conns leaked) (mkDaemon (set_mount_status s m) reads conns leaked).

(** The thread of a commit holds a builder of the right type. *)
Definition todo_typed (todo : Todo) : Prop :=
  match todo with TodoCommit builder => op_typed (OpCommitPromise builder) | _ => True end.

Definition daemon_start : Daemon := mkDaemon (IpcState_new Runtime_new) ∅ ∅ ∅.

Definition running (d : Daemon) : Prop := rtc dstep daemon_start d.

(** ** The readers see nothing new *)

(** Every step of the daemon is a step of [Routing] or changes nothing that it
    talks about: what is proved there of reads holds here. *)
Definition d_system (d : Daemon) : System := mkSystem (d_state d) (d_reads d).

Lemma perform_system conn todo s c s' c' lost reads :
  perform conn todo s c = (s', c', lost) -> step (mkSystem s reads) (mkSystem s' reads).
Proof.
  destruct todo; cbn [perform].
  - pose proof (step_env_route s reads id token conn try_clone) as H.
    destruct (register_provider_route s id token conn try_clone) as [s1 [[]|e]]; by intros [= <- _ _].
  - pose proof (step_env_runtime s reads (OpUnregisterProvider id)) as H. cbn [run_op] in H.
    destruct (Runtime_unregister_provider (st_runtime s) id) as [rt r]. by intros [= <- _ _].
  - intros [= <- _ _]. apply (step_env_runtime s reads (OpCommitPromise builder)).
  - intros [= <- _ _]. apply step_env_remove_route.
  - intros [= <- _ _]. apply (step_env_runtime s reads (OpUnregisterProvider id)).
  - intros [= <- _ _]. apply step_env_fail_reads.
Qed.

Lemma dstep_system d d' : dstep d d' -> step (d_system d) (d_system d') \/ d_system d = d_system d'.
Proof.
  destruct 1; unfold d_system; cbn; try by right.
  - left. apply (step_env_runtime s reads OpRegisterProvider).
  - left. apply (step_env_runtime s reads OpRegisterProvider).
  - left. apply step_env_complete.
  - left. by eapply perform_system.
  - by left.
  - left. apply step_env_runtime.
  - left. apply step_env_mount.
Qed.

(** Every run of the daemon is, for the readers, a run of the routing system. *)
Lemma dsteps_system d d' : rtc dstep d d' -> rtc step (d_system d) (d_system d').
Proof.
  induction 1 as [d|d d1 d2 Hs _ IH]; [apply rtc_refl|].
  destruct (dstep_system _ _ Hs) as [H|H]; [by eapply rtc_l|by rewrite H].
Qed.

Lemma running_system d : running d -> rtc step (sys_init Runtime_new) (d_system d).
Proof. apply (dsteps_system daemon_start). Qed.

(** ** Who owns a provider *)

(** The connection has registered the provider, or is about to. *)
Definition owns (c : Connection) (p : Z) : Prop :=
  p ∈ cn_registered c \/ exists token try_clone, TodoRoute p token try_clone ∈ cn_todo c.

(** The connection is going to unregister the provider, at the latest when it closes. *)
Definition answers_for (c : Connection) (p : Z) : Prop := owns c p \/ TodoUnregister p ∈ cn_todo c.

(** The connection is going to remove the route. *)
Definition will_remove (c : Connection) (p : Z) : Prop := p ∈ cn_registered c \/ TodoRemoveRoute p ∈ cn_todo c.

Record connection_wf (c : Connection) : Prop := {
  cw_closing : cn_closing c = true -> forall p, ~ owns c p;
  cw_route : forall p token try_clone, TodoRoute p token try_clone ∈ cn_todo c -> cn_todo c = [TodoRoute p token try_clone];
  cw_typed : Forall todo_typed (cn_todo c);
}.

Abbreviation live s p := (Runtime_has_provider (st_runtime s) p = true).

Record owned (d : Daemon) : Prop := {
  ow_wf : rt_wf (st_runtime (d_state d));
  ow_connection : map_Forall (fun _ c => connection_wf c) (d_connections d);
  ow_route : forall p r, st_provider_routes (d_state d) !! p = Some r ->
    exists c, d_connections d !! pr_writer r = Some c /\ will_remove c p;
  ow_live : forall p, live (d_state d) p ->
    p ∈ d_leaked d \/ exists conn c, d_connections d !! conn = Some c /\ answers_for c p;
  ow_known : forall conn c p, d_connections d !! conn = Some c -> owns c p ->
    1 <= p < rt_next_provider_id (st_runtime (d_state d));
  ow_unique : forall conn conn' c c' p, d_connections d !! conn = Some c -> d_connections d !! conn' = Some c' ->
    owns c p -> owns c' p -> conn = conn';
}.

(** What a step of a connection may do: the state goes from [s] to [s'], the
    thread from [c] to [c']. *)
Record conn_moves (conn : ConnId) (s : IpcState) (c : Connection) (s' : IpcState) (c' : Connection) (lost : gset Z) : Prop := {
  mv_wf : rt_wf (st_runtime s');
  mv_connection : connection_wf c';
  mv_route : forall p r, st_provider_routes s' !! p = Some r ->
    (st_provider_routes s !! p = Some r /\ (will_remove c p -> will_remove c' p)) \/ (pr_writer r = conn /\ will_remove c' p);
  mv_live : forall p, live s' p ->
    p ∈ lost \/ answers_for c' p \/ (live s p /\ (answers_for c p -> answers_for c' p));
  mv_next : rt_next_provider_id (st_runtime s) <= rt_next_provider_id (st_runtime s');
  mv_owns : forall p, owns c' p -> owns c p \/
    (p = rt_next_provider_id (st_runtime s) /\ p < rt_next_provider_id (st_runtime s'));
}.

Lemma owned_moves conn s reads conns leaked c s' c' lost :
  owned (mkDaemon s reads conns leaked) -> conns !! conn = Some c -> conn_moves conn s c s' c' lost ->
  owned (mkDaemon s' reads (<[conn := c']> conns) (lost ∪ leaked)).
Proof.
  intros [O1 O2 O3 O4 O5 O6] Hc [M1 M2 M3 M4 M5 M6]. cbn in *. pose proof (rw_provider_id _ O1) as Hn.
  assert (Hown : forall p, owns c' p -> 1 <= p < rt_next_provider_id (st_runtime s')).
  { intros p Hp. destruct (M6 p Hp) as [Ho|[-> ?]]; [pose proof (O5 _ _ _ Hc Ho)|]; lia. }
  assert (Hnew : forall k d p, k <> conn -> conns !! k = Some d -> owns d p -> ~ owns c' p).
  { intros k d p Hk Hd Hdp Hp. pose proof (O5 _ _ _ Hd Hdp).
    destruct (M6 p Hp) as [Ho|[-> ?]]; [by apply Hk, (O6 k conn d c p)|lia]. }
  split; cbn.
  - done.
  - by apply map_Forall_insert_2.
  - intros p r Hr. destruct (M3 p r Hr) as [[Hr0 Hrm]|[<- Hrm]]; [|by exists c'; rewrite lookup_insert_eq].
    destruct (O3 p r Hr0) as (d & Hd & Hdp). destruct (decide (pr_writer r = conn)) as [<-|Hne].
    + exists c'. rewrite lookup_insert_eq. split; [done|]. apply Hrm. congruence.
    + exists d. by rewrite lookup_insert_ne by done.
  - intros p Hp. destruct (M4 p Hp) as [?|[?|[Hl Ha]]]; [set_solver|right; exists conn, c'; by rewrite lookup_insert_eq|].
    destruct (O4 p Hl) as [?|(k & d & Hd & Hdp)]; [set_solver|]. right.
    destruct (decide (k = conn)) as [->|Hne].
    + exists conn, c'. rewrite lookup_insert_eq. split; [done|]. apply Ha. congruence.
    + exists k, d. by rewrite lookup_insert_ne by done.
  - intros k d p. rewrite lookup_insert. case_decide; [intros [= <-]; apply Hown|].
    intros Hd Hdp. pose proof (O5 _ _ _ Hd Hdp). lia.
  - intros k k' d d' p. rewrite !lookup_insert. repeat case_decide; subst; try done.
    + intros [= <-] Hd' Hp Hp'. by destruct (Hnew k' d' p).
    + intros Hd [= <-] Hp Hp'. by destruct (Hnew k d p).
    + apply O6.
Qed.

Lemma owned_moves_quiet conn s reads conns leaked c s' c' :
  owned (mkDaemon s reads conns leaked) -> conns !! conn = Some c -> conn_moves conn s c s' c' ∅ ->
  owned (mkDaemon s' reads (<[conn := c']> conns) leaked).
Proof. intros Hd Hc Hm. pose proof (owned_moves _ _ _ _ _ _ _ _ _ Hd Hc Hm) as H. by rewrite union_empty_l_L in H. Qed.

(** What the rest of the daemon may do. *)
Lemma owned_env s reads conns leaked s' reads' :
  owned (mkDaemon s reads conns leaked) -> rt_wf (st_runtime s') ->
  (forall p r, st_provider_routes s' !! p = Some r -> st_provider_routes s !! p = Some r) ->
  (forall p, live s' p -> live s p) ->
  rt_next_provider_id (st_runtime s) <= rt_next_provider_id (st_runtime s') ->
  owned (mkDaemon s' reads' conns leaked).
Proof.
  intros [O1 O2 O3 O4 O5 O6] Hwf Hr Hl Hn. split; cbn in *; eauto.
  intros conn c p Hc Hp. pose proof (O5 _ _ _ Hc Hp). lia.
Qed.

(** ** Steps of a connection *)

Lemma unregister_next rt id : rt_next_provider_id (Runtime_unregister_provider rt id).1 = rt_next_provider_id rt.
Proof. unfold Runtime_unregister_provider. by destruct (rt_providers rt !! id). Qed.

Lemma elem_of_disconnect todo id :
  todo ∈ disconnect_todo id <-> todo = TodoRemoveRoute id \/ todo = TodoUnregister id \/ todo = TodoFailReads id.
Proof. unfold disconnect_todo. rewrite !elem_of_cons, elem_of_nil. naive_solver. Qed.

Lemma elem_of_closing todo registered :
  todo ∈ cn_todo (closing registered) <-> exists id, todo ∈ disconnect_todo id /\ id ∈ registered.
Proof. apply list_elem_of_bind. Qed.

Lemma disconnect_typed id : Forall todo_typed (disconnect_todo id).
Proof. by repeat constructor. Qed.

Lemma closing_owns registered p : ~ owns (closing registered) p.
Proof.
  intros [Hp|(token & tc & (i & Hi%elem_of_disconnect & _)%elem_of_closing)]; [by apply elem_of_nil in Hp|naive_solver].
Qed.

Lemma closing_wf registered : connection_wf (closing registered).
Proof.
  split; [intros _ p; apply closing_owns| |].
  - intros p token try_clone (i & Hi%elem_of_disconnect & _)%elem_of_closing. naive_solver.
  - apply Forall_bind, Forall_forall. intros id _. apply disconnect_typed.
Qed.

(** A connection that starts to close answers for what it had registered. *)
Lemma closing_moves conn s registered rest lost c :
  rt_wf (st_runtime s) -> c = mkConnection registered rest false ->
  (forall p, answers_for c p -> p ∈ lost \/ p ∈ registered) -> (forall p, will_remove c p -> p ∈ registered) ->
  conn_moves conn s c s (closing registered) lost.
Proof.
  intros Hwf -> Ha Hr. split; [done|apply closing_wf| | |lia|by intros p ?%closing_owns].
  - intros p r Hp. left. split; [done|]. intros Hrm%Hr. right. apply elem_of_closing. exists p.
    split; [|done]. apply elem_of_disconnect. by left.
  - intros p Hl. destruct (decide (p ∈ lost)) as [|Hnl]; [by left|]. right. right. split; [done|].
    intros [?|Hin]%Ha; [done|]. right. apply elem_of_closing. exists p. split; [|done]. apply elem_of_disconnect. auto.
Qed.

Lemma register_live s p :
  live (set_runtime (Runtime_register_provider (st_runtime s)).1 s) p ->
  p = rt_next_provider_id (st_runtime s) \/ live s p.
Proof.
  unfold Runtime_has_provider. cbn. rewrite lookup_insert. case_decide; [by left|by right].
Qed.

Lemma owns_pop registered todo rest closing p :
  owns (mkConnection registered rest closing) p -> owns (mkConnection registered (todo :: rest) closing) p.
Proof. intros [?|(token & tc & ?)]; [by left|]. right. exists token, tc. by right. Qed.

Lemma route_comes_first registered todo rest closing p token tc :
  connection_wf (mkConnection registered (todo :: rest) closing) -> ~ TodoRoute p token tc ∈ rest.
Proof.
  intros Hc Hin. pose proof (cw_route _ Hc p token tc (list_elem_of_further _ _ _ Hin)) as H. cbn in H. injection H as -> ->.
  by apply elem_of_nil in Hin.
Qed.

Lemma connection_wf_pop registered todo rest closing :
  connection_wf (mkConnection registered (todo :: rest) closing) -> connection_wf (mkConnection registered rest closing).
Proof.
  intros Hc. pose proof Hc as [H1 H2 H3]. split; [| |by apply Forall_cons in H3 as [_ ?]].
  - intros Hcl p Hp%(owns_pop _ todo). by eapply H1.
  - intros p token tc Hin. by destruct (route_comes_first _ _ _ _ _ _ _ Hc Hin).
Qed.

(** The section is done, and the thread goes on with the rest. *)
Lemma conn_pop_moves conn todo s registered rest closing s' :
  let c := mkConnection registered (todo :: rest) closing in
  rt_wf (st_runtime s') -> connection_wf c -> (forall p token try_clone, todo <> TodoRoute p token try_clone) ->
  (forall p r, st_provider_routes s' !! p = Some r -> st_provider_routes s !! p = Some r /\ todo <> TodoRemoveRoute p) ->
  (forall p, live s' p -> live s p /\ todo <> TodoUnregister p) ->
  rt_next_provider_id (st_runtime s) <= rt_next_provider_id (st_runtime s') ->
  conn_moves conn s c s' (mkConnection registered rest closing) ∅.
Proof.
  intros c Hwf Hc Hno Hr Hl Hn. split; [done|by eapply connection_wf_pop| | |done|].
  - intros p r Hp. destruct (Hr p r Hp) as [Hp' Hne]. left. split; [done|].
    intros [?|[?|?]%elem_of_cons]; [by left|congruence|by right].
  - intros p Hp. destruct (Hl p Hp) as [Hp' Hne]. do 2 right. split; [done|].
    intros [[?|(token & tc & [?|?]%elem_of_cons)]|[?|?]%elem_of_cons]; [left; by left| | |congruence|by right].
    + subst. by destruct (Hno p token tc).
    + left. right. by exists token, tc.
  - intros p Hp. left. by apply owns_pop.
Qed.

Lemma perform_route_moves conn id token try_clone s registered rest closing s' c' lost :
  let c := mkConnection registered (TodoRoute id token try_clone :: rest) closing in
  rt_wf (st_runtime s) -> connection_wf c ->
  perform conn (TodoRoute id token try_clone) s (mkConnection registered rest closing) = (s', c', lost) ->
  conn_moves conn s c s' c' lost.
Proof.
  intros c Hwf Hc. pose proof (cw_route _ Hc id token try_clone (list_elem_of_here _ _)) as Hrest. cbn in Hrest.
  injection Hrest as ->.
  assert (Hcl : closing = false).
  { destruct closing; [|done]. destruct (cw_closing _ Hc eq_refl id). right. exists token, try_clone. by left. }
  subst closing.
  assert (Ha : forall p, answers_for c p -> p = id \/ p ∈ registered).
  { intros p [[?|(tk & tc & Hin%list_elem_of_singleton)]|Hin%list_elem_of_singleton]; [by right|left; congruence|congruence]. }
  cbn [perform]. unfold register_provider_route. destruct try_clone as [[]|e]; intros [= <- <- <-].
  - split; cbn; [done| | | |lia|].
    + split; cbn; [done|by intros ? ? ? ?%elem_of_nil|done].
    + intros p r. rewrite lookup_insert. case_decide as Hp.
      * intros [= <-]. right. split; [done|]. left. cbn. subst. apply elem_of_app. right. by left.
      * intros Hr. left. split; [done|]. intros [Hin|Hin]; left; [cbn; apply elem_of_app; by left|].
        by apply list_elem_of_singleton in Hin.
    + intros p Hp. do 2 right. split; [done|]. intros Hin%Ha. left. left. cbn. apply elem_of_app.
      destruct Hin as [->|?]; [right; by left|by left].
    + intros p [Hin|(tk & tc & Hin%elem_of_nil)]; [|done]. cbn in Hin. left.
      apply elem_of_app in Hin as [?| ->%list_elem_of_singleton]; [by left|]. right. exists token, (Ok ()). by left.
  - apply (closing_moves conn s registered [TodoRoute id token (Err e)]); [done..| |].
    + intros p [->|?]%Ha; [left; by apply elem_of_singleton|by right].
    + intros p [?|Hin%list_elem_of_singleton]; [done|congruence].
Qed.

Lemma perform_request_moves conn id s registered rest closing s' c' lost :
  let c := mkConnection registered (TodoUnregisterRequest id :: rest) closing in
  rt_wf (st_runtime s) -> connection_wf c ->
  perform conn (TodoUnregisterRequest id) s (mkConnection registered rest closing) = (s', c', lost) ->
  conn_moves conn s c s' c' lost.
Proof.
  intros c Hwf Hc. cbn [perform].
  pose proof (unregister_provider_wf (st_runtime s) id Hwf) as Hwf'.
  pose proof (unregister_next (st_runtime s) id) as Hnext.
  pose proof (fun p => unregister_has_provider (st_runtime s) id p) as Hlive.
  destruct (Runtime_unregister_provider (st_runtime s) id) as [rt [[]|e]]; cbn [fst] in *; intros [= <- <- <-].
  2:{ apply conn_pop_moves; cbn; [done|done|done|done| |lia]. intros p. rewrite Hlive. by case_decide. }
  assert (Ho : forall p, owns (mkConnection (filter (fun i => i <> id) registered) (disconnect_todo id ++ rest) closing) p -> owns c p).
  { intros p [[_ ?]%list_elem_of_filter|(tk & tc & [Hin%elem_of_disconnect|Hin]%elem_of_app)]; [by left|naive_solver|].
    right. exists tk, tc. by right. }
  change (TodoRemoveRoute id :: _ :: _ :: rest) with (disconnect_todo id ++ rest) in *.
  split; [done| | | |cbn; lia|intros p Hp; left; by apply Ho].
  - pose proof (connection_wf_pop _ _ _ _ Hc) as [_ _ H3]. split.
    + intros Hcl p Hp%Ho. by eapply (cw_closing _ Hc).
    + intros p tk tc [Hd%elem_of_disconnect|Hr]%elem_of_app; [naive_solver|]. by destruct (route_comes_first _ _ _ _ _ _ _ Hc Hr).
    + apply Forall_app. split; [apply disconnect_typed|done].
  - intros p r Hp. left. split; [done|]. intros Hrm. destruct (decide (p = id)) as [->|Hne].
    { right. apply elem_of_app. left. apply elem_of_disconnect. by left. }
    destruct Hrm as [Hin|[?|Hin]%elem_of_cons]; [left; by apply list_elem_of_filter|congruence|].
    right. apply elem_of_app. by right.
  - intros p. cbn. rewrite Hlive. case_decide as Hne; [done|]. intros Hl. do 2 right. split; [done|].
    intros [[Hin|(tk & tc & [?|Hin]%elem_of_cons)]|[?|Hin]%elem_of_cons]; try congruence.
    + left. left. by apply list_elem_of_filter.
    + by destruct (route_comes_first _ _ _ _ _ _ _ Hc Hin).
    + right. by do 3 right.
Qed.

(** One critical section of a connection. *)
Lemma perform_moves conn todo s registered rest closing s' c' lost :
  let c := mkConnection registered (todo :: rest) closing in
  rt_wf (st_runtime s) -> connection_wf c -> (forall builder, todo = TodoCommit builder -> ids_room s) ->
  perform conn todo s (mkConnection registered rest closing) = (s', c', lost) -> conn_moves conn s c s' c' lost.
Proof.
  intros c Hwf Hc Hroom. destruct todo.
  - by apply perform_route_moves.
  - by apply perform_request_moves.
  - intros [= <- <- <-]. destruct (Hroom builder eq_refl) as [H1 H2].
    destruct (commit_promise_frame (st_runtime s) builder H2) as (Hp & Hn & _); [by destruct (rw_promise_id _ Hwf); lia|].
    apply conn_pop_moves; [|done|done|done| |cbn; lia].
    + destruct (Forall_cons_1 _ _ _ (cw_typed _ Hc)) as [Hty _]. by apply (run_op_wf _ (OpCommitPromise builder)).
    + intros p. unfold Runtime_has_provider. cbn. by rewrite Hp.
  - intros [= <- <- <-]. apply conn_pop_moves; [done|done|done| |done|done].
    cbn. intros p r [Hne Hr]%lookup_delete_Some. split; [done|congruence].
  - intros [= <- <- <-]. apply conn_pop_moves; [by apply unregister_provider_wf|done|done|done| |cbn; by rewrite unregister_next].
    intros p. cbn. rewrite unregister_has_provider. case_decide; [done|]. split; [done|congruence].
  - intros [= <- <- <-]. destruct (fail_reads_fields s id KBrokenPipe) as (Hr & Hro & _).
    apply conn_pop_moves; rewrite ?Hr, ?Hro; done.
Qed.

(** ** The invariant *)

(** A reader only ever removes routes and providers. *)
Lemma reader_effect s reads s' reads' :
  step (mkSystem s reads) (mkSystem s' reads') -> reads' <> reads -> rt_wf (st_runtime s) ->
  rt_wf (st_runtime s') /\
  (forall p r, st_provider_routes s' !! p = Some r -> st_provider_routes s !! p = Some r) /\
  (forall p, live s' p -> live s p) /\ rt_next_provider_id (st_runtime s) <= rt_next_provider_id (st_runtime s').
Proof.
  intros Hs Hne Hwf. inversion Hs; subst; try done; try by split_and!.
  - split_and!; [done| |done|done]. cbn. by intros p rt [_ Hr]%lookup_delete_Some.
  - split_and!; [by apply unregister_provider_wf|done| |cbn; by rewrite unregister_next].
    intros p. cbn. rewrite unregister_has_provider. by case_decide.
  - destruct (fail_reads_fields s (rq_provider_id r) KBrokenPipe) as (-> & -> & _). by split_and!.
Qed.

Lemma inner_effect rt op :
  op_inner op -> rt_providers (run_op rt op) = rt_providers rt /\ rt_next_provider_id (run_op rt op) = rt_next_provider_id rt.
Proof.
  destruct op; try done; intros _; cbn [run_op].
  - unfold Runtime_set_cache_policy. destruct (CachePolicy_validated _); [|done]. by case_decide.
  - pose proof (record_cached_read_cases rt promise_id relative_path offset bytes) as H.
    destruct (Runtime_record_cached_read _ _ _ _ _) as [rt' r]. by destruct H as [->|(? & ? & ? & _ & _ & _ & _ & _ & _ & _ & ->)].
  - pose proof (mark_node_materialized_cases rt promise_id relative_path materialized_path) as H.
    destruct (Runtime_mark_node_materialized _ _ _ _) as [rt' r]. by destruct H as [[-> _]|(? & ? & ? & _ & _ & _ & _ & _ & ->)].
Qed.

Lemma idle_answers registered p : answers_for (idle registered) p -> p ∈ registered.
Proof. intros [[?|(? & ? & H)]|H]; try done; by apply elem_of_nil in H. Qed.

Lemma idle_will_remove registered p : will_remove (idle registered) p -> p ∈ registered.
Proof. intros [?|H]; [done|]. by apply elem_of_nil in H. Qed.

(** A request that begins. *)
Lemma begin_moves conn s registered todo :
  rt_wf (st_runtime s) -> todo_typed todo -> (forall p token try_clone, todo <> TodoRoute p token try_clone) ->
  conn_moves conn s (idle registered) s (mkConnection registered [todo] false) ∅.
Proof.
  intros Hwf Hty Hno. split; [done| | | |lia|].
  - split; [done| |by repeat constructor]. intros p token tc Hin%list_elem_of_singleton. by destruct (Hno p token tc).
  - intros p r Hr. left. split; [done|]. intros Hp%idle_will_remove. by left.
  - intros p Hp. do 2 right. split; [done|]. intros Ha%idle_answers. left. by left.
  - intros p [?|(token & tc & Hin%list_elem_of_singleton)]; [left; by left|]. by destruct (Hno p token tc).
Qed.

Section register.
Context (conn : ConnId) (s : IpcState) (registered : list ProviderId).
Context (Hwf : rt_wf (st_runtime s)) (Hroom : ids_room s).

Let id := rt_next_provider_id (st_runtime s).
Let s1 := set_runtime (Runtime_register_provider (st_runtime s)).1 s.

Lemma registering_fields : rt_wf (st_runtime s1) /\ rt_next_provider_id (st_runtime s1) = id + 1.
Proof.
  destruct Hroom. split; [by apply register_provider_wf|]. cbn. unfold id. pose proof (rw_provider_id _ Hwf).
  by rewrite wrapping_add_in by lia.
Qed.

Lemma register_moves token try_clone :
  conn_moves conn s (idle registered) s1 (mkConnection registered [TodoRoute id token try_clone] false) ∅.
Proof.
  destruct registering_fields as [H1 H2]. split; [done| | | |lia|].
  - split; [done| |by repeat constructor]. by intros p tk tc ->%list_elem_of_singleton.
  - intros p r Hr. left. split; [done|]. intros Hp%idle_will_remove. by left.
  - intros p [->|Hp]%register_live.
    + right. left. left. right. exists token, try_clone. by left.
    + do 2 right. split; [done|]. intros Ha%idle_answers. left. by left.
  - intros p [?|(tk & tc & [= -> -> ->]%list_elem_of_singleton)]; [left; by left|]. right. fold id. lia.
Qed.

Lemma register_lost_moves : conn_moves conn s (idle registered) s1 (closing registered) {[ id ]}.
Proof.
  destruct registering_fields as [H1 H2].
  destruct (closing_moves conn s registered [] ∅ (idle registered) Hwf eq_refl) as [_ C2 C3 C4 _ C6].
  { intros p Hp. right. by apply idle_answers. }
  { intros p Hp. by apply idle_will_remove. }
  split; [done|done|done| |lia|by intros p ?%closing_owns].
  intros p [->|Hp]%register_live; [left; by apply elem_of_singleton|].
  destruct (C4 p Hp) as [?|?]; [set_solver|by right].
Qed.
End register.

Lemma owned_open s reads conns leaked conn :
  conns !! conn = None -> owned (mkDaemon s reads conns leaked) ->
  owned (mkDaemon s reads (<[conn := idle []]> conns) leaked).
Proof.
  intros Hnew [O1 O2 O3 O4 O5 O6]. cbn in *.
  assert (Hno : forall p, ~ owns (idle []) p).
  { intros p [H|(? & ? & H)]; by apply elem_of_nil in H. }
  assert (Hold : forall k c, conns !! k = Some c -> <[conn := idle []]> conns !! k = Some c).
  { intros k c Hk. rewrite lookup_insert_ne; [done|congruence]. }
  split; cbn.
  - done.
  - apply map_Forall_insert_2; [|done]. split; [done| |constructor]. by intros p tk tc ?%elem_of_nil.
  - intros p r Hr. destruct (O3 p r Hr) as (c & Hc & Hp). eauto.
  - intros p Hp. destruct (O4 p Hp) as [?|(k & c & Hc & Ha)]; [by left|right]. eauto.
  - intros k c p. rewrite lookup_insert. case_decide; [intros [= <-] ?; by destruct (Hno p)|apply O5].
  - intros k k' c c' p. rewrite !lookup_insert. repeat case_decide; subst; [done|..].
    + intros [= <-] _ ?. by destruct (Hno p).
    + intros _ [= <-] _ ?. by destruct (Hno p).
    + apply O6.
Qed.

Lemma owned_end s reads conns leaked conn :
  conns !! conn = Some (mkConnection [] [] true) -> owned (mkDaemon s reads conns leaked) ->
  owned (mkDaemon s reads (delete conn conns) leaked).
Proof.
  intros Hc [O1 O2 O3 O4 O5 O6]. cbn in *.
  split; cbn.
  - done.
  - by apply map_Forall_delete.
  - intros p r Hr. destruct (O3 p r Hr) as (c & Hk & Hp). exists c. split; [|done]. rewrite lookup_delete_ne; [done|].
    intros ->. simplify_eq. destruct Hp as [H|H]; by apply elem_of_nil in H.
  - intros p Hp. destruct (O4 p Hp) as [?|(k & c & Hk & Ha)]; [by left|right]. exists k, c. split; [|done].
    rewrite lookup_delete_ne; [done|]. intros <-. simplify_eq.
    destruct Ha as [[H|(? & ? & H)]|H]; by apply elem_of_nil in H.
  - intros k c p [_ Hk]%lookup_delete_Some. by eapply O5.
  - intros k k' c c' p [_ Hk]%lookup_delete_Some [_ Hk']%lookup_delete_Some. by eapply O6.
Qed.

Lemma owned_step d d' : dstep d d' -> owned d -> owned d'.
Proof.
  destruct 1; intros Hd; pose proof (ow_wf _ Hd) as Hwf; cbn in Hwf.
  - by apply owned_open.
  - eapply owned_moves_quiet; [done..|]. by apply register_moves.
  - eapply owned_moves; [done..|]. by apply register_lost_moves.
  - eapply owned_moves_quiet; [done..|]. by apply begin_moves.
  - eapply owned_moves_quiet; [done..|]. by apply begin_moves.
  - destruct (complete_fields s registered body) as (H1 & H2 & _). by apply (owned_env s reads); rewrite ?H1, ?H2.
  - eapply owned_moves; [done..|]. eapply perform_moves; [done| |done|done]. by apply (ow_connection _ Hd conn).
  - eapply owned_moves_quiet; [done..|]. eapply (closing_moves _ _ _ []); [done..| |].
    + intros p Hp. right. by apply idle_answers.
    + intros p Hp. by apply idle_will_remove.
  - by apply owned_end.
  - destruct (reader_effect _ _ _ _ H H0 Hwf) as (? & ? & ? & ?). by eapply owned_env.
  - destruct (inner_effect (st_runtime s) op H) as [H2 H3]. destruct H1.
    eapply owned_env; [done|by apply run_op_wf|done| |cbn; lia]. intros p. unfold Runtime_has_provider. cbn. by rewrite H2.
  - by eapply owned_env.
Qed.

Lemma owned_start : owned daemon_start.
Proof.
  split; cbn.
  - apply new_wf.
  - apply map_Forall_empty.
  - intros p r. by rewrite lookup_empty.
  - intros p. unfold Runtime_has_provider. cbn. by rewrite lookup_empty.
  - intros conn c p. by rewrite lookup_empty.
  - intros conn conn' c c' p. by rewrite lookup_empty.
Qed.

Lemma owned_steps d d' : rtc dstep d d' -> owned d -> owned d'.
Proof. induction 1 as [|d d1 d2 Hstep _ IH]; [done|]. intros Hd. by eapply IH, owned_step. Qed.

Lemma running_owned d : running d -> owned d.
Proof. intros H. by apply (owned_steps _ _ H), owned_start. Qed.

(** ** A connection served without interruption *)

Lemma work_quiet s reads conns leaked conn registered todo rest closing s' c' :
  conns !! conn = Some (mkConnection registered (todo :: rest) closing) ->
  (forall builder, todo = TodoCommit builder -> ids_room s) ->
  perform conn todo s (mkConnection registered rest closing) = (s', c', ∅) ->
  dstep (mkDaemon s reads conns leaked) (mkDaemon s' reads (<[conn := c']> conns) leaked).
Proof.
  intros Hc Hroom Hp. pose proof (d_work s reads conns leaked _ _ _ _ _ _ _ _ Hc Hroom Hp) as H.
  by rewrite union_empty_l_L in H.
Qed.

(** ** Every connection can come to its end *)

Definition todo_weight (todo : Todo) : nat :=
  match todo with TodoRoute _ _ _ | TodoUnregisterRequest _ => 4 | _ => 1 end.

Definition todos_weight (todos : list Todo) : nat := foldr (fun todo n => todo_weight todo + n)%nat 0%nat todos.

(** Steps to the end of the connection, at most. *)
Definition weight (c : Connection) : nat :=
  todos_weight (cn_todo c) + 3 * length (cn_registered c) + (if cn_closing c then 0 else 1).

Definition no_commit (c : Connection) : Prop := forall builder, ~ TodoCommit builder ∈ cn_todo c.

Lemma closing_weight registered : weight (closing registered) = (3 * length registered)%nat.
Proof.
  unfold weight, closing. cbn. rewrite !Nat.add_0_r.
  induction registered as [|id l IH]; [done|]. cbn in *. rewrite IH. lia.
Qed.

Lemma closing_no_commit registered : no_commit (closing registered).
Proof. intros b (i & Hi%elem_of_disconnect & _)%elem_of_closing. naive_solver. Qed.

Lemma perform_weight conn todo s registered rest closing s' c' lost :
  let c := mkConnection registered (todo :: rest) closing in
  no_commit c -> perform conn todo s (mkConnection registered rest closing) = (s', c', lost) ->
  (weight c' < weight c)%nat /\ no_commit c'.
Proof.
  intros c Hno. assert (Hrest : no_commit (mkConnection registered rest closing)).
  { intros b Hin. apply (Hno b). by right. }
  destruct todo; cbn [perform].
  - unfold register_provider_route. destruct try_clone as [[]|e]; intros [= <- <- <-].
    + split; [|done]. unfold weight. cbn. rewrite length_app. cbn. lia.
    + split; [|apply closing_no_commit]. rewrite closing_weight. unfold weight. cbn. lia.
  - destruct (Runtime_unregister_provider (st_runtime s) id) as [rt [[]|e]]; intros [= <- <- <-];
      [|by split; [unfold weight; cbn; lia|]]. split.
    + unfold weight. cbn. pose proof (length_filter (fun i => i <> id) registered). lia.
    + intros b Hin. cbn in Hin. rewrite !elem_of_cons in Hin. destruct Hin as [?|[?|[?|Hin]]]; [done..|by apply (Hrest b)].
  - by destruct (Hno builder); left.
  - intros [= <- <- <-]. split; [unfold weight; cbn; lia|done].
  - intros [= <- <- <-]. split; [unfold weight; cbn; lia|done].
  - intros [= <- <- <-]. split; [unfold weight; cbn; lia|done].
Qed.

Lemma drain_one n s reads conns leaked conn c :
  (weight c < n)%nat -> owned (mkDaemon s reads conns leaked) -> conns !! conn = Some c -> no_commit c ->
  exists s' leaked', rtc dstep (mkDaemon s reads conns leaked) (mkDaemon s' reads (delete conn conns) leaked').
Proof.
  revert s conns leaked c. induction n as [|n IH]; intros s conns leaked c Hw Hd Hc Hno; [lia|].
  destruct c as [registered [|todo rest] closed].
  - destruct closed.
    + assert (registered = []) as ->.
      { destruct registered as [|p l]; [done|]. pose proof (ow_connection _ Hd conn _ Hc) as Hcw.
        destruct (cw_closing _ Hcw eq_refl p). left. by left. }
      exists s, leaked. eapply rtc_l; [by apply d_end|apply rtc_refl].
    + pose proof (d_close s reads conns leaked conn registered Hc) as Hstep.
      destruct (IH s (<[conn := closing registered]> conns) leaked (closing registered)) as (s' & leaked' & Hrun);
        [|by eapply owned_step|apply lookup_insert_eq|apply closing_no_commit|].
      { rewrite closing_weight. unfold weight in Hw. cbn in Hw. lia. }
      rewrite delete_insert_eq in Hrun. exists s', leaked'. by eapply rtc_l.
  - destruct (perform conn todo s (mkConnection registered rest closed)) as [[s1 c1] lost] eqn:Hp.
    destruct (perform_weight _ _ _ _ _ _ _ _ _ Hno Hp) as [Hw1 Hno1].
    assert (Hstep : dstep (mkDaemon s reads conns leaked) (mkDaemon s1 reads (<[conn := c1]> conns) (lost ∪ leaked))).
    { eapply d_work; [exact Hc| |exact Hp]. intros b ->. destruct (Hno b). by left. }
    destruct (IH s1 (<[conn := c1]> conns) (lost ∪ leaked) c1) as (s' & leaked' & Hrun);
      [lia|by eapply owned_step|apply lookup_insert_eq|done|].
    rewrite delete_insert_eq in Hrun. exists s', leaked'. by eapply rtc_l.
Qed.

Lemma drain_all s reads conns leaked :
  owned (mkDaemon s reads conns leaked) -> map_Forall (fun _ c => no_commit c) conns ->
  exists s' leaked', rtc dstep (mkDaemon s reads conns leaked) (mkDaemon s' reads ∅ leaked').
Proof.
  remember (size conns) as n eqn:Hn. revert s conns leaked Hn. induction n as [|n IH]; intros s conns leaked Hn Hd Hno.
  { symmetry in Hn. apply map_size_empty_iff in Hn as ->. exists s, leaked. apply rtc_refl. }
  destruct (map_choose conns) as (conn & c & Hc); [intros ->; by rewrite map_size_empty in Hn|].
  destruct (drain_one (S (weight c)) s reads conns leaked conn c) as (s1 & leaked1 & H1); [lia|done|done|by eapply Hno|].
  destruct (IH s1 (delete conn conns) leaked1) as (s2 & leaked2 & H2).
  - rewrite map_size_delete_Some by done. lia.
  - by eapply owned_steps.
  - by apply map_Forall_delete.
  - exists s2, leaked2. by etrans.
Qed.

(** ** Properties *)

(** When nobody is connected. *)
Record quiet_daemon (d : Daemon) : Prop := {
  qd_routes : st_provider_routes (d_state d) = ∅;
  qd_live : forall p, live (d_state d) p -> p ∈ d_leaked d;
  qd_promises : forall pid t, rt_promises (st_runtime (d_state d)) !! pid = Some t -> pt_state t = Available ->
    pt_provider_id t ∈ d_leaked d;
  qd_pending : (forall t pc, d_reads d !! t = Some pc -> awaiting pc = false) -> st_pending_reads (d_state d) = ∅;
}.

Lemma nobody_connected d : running d -> d_connections d = ∅ -> quiet_daemon d.
Proof.
  intros Hrun Hnone. pose proof (running_owned d Hrun) as [O1 _ O3 O4 _ _].
  assert (Hlive : forall p, live (d_state d) p -> p ∈ d_leaked d).
  { intros p Hp. destruct (O4 p Hp) as [?|(conn & c & Hc & _)]; [done|]. by rewrite Hnone, lookup_empty in Hc. }
  split.
  - apply map_eq. intros p. rewrite lookup_empty. destruct (st_provider_routes (d_state d) !! p) as [r|] eqn:Hr; [|done].
    destruct (O3 p r Hr) as (c & Hc & _). by rewrite Hnone, lookup_empty in Hc.
  - done.
  - intros pid t Ht Hav. apply Hlive. destruct (rw_owner _ O1 pid t Ht) as (s & Hs & Hl).
    unfold Runtime_has_provider. rewrite Hs. apply bool_decide_eq_true. by apply Hl.
  - intros Hreads. apply running_system, reachable_inv in Hrun. apply map_eq. intros i. rewrite lookup_empty.
    destruct (st_pending_reads (d_state d) !! i) as [pending|] eqn:Hi; [|done].
    destruct (si_pending _ Hrun i pending Hi) as (pc & Hpc & Haw & _). by rewrite (Hreads _ _ Hpc) in Haw.
Qed.

(** C7: ownership of providers under concurrency.  Any number of clients connect,
    register and unregister providers (their own, or another's with its token),
    commit, answer reads, fail and hang up in any order, interleaved at every
    critical section with each other and with the readers.  At every moment a
    route leads to a connection that is open and is going to remove it; no
    provider is owned by two connections; and a live provider has a connection
    that is going to unregister it, unless its registration failed half way.
    From every such moment at which no commit is under way the daemon can come
    to a state without connections, and whenever it is in one, no route is
    left, no provider is live and no promise available but for the failed
    registrations, and no read is pending that nobody waits for. *)
Theorem connections_own_providers d :
  running d ->
  (forall p r, st_provider_routes (d_state d) !! p = Some r ->
     exists c, d_connections d !! pr_writer r = Some c /\ will_remove c p) /\
  (forall conn conn' c c' p, d_connections d !! conn = Some c -> d_connections d !! conn' = Some c' ->
     owns c p -> owns c' p -> conn = conn') /\
  (forall p, live (d_state d) p ->
     p ∈ d_leaked d \/ exists conn c, d_connections d !! conn = Some c /\ answers_for c p) /\
  (map_Forall (fun _ c => no_commit c) (d_connections d) ->
   exists d', rtc dstep d d' /\ d_connections d' = ∅ /\ d_reads d' = d_reads d) /\
  (d_connections d = ∅ -> quiet_daemon d).
Proof.
  intros Hrun. pose proof (running_owned d Hrun) as Hd. split_and!; try apply Hd.
  - intros Hno. destruct d as [s reads conns leaked]. destruct (drain_all s reads conns leaked Hd Hno) as (s' & leaked' & Hs).
    by exists (mkDaemon s' reads ∅ leaked').
  - by apply nobody_connected.
Qed.

(** Connection 7 has registered provider 1, and has hung up. *)
Definition hanging_up : Daemon :=
  let s := set_runtime (Runtime_register_provider Runtime_new).1 (IpcState_new Runtime_new) in
  mkDaemon (register_provider_route s 1 42 7 (Ok tt)).1 ∅ {[ 7%nat := closing [1] ]} ∅.

Lemma hanging_up_running : running hanging_up.
Proof.
  eapply rtc_l; [apply (d_open _ _ _ _ 7%nat); reflexivity|].
  eapply rtc_l; [eapply (d_register (IpcState_new Runtime_new) ∅ _ ∅ 7%nat [] 42 (Ok tt)); [reflexivity|split; reflexivity]|].
  eapply rtc_l; [eapply work_quiet; [apply lookup_insert_eq|done|reflexivity]|].
  eapply rtc_l; [eapply (d_close _ _ _ _ 7%nat [1]); apply lookup_insert_eq|]. rewrite !insert_insert_eq. apply rtc_refl.
Qed.

Lemma connections_own_providers_witness :
  (exists c, d_connections hanging_up !! 7%nat = Some c /\ will_remove c 1) /\
  exists d', rtc dstep hanging_up d' /\ d_connections d' = ∅ /\ d_reads d' = ∅.
Proof.
  destruct (connections_own_providers hanging_up hanging_up_running) as (H1 & _ & _ & H4 & _). split.
  - apply (H1 1 (mkProviderRoute 7 42)). vm_compute. reflexivity.
  - apply H4. intros conn c. unfold hanging_up. cbn [d_connections]. intros [_ <-]%lookup_singleton_Some. apply closing_no_commit.
Defined.

#[local] Existing Instance toy_request.
#[local] Existing Instance toy_response.

(** C39: a provider that answers one read too late loses everything.  A read of one
    of its files has timed out; then its answer arrives, well formed and on the
    right connection.  There is no pending read that it belongs to, which is an
    error that ends the connection: every provider registered on it is
    disconnected, and none of their promises is available any more. *)
Theorem late_answer_disconnects `{!Bincode Request, !Bincode Response} dm ds hm s0 c env envs reader body response p :
  st_wf s0 -> cl_negotiated c = true -> p ∈ cl_registered c -> Forall (fun id => id <> 0) (cl_registered c) ->
  ProviderReadResponse_from_body body = Ok response ->
  read_frame (cl_reader c) = (reader, Ok (Some (RequestProviderReadResponse body))) ->
  let s := (route_finish s0 (rs_request_id response) RecvTimeout).1 in
  let s' := disconnect_registered_providers s (cl_registered c) in
  (exists e, handle_client_requests dm ds hm s c (env :: envs) = Some (s, (set_reader reader c, Err e)) /\
     io_kind e = KInvalidData) /\
  ~ live s' p /\ st_provider_routes s' !! p = None /\
  forall pid t, rt_promises (st_runtime s') !! pid = Some t -> pt_provider_id t = p -> pt_state t <> Available.
Proof.
  intros Hwf Hneg Hp Hnz Hbody Hread s s'.
  assert (Hs : st_wf s) by (destruct Hwf; by split).
  destruct (disconnect_all_spec s (cl_registered c) Hs Hnz) as [Hwf' Hall]. fold s' in Hwf', Hall.
  destruct (Hall p) as (Hgone & _ & _). destruct (Hgone Hp) as [Hl Hr]. split_and!; [|congruence|done|].
  - cbn [handle_client_requests]. rewrite Hread. unfold handle_request. change (cl_negotiated (set_reader reader c)) with (cl_negotiated c).
    rewrite Hneg. unfold complete_provider_read. rewrite Hbody.
    assert (st_pending_reads s !! rs_request_id response = None) as -> by apply lookup_delete_eq.
    eexists. split; [done|]. done.
  - intros pid t Ht <- Hav. destruct (rw_owner _ (sw_runtime _ Hwf') pid t Ht) as (x & Hx & Hxl).
    unfold Runtime_has_provider in Hl. rewrite Hx in Hl. apply bool_decide_eq_false in Hl. by apply Hl, Hxl.
Qed.

(** The provider of the ready state answers read 5. *)
Definition late_body : ProviderReadResponseBody := mkProviderReadResponseBody 5 PbOk (bs "late").
Definition late_requests : Bincode Request := table_codec [RequestProviderReadResponse late_body].

Lemma late_answer_disconnects_witness :
  let c := mkClient 7 (mkReader (@message_frame _ late_requests (RequestProviderReadResponse late_body)) None) (mkWriter [] None) true [1] in
  let s := (route_finish ready_state 5 RecvTimeout).1 in
  live s 1 /\ ~ live (disconnect_registered_providers s (cl_registered c)) 1.
Proof.
  intros c s. split; [vm_compute; reflexivity|].
  assert (Henc : @encodable _ late_requests (RequestProviderReadResponse late_body)).
  { exists [byte_of 0]. split; [vm_compute; reflexivity|vm_compute; congruence]. }
  pose proof (@read_message _ late_requests ltac:(apply table_codec_ok; cbn; lia) _ [] None Henc) as Hread.
  rewrite app_nil_r in Hread.
  exact (proj1 (proj2 (@late_answer_disconnects late_requests toy_response (Ok []) (Ok []) no_materialize ready_state c sample_env []
    (mkReader [] None) late_body (mkProviderReadResponse 5 PrOk (bs "late")) 1 ready_state_wf eq_refl
    ltac:(by left) ltac:(repeat constructor; discriminate) ltac:(vm_compute; reflexivity) Hread))).
Defined.
