(* ===== verification/Duplex.v ===== *)
(** * Two threads on one connection

    In the other files a reader is the bytes of a stream and its end, and a
    function on it runs to its result.  Whether two threads that talk to each other
    come to an end needs more: a thread that reads from an open connection on
    which nothing has arrived waits, and does nothing until something arrives.

    [Live] is one end of such a connection.  Its operations are the [read_frame] and
    [write_frame] of the code; a read that would need bytes which have not
    arrived marks the end as waiting, and from then on nothing is read or
    written: whatever the function computes after that has no effect that could
    be seen.  So a function, run on the bytes that have arrived so far, shows what it
    has written by then, and whether it waits or has returned.

    [exchange] lets two such threads take turns, in any order. *)

From S2P Require Import Prelude Types Paths Messages Frame Host Client Server Materialize.

(** ** An end of an open connection *)

Record Live : Type := mkLive {
  (** what has arrived and has not been read *)
  lv_input : list byte;
  lv_output : list byte;
  lv_waiting : bool;
}.

#[export] Instance IoError_eq_decision : EqDecision IoError.
Proof. solve_decision. Defined.

(** What a read returns that would have to wait; the code never sees it. *)
Definition would_block : IoError := mkIoError OtherKind (bs "would block").

Section ends.
Context {T : Type} `{!Bincode T}.

Definition live_read (l : Live) : Live * IoResult (option T) :=
  if lv_waiting l then (l, Err would_block)
  else
    let '(reader, r) := read_frame (mkReader (lv_input l) (Some would_block)) in
    match r with
    | Err e =>
        if decide (e = would_block) then (mkLive (lv_input l) (lv_output l) true, Err e)
        else (mkLive (rd_bytes reader) (lv_output l) false, Err e)
    | Ok m => (mkLive (rd_bytes reader) (lv_output l) false, Ok m)
    end.

Definition live_write (m : T) (l : Live) : Live * IoResult () :=
  if lv_waiting l then (l, Err would_block)
  else
    let '(writer, r) := write_frame (mkWriter (lv_output l) None) m in
    (mkLive (lv_input l) (wr_bytes writer) false, r).
End ends.

#[export] Instance live_daemon `{!Bincode Request, !Bincode Response} : DaemonEnd Live := {|
  end_reply c m := live_write m c;
  end_request := live_read;
|}.

#[export] Instance live_client `{!Bincode Request, !Bincode Response} : ClientEnd Live := {|
  end_receive l :=
    let '(l, r) := live_read l in (l, r ← r; ok_or r (mkIoError KUnexpectedEof (bs "unexpected end of file")));
  end_send := live_write;
|}.

(** An end that has not waited yet. *)
Definition live (input output : list byte) : Live := mkLive input output false.

(** An end that waits, having written [output]. *)
Definition waits (output : list byte) (l : Live) : Prop := lv_output l = output /\ lv_waiting l = true.

Section end_lemmas.
Context {T : Type} `{!Bincode T}.

Lemma live_read_message `{!BincodeOk T} (m : T) rest out :
  encodable m -> live_read (live (message_frame m ++ rest) out) = (live rest out, Ok (Some m)).
Proof. intros Hm. unfold live_read, live. cbn. by rewrite read_message. Qed.

Lemma live_read_waits out : exists l, live_read (T := T) (live [] out) = (l, Err would_block) /\ waits out l.
Proof. exists (mkLive [] out true). split; [|by split]. unfold live_read, live. cbn. by rewrite decide_True. Qed.

Lemma live_write_message (m : T) input out :
  encodable m -> live_write m (live input out) = (live input (out ++ message_frame m), Ok tt).
Proof. intros Hm. unfold live_write, live. cbn. by rewrite write_message. Qed.

Lemma live_write_waits (m : T) out l : waits out l -> exists e, live_write m l = (l, Err e).
Proof. intros [_ Hw]. unfold live_write. rewrite Hw. by eexists. Qed.

Lemma live_read_shrinks l l' (m : T) :
  live_read l = (l', Ok (Some m)) -> (length (lv_input l') < length (lv_input l))%nat.
Proof.
  unfold live_read. destruct (lv_waiting l); [done|].
  destruct (read_frame _) as [reader [x|e]] eqn:Hr; [|case_decide; done]. intros [= <- ->]. by apply read_frame_shrinks in Hr.
Qed.

Lemma live_write_input (m : T) l l' r : live_write m l = (l', r) -> lv_input l' = lv_input l.
Proof. unfold live_write. destruct (lv_waiting l); [by intros [= <- _]|]. destruct (write_frame _ _). by intros [= <- _]. Qed.
End end_lemmas.

Section client_end_lemmas.
Context `{!Bincode Request, !Bincode Response}.

Lemma live_receive_message `{!BincodeOk Response} (m : Response) rest out :
  encodable m -> end_receive (live (message_frame m ++ rest) out) = (live rest out, Ok m).
Proof. intros Hm. cbn [end_receive live_client]. by rewrite live_read_message. Qed.

Lemma live_receive_waits out : exists l e, end_receive (live [] out) = (l, Err e) /\ waits out l.
Proof.
  destruct (live_read_waits (T := Response) out) as (l & Hr & Hl). exists l, would_block. cbn [end_receive live_client].
  by rewrite Hr.
Qed.

Lemma live_send_message (m : Request) input out :
  encodable m -> end_send m (live input out) = (live input (out ++ message_frame m), Ok tt).
Proof. apply live_write_message. Qed.
End client_end_lemmas.

(** ** Taking turns *)

(** [daemon y] and [client x] are the two ends when they have received [y] and
    [x]: a state is what the daemon and what the client have written so far, all of
    which has been delivered.  A turn is a thread that runs until it waits or has
    returned, and has written something. *)
Inductive exchange (daemon client : list byte -> Live) : relation (list byte * list byte) :=
| daemon_turn x y : lv_output (daemon y) <> x -> exchange daemon client (x, y) (lv_output (daemon y), y)
| client_turn x y : lv_output (client x) <> y -> exchange daemon client (x, y) (x, lv_output (client x)).

(** The conversation goes to [(x, y)], whatever turns are taken: every run can be
    continued to it, none is longer than [bound], and there both ends have
    returned, with nothing left to read. *)
Record converge (daemon client : list byte -> Live) (x y : list byte) (bound : nat) : Prop := {
  cv_reach : forall st, rtc (exchange daemon client) ([], []) st -> rtc (exchange daemon client) st (x, y);
  cv_bound : forall k st, nsteps (exchange daemon client) k ([], []) st -> (k <= bound)%nat;
  cv_daemon : daemon y = live [] x;
  cv_client : client x = live [] y;
}.

Section lockstep.
Context (daemon client : list byte -> Live) (sent acked : nat -> list byte) (L : nat).
Context (Hsent : sent 0%nat = []) (Hacked : acked 0%nat = []).
Context (Hdaemon : forall j, (j <= L)%nat -> lv_output (daemon (acked j)) = sent (S j)).
Context (Hclient : forall j, (j <= L)%nat -> lv_output (client (sent j)) = acked j).
Context (Hlast : lv_output (client (sent (S L))) = acked L).
Context (Hsent_ne : forall j, (j <= L)%nat -> sent (S j) <> sent j).
Context (Hacked_ne : forall j, (j < L)%nat -> acked (S j) <> acked j).

(** The daemon writes first. *)
Definition stage (k : nat) : list byte * list byte := (sent (Nat.div2 (S k)), acked (Nat.div2 k)).

Lemma stage_step k : (k < 2 * L + 1)%nat -> exchange daemon client (stage k) (stage (S k)).
Proof.
  intros Hk. unfold stage. destruct (Nat.Even_Odd_dec k) as [[j ->]|[j ->]].
  - replace (S (S (2 * j))) with (2 * S j)%nat by lia. rewrite Nat.div2_succ_double, !Nat.div2_double.
    rewrite <- (Hdaemon j) by lia. constructor. rewrite Hdaemon by lia. apply Hsent_ne. lia.
  - replace (S (2 * j + 1)) with (2 * S j)%nat by lia. replace (2 * j + 1)%nat with (S (2 * j)) by lia.
    rewrite !Nat.div2_succ_double, !Nat.div2_double. rewrite <- (Hclient (S j)) by lia. constructor.
    rewrite Hclient by lia. apply Hacked_ne. lia.
Qed.

Lemma stage_only k st : (k <= 2 * L + 1)%nat -> exchange daemon client (stage k) st -> (k < 2 * L + 1)%nat /\ st = stage (S k).
Proof.
  intros Hk Hst. unfold stage in *. destruct (Nat.Even_Odd_dec k) as [[j ->]|[j ->]].
  - replace (S (S (2 * j))) with (2 * S j)%nat by lia. rewrite Nat.div2_succ_double, !Nat.div2_double in *.
    inversion Hst; subst; [rewrite Hdaemon by lia; split; [lia|done]|]. rewrite Hclient in * by lia. done.
  - replace (S (2 * j + 1)) with (2 * S j)%nat in * by lia. replace (2 * j + 1)%nat with (S (2 * j)) in * by lia.
    rewrite !Nat.div2_succ_double, !Nat.div2_double in *. inversion Hst; subst; [rewrite Hdaemon in * by lia; done|].
    destruct (decide (j = L)) as [->|]; [by rewrite Hlast in *|]. rewrite Hclient by lia. split; [lia|done].
Qed.

Lemma stage_reached k st : nsteps (exchange daemon client) k ([], []) st -> (k <= 2 * L + 1)%nat /\ st = stage k.
Proof.
  revert st. induction k as [|k IH]; intros st Hst.
  - inversion Hst; subst. split; [lia|]. unfold stage. cbn. by rewrite Hsent, Hacked.
  - apply nsteps_inv_r in Hst as (st1 & H1 & H2). apply IH in H1 as [Hk ->]. apply stage_only in H2 as [? ->]; [|done].
    split; [lia|done].
Qed.

Lemma lockstep_converge :
  daemon (acked L) = live [] (sent (S L)) -> client (sent (S L)) = live [] (acked L) ->
  converge daemon client (sent (S L)) (acked L) (2 * L + 1).
Proof.
  intros Hd Hc. split; [|by intros k st [? _]%stage_reached|done..].
  intros st [k [Hk ->]%stage_reached]%rtc_nsteps. remember (2 * L + 1 - k)%nat as n eqn:Hn. revert k Hk Hn.
  induction n as [|n IH]; intros k Hk Hn.
  - assert (k = S (2 * L)) as -> by lia. unfold stage. replace (S (S (2 * L))) with (2 * S L)%nat by lia.
    rewrite Nat.div2_succ_double, Nat.div2_double. apply rtc_refl.
  - eapply rtc_l; [apply stage_step; lia|]. apply IH; lia.
Qed.
End lockstep.
