(* ===== verification/MaterializeProtocol.v ===== *)
(** * Materialization over a connection, both ends

    The daemon reports progress and waits for the client's word; the client's
    loop reads a report, asks its callback, and answers.  Here the two sides
    are put together: [handle_materialize] of [Materialize] on the one end of a
    connection and [materialize_file_with_progress] of [Client] on the other,
    for every callback.  [converses] says of a part of the operation which
    reports it makes, on a stream that holds the answers as well as on an open
    connection, where it waits for each; with [Duplex] it follows that the two
    threads come to an end. *)

From S2P Require Import Prelude Types Paths Cache Tree Runtime ReadPlan Messages Frame Commit Mount IpcState Routing Report Server Router Effect Fs Materialize ModelFs MaterializeSample Host Client ClientServer Duplex.

(** ** What the client answers *)

Section answers.
Context `{!Bincode Request}.
Context {U E : Type} (f : U -> MaterializeCounters -> U * result E ()).

(** All reports were accepted, or all but the last. *)
Definition settled (ps : list MaterializeCounters) (n : nat) (refused : option E) (ok : bool) : Prop :=
  match refused with None => length ps = n | Some _ => length ps = S n /\ ok = false end.

Lemma feed_app u ps u1 qs :
  feed f u ps = (u1, length ps, None) ->
  feed f u (ps ++ qs) = let '(u2, n, refused) := feed f u1 qs in (u2, (length ps + n)%nat, refused).
Proof.
  revert u. induction ps as [|p ps IH]; intros u; cbn [feed app length].
  - intros [= ->]. by destruct (feed f u1 qs) as [[u2 n] refused].
  - destruct (f u p) as [u' [[]|e]]; [|done]. destruct (feed f u' ps) as [[u2 n] r] eqn:Hf. intros [= -> -> ->].
    rewrite (IH u' Hf). by destruct (feed f u1 qs) as [[u3 m] refused].
Qed.

Lemma acks_app n m (refused : option E) : acks (n + m) refused = continue_frames n ++ acks m refused.
Proof.
  unfold acks, continue_frames. by rewrite replicate_add, concat_app, <- app_assoc.
Qed.

(** A part of the reports. *)
Lemma feed_take u ps u' n refused j :
  feed f u ps = (u', n, refused) -> (j <= n)%nat -> exists u1, feed f u (take j ps) = (u1, Nat.min j (length ps), None).
Proof.
  revert u n j. induction ps as [|p ps IH]; intros u n j; [by destruct j; eauto|]. destruct j as [|j]; [eauto|]. cbn.
  destruct (f u p) as [u1 [[]|e]]; [|intros [= _ <- _]; lia]. destruct (feed f u1 ps) as [[u2 m] r] eqn:Hf. intros [= -> <- ->] Hj.
  destruct (IH u1 m j Hf ltac:(lia)) as [u3 ->]. eauto.
Qed.

Lemma feed_length u ps u' n (refused : option E) : feed f u ps = (u', n, refused) -> (n <= length ps)%nat.
Proof.
  revert u n. induction ps as [|p ps IH]; intros u n; cbn; [by intros [= _ <- _]|].
  destruct (f u p) as [u1 [[]|e]]; [|intros [= _ <- _]; lia]. destruct (feed f u1 ps) as [[u2 m] r] eqn:Hf.
  intros [= -> <- ->]. apply IH in Hf. lia.
Qed.
End answers.

Lemma progress_frames_app `{!Bincode Response} ps qs : progress_frames (ps ++ qs) = progress_frames ps ++ progress_frames qs.
Proof. unfold progress_frames. by rewrite fmap_app, concat_app. Qed.

Lemma write_frame_cases {T} `{!Bincode T} (m : T) :
  encodable m \/ forall out, exists e, write_frame (mkWriter out None) m = (mkWriter out None, Err e).
Proof.
  unfold encodable, write_frame. destruct (encode_to_vec m) as [body|e]; cbn [map_err]; [|eauto].
  destruct (Z.ltb_spec MAX_FRAME_LEN (len body)); [by eauto|]. left. exists body. split; [done|lia].
Qed.

(** ** The daemon's side *)

(** A connection that the handler can talk on: [conn input out] delivers [input]
    and has accepted [out]. *)
Class Talks `{!Bincode Request, !Bincode Response} {C} `{!DaemonEnd C} (conn : list byte -> list byte -> C) : Prop := {
  talks_reply : forall input out m, encodable m -> end_reply (conn input out) m = (conn input (out ++ message_frame m), Ok tt);
  talks_too_long : forall m, encodable m \/ forall input out, exists e, end_reply (conn input out) m = (conn input out, Err e);
  talks_request : forall q rest out, encodable q ->
    end_request (conn (message_frame q ++ rest) out) = (conn rest out, Ok (Some q));
}.

#[export] Instance client_talks `{!Bincode Request, !Bincode Response, !BincodeOk Request} id negotiated registered :
  Talks (fun input out => mkClient id (mkReader input None) (mkWriter out None) negotiated registered).
Proof.
  split; cbn; unfold reply; cbn.
  - intros input out m Hm. by rewrite write_message.
  - intros m. destruct (write_frame_cases m) as [He|He]; [by left|right]. intros input out. destruct (He out) as [e ->]. by exists e.
  - intros q rest out Hq. by rewrite read_message.
Qed.

#[export] Instance live_talks `{!Bincode Request, !Bincode Response, !BincodeOk Request} : Talks live.
Proof.
  split; cbn.
  - intros input out m Hm. by apply live_write_message.
  - intros m. destruct (write_frame_cases m) as [He|He]; [by left|right]. intros input out. destruct (He out) as [e H].
    exists e. unfold live_write, live. cbn. by rewrite H.
  - intros q rest out Hq. by apply live_read_message.
Qed.

(** The same computation on a connection [C] and on a live one. *)
Section conversation.
Context {F C : Type} `{!FileSystem F, !Router, !Bincode Request, !Bincode Response, !BincodeOk Request, !DaemonEnd C}.
Context (conn : list byte -> list byte -> C) `{!Talks conn}.
Context (process_id : Z).
Context {U X : Type} (f : U -> MaterializeCounters -> U * result X ()).
Context (Hcontinue : encodable RequestMaterializeContinue) (Hcancel : encodable RequestMaterializeCancel).

(** The state without its connection, and with one. *)
Definition put {D : Type} (c : D) (w : World F ()) : World F D := mkWorld (w_ipc w) (w_fs w) c (w_temp_counter w).

(** One run of a computation that talks to the callback: its reports are those
    that the callback is fed with; with the answers it gives its result, and reads
    no more than the answers; and as long as only the first [j] answers have arrived,
    it has written the report after them, no more, and waits. *)
Record converses_at {E A} (m : M (World F C) E A) (l : M (World F Live) E A) w u w' (r : result E A) ps u' n
    (refused : option X) : Prop := {
  ca_feed : feed f u ps = (u', n, refused);
  ca_settled : settled ps n refused (is_ok r);
  ca_encodable : Forall (fun p => encodable (ResponseMaterializeProgress p)) ps;
  ca_run : forall rest out, m (put (conn (acks n refused ++ rest) out) w) = (put (conn rest (out ++ progress_frames ps)) w', r);
  ca_live : forall rest out, l (put (live (acks n refused ++ rest) out) w) = (put (live rest (out ++ progress_frames ps)) w', r);
  ca_waits : forall j out, (j < length ps)%nat -> exists w1 e, l (put (live (continue_frames j) out) w) = (w1, Err e) /\
    waits (out ++ progress_frames (take (S j) ps)) (w_client w1);
}.

Definition converses {E A} (m : M (World F C) E A) (l : M (World F Live) E A) : Prop :=
  forall w u, exists w' r ps u' n refused, converses_at m l w u w' r ps u' n refused.

(** What keeps off the connection. *)
Definition apart (h : World F C -> World F C) (l : World F Live -> World F Live) : Prop :=
  exists h0 : World F () -> World F (), (forall w c, h (put c w) = put c (h0 w)) /\ (forall w c, l (put c w) = put c (h0 w)).

Lemma put_forget {D} (w : World F D) : put (w_client w) (set_w_client tt (mkWorld (w_ipc w) (w_fs w) tt (w_temp_counter w))) = w.
Proof. by destruct w. Qed.

Lemma apart_client h l w : apart h l -> w_client (l w) = w_client w.
Proof. intros (h0 & _ & Hl). rewrite <- (put_forget w) at 1. by rewrite Hl. Qed.

(** One computation after another, or something else when it fails. *)
Section then_.
Context {E E' A B : Type} (m : M (World F C) E A) (l : M (World F Live) E A).
Context (km : A -> M (World F C) E' B) (kl : A -> M (World F Live) E' B).
Context (hm : E -> World F C -> World F C) (hl : E -> World F Live -> World F Live) (g : E -> E').
Context (cm : M (World F C) E' B) (cl : M (World F Live) E' B).
Context (Hcm : forall w, cm w = let '(w1, r) := m w in match r with Ok a => km a w1 | Err e => (hm e w1, Err (g e)) end).
Context (Hcl : forall w, cl w = let '(w1, r) := l w in match r with Ok a => kl a w1 | Err e => (hl e w1, Err (g e)) end).

Lemma then_ok w u w1 a ps1 u1 n1 ref1 :
  converses_at m l w u w1 (Ok a) ps1 u1 n1 ref1 -> converses (km a) (kl a) -> (forall e, apart (hm e) (hl e)) ->
  exists w' r ps u' n refused, converses_at cm cl w u w' r ps u' n refused.
Proof.
  intros [Hf1 Hs1 He1 Hr1 Hl1 Hw1] Hk Hh. destruct ref1 as [x|]; [by destruct Hs1|]. cbn in Hs1. subst n1.
  destruct (Hk w1 u1) as (w2 & r2 & ps2 & u2 & n2 & ref2 & [Hf2 Hs2 He2 Hr2 Hl2 Hw2]).
  exists w2, r2, (ps1 ++ ps2), u2, (length ps1 + n2)%nat, ref2. unfold acks at 1 in Hr1. unfold acks at 1 in Hl1.
  rewrite app_nil_r in Hr1, Hl1. split.
  - by rewrite (feed_app f _ _ u1), Hf2.
  - unfold settled in *. rewrite length_app. destruct ref2; [|lia]. destruct Hs2. split; [lia|done].
  - by apply Forall_app.
  - intros rest out. rewrite Hcm, acks_app, <- app_assoc, Hr1, progress_frames_app, app_assoc. apply Hr2.
  - intros rest out. rewrite Hcl, acks_app, <- app_assoc, Hl1, progress_frames_app, app_assoc. apply Hl2.
  - intros j out Hj. rewrite Hcl. rewrite length_app in Hj. destruct (decide (j < length ps1)%nat) as [Hlt|Hge].
    + destruct (Hw1 j out Hlt) as (w3 & e & -> & Hst). exists (hl e w3), (g e). split; [done|].
      rewrite (apart_client (hm e)), take_app_le by (done || lia). done.
    + assert (Hsplit : continue_frames j = continue_frames (length ps1) ++ continue_frames (j - length ps1)).
      { unfold continue_frames. rewrite <- concat_app, <- replicate_add. f_equal. f_equal. lia. }
      rewrite Hsplit, Hl1. destruct (Hw2 (j - length ps1)%nat (out ++ progress_frames ps1) ltac:(lia)) as (w3 & e & -> & Hst).
      exists w3, e. split; [done|]. rewrite take_app_ge by lia.
      replace (S j - length ps1)%nat with (S (j - length ps1)) by lia. by rewrite progress_frames_app, app_assoc.
Qed.

Lemma converses_then :
  converses m l -> (forall a, converses (km a) (kl a)) -> (forall e, apart (hm e) (hl e)) -> converses cm cl.
Proof.
  intros Hm Hk Hh w u. destruct (Hm w u) as (w1 & [a|e] & ps1 & u1 & n1 & ref1 & H1); [by eapply then_ok|].
  destruct H1 as [Hf1 Hs1 He1 Hr1 Hl1 Hw1]. destruct (Hh e) as (h0 & Hh0 & Hh1).
  exists (h0 w1), (Err (g e)), ps1, u1, n1, ref1. split; [done..| | |].
  - intros rest out. by rewrite Hcm, Hr1, Hh0.
  - intros rest out. by rewrite Hcl, Hl1, Hh1.
  - intros j out Hj. destruct (Hw1 j out Hj) as (w3 & e3 & Hrun & Hst). exists (hl e3 w3), (g e3). rewrite Hcl, Hrun. split; [done|].
    by rewrite (apart_client (hm e3)).
Qed.
End then_.

Lemma apart_id : apart id id.
Proof. by exists id. Qed.

Lemma converses_bind {E A B} (m : M (World F C) E A) l (k : A -> M (World F C) E B) kl :
  converses m l -> (forall a, converses (k a) (kl a)) -> converses (m ≫= k) (l ≫= kl).
Proof. intros Hm Hk. by apply (converses_then m l k kl (fun _ => id) (fun _ => id) id); auto using apart_id. Qed.

(** A computation that does not touch the connection. *)
Lemma converses_silent {E A} (m : M (World F C) E A) (l : M (World F Live) E A) :
  (forall w, exists w' r, (forall c, m (put c w) = (put c w', r)) /\ (forall c, l (put c w) = (put c w', r))) -> converses m l.
Proof.
  intros Hm w u. destruct (Hm w) as (w' & r & H1 & H2). exists w', r, [], u, 0%nat, None. split; [done..| | |cbn; lia].
  - intros rest out. unfold acks. cbn. by rewrite H1, app_nil_r.
  - intros rest out. unfold acks. cbn. by rewrite H2, app_nil_r.
Qed.

Lemma converses_pure {E A} (r : result E A) : converses (fun w => (w, r)) (fun w => (w, r)).
Proof. apply converses_silent. intros w. by exists w, r. Qed.

(** The error is changed, and possibly something cleaned up first. *)
Lemma converses_map_error {E E' A} (g : E -> E') (m : M (World F C) E A) l :
  converses m l -> converses (map_error g m) (map_error g l).
Proof.
  intros Hm. apply (converses_then m l mret mret (fun _ => id) (fun _ => id) g); auto using apart_id.
  - intros w. unfold map_error. by destruct (m w) as [w1 []].
  - intros w. unfold map_error. by destruct (l w) as [w1 []].
  - intros a. apply (converses_pure (Ok a)).
Qed.

Lemma apart_cleanup created : apart (cleanup_world created) (cleanup_world created).
Proof. by exists (cleanup_world created). Qed.

Lemma converses_clean_up {A} created progress (m : M (World F C) Status A) l :
  converses m l -> converses (or_clean_up created progress m) (or_clean_up created progress l).
Proof.
  intros Hm. apply (converses_then m l mret mret (fun _ => cleanup_world created) (fun _ => cleanup_world created) (with_progress progress));
    auto using apart_cleanup. intros a. apply (converses_pure (Ok a)).
Qed.

(** [match] on the outcome of a computation that reports. *)
Lemma converses_match {E E' A B} (m : M (World F C) E A) l (k : A -> M (World F C) E' B) kl
    (created : E -> list CreatedTarget) (err : E -> E') :
  converses m l -> (forall a, converses (k a) (kl a)) ->
  converses (try_ m ≫= fun r => match r with Ok a => k a | Err e => fun w => (cleanup_world (created e) w, Err (err e)) end)
    (try_ l ≫= fun r => match r with Ok a => kl a | Err e => fun w => (cleanup_world (created e) w, Err (err e)) end).
Proof.
  intros Hm Hk. apply (converses_then m l k kl (fun e => cleanup_world (created e)) (fun e => cleanup_world (created e)) err);
    auto using apart_cleanup.
  - intros w. unfold mbind, M_bind, try_. by destruct (m w) as [w1 []].
  - intros w. unfold mbind, M_bind, try_. by destruct (l w) as [w1 []].
Qed.

(** One report, on any connection. *)
Section report.
Context {D : Type} `{!DaemonEnd D} (any : list byte -> list byte -> D) `{!Talks any} (progress : MaterializeProgress).
Let message : Response := ResponseMaterializeProgress (progress_counters progress).

Lemma report_continue w rest out : encodable message ->
  report client_progress progress (put (any (message_frame RequestMaterializeContinue ++ rest) out) w) =
    (put (any rest (out ++ message_frame message)) w, Ok tt).
Proof. intros He. unfold report, client_progress. cbn. by rewrite talks_reply, talks_request. Qed.

Lemma report_cancel w rest out : encodable message ->
  report client_progress progress (put (any (message_frame RequestMaterializeCancel ++ rest) out) w) =
    (put (any rest (out ++ message_frame message)) w, Err Cancelled).
Proof. intros He. unfold report, client_progress. cbn. by rewrite talks_reply, talks_request. Qed.

Lemma report_too_long w input out : ~ encodable message ->
  report client_progress progress (put (any input out) w) = (put (any input out) w, Err Cancelled).
Proof.
  intros Hno. unfold report, client_progress. cbn. destruct (talks_too_long (conn := any) message) as [?|He]; [done|].
  destruct (He input out) as [e Hr]. unfold message in Hr. by rewrite Hr.
Qed.
End report.

Lemma report_waits progress w out :
  let message := ResponseMaterializeProgress (progress_counters progress) in encodable message ->
  exists w1 e, report client_progress progress (put (live [] out) w) = (w1, Err e) /\ waits (out ++ message_frame message) (w_client w1).
Proof.
  intros message He. unfold report, client_progress. cbn [put w_client].
  rewrite (talks_reply (conn := live)) by done. cbn [end_request live_daemon].
  destruct (live_read_waits (T := Request) (out ++ message_frame message)) as (l & Hr & Hl). unfold message in Hr. rewrite Hr. by eexists _, _.
Qed.

Lemma converses_report progress : converses (report client_progress progress) (report client_progress progress).
Proof.
  intros w u. set (p := progress_counters progress).
  destruct (write_frame_cases (ResponseMaterializeProgress p)) as [He|He].
  - assert (Hw : forall j out, (j < length [p])%nat -> exists w1 e,
      report client_progress progress (put (live (continue_frames j) out) w) = (w1, Err e) /\
      waits (out ++ progress_frames (take (S j) [p])) (w_client w1)).
    { intros [|j] out Hj; [|cbn in Hj; lia]. unfold progress_frames. cbn. rewrite app_nil_r. by apply report_waits. }
    destruct (f u p) as [u1 [[]|x]] eqn:Hf.
    + exists w, (Ok tt), [p], u1, 1%nat, None. split; [cbn; by rewrite Hf|done|by repeat constructor| | |done];
        intros rest out; unfold acks, continue_frames, progress_frames; cbn; rewrite !app_nil_r; by first [apply (report_continue conn)|apply (report_continue live)].
    + exists w, (Err Cancelled), [p], u1, 0%nat, (Some x). split; [cbn; by rewrite Hf|done|by repeat constructor| | |done];
        intros rest out; unfold acks, continue_frames, progress_frames; cbn; rewrite !app_nil_r; by first [apply (report_cancel conn)|apply (report_cancel live)].
  - assert (Hno : ~ encodable (ResponseMaterializeProgress p)).
    { intros Hyes. destruct (He []) as [e Hw]. by rewrite write_message in Hw. }
    exists w, (Err Cancelled), [], u, 0%nat, None. split; [done..| | |cbn; lia];
      intros rest out; rewrite app_nil_r; by first [apply (report_too_long conn)|apply (report_too_long live)].
Qed.

Lemma converses_provider_chunk plan :
  converses (read_materialize_provider_chunk plan) (read_materialize_provider_chunk plan).
Proof.
  apply converses_silent. intros w. unfold read_materialize_provider_chunk. cbn.
  destruct (router_read _ _) as [s r]. by eexists (mkWorld s (w_fs w) () (w_temp_counter w)), _.
Qed.

Lemma converses_on_fs {E A} (m : M F E A) : converses (on_fs m) (on_fs m).
Proof.
  apply converses_silent. intros w. unfold on_fs, zoom. cbn. destruct (m (w_fs w)) as [f1 r].
  by exists (mkWorld (w_ipc w) f1 () (w_temp_counter w)), r.
Qed.

Lemma converses_get_ipc {E} : converses (get_ipc : M (World F C) E IpcState) get_ipc.
Proof. apply converses_silent. intros w. by exists w, (Ok (w_ipc w)). Qed.

Create HintDb converses.
#[local] Hint Resolve converses_on_fs converses_map_error converses_clean_up converses_report converses_provider_chunk converses_get_ipc : converses.
#[local] Hint Extern 1 (converses (_ ≫= _) _) => apply converses_bind; [|intros ?] : converses.
#[local] Hint Extern 2 (converses (mret ?a) _) => apply (converses_pure (Ok a)) : converses.
#[local] Hint Extern 2 (converses (fail ?e) _) => apply (converses_pure (Err e)) : converses.
#[local] Hint Extern 2 (converses (lift ?r) _) => apply (converses_pure r) : converses.

Lemma converses_plan request : converses (plan_materialize request) (plan_materialize request).
Proof.
  unfold plan_materialize. repeat (apply converses_bind; [solve [eauto with converses]|intros ?]);
    repeat case_match; eauto 10 with converses.
Qed.

Lemma converses_read_chunk pid entry a b : converses (read_materialize_chunk pid entry a b) (read_materialize_chunk pid entry a b).
Proof.
  unfold read_materialize_chunk. apply converses_bind; [eauto with converses|intros s].
  apply converses_bind; [repeat case_match; eauto with converses|]. intros [plan|]; [eauto with converses|].
  apply converses_bind; [eauto with converses|intros s']. apply converses_bind; [eauto with converses|].
  intros []; eauto with converses.
Qed.
#[local] Hint Resolve converses_read_chunk converses_plan : converses.

Lemma converses_replacement n entry : converses (replacement_loop process_id n entry) (replacement_loop process_id n entry).
Proof.
  apply converses_silent. induction n as [|n IH]; intros w; cbn [replacement_loop]; [by eexists w, _|].
  cbn [w_temp_counter put]. destruct (materialize_temp_path _ _ _) as [path|s];
    [|by eexists (mkWorld (w_ipc w) (w_fs w) () (wrapping_add (w_temp_counter w) 1)), _].
  unfold on_fs, zoom. cbn [w_fs set_w_temp put].
  destruct (open_materialize_output path (w_fs w)) as [f1 [[file identity]|err]];
    [by eexists (mkWorld (w_ipc w) f1 () (wrapping_add (w_temp_counter w) 1)), _|].
  case_decide; [|by eexists (mkWorld (w_ipc w) f1 () (wrapping_add (w_temp_counter w) 1)), _].
  apply (IH (mkWorld (w_ipc w) f1 () (wrapping_add (w_temp_counter w) 1))).
Qed.

Lemma converses_write_loop fuel pid entry file t rep repl offset :
  (forall n, converses (rep n) (repl n)) ->
  converses (write_loop fuel pid entry file t rep offset) (write_loop fuel pid entry file t repl offset).
Proof.
  intros Hrep. revert offset. induction fuel as [|fuel IH]; intros offset; cbn [write_loop]; [eauto with converses|].
  destruct (_ <? _); [|eauto with converses]. apply converses_bind; [eauto with converses|intros bytes].
  case_decide; [eauto with converses|]. apply converses_bind; [eauto with converses|intros _].
  destruct (checked_add _ _); [|eauto with converses]. apply converses_bind; [eauto with converses|intros _; apply IH].
Qed.

Lemma converses_open entry policy :
  converses (open_materialized_file process_id entry policy) (open_materialized_file process_id entry policy).
Proof.
  unfold open_materialized_file. apply converses_bind; [|intros md].
  { apply converses_silent. intros w. unfold try_, on_fs, zoom. cbn. destruct (symlink_metadata _ (w_fs w)) as [f1 r].
    by eexists (mkWorld (w_ipc w) f1 () (w_temp_counter w)), _. }
  apply converses_bind; [destruct md; [eauto with converses|case_decide; eauto with converses]|].
  intros b. destruct policy; [eauto with converses| |eauto with converses].
  destruct b; [apply converses_replacement|eauto with converses].
Qed.

Lemma converses_write_file pid entry policy rep repl :
  (forall n, converses (rep n) (repl n)) ->
  converses (write_materialized_file process_id pid entry policy rep) (write_materialized_file process_id pid entry policy repl).
Proof.
  intros Hrep. unfold write_materialized_file. apply converses_bind; [apply converses_open|intros target].
  apply converses_bind; [by apply converses_write_loop|intros offset]. eauto 10 with converses.
Qed.

Lemma converses_create_directories policy entries g created :
  converses (create_directories client_progress policy entries g created) (create_directories client_progress policy entries g created).
Proof.
  revert g created. induction entries as [|e es IH]; intros g created; cbn [create_directories]; [eauto with converses|].
  apply converses_bind; [eauto with converses|intros t]. apply converses_bind; [eauto with converses|intros _; apply IH].
Qed.

Lemma converses_write_files pid policy entries g created :
  converses (write_files process_id client_progress pid policy entries g created)
    (write_files process_id client_progress pid policy entries g created).
Proof.
  revert g created. induction entries as [|e es IH]; intros g created; cbn [write_files]; [eauto with converses|].
  apply (converses_match _ _ _ _ (fun error => created ++ option_list (we_target error))
    (fun error => with_progress (set_bytes_written (wrapping_add (mg_bytes_written g) (we_bytes_written error)) g) (we_status error))).
  - apply converses_write_file. intros n. eauto with converses.
  - intros outcome. apply converses_bind; [eauto with converses|intros _; apply IH].
Qed.

Lemma converses_mark pid entries : converses (mark_materialized pid entries) (mark_materialized pid entries).
Proof.
  unfold mark_materialized. induction entries as [|e es IH]; cbn [for_each]; [eauto with converses|].
  apply converses_bind; [|done]. apply converses_silent. intros w. cbn.
  destruct (Runtime_mark_node_materialized _ _ _ _) as [rt r].
  by eexists (mkWorld (set_runtime rt (w_ipc w)) (w_fs w) () (w_temp_counter w)), _.
Qed.

Lemma converses_materialize body :
  converses (materialize_node_in_state process_id client_progress body) (materialize_node_in_state process_id client_progress body).
Proof.
  unfold materialize_node_in_state. apply converses_bind; [eauto with converses|intros request].
  apply converses_bind; [eauto with converses|intros plan]. apply converses_bind; [eauto with converses|intros _].
  apply converses_bind; [apply converses_create_directories|intros r1].
  apply converses_bind; [apply converses_write_files|intros [g created]].
  apply converses_bind; [eauto with converses|intros _].
  apply converses_bind; [apply converses_clean_up, converses_mark|intros _]. eauto with converses.
Qed.
End conversation.

(** ** Both ends *)

(** The last word of the daemon. *)
Definition final_response (r : result MaterializeOperationError MaterializeCounters) : Response :=
  match r with
  | Ok counters => ResponseMaterialized counters
  | Err error =>
      let refused := ResponseError (mkErrorBody (status_to_error_code (oe_status error)) (Status_as_str (oe_status error))) in
      match oe_progress error with
      | Some progress =>
          if has_partial progress then ResponseMaterializeFailed (to_failed_body error progress) else refused
      | None => refused
      end
  end.

Lemma final_not_progress r : is_progress (final_response r) = false.
Proof. unfold final_response. by repeat case_match. Qed.

(** The handler is the operation and its last word. *)
Lemma handle_materialize_last {F C} `{!FileSystem F, !Router, !DaemonEnd C} process_id body (w : World F C) :
  handle_materialize process_id body w =
    let '(w1, r) := materialize_node_in_state process_id client_progress body w in
    let '(c, x) := end_reply (w_client w1) (final_response r) in (set_w_client c w1, x).
Proof.
  unfold handle_materialize, end_status_error, final_response. destruct (materialize_node_in_state _ _ _ _) as [w1 r].
  destruct r as [counters|error]; [done|]. by destruct (oe_progress error) as [g|]; [destruct (has_partial g)|].
Qed.

Lemma handle_materialize_final {F} `{!FileSystem F, !Router, !Bincode Request, !Bincode Response} process_id body
    (w w1 : World F Client) r out :
  materialize_node_in_state process_id client_progress body w = (w1, r) ->
  cl_writer (w_client w1) = mkWriter out None -> encodable (final_response r) ->
  handle_materialize process_id body w =
    (set_w_client (set_writer (mkWriter (out ++ message_frame (final_response r)) None) (w_client w1)) w1, Ok tt).
Proof.
  intros Hm Ho He. rewrite handle_materialize_last, Hm. cbn [end_reply client_end]. unfold reply. by rewrite Ho, write_message.
Qed.

(** The two threads, by what they have received. *)
Section threads.
Context {F : Type} `{!FileSystem F, !Router, !Bincode Request, !Bincode Response, !BincodeOk Request, !BincodeOk Response}.
Context (process_id : Z) {U X : Type} (wrap : IoError -> X) (f : U -> MaterializeCounters -> U * result X ()).

Definition daemon_at (body : MaterializeBody) (w : World F ()) (received : list byte) : Live :=
  w_client (handle_materialize process_id body (put (live received []) w)).1.

Definition client_at (u : U) (received : list byte) : Live :=
  match materialize_loop wrap f (S (length received)) (live received []) u with
  | Some (l, _, _) => l
  | None => live received []
  end.

Context (Hcont : encodable RequestMaterializeContinue) (Hcanc : encodable RequestMaterializeCancel).

(** Enough fuel for the bytes that are there. *)
Lemma client_at_run fuel u received l u' r :
  materialize_loop wrap f fuel (live received []) u = Some (l, u', r) -> client_at u received = l.
Proof.
  assert (Hreceive : forall s s' m, end_receive s = (s', Ok m) -> (length (lv_input s') < length (lv_input s))%nat).
  { intros s s' m. cbn. destruct (live_read s) as [s1 [[q|]|e]] eqn:Hr; cbn; try done. intros [= <- <-]. by eapply live_read_shrinks. }
  assert (Hsend : forall q s s' m, end_send q s = (s', m) -> length (lv_input s') = length (lv_input s)).
  { intros q s s' m Hs. cbn in Hs. by apply live_write_input in Hs as ->. }
  intros Hl. unfold client_at.
  by rewrite (loop_enough wrap f (fun l => length (lv_input l)) Hreceive Hsend fuel _ _ _ _ Hl) by (cbn; lia).
Qed.

(** The conversation of a run. *)
Section run.
Context (body : MaterializeBody) (w : World F ()) (u : U) (w' : World F ()) (r : result MaterializeOperationError MaterializeCounters).
Context (C : Type) (de : DaemonEnd C) (conn : list byte -> list byte -> C).
Context (ps : list MaterializeCounters) (u' : U) (n : nat) (refused : option X).
Context (Hrun : converses_at conn f (materialize_node_in_state process_id client_progress body)
  (materialize_node_in_state process_id client_progress body) w u w' r ps u' n refused).
Context (Hfinal : encodable (final_response r)).
Let answered : list byte := acks n refused.
Let everything : list byte := progress_frames ps ++ message_frame (final_response r).

Lemma daemon_at_waits j : (j < length ps)%nat -> lv_output (daemon_at body w (continue_frames j)) = progress_frames (take (S j) ps).
Proof.
  intros Hj. destruct (ca_waits _ _ _ _ _ _ _ _ _ _ _ _ Hrun j [] Hj) as (w1 & e & Hm & Hw). unfold daemon_at.
  rewrite handle_materialize_last, Hm. cbn [end_reply live_daemon].
  destruct (live_write_waits (final_response (Err e)) _ _ Hw) as [x ->]. by destruct Hw.
Qed.

Lemma daemon_at_end : daemon_at body w answered = live [] everything.
Proof.
  unfold daemon_at. rewrite handle_materialize_last.
  pose proof (ca_live _ _ _ _ _ _ _ _ _ _ _ _ Hrun [] []) as Hm. rewrite app_nil_r in Hm. unfold answered. rewrite Hm.
  cbn [end_reply live_daemon w_client put]. by rewrite live_write_message.
Qed.

Lemma client_at_end : client_at u everything = live [] answered.
Proof.
  destruct Hrun as [Hf Hs He _ _ _].
  pose proof (loop_protocol wrap f live live_receive_message live_send_message Hcont Hcanc
    ps (final_response r) [] He Hfinal (final_not_progress r) u []) as Hp.
  rewrite Hf, !app_nil_r in Hp. destruct Hp as [fuel Hp]. destruct refused as [x|]; apply client_at_run in Hp; unfold everything, answered; rewrite Hp; [|done].
  destruct Hs as [Hl _]. rewrite drop_ge by lia. change (progress_frames []) with (@nil byte).
  rewrite <- (app_nil_r (message_frame (final_response r))), !app_nil_l. by rewrite live_receive_message.
Qed.

(** What has been sent and answered after [j] rounds. *)
Definition sent (j : nat) : list byte := if decide (j <= length ps)%nat then progress_frames (take j ps) else everything.
Definition acked (j : nat) : list byte := if decide (j <= n)%nat then continue_frames j else answered.

Lemma rounds : (n <= length ps <= S n)%nat /\ (refused = None -> length ps = n) /\ acked (length ps) = answered.
Proof.
  pose proof (ca_settled _ _ _ _ _ _ _ _ _ _ _ _ Hrun) as Hs. unfold acked, answered, settled, acks in *.
  destruct refused as [x|]; [destruct Hs as [-> _]|subst n].
  - split_and!; [lia|lia|done|]. by rewrite decide_False by lia.
  - split_and!; [lia|lia|done|]. by rewrite decide_True, app_nil_r by lia.
Qed.

Lemma client_at_waits j : (j <= length ps)%nat -> lv_output (client_at u (sent j)) = acked j.
Proof.
  intros Hj. destruct rounds as (Hn & Hnone & Hall). unfold sent. rewrite decide_True by done. destruct Hrun as [Hf Hs He _ _ _].
  assert (Hfeed : exists u1 k ref, feed f u (take j ps) = (u1, k, ref) /\ acks k ref = acked j /\
    (if ref then length (take j ps) = S k else True)).
  { unfold acked. destruct (decide (j <= n)%nat) as [Hle|Hgt].
    - destruct (feed_take f u ps u' n refused j Hf Hle) as [u1 Ht]. exists u1, j, None. rewrite Nat.min_l in Ht by lia.
      split_and!; [done| |done]. unfold acks. by rewrite app_nil_r.
    - exists u', n, refused. rewrite take_ge by lia. split_and!; [done..|]. revert Hs. clear. unfold settled. destruct refused; naive_solver. }
  destruct Hfeed as (u1 & k & ref & Hfeed & Hacks & Hlast).
  pose proof (loop_stops wrap f live waits live_receive_message live_send_message live_receive_waits Hcont Hcanc (take j ps) ltac:(by apply Forall_take) u []) as Hp.
  rewrite Hfeed in Hp. destruct (Hp Hlast) as (fuel & l & x & Hl & Hw & _). apply client_at_run in Hl as ->. by rewrite Hw.
Qed.

Lemma message_frame_nonempty {T} `{!Bincode T} (m : T) : encodable m -> (0 < length (message_frame m))%nat.
Proof. intros (b & Hb & _). unfold message_frame. rewrite Hb. cbn. lia. Qed.

Lemma sent_grows j : (j <= length ps)%nat -> sent (S j) <> sent j.
Proof.
  intros Hj Heq%(f_equal length). pose proof (ca_encodable _ _ _ _ _ _ _ _ _ _ _ _ Hrun) as He. unfold sent in Heq.
  rewrite (decide_True (P := (j <= length ps)%nat)) in Heq by done. destruct (decide (S j <= length ps)%nat) as [Hlt|Hge].
  - destruct (lookup_lt_is_Some_2 ps j ltac:(lia)) as [p Hp]. rewrite (take_S_r _ _ _ Hp), progress_frames_app, length_app in Heq.
    rewrite Forall_lookup in He. pose proof (message_frame_nonempty _ (He _ _ Hp)).
    unfold progress_frames in Heq. cbn in Heq. rewrite app_nil_r in Heq. lia.
  - rewrite take_ge in Heq by lia. unfold everything in Heq. rewrite length_app in Heq.
    pose proof (message_frame_nonempty _ Hfinal). lia.
Qed.

Lemma acked_grows j : (j < length ps)%nat -> acked (S j) <> acked j.
Proof.
  intros Hj Heq%(f_equal length). destruct rounds as (Hn & Hnone & _).
  pose proof (message_frame_nonempty _ Hcont). pose proof (message_frame_nonempty _ Hcanc). unfold acked in Heq.
  rewrite (decide_True (P := (j <= n)%nat)) in Heq by lia. destruct (decide (S j <= n)%nat).
  - rewrite continue_frames_S, length_app in Heq. lia.
  - assert (j = n) as -> by lia. unfold answered, acks in Heq. rewrite length_app in Heq.
    destruct (decide (refused = None)) as [Hr|Hr]; [rewrite Hnone in Hj by done; lia|]. clear Hnone. destruct refused; [lia|done].
Qed.

Lemma materialize_converge : converge (daemon_at body w) (client_at u) everything answered (2 * length ps + 1).
Proof.
  destruct rounds as (Hn & Hnone & Hall).
  assert (Hend : sent (S (length ps)) = everything) by (unfold sent; by rewrite decide_False by lia).
  rewrite <- Hall, <- Hend. apply lockstep_converge; [done| | |apply client_at_waits| |apply sent_grows|apply acked_grows| |].
  - unfold acked. by rewrite decide_True by lia.
  - intros j Hj. destruct (decide (j = length ps)) as [->|]; [by rewrite Hall, Hend, daemon_at_end|].
    unfold acked, sent. rewrite !decide_True by lia. apply daemon_at_waits. lia.
  - by rewrite Hend, Hall, client_at_end.
  - by rewrite Hall, Hend, daemon_at_end.
  - by rewrite Hall, Hend, client_at_end.
Qed.
End run.
End threads.

(** ** Properties *)

(** C10: materialization over a connection, for every callback.  The client asks
    for a materialization and its callback judges the reports.  Then there are
    reports [ps] which the callback sees in this order: it accepts all of them, and the
    client returns the daemon's last word, or it refuses the last one, and then
    the client has cancelled, its caller gets the callback's own error, and the
    daemon's operation has failed.  Each side, given what the other writes,
    returns without reading any further, whatever follows.  And neither waits for
    the other forever: with both as threads on an open connection, where a read
    of what has not arrived waits, every run, whoever's turn it is, goes on to the
    end, where both have returned and nothing is left unread, in at most two turns
    for each report and one more.  (Messages fit in a frame, and the handshake is
    done; the daemon's provider reads, which have a timeout, return.) *)
Theorem materialize_both_ends {F} `{!FileSystem F, !Router, !Bincode Request, !Bincode Response, !BincodeOk Request, !BincodeOk Response}
    {U X} (wrap : IoError -> X) (on_progress : U -> MaterializeCounters -> U * result X ())
    process_id host socket_path request body (w : World F ()) id u :
  host_ok host socket_path -> hello_ok -> MaterializeRequest_into_body request = Ok body ->
  encodable (RequestMaterialize body) -> encodable RequestMaterializeContinue -> encodable RequestMaterializeCancel ->
  exists ps n refused u' (r : result MaterializeOperationError MaterializeCounters) w',
    let answered := acks n refused in
    let sent := progress_frames ps ++ message_frame (final_response r) in
    feed on_progress u ps = (u', n, refused) /\ settled ps n refused (is_ok r) /\
    (exists c, materialize_node_in_state process_id client_progress body (put (greeted id answered) w) = (put c w', r)) /\
    (encodable (final_response r) ->
     (forall rest, handle_materialize process_id body (put (greeted id (answered ++ rest)) w) =
        (put (set_writer (mkWriter (message_frame hello_response ++ sent) None) (greeted id rest)) w', Ok tt)) /\
     (forall rest, materialize_file_with_progress wrap on_progress (S (length (sent ++ rest))) host socket_path request
       (mkStream (mkReader (message_frame hello_response ++ sent ++ rest) None) (mkWriter [] None)) u =
      Some (mkStream (mkReader rest None)
             (mkWriter ((message_frame hello_request ++ message_frame (RequestMaterialize body)) ++ answered) None), u',
           match refused with None => map_err wrap (materialize_answer (final_response r)) | Some e => Err e end)) /\
     converge (daemon_at process_id body w) (client_at wrap on_progress u) sent answered (2 * length ps + 1)).
Proof.
  intros Hhost Hhello Hbody Hq Hcont Hcanc.
  set (conn := fun input out => mkClient id (mkReader input None) (mkWriter out None) true []).
  destruct (converses_materialize (F := F) conn process_id on_progress Hcont Hcanc body w u) as (w' & r & ps & u' & n & refused & Hrun).
  exists ps, n, refused, u', r, w'. intros answered sent. pose proof Hrun as [Hfeed Hset Henc Hm _ _].
  split; [done|]. split; [done|]. split.
  { exists (conn [] (message_frame hello_response ++ progress_frames ps)). rewrite <- (app_nil_r answered). apply (Hm []). }
  intros Hfinal. split_and!; [| |by eapply (materialize_converge process_id wrap on_progress Hcont Hcanc _ _ _ _ _ _ _ conn)].
  - intros rest. change (greeted id ?x) with (conn x (message_frame hello_response)).
    erewrite handle_materialize_final; [|apply Hm|done..]. unfold sent. by rewrite app_assoc.
  - intros rest. rewrite (materialize_sends wrap on_progress _ _ _ _ body) by done.
    pose proof (materialize_loop_protocol wrap on_progress ps (final_response r) rest Henc Hfinal (final_not_progress r) Hcont Hcanc u
      (message_frame hello_request ++ message_frame (RequestMaterialize body))) as Hloop.
    rewrite Hfeed in Hloop. destruct Hloop as [fuel Hloop]. unfold sent. rewrite <- app_assoc.
    eapply materialize_loop_enough in Hloop; [rewrite Hloop|cbn; lia]. unfold answered. destruct refused as [e|]; [|done].
    destruct Hset as [Hlen _]. rewrite drop_ge by lia. unfold read_response.
    change (progress_frames [] ++ message_frame (final_response r) ++ rest) with (message_frame (final_response r) ++ rest).
    by rewrite read_message.
Qed.

(** A client that refuses the first report. *)
Definition refuse (u : nat) (p : MaterializeCounters) : nat * IoResult () := (S u, Err (mkIoError KInterrupted [])).

Definition sample_materialize_request : MaterializeRequest :=
  mkMaterializeRequest (bs "/mnt/promise-1/docs") (bs "/home") PolicyFail.

Definition refusing_requests : Bincode Request :=
  table_codec [hello_request; RequestMaterialize (sample_request_body FailBody); RequestMaterializeContinue; RequestMaterializeCancel].

(** Its one report, and the daemon's last word. *)
Definition first_report : MaterializeCounters := mkMaterializeCounters (bs "/home/docs") 0 4 0 17 0 2 0 2.

Definition sample_cancelled : Response := ResponseError (mkErrorBody EcCancelled (bs "cancelled")).

Definition refusing_responses : Bincode Response :=
  table_codec [hello_response; ResponseMaterializeProgress first_report; sample_cancelled].

Definition sample_world : World ModelFs () := mkWorld sample_ready_mount sample_fs () 0.

Lemma materialize_both_ends_witness :
  exists ps r,
    converge
      (@daemon_at ModelFs _ (routed sample_answers) refusing_requests refusing_responses 7 (sample_request_body FailBody) sample_world)
      (@client_at refusing_requests refusing_responses nat IoError id refuse 0%nat)
      (@progress_frames refusing_responses ps ++ @message_frame _ refusing_responses (final_response r))
      (@message_frame _ refusing_requests RequestMaterializeCancel) 3.
Proof.
  destruct (@materialize_both_ends ModelFs _ (routed sample_answers) refusing_requests refusing_responses
    ltac:(apply table_codec_ok; cbn; lia) ltac:(apply table_codec_ok; cbn; lia) nat IoError id refuse 7 sample_host (bs "/run/s")
    sample_materialize_request (sample_request_body FailBody) sample_world 7 0%nat)
    as (ps & n & refused & u' & r & w' & Hfeed & Hset & [c Hrun] & Hend).
  - apply sample_host_ok.
  - split; eapply one_byte_encodable; vm_compute; reflexivity.
  - vm_compute. reflexivity.
  - eapply one_byte_encodable; vm_compute; reflexivity.
  - eapply one_byte_encodable; vm_compute; reflexivity.
  - eapply one_byte_encodable; vm_compute; reflexivity.
  - assert (Hr : final_response (@materialize_node_in_state ModelFs Client _ (routed sample_answers) 7
        (@client_progress Client (@client_end refusing_requests refusing_responses)) (sample_request_body FailBody)
        (put (@greeted refusing_responses 7 (@acks refusing_requests IoError n refused)) sample_world)).2 = sample_cancelled).
    { destruct ps as [|p ps]; injection Hfeed as <- <- <-; vm_compute; reflexivity. }
    rewrite Hrun in Hr. cbn [snd] in Hr.
    destruct Hend as (Hd & _ & Hconv); [rewrite Hr; eapply one_byte_encodable; vm_compute; reflexivity|].
    exists ps, r. destruct ps as [|p ps]; injection Hfeed as <- <- <-.
    + specialize (Hd []). rewrite Hr in Hd. apply (f_equal (fun x => length (wr_bytes (cl_writer (w_client x.1))))) in Hd.
      vm_compute in Hd. discriminate Hd.
    + destruct Hset as [Hlen _]. destruct ps; [|discriminate Hlen]. exact Hconv.
Defined.
