(* ===== verification/Progress.v ===== *)
(** * What the progress reports of a materialization say

    [materialize_node_in_state] reports after every directory, every chunk and
    every file.  Here the reports are put in order: whatever the file system,
    the providers and the other threads of the daemon do, the counters of the
    reports only grow, stay within the totals that the first report announces,
    and have reached them when the operation succeeds; the counters of a failure
    are at least those of every report before it. *)

From stdpp Require Import sorting.
From S2P Require Import Prelude Types Paths Cache Tree Runtime ReadPlan Messages Frame Mount IpcState Routing Server Router Content FuseAdapter Effect Fs Materialize ModelFs MaterializeSample MaterializeSafety MaterializeCorrect Client MaterializeProtocol.

(** ** Reports in order *)

Record counters_le (a b : MaterializeCounters) : Prop := {
  cle_target : mc_target_path a = mc_target_path b;
  cle_entries_total : mc_entries_total a = mc_entries_total b;
  cle_bytes_total : mc_bytes_total a = mc_bytes_total b;
  cle_files_total : mc_files_total a = mc_files_total b;
  cle_directories_total : mc_directories_total a = mc_directories_total b;
  cle_entries : mc_entries_done a <= mc_entries_done b;
  cle_bytes : mc_bytes_written a <= mc_bytes_written b;
  cle_files : mc_files_written a <= mc_files_written b;
  cle_directories : mc_directories_created a <= mc_directories_created b;
}.

Record counters_within (c : MaterializeCounters) : Prop := {
  cw_entries : 0 <= mc_entries_done c <= mc_entries_total c;
  cw_bytes : 0 <= mc_bytes_written c <= mc_bytes_total c;
  cw_files : 0 <= mc_files_written c <= mc_files_total c;
  cw_directories : 0 <= mc_directories_created c <= mc_directories_total c;
}.

(** Everything is done.  Directories that were there already are not counted as
    created. *)
Definition counters_complete (c : MaterializeCounters) : Prop :=
  mc_entries_done c = mc_entries_total c /\ mc_bytes_written c = mc_bytes_total c /\
  mc_files_written c = mc_files_total c.

#[export] Instance counters_le_preorder : PreOrder counters_le.
Proof.
  split.
  - intros a. split; (done || lia).
  - intros a b c [] []. split; (congruence || lia).
Qed.

(** Reports so far, when the operation is at [c]. *)
Definition orderly (l : list MaterializeCounters) (c : MaterializeCounters) : Prop :=
  StronglySorted counters_le l /\ Forall counters_within l /\ Forall (fun p => counters_le p c) l.

Lemma orderly_nil c : orderly [] c.
Proof. repeat constructor. Qed.

Lemma orderly_le l c c' : counters_le c c' -> orderly l c -> orderly l c'.
Proof.
  intros Hc (H1 & H2 & H3). split_and!; [done..|]. eapply Forall_impl; [exact H3|]. intros p Hp. by transitivity c.
Qed.

Lemma orderly_report l c : counters_within c -> orderly l c -> orderly (l ++ [c]) c.
Proof.
  intros Hc (H1 & H2 & H3). rewrite Forall_forall in H3. split_and!.
  - apply StronglySorted_app. split_and!; [|done|by repeat constructor].
    intros x y Hx ->%list_elem_of_singleton. by apply H3.
  - apply Forall_app. by split; [|constructor].
  - apply Forall_forall. intros p [Hp| ->%list_elem_of_singleton]%elem_of_app; [by apply H3|done].
Qed.

Lemma total_bytes_Forall entries : Forall (fun e => 0 <= me_size e) entries -> 0 <= total_bytes entries.
Proof. induction 1 as [|e l He Hl IH]; cbn; [done|]. fold (total_bytes l). lia. Qed.

(** ** Room for reads *)

Section progress.
Context {F C : Type} `{!FileSystem F, Hrouter : !Router}.
Context (inv : IpcState -> Prop) (budget : Z) (Hbudget : 0 <= budget).
Context `{Hrok : !RouterOk inv op_typed budget}.
Implicit Types (w : World F C) (g : MaterializeProgress).

(** The state is well formed and has ids left for [k] reads and what other
    threads do during them. *)
Record room (k : Z) (s : IpcState) : Prop := {
  ro_wf : rt_wf (st_runtime s);
  ro_inv : inv s;
  ro_ids : st_next_read_request_id s + k <= u64_max;
  ro_provider : rt_next_provider_id (st_runtime s) + k * (budget + 1) <= u64_max;
  ro_promise : rt_next_promise_id (st_runtime s) + k * (budget + 1) <= u64_max;
}.

Lemma room_weaken k k' s : k' <= k -> room k s -> room k' s.
Proof. intros Hk [? ? ? ? ?]. split; (done || nia). Qed.

Lemma run_ops_counts rt ops :
  rt_wf rt -> ids_left rt ops -> Forall op_typed ops ->
  rt_wf (run_ops rt ops) /\ rt_next_provider_id (run_ops rt ops) <= rt_next_provider_id rt + len ops /\
  rt_next_promise_id (run_ops rt ops) <= rt_next_promise_id rt + len ops.
Proof.
  intros Hwf Hids Hty. revert rt Hwf Hids. induction Hty as [|op ops Hop Hty IH]; intros rt Hwf Hids.
  { change (run_ops rt []) with rt. rewrite len_nil. split_and!; [done|lia..]. }
  destruct (ids_left_cons rt op ops Hwf Hids) as (H1 & H2 & H3). destruct (run_op_ids rt op Hwf H1 H2) as [H4 H5].
  change (run_ops rt (op :: ops)) with (run_ops (run_op rt op) ops). rewrite len_cons.
  destruct (IH (run_op rt op)) as (H6 & H7 & H8); [by apply run_op_wf|done|]. split_and!; [done|lia..].
Qed.

(** What the plans of a read ask for. *)
Lemma plan_read_length rt pid path offset L plan :
  rt_wf rt -> 0 <= offset -> in_u32 L -> Runtime_plan_read rt pid path offset L = Ok plan ->
  match plan with
  | RequestPlan p => 0 <= prp_length p <= L
  | MaterializedPlan p => mrp_length p <= L
  | CachedPlan bytes => len bytes <= L
  | Eof => True
  end.
Proof.
  intros Hwf Hoff HL Hp. destruct (file_of_dec rt pid path) as [(t & n & Hf)|Hno].
  2:{ by destruct (plan_read_no_file rt pid path offset L Hno) as [[H _]|[H _]]; rewrite H in Hp. }
  rewrite (plan_read_file _ _ _ _ _ _ _ Hwf Hf Hoff HL) in Hp. cbv zeta in Hp. destruct HL as [HL _].
  destruct (file_of_canonical _ _ _ _ _ Hwf Hf) as (_ & _ & _ & [_ Hmax]).
  destruct (Z.eqb_spec (clamp (attr_size (pn_attr n)) offset L) 0) as [|Hne]; [by injection Hp as <-|].
  destruct (clamp_bounds _ _ _ HL Hne) as (Hl & Hend & _).
  destruct (pn_materialized_path n); [injection Hp as <-; cbn; lia|].
  destruct (_ ≫= _) as [b|] eqn:Hread.
  - injection Hp as <-. apply bind_Some in Hread as (cs & [Hcs _]%CachePolicy_chunk_size_pos & Hread).
    apply cache_read_spec in Hread as [-> _]; [lia|apply Hwf|lia..].
  - case_decide; [|done]. injection Hp as <-. cbn. lia.
Qed.

(** A chunk is no longer than asked, and costs one request id at most. *)
Definition chunk_post (k L : Z) (c : C) (r : Result (list byte)) w : Prop :=
  room k (w_ipc w) /\ w_client w = c /\ forall bytes, r = Ok bytes -> len bytes <= L.

Lemma provider_chunk_post k c plan :
  0 <= k -> 0 <= prp_length plan ->
  triple (fun w => room (k + 1) (w_ipc w) /\ w_client w = c) (read_materialize_provider_chunk plan)
    (chunk_post k (prp_length plan) c).
Proof.
  intros Hk Hl w [[Hwf Hi Hid Hp Hq] Hc]. unfold read_materialize_provider_chunk.
  set (r0 := mkProviderReadRequest 0 (prp_provider_id plan) (prp_promise_id plan) (prp_relative_path plan)
               (prp_provider_node_id plan) (prp_offset plan) (prp_length plan)).
  pose proof (router_call (w_ipc w) r0 Hi Hl ltac:(lia)) as Hcall. cbv zeta in Hcall.
  destruct (next_provider_read_request_id (w_ipc w)) as [s1 id]. cbn [fst snd] in Hcall.
  change (mkProviderReadRequest id _ _ _ _ _ _) with (with_request_id r0 id).
  destruct (router_read s1 (with_request_id r0 id)) as [s2 x].
  destruct Hcall as (Hi' & Hans & Hnext & ops & Hops & Hlen & Hrt).
  destruct (run_ops_counts (st_runtime (w_ipc w)) ops Hwf) as (H1 & H2 & H3); [unfold ids_left; nia|done|].
  rewrite <- Hrt in H1, H2, H3. split_and!; cbn; [split; (done || nia)|done|].
  intros bytes Hr. apply bind_Ok in Hr as (response & Hresp%map_err_Ok & Hr). subst x.
  case_decide as Hst; [|done]. injection Hr as <-. destruct (Hans _ eq_refl) as (_ & _ & _ & H & _). by apply H.
Qed.

Lemma chunk_post_le k L L' c r w : L <= L' -> chunk_post k L c r w -> chunk_post k L' c r w.
Proof. intros HL (H1 & H2 & H3). split_and!; [done..|]. intros bytes Hb. specialize (H3 bytes Hb). lia. Qed.

Lemma read_chunk_post k c pid e offset L :
  0 <= k -> 0 <= offset -> in_u32 L ->
  triple (fun w => room (k + 1) (w_ipc w) /\ w_client w = c) (read_materialize_chunk pid e offset L) (chunk_post k L c).
Proof.
  intros Hk Hoff HL w Hw. unfold read_materialize_chunk, get_ipc, lift, mbind, M_bind. cbn.
  assert (Hdone : forall r : Result (list byte), (forall bytes, r = Ok bytes -> len bytes <= L) -> chunk_post k L c r w).
  { intros r Hr. destruct Hw as [Hw Hc]. split_and!; [eapply room_weaken; [|exact Hw]; lia|done|done]. }
  assert (Hprov : forall plan, 0 <= prp_length plan <= L ->
    let '(w', r) := read_materialize_provider_chunk plan w in chunk_post k L c r w').
  { intros plan [Hl Hle]. pose proof (provider_chunk_post k c plan Hk Hl w Hw) as H.
    destruct (read_materialize_provider_chunk plan w). by eapply chunk_post_le. }
  destruct (Runtime_plan_provider_read _ _ _ _ _) as [plan|[]] eqn:Hpp; cbn; try by apply Hdone.
  { apply Hprov. eapply plan_provider_length; [exact Hpp|done|apply HL]. }
  pose proof (plan_read_length (st_runtime (w_ipc w)) pid (me_relative_path e) offset L) as Hlen.
  destruct (Runtime_plan_read _ _ _ _ _) as [plan|s]; cbn; [|by apply Hdone].
  specialize (Hlen plan (ro_wf _ _ (proj1 Hw)) Hoff HL eq_refl).
  destruct plan as [plan|plan|bytes|]; cbn; try by apply Hdone.
  - by apply Hprov.
  - unfold on_fs, zoom. destruct (read_local_materialized_chunk _ _ _ _) as [f' r] eqn:Hrun.
    destruct Hw as [Hw Hc]. split_and!; cbn; [eapply room_weaken; [|exact Hw]; lia|done|].
    intros bytes ->. unfold read_local_materialized_chunk in Hrun. inv_run Hrun.
    destruct (Z.eqb_spec (len a0) (mrp_length plan)); [|done]. injection Hrun as _ <-. lia.
  - apply Hdone. by intros b [= <-].
Qed.

(** ** Reports *)

Context (process_id : Z) (report_progress : C -> MaterializeProgress -> C * Result ()).

(** [sees c l]: the client [c] has been sent the reports [l].  A report that
    is not sent fails. *)
Context (sees : C -> list MaterializeCounters -> Prop).
Context (Hsees : forall c l g, sees c l ->
  let '(c', r) := report_progress c g in
  sees c' (l ++ [progress_counters g]) \/ sees c' l /\ is_ok r = false).

Definition seen g w : Prop := exists l, sees (w_client w) l /\ orderly l (progress_counters g).

(** The last report was [g]. *)
Definition reported g w : Prop :=
  exists l, sees (w_client w) l /\ orderly l (progress_counters g) /\ last l = Some (progress_counters g).

Definition within g : Prop := counters_within (progress_counters g).

Definition active (k : Z) g w : Prop := room k (w_ipc w) /\ seen g w.

Lemma seen_le g g' w : counters_le (progress_counters g) (progress_counters g') -> seen g w -> seen g' w.
Proof. intros Hle (l & Hl & Ho). exists l. split; [done|by eapply orderly_le]. Qed.

Lemma reported_seen g w : reported g w -> seen g w.
Proof. intros (l & Hl & Ho & _). by exists l. Qed.

Lemma report_post k g :
  within g -> triple (active k g) (report report_progress g)
    (fun r w => active k g w /\ (is_ok r = true -> reported g w)).
Proof.
  intros Hg w [Hr (l & Hl & Ho)]. unfold report. specialize (Hsees (w_client w) l g Hl).
  destruct (report_progress (w_client w) g) as [c' r]. destruct Hsees as [Hs|[Hs Hf]].
  - pose proof (orderly_report _ _ Hg Ho) as Ho'. split; [split; [done|by eexists]|]. intros _. eexists. split_and!; [done..|].
    by rewrite last_snoc.
  - split; [split; [done|by exists l]|]. intros Hok. by rewrite Hf in Hok.
Qed.

Lemma chunk_active k g pid e offset L :
  0 <= k -> 0 <= offset -> in_u32 L ->
  triple (active (k + 1) g) (read_materialize_chunk pid e offset L)
    (fun r w => active k g w /\ forall bytes, r = Ok bytes -> len bytes <= L).
Proof.
  intros Hk Hoff HL w [Hr (l & Hl & Ho)].
  pose proof (read_chunk_post k (w_client w) pid e offset L Hk Hoff HL w ltac:(done)) as H.
  destruct (read_materialize_chunk pid e offset L w) as [w' r]. destruct H as (H1 & H2 & H3).
  split; [|done]. split; [done|]. exists l. by rewrite H2.
Qed.

(** A computation that neither reads nor reports. *)
Definition aside {E A} (m : M (World F C) E A) : Prop :=
  forall w, w_ipc (m w).1 = w_ipc w /\ w_client (m w).1 = w_client w.

Lemma aside_active {E A} (m : M (World F C) E A) k g : aside m -> keeps (active k g) m.
Proof.
  intros Hm w [Hr (l & Hl & Ho)]. specialize (Hm w). destruct (m w) as [w' r]. destruct Hm as [H1 H2]. cbn in *.
  split; [by rewrite H1|]. exists l. by rewrite H2.
Qed.

Lemma aside_on_fs {E A} (m : M F E A) : aside (on_fs m).
Proof. intros w. unfold on_fs, zoom. by destruct (m (w_fs w)). Qed.

(** ** What is left to do *)

Record remaining (nd nf nb : Z) g : Prop := {
  rm_left : 0 <= nd /\ 0 <= nf /\ 0 <= nb;
  rm_entries : 0 <= mg_entries_done g /\ mg_entries_done g + nd + nf = mg_entries_total g;
  rm_directories : 0 <= mg_directories_created g /\ mg_directories_created g + nd <= mg_directories_total g;
  rm_files : 0 <= mg_files_written g /\ mg_files_written g + nf = mg_files_total g;
  rm_bytes : 0 <= mg_bytes_written g /\ mg_bytes_written g + nb = mg_bytes_total g;
  rm_max : mg_bytes_total g <= u64_max;
}.

Lemma remaining_within nd nf nb g : remaining nd nf nb g -> within g.
Proof. intros [? ? ? ? ? ?]. split; cbn; lia. Qed.

Lemma remaining_complete g : remaining 0 0 0 g -> counters_complete (progress_counters g).
Proof. intros [? ? ? ? ? ?]. split_and!; cbn; lia. Qed.

Lemma directory_done_remaining created nd nf nb g :
  remaining (nd + 1) nf nb g -> 0 <= nd ->
  remaining nd nf nb (directory_done created g) /\
  counters_le (progress_counters g) (progress_counters (directory_done created g)).
Proof. intros [? ? ? ? ? ?] Hnd. split; [split; cbn; destruct created; lia|]. split; cbn; destruct created; (done || lia). Qed.

(** The file now being written, with [n] bytes of it done. *)
Definition at_byte g (n : Z) : MaterializeProgress :=
  set_bytes_written (wrapping_add (mg_bytes_written g) n) g.

Lemma at_byte_le nd nf nb size g n m :
  remaining nd nf (nb + size) g -> 0 <= nb -> 0 <= n <= m -> m <= size ->
  counters_le (progress_counters (at_byte g n)) (progress_counters (at_byte g m)) /\ within (at_byte g m).
Proof.
  intros [? ? ? ? ? ?] Hnb Hn Hm. unfold at_byte. rewrite !wrapping_add_in by lia. split; split; cbn; (done || lia).
Qed.

Lemma at_byte_0 nd nf nb g : remaining nd nf nb g -> at_byte g 0 = g.
Proof. intros [? ? ? ? ? ?]. unfold at_byte. rewrite wrapping_add_in, Z.add_0_r by lia. by destruct g. Qed.

Lemma file_done_remaining nf nb size g :
  remaining 0 (nf + 1) (nb + size) g -> 0 <= nf -> 0 <= nb -> 0 <= size ->
  remaining 0 nf nb (file_done (at_byte g size)) /\
  counters_le (progress_counters (at_byte g size)) (progress_counters (file_done (at_byte g size))).
Proof.
  intros [? ? ? ? ? ?] Hnf Hnb Hs. unfold at_byte. rewrite wrapping_add_in by lia. split; split; cbn; (done || lia).
Qed.

(** ** Writing one file *)

Section file.
Context (nd nf nb k : Z) (e : MaterializeEntryPlan) (g : MaterializeProgress).
Context (Hg : remaining nd nf (nb + me_size e) g) (Hnb : 0 <= nb) (Hk : 0 <= k) (Hsize : 0 <= me_size e).

(** The bytes that an error says were written are those last reported, or the
    next report would have had them. *)
Definition file_failed (err : MaterializeWriteError) w : Prop :=
  0 <= we_bytes_written err <= me_size e /\ seen (at_byte g (we_bytes_written err)) w.

Definition file_active (offset : Z) w : Prop := active (k + (me_size e - offset)) (at_byte g offset) w.

Lemma file_active_failed offset status t w :
  0 <= offset <= me_size e -> file_active offset w -> file_failed (with_target status t offset) w.
Proof. intros Ho [_ Hs]. by split. Qed.

(** A step that neither reads nor reports, and fails with the bytes so far. *)
Lemma aside_file {E A} (m : M (World F C) E A) (err : E -> MaterializeWriteError) k' offset :
  0 <= offset <= me_size e -> aside m -> (forall x, we_bytes_written (err x) = offset) ->
  triple (active k' (at_byte g offset)) (map_error err m)
    (outcome (fun _ => active k' (at_byte g offset)) file_failed).
Proof.
  intros Ho Hm Herr. apply triple_map_outcome. eapply triple_conseq; [by apply (aside_active m)|done|].
  intros [a|x] w Hw; [done|]. cbn. unfold file_failed. rewrite Herr. split; [done|apply Hw].
Qed.

(** A step of that kind whose own errors tell the bytes written. *)
Definition aside_fails {A} (n : Z) (m : M (World F C) MaterializeWriteError A) : Prop :=
  aside m /\ forall w x, (m w).2 = Err x -> we_bytes_written x = n.

Lemma aside_fails_post {A} (m : M (World F C) MaterializeWriteError A) k' offset :
  0 <= offset <= me_size e -> aside_fails offset m ->
  triple (active k' (at_byte g offset)) m (outcome (fun _ => active k' (at_byte g offset)) file_failed).
Proof.
  intros Ho [Hm Hx] w Hw. pose proof (aside_active m k' _ Hm w Hw) as Hw'. specialize (Hx w).
  destruct (m w) as [w' [a|x]]; [done|]. cbn. unfold file_failed. rewrite (Hx x eq_refl). split; [done|apply Hw'].
Qed.

Lemma aside_fails_bind {A B} n (m : M (World F C) MaterializeWriteError A) (f : A -> M (World F C) MaterializeWriteError B) :
  aside_fails n m -> (forall a, aside_fails n (f a)) -> aside_fails n (m ≫= f).
Proof.
  intros [Hm Hx] Hf. split; intros w; specialize (Hm w); specialize (Hx w); unfold mbind, M_bind;
    destruct (m w) as [w1 [a|x]]; cbn in *; try done.
  - destruct (proj1 (Hf a) w1) as [-> ->]. done.
  - intros x Hr. by eapply (proj2 (Hf a)).
  - intros y [= <-]. by apply Hx.
Qed.

Lemma aside_fails_on_fs {A} n (m : M F MaterializeWriteError A) :
  (forall f x, (m f).2 = Err x -> we_bytes_written x = n) -> aside_fails n (on_fs m).
Proof.
  intros Hm. split; [apply aside_on_fs|]. intros w x. unfold on_fs, zoom. specialize (Hm (w_fs w) x).
  by destruct (m (w_fs w)).
Qed.

Lemma open_output_fails path f x : (open_materialize_output path f).2 = Err x -> we_bytes_written x = 0.
Proof.
  unfold open_materialize_output, map_error, mbind, M_bind. destruct (fs_call _ f) as [f1 [a|s]]; cbn; [|by intros [= <-]].
  destruct (fs_call _ f1) as [f2 [b|s]]; cbn; [done|by intros [= <-]].
Qed.

Lemma open_final_fails entry b f x : (open_final_materialized_file entry b f).2 = Err x -> we_bytes_written x = 0.
Proof.
  unfold open_final_materialized_file, mbind, M_bind. pose proof (open_output_fails (me_target_path entry) f) as H.
  destruct (open_materialize_output _ f) as [f1 [a|y]]; cbn in *; [done|]. intros [= <-]. by apply H.
Qed.

Lemma replacement_aside n entry : aside_fails 0 (replacement_loop process_id n entry).
Proof.
  induction n as [|n IH]; cbn [replacement_loop]; [split; [done|by intros w x [= <-]]|].
  split; intros w; cbv zeta; (destruct (materialize_temp_path _ _ _) as [path|s]; [|try done; by intros x [= <-]]).
  - pose proof (aside_on_fs (open_materialize_output path) (set_w_temp (wrapping_add (w_temp_counter w) 1) w)) as H.
    destruct (on_fs _ _) as [w1 [[file id]|x]]; cbn in *; [done|]. case_decide; [|done].
    destruct (proj1 IH w1) as [-> ->]. done.
  - intros x. unfold on_fs, zoom. pose proof (open_output_fails path (w_fs w)) as H. cbn.
    destruct (open_materialize_output path (w_fs w)) as [f1 [[file id]|y]]; cbn in *; [done|].
    case_decide; [by apply (proj2 IH)|]. intros [= <-]. by apply H.
Qed.

Lemma open_materialized_file_aside policy : aside_fails 0 (open_materialized_file process_id e policy).
Proof.
  unfold open_materialized_file. apply aside_fails_bind.
  { apply aside_fails_on_fs. intros f x. unfold try_. by destruct (symlink_metadata _ f). }
  intros md. apply aside_fails_bind.
  { destruct md as [m|err]; [|case_decide; split; try done; by intros w x [= <-]].
    apply aside_fails_bind; [|by split]. split; [done|]. intros w x. unfold lift. cbn.
    destruct (validate_existing_materialize_target _ _ _); [done|]. by intros [= <-]. }
  intros b. destruct policy; [|destruct b|]; try apply aside_fails_on_fs, open_final_fails. apply replacement_aside.
Qed.

Lemma finalize_aside t path rm rep n : aside_fails n (on_fs (finalize_materialized_file t path rm rep n)).
Proof.
  apply aside_fails_on_fs. intros f x. unfold finalize_materialized_file, map_error, mbind, M_bind. destruct rep; [|done].
  destruct (rename _ _ f) as [f1 [[]|err]]; cbn; [done|by intros [= <-]].
Qed.

(** After the read of a chunk at [offset] and before the report of it. *)
Definition file_between (offset : Z) w : Prop := active (k + (me_size e - offset - 1)) (at_byte g offset) w.

Lemma chunk_step pid t offset L :
  0 <= offset < me_size e -> in_u32 L ->
  triple (file_active offset)
    (map_error (fun status => with_target status t offset) (read_materialize_chunk pid e offset L))
    (outcome (fun bytes w => file_between offset w /\ len bytes <= L) file_failed).
Proof.
  intros Ho HL. apply triple_map_outcome.
  eapply triple_conseq; [apply (chunk_active (k + (me_size e - offset - 1)) (at_byte g offset)); [lia..|done]| |].
  - intros w. unfold file_active. by replace (k + (me_size e - offset - 1) + 1) with (k + (me_size e - offset)) by lia.
  - intros [bytes|s] w [Hw Hlen]; [split; [done|by apply Hlen]|]. split; [cbn; lia|apply Hw].
Qed.

Lemma report_step t offset n :
  0 <= offset < n -> n <= me_size e ->
  triple (file_between offset)
    (map_error (fun status => with_target status t n) (report report_progress (at_byte g n)))
    (outcome (fun _ => file_active n) file_failed).
Proof.
  intros Ho Hn. destruct (at_byte_le nd nf nb (me_size e) g offset n Hg Hnb ltac:(lia) Hn) as [Hle Hwi].
  apply triple_map_outcome. eapply triple_conseq; [apply (report_post (k + (me_size e - n))); exact Hwi| |].
  - intros w [Hr Hs]. split; [eapply room_weaken; [|exact Hr]; lia|by eapply seen_le].
  - intros [[]|s] w [Hw _]; [done|]. split; [cbn; lia|apply Hw].
Qed.

Lemma write_loop_post fuel pid file t offset :
  0 <= offset <= me_size e -> me_size e - offset < Z.of_nat fuel ->
  triple (file_active offset) (write_loop fuel pid e file t (fun n => report report_progress (at_byte g n)) offset)
    (outcome (fun n w => n = me_size e /\ file_active n w) file_failed).
Proof.
  revert offset. induction fuel as [|fuel IH]; intros offset Ho Hfuel; [lia|]. cbn [write_loop].
  destruct (Z.ltb_spec offset (me_size e)) as [Hlt|Hge]; [|apply triple_ret; intros w Hw; split; [lia|done]].
  set (L := Z.min (me_size e - offset) MAX_PROVIDER_READ_LEN).
  assert (HL : L <= me_size e - offset /\ in_u32 L) by (unfold L, in_u32, MAX_PROVIDER_READ_LEN, u32_max; lia).
  destruct HL as [HL HL32].
  eapply triple_seq; [apply chunk_step; [lia|done]|intros bytes]. case_decide as Hb.
  { apply triple_fail. intros w [Hw _]. split; [done|apply Hw]. }
  assert (Hpos : 0 < len bytes) by (destruct bytes; [done|rewrite len_cons; pose proof (len_nonneg bytes); lia]).
  eapply triple_conseq; [apply (triple_pure (len bytes <= L) (file_between offset)); intros Hlen|done|done].
  eapply triple_seq; [apply aside_file; [lia|apply aside_on_fs|done]|intros []].
  destruct (checked_add offset (len bytes)) as [off'|] eqn:Hadd.
  2:{ apply triple_fail. intros w Hw. split; [done|apply Hw]. }
  apply checked_add_Some in Hadd as [-> _].
  eapply triple_seq; [apply report_step; lia|intros []]. apply IH; lia.
Qed.

Lemma write_file_post pid policy :
  triple (active (k + me_size e) g)
    (write_materialized_file process_id pid e policy (fun n => report report_progress (at_byte g n)))
    (outcome (fun o w => fo_bytes_written o = me_size e /\ active k (at_byte g (me_size e)) w) file_failed).
Proof.
  unfold write_materialized_file. eapply triple_seq with (R := fun _ => file_active 0).
  { eapply triple_conseq; [apply (aside_fails_post _ (k + (me_size e - 0)) 0); [lia|apply open_materialized_file_aside]| |done].
    intros w. by rewrite Z.sub_0_r, (at_byte_0 _ _ _ _ Hg). }
  intros target. eapply triple_seq; [apply write_loop_post; lia|intros n].
  eapply triple_conseq; [apply (triple_pure (n = me_size e) (active k (at_byte g (me_size e)))); intros ->| |done].
  2:{ intros w [-> Hw]. split; [|done]. unfold file_active in Hw. by rewrite Z.sub_diag, Z.add_0_r in Hw. }
  do 2 (eapply triple_seq; [apply aside_file; [lia|apply aside_on_fs|done]|intros []]).
  eapply triple_seq; [apply (aside_fails_post _ _ (me_size e)); [lia|apply finalize_aside]|intros created].
  by apply triple_ret.
Qed.
End file.

(** ** The phases *)

Definition failed (err : MaterializeOperationError) w : Prop :=
  match oe_progress err with
  | Some g => within g /\ seen g w
  | None => sees (w_client w) []
  end.

Lemma clean_up_post {A} created g (P : World F C -> Prop) (m : M (World F C) Status A) (Q : A -> World F C -> Prop) :
  within g -> triple P m (outcome Q (fun _ => seen g)) ->
  triple P (or_clean_up created g m) (outcome Q failed).
Proof.
  intros Hg H. apply triple_on_error. eapply triple_conseq; [exact H|done|]. by intros [a|x] w.
Qed.

Lemma aside_clean_up {A} created k g (m : M (World F C) Status A) :
  within g -> aside m -> triple (active k g) (or_clean_up created g m) (outcome (fun _ => active k g) failed).
Proof.
  intros Hg Hm. apply clean_up_post; [done|]. eapply triple_conseq; [by apply (aside_active m k g)|done|].
  intros [a|x] w Hw; [done|apply Hw].
Qed.

Lemma report_clean_up created k g :
  within g -> triple (active k g) (or_clean_up created g (report report_progress g))
    (outcome (fun _ w => active k g w /\ reported g w) failed).
Proof.
  intros Hg. apply clean_up_post; [done|]. eapply triple_conseq; [by apply (report_post k)|done|].
  intros [a|x] w [Hw Hr]; [split; [done|by apply Hr]|apply Hw].
Qed.

Lemma create_directories_post k policy entries nf nb g created :
  remaining (len entries) nf nb g ->
  triple (fun w => active k g w /\ reported g w) (create_directories report_progress policy entries g created)
    (outcome (fun x w => remaining 0 nf nb x.1 /\ active k x.1 w /\ reported x.1 w) failed).
Proof.
  revert g created. induction entries as [|entry entries IH]; intros g created Hg; cbn [create_directories].
  { by apply triple_ret. }
  rewrite len_cons, Z.add_comm in Hg. pose proof (remaining_within _ _ _ _ Hg) as Hw.
  eapply triple_seq; [eapply triple_conseq; [by apply (aside_clean_up _ k g), aside_on_fs|by intros w []|done]|intros target].
  destruct (directory_done_remaining (ct_remove_on_cleanup target) _ _ _ _ Hg (len_nonneg _)) as [Hg' Hle].
  eapply triple_seq; [eapply triple_conseq; [eapply (report_clean_up _ k), remaining_within; exact Hg'| |done]|intros []; by apply IH].
  intros w [Hr Hs]. split; [done|by eapply seen_le].
Qed.

Lemma write_files_post k pid policy entries g created :
  Forall (fun e => 0 <= me_size e) entries -> 0 <= k ->
  remaining 0 (len entries) (total_bytes entries) g ->
  triple (fun w => active (k + total_bytes entries) g w /\ reported g w)
    (write_files process_id report_progress pid policy entries g created)
    (outcome (fun x w => remaining 0 0 0 x.1 /\ active k x.1 w /\ reported x.1 w) failed).
Proof.
  intros Hpos Hk. revert g created. induction Hpos as [|e entries He Hpos IH]; intros g created Hg; cbn [write_files].
  { apply triple_ret. intros w Hw. change (total_bytes []) with 0 in *. by rewrite Z.add_0_r in Hw. }
  cbn [total_bytes foldr] in *. fold (total_bytes entries) in *. rewrite len_cons, (Z.add_comm 1), (Z.add_comm (me_size e)) in Hg.
  pose proof (len_nonneg entries) as Hn.
  pose proof (total_bytes_Forall _ Hpos) as Hb.
  eapply triple_bind with (R := outcome (fun x w => match x with
    | Ok o => fo_bytes_written o = me_size e /\ active (k + total_bytes entries) (at_byte g (me_size e)) w
    | Err x => file_failed e g x w end) (fun _ _ => False)); [| |by intros x w].
  { apply triple_try. eapply triple_conseq; [eapply (write_file_post _ _ _ (k + total_bytes entries) _ _ Hg); lia| |by intros [] w].
    intros w [Hw _]. by rewrite (Z.add_comm (me_size e)), Z.add_assoc in Hw. }
  intros [outcome|x]; cbn beta iota.
  - eapply triple_conseq; [apply (triple_pure (fo_bytes_written outcome = me_size e)
      (active (k + total_bytes entries) (at_byte g (me_size e)))); intros ->|by intros w []|done].
    fold (at_byte g (me_size e)). destruct (file_done_remaining _ _ _ _ Hg Hn Hb He) as [Hg' Hle].
    eapply triple_seq; [eapply triple_conseq; [eapply (report_clean_up _ (k + total_bytes entries)), remaining_within; exact Hg'| |done]|intros []; by apply IH].
    intros w [Hr Hs]. split; [done|by eapply seen_le].
  - intros w [Hx Hs]. unfold or_clean_up, on_error, fail. cbn. split; [|done].
    eapply (at_byte_le _ _ _ _ _ (we_bytes_written x)); [exact Hg|lia..].
Qed.

(** ** The whole operation *)

(** The entries of a plan are the nodes of the subtree at the source path. *)
Lemma plan_entries request w w' plan :
  plan_materialize request w = (w', Ok plan) ->
  exists pid rel t nodes,
    resolve_visible_path (st_mount_status (w_ipc w)) (mr_source_path request) = Ok (pid, rel) /\
    rt_promises (st_runtime (w_ipc w)) !! pid = Some t /\ PromiseTree_subtree_nodes t rel = Some (Ok nodes) /\
    Forall2 (fun n e => plan_entry (mp_target_path plan) rel n = Ok e) nodes (mp_entries plan).
Proof.
  unfold plan_materialize. intros Hrun.
  apply bind_run in Hrun as (w1 & [] & Hdir & Hrun). apply zoom_run in Hdir as (f1 & _ & ->).
  apply bind_run in Hrun as (w1 & s & [= <- <-] & Hrun). cbn in Hrun.
  apply bind_run in Hrun as (w1 & [pid rel] & [-> Hs]%lift_run & Hrun).
  apply bind_run in Hrun as (w1 & ns & [-> Hns]%lift_run & Hrun). unfold plan_nodes, Runtime_promise in Hns.
  apply bind_Ok in Hns as (t & Ht%ok_or_Ok & Hns). case_decide; [done|].
  destruct (PromiseTree_subtree_nodes t rel) as [r|] eqn:Hsub; [|done]. cbn in Hns. subst r.
  apply bind_run in Hrun as (w1 & root & [-> _]%lift_run & Hrun).
  apply bind_run in Hrun as (w1 & name & [-> _]%lift_run & Hrun).
  apply bind_run in Hrun as (w1 & target & Htp & Hrun). apply zoom_run in Htp as (f2 & _ & ->).
  apply bind_run in Hrun as (w1 & entries & [-> Hent%collect_Ok]%lift_run & Hrun).
  apply bind_run in Hrun as (w1 & [] & _ & [= _ <-]). by exists pid, rel, t, ns.
Qed.

Lemma aside_bind {E A B} (m : M (World F C) E A) (f : A -> M (World F C) E B) :
  aside m -> (forall a, aside (f a)) -> aside (m ≫= f).
Proof.
  intros Hm Hf w. specialize (Hm w). unfold mbind, M_bind. destruct (m w) as [w1 [a|x]]; [|done].
  destruct Hm as [<- <-]. apply Hf.
Qed.

Lemma plan_aside request : aside (plan_materialize request).
Proof.
  unfold plan_materialize. repeat (apply aside_bind; [first [apply aside_on_fs|done]|intros ?]).
  destruct a1. repeat (apply aside_bind; [first [apply aside_on_fs|done]|intros ?]). done.
Qed.

(** The subtree at the source path has at most [k] bytes. *)
Definition subtree_fits (k : Z) (body : MaterializeBody) (s : IpcState) : Prop :=
  forall pid rel t nodes, resolve_visible_path (st_mount_status s) (mb_source_path body) = Ok (pid, rel) ->
    rt_promises (st_runtime s) !! pid = Some t -> PromiseTree_subtree_nodes t rel = Some (Ok nodes) ->
    node_bytes nodes <= k.

(** The files that a plan reads. *)
Lemma plan_bytes k body request w w' plan :
  MaterializeRequest_from_body body = Ok request -> rt_wf (st_runtime (w_ipc w)) -> subtree_fits k body (w_ipc w) ->
  plan_materialize request w = (w', Ok plan) ->
  let files := filter is_file_entry (mp_entries plan) in
  Forall (fun e => 0 <= me_size e) files /\ total_bytes files <= k.
Proof.
  intros Hreq Hwf Hfits Hrun files. destruct (plan_entries _ _ _ _ Hrun) as (pid & rel & t & nodes & Hres & Ht & Hsub & Hent).
  assert (Hsrc : mr_source_path request = mb_source_path body).
  { unfold MaterializeRequest_from_body in Hreq. case_decide; [done|]. by injection Hreq as <-. }
  rewrite Hsrc in Hres. pose proof (Hfits _ _ _ _ Hres Ht Hsub) as Hle.
  rewrite <- (entries_bytes _ _ _ _ Hent) in Hle. split; [|done].
  destruct (rw_tree _ Hwf _ _ Ht) as [Htw Hty]. destruct (subtree_nodes_list t Htw _ _ Hsub) as (r & _ & Hsl).
  apply Forall_forall. intros e [_ He]%list_elem_of_filter. destruct (Forall2_elem_r _ _ _ _ Hent He) as (n & Hin & Hp).
  apply (sl_elem _ _ _ Hsl) in Hin as [Hin _]. apply plan_entry_of in Hp as (_ & _ & -> & _). by apply (Hty _ _ Hin).
Qed.

Lemma plan_remaining k body request w w' plan :
  MaterializeRequest_from_body body = Ok request -> room k (w_ipc w) -> subtree_fits k body (w_ipc w) ->
  plan_materialize request w = (w', Ok plan) ->
  let files := filter is_file_entry (mp_entries plan) in
  Forall (fun e => 0 <= me_size e) files /\ total_bytes files <= k /\
  remaining (len (filter is_dir_entry (mp_entries plan))) (len files) (total_bytes files)
    (MaterializeProgress_new (mp_target_path plan) (mp_entries plan)).
Proof.
  intros Hreq Hroom Hfits Hrun files.
  destruct (plan_bytes k body request w w' plan Hreq (ro_wf _ _ Hroom) Hfits Hrun) as [Hpos Hle]. fold files in Hpos, Hle.
  assert (Hmax : k <= u64_max).
  { pose proof (ro_ids _ _ Hroom). pose proof (router_id _ (ro_inv _ _ Hroom)). lia. }
  split_and!; [done..|]. pose proof (total_bytes_Forall _ Hpos). rewrite Forall_forall in Hpos.
  pose proof (entries_split (mp_entries plan)) as Hsplit. fold files in Hsplit.
  pose proof (len_nonneg files). pose proof (len_nonneg (filter is_dir_entry (mp_entries plan))).
  split; cbn; fold files; rewrite ?u64_sum_total by (done || lia); lia.
Qed.

Lemma mark_client pid entries w : w_client (mark_materialized pid entries w).1 = w_client w.
Proof.
  unfold mark_materialized. revert w. induction entries as [|e entries IH]; intros w; cbn [for_each]; [done|].
  unfold mbind, M_bind. destruct (Runtime_mark_node_materialized _ _ _ _) as [rt [[]|x]]; [|done]. by rewrite IH.
Qed.

Lemma materialize_post k body :
  0 <= k ->
  triple (fun w => room k (w_ipc w) /\ sees (w_client w) [] /\ subtree_fits k body (w_ipc w))
    (materialize_node_in_state process_id report_progress body)
    (outcome (fun c w => exists l, sees (w_client w) l /\ orderly l c /\ last l = Some c /\ counters_complete c) failed).
Proof.
  intros Hk w (Hroom & Hstart & Hfits). unfold materialize_node_in_state.
  unfold mbind at 1, M_bind at 1, map_error at 1, lift at 1.
  destruct (MaterializeRequest_from_body body) as [request|x] eqn:Hreq; cbn [map_err]; [|done].
  unfold mbind at 1, M_bind at 1, map_error at 1. pose proof (plan_aside request w) as Hplan.
  destruct (plan_materialize request w) as [w1 [plan|x]] eqn:Hrun; cbn [map_err fst snd] in *; destruct Hplan as [Hi1 Hc1];
    [|by unfold failed; cbn; rewrite Hc1].
  destruct (plan_remaining k body request w w1 plan Hreq Hroom Hfits Hrun) as (Hpos & Hle & Hrem).
  set (g := MaterializeProgress_new _ _) in *. set (files := filter is_file_entry _) in *.
  refine ((_ : triple (active k g) _ _) w1 _); [|split; [by rewrite Hi1|exists []; rewrite Hc1; split; [done|apply orderly_nil]]].
  eapply triple_seq; [eapply report_clean_up, remaining_within; exact Hrem|intros []].
  eapply triple_seq; [by apply create_directories_post|intros x].
  eapply triple_conseq; [apply (triple_pure (remaining 0 (len files) (total_bytes files) x.1)
    (fun w => active k x.1 w /\ reported x.1 w)); intros Hx|by intros w' (? & ? & ?)|done].
  eapply triple_seq; [eapply triple_conseq; [by apply (write_files_post (k - total_bytes files)); [|lia|]| |done]|].
  { intros w' [Hw' ?]. split; [|done]. by replace (k - total_bytes files + total_bytes files) with k by lia. }
  intros [g' created].
  eapply triple_conseq; [apply (triple_pure (remaining 0 0 0 g') (reported g')); intros Hg'|by intros w' (? & ? & ?)|done].
  pose proof (remaining_within _ _ _ _ Hg') as Hwi.
  eapply triple_seq with (R := fun _ => reported g'); [|intros []; eapply triple_seq with (R := fun _ => reported g')].
  - apply clean_up_post; [done|]. intros w' Hw'. unfold on_fs, zoom. destruct (apply_directories _ _ _) as [f [[]|y]]; [done|].
    by apply reported_seen in Hw'.
  - apply clean_up_post; [done|]. intros w' Hw'. pose proof (mark_client (mp_promise_id plan) (mp_entries plan) w') as Hm.
    destruct (mark_materialized _ _ w') as [w2 [[]|y]]; cbn in Hm; [|apply reported_seen in Hw'];
      destruct Hw' as (l & Hl & Ho); exists l; by rewrite Hm.
  - intros []. apply triple_ret. intros w' (l & Hl & Ho & Hlast). exists l. split_and!; try done. by apply remaining_complete.
Qed.
End progress.

(** ** Reports to a client over its connection *)

Section client.
Context `{!Bincode Request, !Bincode Response} (out : list byte).

(** The frames of the reports follow what the daemon had written before. *)
Definition client_sees (c : Client) (ps : list MaterializeCounters) : Prop :=
  cl_writer c = mkWriter (out ++ progress_frames ps) None.

Lemma client_progress_sees c l g :
  client_sees c l ->
  let '(c', r) := client_progress c g in
  client_sees c' (l ++ [progress_counters g]) \/ client_sees c' l /\ is_ok r = false.
Proof.
  unfold client_sees, client_progress. cbn [client_end end_reply end_request]. unfold reply. intros ->.
  destruct (write_frame_cases (ResponseMaterializeProgress (progress_counters g))) as [He|He].
  - rewrite write_message by done. cbn. destruct (read_frame _) as [rd x]. left. cbn.
    unfold progress_frames. rewrite fmap_app, concat_app. cbn. by rewrite app_nil_r, app_assoc.
  - destruct (He (out ++ progress_frames l)) as [x ->]. by right.
Qed.
End client.

(** ** Properties *)

(** C11: the progress reports of a materialization are in order.  A client is
    connected over a stream that takes what is written to it, request ids
    suffice for a read per byte, and whatever the file system, the providers
    and the other threads do: the daemon writes reports whose counters never
    decrease and never pass the totals, and all of which have the same target
    and the same totals.  If the operation succeeds, the last report is the
    final answer, with every entry, every file and every byte done; if it fails,
    what the failure says was done is within the totals and covers every report
    before it. *)
Theorem progress_reports_orderly {F} `{!FileSystem F, !Router, !Bincode Request, !Bincode Response}
    (inv : IpcState -> Prop) budget k process_id body (w : World F Client) out :
  0 <= budget -> RouterOk inv op_typed budget -> 0 <= k ->
  room inv budget k (w_ipc w) -> subtree_fits k body (w_ipc w) -> cl_writer (w_client w) = mkWriter out None ->
  exists ps w' r, materialize_node_in_state process_id client_progress body w = (w', r) /\
    cl_writer (w_client w') = mkWriter (out ++ progress_frames ps) None /\
    (encodable (final_response r) ->
     cl_writer (w_client (handle_materialize process_id body w).1) =
       mkWriter ((out ++ progress_frames ps) ++ message_frame (final_response r)) None) /\
    StronglySorted counters_le ps /\ Forall counters_within ps /\
    match r with
    | Ok c => last ps = Some c /\ counters_complete c
    | Err err => forall g, oe_progress err = Some g ->
        counters_within (progress_counters g) /\ Forall (fun p => counters_le p (progress_counters g)) ps
    end.
Proof.
  intros Hb Hrok Hk Hroom Hfits Hout.
  pose proof (materialize_post inv budget Hb process_id client_progress (client_sees out) (client_progress_sees out)
    k body Hk w) as Hpost.
  assert (Hstart : client_sees out (w_client w) []) by (unfold client_sees; rewrite Hout; cbn; by rewrite app_nil_r).
  specialize (Hpost (conj Hroom (conj Hstart Hfits))).
  destruct (materialize_node_in_state process_id client_progress body w) as [w' r] eqn:Hrun.
  cut (exists ps, client_sees out (w_client w') ps /\ StronglySorted counters_le ps /\ Forall counters_within ps /\
    match r with
    | Ok c => last ps = Some c /\ counters_complete c
    | Err err => forall g, oe_progress err = Some g ->
        counters_within (progress_counters g) /\ Forall (fun p => counters_le p (progress_counters g)) ps
    end).
  { intros (ps & Hs & H1 & H2 & H3). exists ps, w', r. split_and!; try done.
    intros He. by rewrite (handle_materialize_final process_id body w w' r _ Hrun Hs He). }
  destruct r as [c|err]; cbn in Hpost.
  - destruct Hpost as (ps & Hs & (H1 & H2 & _) & H3 & H4). by exists ps.
  - unfold failed in Hpost. destruct (oe_progress err) as [g|].
    + destruct Hpost as [Hw (ps & Hs & H1 & H2 & H3)]. exists ps. split_and!; try done. by intros ? [= <-].
    + exists []. split_and!; [done|by repeat constructor..|done].
Qed.

(** Responses of any kind are sent, and every request is to go on. *)
Definition eager_requests : Bincode Request := table_codec [RequestMaterializeContinue].
Definition eager_responses : Bincode Response := Build_Bincode Response (fun _ => Ok [byte_of 0]) (fun _ => Err []).

Notation eager_end := (@client_end eager_requests eager_responses).

Definition eager_client : Client :=
  mkClient 7 (mkReader (@continue_frames eager_requests 20) None) (mkWriter [] None) true [].

Lemma sample_subtree_fits policy : subtree_fits 1000 (sample_request_body policy) sample_ready_mount.
Proof.
  destruct sample_subtree as (t & nodes & Ht & Hsub & Hbytes & Hlen & _).
  intros pid rel t' nodes' Hres Ht' Hsub'.
  assert (Hsame : Ok (pid, rel) = Ok (bs "promise-1", bs "docs") :> Result (str * str)) by (rewrite <- Hres; vm_compute; reflexivity).
  injection Hsame as -> ->. rewrite Ht in Ht'. injection Ht' as <-. rewrite Hsub in Hsub'. injection Hsub' as <-. lia.
Qed.

Lemma progress_reports_orderly_witness :
  exists ps counters,
    cl_writer (w_client (@handle_materialize ModelFs Client _ (routed sample_answers) eager_end 7
      (sample_request_body FailBody) (mkWorld sample_ready_mount sample_fs eager_client 0)).1) =
      mkWriter (([] ++ @progress_frames eager_responses ps) ++ @message_frame _ eager_responses (ResponseMaterialized counters)) None /\
    last ps = Some counters /\ mc_bytes_written counters = 17 /\ mc_entries_done counters = 4.
Proof.
  destruct (sample_ready_ready 1000 ltac:(lia)) as [[Hwf _] Hinv Hid Hp Hq].
  assert (Hc : (fun r => match r with Ok c => (mc_bytes_written c, mc_entries_done c) | Err _ => (0, 0) end)
    (@materialize_node_in_state ModelFs Client _ (routed sample_answers) 7 (@client_progress Client eager_end)
      (sample_request_body FailBody) (mkWorld sample_ready_mount sample_fs eager_client 0)).2 = (17, 4)) by (vm_compute; reflexivity).
  destruct (@progress_reports_orderly ModelFs _ (routed sample_answers) eager_requests eager_responses ipc_inv 1 1000 7
    (sample_request_body FailBody) (mkWorld sample_ready_mount sample_fs eager_client 0) [])
    as (ps & w' & r & Hrun & _ & Hfinal & _ & _ & Hr).
  - lia.
  - apply routed_ok; [lia|done|]. intros i. split; [constructor|done].
  - lia.
  - split; [exact Hwf|exact Hinv|exact Hid|exact Hp|exact Hq].
  - exact (sample_subtree_fits FailBody).
  - reflexivity.
  - rewrite Hrun in Hc. cbn [snd] in Hc. destruct r as [counters|err]; [|discriminate Hc]. injection Hc as Hc1 Hc2.
    exists ps, counters. split; [apply Hfinal; exists [byte_of 0]; split; [reflexivity|vm_compute; congruence]|].
    split; [apply Hr|]. split; [exact Hc1|exact Hc2].
Defined.
