(* ===== verification/ServerRefines.v ===== *)
(** * A connection without interruption

    [Server] models [handle_client_with_state] of
    [crates/fuse-promise-ipc/src/lib.rs] as a function: nothing happens between
    the critical sections of the connection's thread, except that other threads
    answer the reads of a materialization while it waits.  Here that function
    is shown to be a run of the daemon of [Connections], with the handler of
    [Materialize]: the readers' steps of a materialization, and what the other
    connections and the FUSE threads do during its reads, are steps of the
    interleaved system. *)

From S2P Require Import Prelude Types Paths Cache Tree Runtime ReadPlan Messages Frame Wire Commit Mount IpcState Routing Report Server Router Effect Fs Materialize ModelFs MaterializeSample MaterializeServer Client Connections Content FuseAdapter MaterializeSafety MaterializeCorrect Progress.

(** ** Threads and channels *)

Lemma new_channel_above s t : is_Some (st_channels s !! t) -> (t < new_channel s)%nat.
Proof.
  intros [q Hq]. assert (Hin : t ∈ (map_to_list (st_channels s)).*1).
  { apply list_elem_of_fmap. exists (t, q). split; [done|]. by apply elem_of_map_to_list. }
  apply max_list_elem_of_le in Hin. unfold new_channel. lia.
Qed.

Lemma new_channel_least s n :
  (0 < n)%nat -> (forall t, is_Some (st_channels s !! t) -> (t < n)%nat) -> (new_channel s <= n)%nat.
Proof.
  intros Hn Hall. unfold new_channel. enough (max_list (map_to_list (st_channels s)).*1 < n)%nat by lia.
  assert (Hl : Forall (fun t => (t < n)%nat) (map_to_list (st_channels s)).*1).
  { apply Forall_forall. intros t ([t' q] & -> & Hin%elem_of_map_to_list)%list_elem_of_fmap. by apply Hall; eexists. }
  induction Hl as [|t l Ht Hl IH]; cbn; lia.
Qed.

Definition no_new_channel (s s' : IpcState) : Prop :=
  forall t, is_Some (st_channels s' !! t) <-> is_Some (st_channels s !! t).

Lemma no_new_channel_new s s' : no_new_channel s s' -> new_channel s' = new_channel s.
Proof.
  intros H. apply Nat.le_antisymm; (apply new_channel_least; [unfold new_channel; lia|]);
    intros t Ht; apply new_channel_above; by apply H.
Qed.

(** A pending read has a channel, so answering it makes none. *)
Definition channels_ok (s : IpcState) : Prop :=
  forall i p, st_pending_reads s !! i = Some p -> is_Some (st_channels s !! pd_sender p).

Lemma sys_inv_channels s reads : sys_inv (mkSystem s reads) -> channels_ok s.
Proof.
  intros Hinv i p Hp. destruct (si_pending _ Hinv i p Hp) as (pc & Hpc & Haw & _).
  destruct (si_thread _ Hinv _ _ Hpc) as (_ & _ & H).
  destruct pc; try done; cbn in H; destruct H as [[_ H]|(_ & x & H & _)]; by eexists.
Qed.

Lemma send_no_new ch x s : is_Some (st_channels s !! ch) -> no_new_channel s (send ch x s).
Proof. intros H t. rewrite send_channels. case_decide; [subst|done]. split; [done|by eexists]. Qed.

Lemma deliver_no_new x l s :
  (forall kv, kv ∈ l -> is_Some (st_channels s !! pd_sender kv.2)) -> no_new_channel s (deliver x l s).
Proof.
  revert s. induction l as [|kv l IH]; intros s Hl; [by intros t|].
  assert (Hs : no_new_channel s (send (pd_sender kv.2) x s)) by (apply send_no_new, Hl; by left).
  change (deliver x (kv :: l) s) with (deliver x l (send (pd_sender kv.2) x s)).
  intros t. etrans; [apply IH|apply Hs]. intros kv' Hin. apply Hs, Hl. by right.
Qed.

Lemma complete_no_new s registered body :
  channels_ok s -> no_new_channel s (complete_provider_read s registered body).1.
Proof.
  intros Hok. unfold complete_provider_read. destruct (ProviderReadResponse_from_body body) as [r|]; [|by intros t].
  destruct (st_pending_reads s !! rs_request_id r) as [p|] eqn:Hp; [|by intros t].
  match goal with |- no_new_channel s (send ?ch ?x ?s0, _).1 => apply (send_no_new ch x s0) end.
  by apply (Hok _ _ Hp).
Qed.

Lemma fail_reads_no_new s id kind : channels_ok s -> no_new_channel s (fail_provider_pending_reads s id kind).
Proof.
  intros Hok. unfold fail_provider_pending_reads.
  match goal with |- no_new_channel s (foldl _ ?s0 ?l) =>
    apply (deliver_no_new (Err (disconnect_error kind)) l s0) end.
  intros [i p] [_ Hin]%list_elem_of_filter. apply elem_of_btree_items in Hin. by apply (Hok i p).
Qed.

(** The pending reads of [s'] are among those of [s]. *)
Lemma channels_ok_no_new s s' :
  channels_ok s -> no_new_channel s s' -> st_pending_reads s' ⊆ st_pending_reads s -> channels_ok s'.
Proof. intros Hok Hno Hsub i p Hp. apply Hno. eapply Hok, lookup_weaken; done. Qed.

Lemma run_env_channels s op : channels_ok s -> no_new_channel s (run_env s op) /\ channels_ok (run_env s op).
Proof.
  intros Hok. assert (Hno : no_new_channel s (run_env s op)).
  { destruct op; cbn [run_env]; [by apply complete_no_new|by apply fail_reads_no_new|by intros ?..]. }
  split; [done|]. apply (channels_ok_no_new s); [done..|]. destruct op; cbn [run_env]; try done.
  - unfold complete_provider_read. destruct (ProviderReadResponse_from_body response); [|done].
    destruct (st_pending_reads s !! _); [|done]. cbn. apply delete_subseteq.
  - unfold fail_provider_pending_reads. match goal with |- context [foldl _ ?s0 ?l] =>
      destruct (deliver_fields (Err (disconnect_error kind)) l s0) as (H & _); unfold deliver in H; rewrite H end.
    apply map_filter_subseteq.
Qed.

Lemma run_envs_channels s ops : channels_ok s -> no_new_channel s (run_envs s ops).
Proof.
  revert s. induction ops as [|op ops IH]; intros s Hok; [by intros t|].
  destruct (run_env_channels s op Hok) as [H1 H2]. intros t. etrans; [by apply IH|apply H1].
Qed.

Lemma disconnect_no_new s id : channels_ok s -> no_new_channel s (disconnect_provider_id s id).
Proof.
  intros Hok. unfold disconnect_provider_id. destruct (ProviderId_from_raw id) as [z|]; [|by intros t].
  by apply (fail_reads_no_new (unregister_in_runtime (remove_route s id) z)).
Qed.

(** A call makes one channel at most. *)
Lemma route_channels env s r x :
  channels_ok s -> route_lookup s r = Ok x -> (route_insert s r (new_channel s)).2 = Ok tt ->
  forall t, is_Some (st_channels (route_provider_read env s r).1 !! t) <->
    is_Some (st_channels s !! t) \/ t = new_channel s.
Proof.
  intros Hok Hlook Hins t. unfold route_provider_read. rewrite Hlook.
  destruct (route_insert s r (new_channel s)) as [s1 r1] eqn:Hri. cbn in Hins. subst r1.
  assert (H1 : is_Some (st_channels s1 !! t) <-> is_Some (st_channels s !! t) \/ t = new_channel s).
  { unfold route_insert in Hri. injection Hri as <- _. cbn. rewrite lookup_insert. case_decide; naive_solver. }
  assert (Hok1 : channels_ok s1).
  { unfold route_insert in Hri. injection Hri as <- _. intros i p. cbn.
    intros [[_ <-]|[_ Hp]]%lookup_insert_Some; cbn; [by rewrite lookup_insert_eq|].
    rewrite lookup_insert. case_decide; [by eexists|by eapply Hok]. }
  rewrite <- H1. destruct (en_write env) as [[]|e]; cbn [fst].
  - pose proof (run_envs_channels s1 (en_meanwhile env) Hok1 t) as H2. rewrite <- H2. generalize (run_envs s1 (en_meanwhile env)).
    intros s2. assert (H3 : is_Some (st_channels (drop_received s2 (new_channel s)) !! t) <-> is_Some (st_channels s2 !! t)).
    { unfold drop_received. destruct (st_channels s2 !! new_channel s) as [[|y q]|] eqn:Hq; [done| |done].
      cbn. rewrite lookup_insert. case_decide; [subst; rewrite Hq; split; by eexists|done]. }
    rewrite <- H3. by destruct (recv_timeout s2 (new_channel s)).
  - unfold route_write_failed. apply (disconnect_no_new (remove_pending_read s1 (rq_request_id r))).
    apply (channels_ok_no_new s1); [done|by intros ?|]. cbn. apply delete_subseteq.
Qed.

(** ** Tidy states *)

(** Every read under way has a channel, or a thread so far above the channels
    that the request ids run out before one of its number is made. *)
Definition tidy (s : IpcState) (reads : gmap ChannelId ReadThread) : Prop :=
  sys_inv (mkSystem s reads) /\
  exists bound : nat, Z.of_nat (new_channel s) + (u64_max - st_next_read_request_id s) <= Z.of_nat bound /\
    forall t, is_Some (reads !! t) -> is_Some (st_channels s !! t) \/ (bound < t)%nat.

Lemma tidy_start s reads :
  sys_inv (mkSystem s reads) -> (forall t, is_Some (reads !! t) -> is_Some (st_channels s !! t)) -> tidy s reads.
Proof.
  intros Hinv Hch. split; [done|]. pose proof (si_next _ Hinv) as Hn. cbn in Hn.
  exists (new_channel s + Z.to_nat (u64_max - st_next_read_request_id s))%nat. split; [lia|]. auto.
Qed.

(** A step of the readers' system in which no reader moves. *)
Lemma step_still sys sys' :
  step sys sys' -> sys_reads sys' = sys_reads sys -> sys_inv sys ->
  st_next_read_request_id (sys_state sys') = st_next_read_request_id (sys_state sys) /\
  no_new_channel (sys_state sys) (sys_state sys').
Proof.
  destruct 1; cbn [sys_reads sys_state]; intros Heq Hinv; try (split; [done|by intros ?]).
  all: try (apply (f_equal (lookup t)) in Heq; rewrite lookup_insert_eq in Heq; repeat case_match; congruence).
  - split; [|by eapply complete_no_new, sys_inv_channels]. unfold complete_provider_read.
    destruct (ProviderReadResponse_from_body body); [|done]. by destruct (st_pending_reads s !! _).
  - split; [|by eapply fail_reads_no_new, sys_inv_channels]. unfold fail_provider_pending_reads.
    match goal with |- context [foldl _ ?s0 ?l] =>
      destruct (deliver_fields (Err (disconnect_error kind)) l s0) as (_ & H & _) end.
    exact H.
  - unfold register_provider_route. destruct clone; (split; [done|by intros ?]).
Qed.

(** The steps of the daemon in which no reader moves. *)
Definition quiet (d d' : Daemon) : Prop := dstep d d' /\ d_reads d' = d_reads d.

Lemma quiet_steps d d' : rtc quiet d d' -> rtc dstep d d'.
Proof. induction 1 as [|d d1 d2 [Hs _] _ IH]; [apply rtc_refl|by eapply rtc_l]. Qed.

Lemma tidy_quiet d d' : rtc quiet d d' -> tidy (d_state d) (d_reads d) -> tidy (d_state d') (d_reads d').
Proof.
  induction 1 as [|d d1 d2 [Hs Hr] _ IH]; [done|]. intros [Hinv (bound & Hb & Ht)]. apply IH.
  destruct (dstep_system _ _ Hs) as [Hstep|Heq].
  - destruct (step_still _ _ Hstep Hr Hinv) as [Hn Hch]. cbn in Hn, Hch. split; [by apply (step_inv _ _ Hinv Hstep)|].
    exists bound. rewrite Hn, (no_new_channel_new _ _ Hch), Hr. split; [done|].
    intros t [H|H]%Ht; [left; by apply Hch|by right].
  - unfold d_system in Heq. injection Heq as H1 H2. rewrite <- H1, <- H2. split; [done|]. by exists bound.
Qed.

(** ** Reads of a materialization *)

(** The readers under way are where they were, and the others have come and
    returned. *)
Definition own_reads (reads reads' : gmap ChannelId ReadThread) : Prop :=
  forall t pc, (reads !! t = Some pc -> reads' !! t = Some pc) /\
    (reads' !! t = Some pc -> reads !! t = Some pc \/ exists request result, pc = Returned request result).

#[export] Instance own_reads_preorder : PreOrder own_reads.
Proof.
  split; [by intros reads t pc; auto|]. intros r1 r2 r3 H12 H23 t pc. destruct (H12 t pc) as [A1 B1], (H23 t pc) as [A2 B2]. split; [by auto|].
  intros [H|H]%B2; [by apply B1|by right].
Qed.

Lemma own_reads_insert reads t request result :
  reads !! t = None -> own_reads reads (<[t := Returned request result]> reads).
Proof.
  intros Ht t' pc. rewrite lookup_insert. case_decide as Heq; [subst t'|by auto]. rewrite Ht. split; [done|].
  intros [= <-]. right. eauto.
Qed.

(** What other threads can do while a connection waits for a provider: the
    others, [conns], deliver answers, the FUSE threads record what they read
    and mark nodes, and the mount status may be set. *)
Definition realizable (conns : gmap ConnId Connection) (op : EnvOp) : Prop :=
  match op with
  | EnvComplete registered _ => exists conn, conns !! conn = Some (idle registered)
  | EnvRuntime op => op_inner op /\ op_calm op
  | EnvMount m => mount_wf m
  | _ => False
  end.

Lemma realizable_calm conns ops : Forall (realizable conns) ops -> Forall env_calm ops.
Proof. intros H. eapply Forall_impl; [exact H|]. intros []; cbn; naive_solver. Qed.

Lemma realizable_delete id conns op : realizable (delete id conns) op -> realizable conns op.
Proof. destruct op; cbn; try done. intros (conn & [_ Hc]%lookup_delete_Some). by exists conn. Qed.

Lemma op_calm_typed op : op_calm op -> op_typed op.
Proof. by destruct op. Qed.

Section reads.
Context (conns : gmap ConnId Connection) (leaked : gset Z).

Definition at_daemon (sys : System) : Daemon := mkDaemon (sys_state sys) (sys_reads sys) conns leaked.
Definition dmoves (sys sys' : System) : Prop := dstep (at_daemon sys) (at_daemon sys').

Lemma dmoves_run sys sys' : rtc dmoves sys sys' -> rtc dstep (at_daemon sys) (at_daemon sys').
Proof. induction 1 as [|s1 s2 s3 Hs _ IH]; [apply rtc_refl|by eapply rtc_l]. Qed.

Lemma run_env_moves s reads op :
  ids_room s -> realizable conns op -> dmoves (mkSystem s reads) (mkSystem (run_env s op) reads).
Proof.
  intros Hroom. destruct op; cbn [realizable run_env]; try done.
  - intros (conn & Hc). by apply (d_answer s reads conns leaked conn).
  - intros [Hin Hcalm]. apply d_inner; [done|by apply op_calm_typed|done].
  - intros _. apply d_mount.
Qed.

Lemma calm_ids_room s s' : calm s s' -> ids_room s -> ids_room s'.
Proof. intros [_ H1 H2 _] [H3 H4]. split; congruence. Qed.

Lemma run_envs_moves s reads ops :
  ids_room s -> Forall (realizable conns) ops -> rtc dmoves (mkSystem s reads) (mkSystem (run_envs s ops) reads).
Proof.
  intros Hroom Hops. revert s Hroom. induction Hops as [|op ops Hop Hops IH]; intros s Hroom; [apply rtc_refl|].
  eapply rtc_l; [by apply run_env_moves|]. apply IH. eapply calm_ids_room; [|done]. apply run_env_calm.
  pose proof (realizable_calm conns [op] ltac:(by constructor)) as H. by inversion H.
Qed.

(** A call that finds no route returns at once: its thread is one far above the
    channels. *)
Lemma unrouted_run s reads s1 req e bound :
  (forall t, reads !! t = None -> st_channels s !! t = None ->
     dstep (mkDaemon s reads conns leaked) (mkDaemon s1 (<[t := Calling req]> reads) conns leaked) /\
     sys_inv (mkSystem s1 (<[t := Calling req]> reads))) ->
  (new_channel s <= bound)%nat -> route_lookup s1 req = Err e ->
  exists t, (bound < t)%nat /\
    rtc dstep (mkDaemon s reads conns leaked) (mkDaemon s1 (<[t := Returned req (Err e)]> reads) conns leaked) /\
    sys_inv (mkSystem s1 (<[t := Returned req (Err e)]> reads)) /\ reads !! t = None.
Proof.
  intros Hcall Hbound Hlook. set (t := S (bound + max_list (map_to_list reads).*1)). exists t. split; [unfold t; lia|].
  assert (Ht : reads !! t = None).
  { destruct (reads !! t) as [pc|] eqn:Hpc; [|done]. exfalso.
    assert (Hin : t ∈ (map_to_list reads).*1).
    { apply list_elem_of_fmap. exists (t, pc). split; [done|]. by apply elem_of_map_to_list. }
    apply max_list_elem_of_le in Hin. unfold t in Hin at 1. lia. }
  assert (Hc : st_channels s !! t = None).
  { destruct (st_channels s !! t) as [q|] eqn:Hq; [|done]. exfalso.
    pose proof (new_channel_above s t ltac:(by eexists)). unfold t in *. lia. }
  destruct (Hcall t Ht Hc) as [Hs1 Hinv1].
  pose proof (step_lookup s1 (<[t := Calling req]> reads) t req ltac:(apply lookup_insert_eq)) as Hs2.
  rewrite Hlook in Hs2. pose proof (step_inv _ _ Hinv1 Hs2) as Hinv2. rewrite insert_insert_eq in Hs2, Hinv2.
  split; [|done]. eapply rtc_l; [exact Hs1|]. eapply rtc_l; [|apply rtc_refl]. apply d_read; [done|].
  by apply insert_other.
Qed.

(** A call that finds one takes the next channel. *)
Lemma routed_run env s reads s1 req x bound :
  (forall t, reads !! t = None -> st_channels s !! t = None ->
     dstep (mkDaemon s reads conns leaked) (mkDaemon s1 (<[t := Calling req]> reads) conns leaked) /\
     sys_inv (mkSystem s1 (<[t := Calling req]> reads))) ->
  (forall t, is_Some (reads !! t) -> is_Some (st_channels s !! t) \/ (bound < t)%nat) ->
  (new_channel s <= bound)%nat -> st_channels s1 = st_channels s -> ids_room s1 ->
  Forall (realizable conns) (en_meanwhile env) -> route_lookup s1 req = Ok x ->
  let '(s', y) := route_provider_read env s1 req in
  let reads' := <[new_channel s := Returned req y]> reads in
  rtc dstep (mkDaemon s reads conns leaked) (mkDaemon s' reads' conns leaked) /\ sys_inv (mkSystem s' reads') /\
  reads !! new_channel s = None /\
  forall t, is_Some (st_channels s' !! t) <-> is_Some (st_channels s !! t) \/ t = new_channel s.
Proof.
  intros Hcall Hthreads Hbound Hsame Hroom Henv Hlook.
  assert (Hch : new_channel s1 = new_channel s) by (unfold new_channel; by rewrite Hsame).
  set (t := new_channel s) in *.
  assert (reads !! t = None /\ st_channels s !! t = None) as [Ht Hc].
  { split; apply eq_None_not_Some; intros Hsome; pose proof (new_channel_above s t) as H; fold t in H.
    - destruct (Hthreads t Hsome) as [Hin|Hlt]; [specialize (H Hin)|]; lia.
    - specialize (H Hsome). lia. }
  destruct (Hcall t Ht Hc) as [Hs1 Hinv1]. destruct x as [body route].
  assert (Hins : (route_insert s1 req t).2 = Ok tt).
  { pose proof (step_lookup s1 _ t req (lookup_insert_eq reads t (Calling req))) as Hs2.
    rewrite Hlook in Hs2. by apply (insert_inv s1 _ t req body route (step_inv _ _ Hinv1 Hs2)), lookup_insert_eq. }
  rewrite <- Hch in Hins, Hinv1, Hs1.
  pose proof (route_channels env s1 req _ (sys_inv_channels _ _ Hinv1) Hlook Hins) as Hnew.
  pose proof (route_refines_steps env s1 reads req Hinv1) as Hsteps.
  assert (Hmoves : rtc dmoves (mkSystem s1 (<[new_channel s1 := Calling req]> reads))
    (mkSystem (route_provider_read env s1 req).1 (<[new_channel s1 := Returned req (route_provider_read env s1 req).2]> reads))).
  { apply (route_moves dmoves); [| |done].
    - intros s2 reads2 s3 reads3 Hs Hne. by apply d_read.
    - intros s2 reads2 Hrt. apply run_envs_moves; [|done]. unfold ids_room in *. by rewrite Hrt. }
  rewrite Hch in *. rewrite Hsame in Hnew. destruct (route_provider_read env s1 req) as [s' y]. split_and!; [|by eapply steps_inv|done..].
  eapply rtc_l; [exact Hs1|]. exact (dmoves_run _ _ Hmoves).
Qed.

(** A call by the materializing thread is a run of the daemon. *)
Lemma read_run env s reads r :
  tidy s reads -> ids_room s -> st_next_read_request_id s < u64_max -> 0 <= rq_length r ->
  Forall (realizable conns) (en_meanwhile env) ->
  let s' := (route_provider_read env (next_provider_read_request_id s).1
               (with_request_id r (next_provider_read_request_id s).2)).1 in
  exists reads', rtc dstep (mkDaemon s reads conns leaked) (mkDaemon s' reads' conns leaked) /\
    own_reads reads reads' /\ tidy s' reads' /\ ids_room s' /\ st_next_read_request_id s' = st_next_read_request_id s + 1.
Proof.
  intros [Hinv (bound & Hb & Hthreads)] Hroom Hmax Hlen Henv s'.
  pose proof (si_next _ Hinv) as Hn. cbn in Hn.
  set (s1 := (next_provider_read_request_id s).1) in *. set (req := with_request_id r _) in *.
  assert (Hroom' : ids_room s').
  { apply (calm_ids_room s1); [|done]. apply route_calm. by eapply realizable_calm. }
  assert (Hnext' : st_next_read_request_id s' = st_next_read_request_id s + 1).
  { destruct (route_runtime env s1 req) as (_ & _ & _ & H). unfold s'. rewrite H.
    unfold s1, next_provider_read_request_id. cbn. apply wrapping_add_in. lia. }
  assert (Hcall : forall t, reads !! t = None -> st_channels s !! t = None ->
    dstep (mkDaemon s reads conns leaked) (mkDaemon s1 (<[t := Calling req]> reads) conns leaked) /\
    sys_inv (mkSystem s1 (<[t := Calling req]> reads))).
  { intros t Ht Hc. split; [|by apply call_inv]. apply d_read; [by apply step_call|].
    intros H. apply (f_equal (lookup t)) in H. by rewrite lookup_insert_eq, Ht in H. }
  assert (Hbound : (new_channel s <= bound)%nat) by lia.
  destruct (route_lookup s1 req) as [x|e] eqn:Hlook.
  - pose proof (routed_run env s reads s1 req x bound Hcall Hthreads Hbound eq_refl Hroom Henv Hlook) as H.
    unfold s' in *. destruct (route_provider_read env s1 req) as [s2 y]. cbn [fst] in *. destruct H as (Hrun & Hinv' & Hfree & Hnew).
    eexists. split; [exact Hrun|]. split; [by apply own_reads_insert|]. split; [|done]. split; [done|]. exists bound. rewrite Hnext'. split.
    + enough (new_channel s2 <= S (new_channel s))%nat by lia. apply new_channel_least; [lia|].
      intros t' [H| ->]%Hnew; [|lia]. apply new_channel_above in H. lia.
    + intros t' [<-|[_ H]]%lookup_insert_is_Some; [left; apply Hnew; by right|].
      destruct (Hthreads t' H) as [H'|H']; [|by right]. left. apply Hnew. by left.
  - destruct (unrouted_run s reads s1 req e bound Hcall Hbound Hlook) as (t & Ht & Hrun & Hinv' & Hfree).
    assert (Hs' : s' = s1) by (unfold s', route_provider_read; by rewrite Hlook). rewrite Hs' in *.
    eexists. split; [exact Hrun|]. split; [by apply own_reads_insert|]. split; [|done]. split; [done|]. exists bound. rewrite Hnext'.
    change (new_channel s1) with (new_channel s). split; [lia|]. intros t' [<-|[_ H]]%lookup_insert_is_Some; [by right|].
    by apply Hthreads.
Qed.

(** ** The materialization as a whole *)

Section materialization.
Context (env : Z -> ReadEnv) (Henv : forall i, Forall (realizable conns) (en_meanwhile (env i))).

(** From [s] to [s'] with at most [n] reads. *)
Definition reaches (n : Z) (s s' : IpcState) : Prop := forall reads,
  tidy s reads -> ids_room s -> st_next_read_request_id s + n <= u64_max ->
  exists reads', rtc dstep (mkDaemon s reads conns leaked) (mkDaemon s' reads' conns leaked) /\
    own_reads reads reads' /\ tidy s' reads' /\ ids_room s' /\ st_next_read_request_id s' <= st_next_read_request_id s + n.

Lemma reaches_tracking : @Tracking (routed env) reaches.
Proof.
  split.
  - intros s reads Ht Hroom _. exists reads. split_and!; [apply rtc_refl|done..|lia].
  - intros a b s1 s2 s3 Ha Hb H12 H23 reads Ht Hroom Hn.
    destruct (H12 reads Ht Hroom) as (reads2 & R2 & O2 & T2 & I2 & N2); [lia|].
    destruct (H23 reads2 T2 I2) as (reads3 & R3 & O3 & T3 & I3 & N3); [lia|].
    exists reads3. split_and!; [by etrans|by etrans|done..|lia].
  - intros a b s s' Hab H reads Ht Hroom Hn. destruct (H reads Ht Hroom) as (reads' & H1 & H0 & H2 & H3 & H4); [lia|].
    exists reads'. split_and!; [done..|lia].
  - intros s r Hr reads Ht Hroom Hn. unfold router_read, routed, routed_by.
    destruct (read_run (env (rq_request_id (with_request_id r (next_provider_read_request_id s).2)))
      s reads r Ht Hroom) as (reads' & H1 & H0 & H2 & H3 & H4); [lia|done|apply Henv|].
    exists reads'. split_and!; [done..|lia].
  - intros s pid path target reads Ht Hroom Hn.
    set (s' := set_runtime (Runtime_mark_node_materialized (st_runtime s) pid path target).1 s).
    assert (Hq : rtc quiet (mkDaemon s reads conns leaked) (mkDaemon s' reads conns leaked)).
    { eapply rtc_l; [|apply rtc_refl]. split; [|done].
      by apply (d_inner s reads conns leaked (OpMarkNodeMaterialized pid path target)). }
    exists reads. split_and!; [by apply quiet_steps|done|by apply (tidy_quiet _ _ Hq)| |cbn; lia].
    apply (calm_ids_room s); [|done]. by apply (calm_runtime s (OpMarkNodeMaterialized pid path target)).
Qed.
End materialization.
End reads.

(** ** The requests of a connection *)

Lemma work_still s reads conns leaked conn registered todo rest closing s' c' :
  conns !! conn = Some (mkConnection registered (todo :: rest) closing) ->
  (forall builder, todo = TodoCommit builder -> ids_room s) ->
  perform conn todo s (mkConnection registered rest closing) = (s', c', ∅) ->
  quiet (mkDaemon s reads conns leaked) (mkDaemon s' reads (<[conn := c']> conns) leaked).
Proof. intros Hc Hroom Hp. split; [by eapply work_quiet|done]. Qed.

(** [disconnect_provider_id] is its three sections. *)
Lemma disconnect_run s reads conns leaked conn registered rest closing id :
  ProviderId_from_raw id = Some id -> conns !! conn = Some (mkConnection registered (disconnect_todo id ++ rest) closing) ->
  rtc quiet (mkDaemon s reads conns leaked)
    (mkDaemon (disconnect_provider_id s id) reads (<[conn := mkConnection registered rest closing]> conns) leaked).
Proof.
  intros Hid Hc. unfold disconnect_provider_id. rewrite Hid.
  eapply rtc_l; [eapply work_still; [exact Hc|done|done]|]. eapply rtc_l; [eapply work_still; [apply lookup_insert_eq|done|done]|].
  rewrite insert_insert_eq. eapply rtc_l; [eapply work_still; [apply lookup_insert_eq|done|done]|]. by rewrite insert_insert_eq.
Qed.

Lemma closing_run s reads conns leaked conn registered :
  Forall (fun id => id <> 0) registered -> conns !! conn = Some (closing registered) ->
  rtc quiet (mkDaemon s reads conns leaked)
    (mkDaemon (disconnect_registered_providers s registered) reads (delete conn conns) leaked).
Proof.
  intros Hnz. revert s conns. induction Hnz as [|id registered Hid Hnz IH]; intros s conns Hc.
  { eapply rtc_l; [split; [by apply d_end|done]|apply rtc_refl]. }
  etrans; [eapply (disconnect_run s reads conns leaked conn [] (registered ≫= disconnect_todo) true id); [|exact Hc]|].
  { unfold ProviderId_from_raw. by destruct (Z.eqb_spec id 0). }
  rewrite <- (delete_insert_eq conns conn (closing registered)). apply IH. apply lookup_insert_eq.
Qed.

Section sequential.
Context `{!Bincode Request, !Bincode Response} (dm ds : Result str).
Context (hm : IpcState -> Client -> MaterializeBody -> Handled).

(** [may] is what the caller knows when a materialization begins.  It is then a
    run of the daemon that leaves the connections alone. *)
Context (may : IpcState -> Client -> MaterializeBody -> Prop) (others : gmap ConnId Connection -> Prop).

Definition materialize_runs : Prop := forall s c body,
  may s c body -> st_wf s -> ids_room s ->
  let '(s', (c', _)) := hm s c body in
  cl_id c' = cl_id c /\ cl_registered c' = cl_registered c /\
  forall reads conns leaked, tidy s reads -> others (delete (cl_id c) conns) ->
  exists reads', rtc dstep (mkDaemon s reads conns leaked) (mkDaemon s' reads' conns leaked) /\
    own_reads reads reads' /\ tidy s' reads'.

(** Every materialization that the connection asks for is allowed to begin. *)
Fixpoint may_all (s : IpcState) (c : Client) (envs : list RegisterEnv) : Prop :=
  match envs with
  | [] => True
  | env :: envs =>
      let '(reader, r) := read_frame (cl_reader c) in
      let c := set_reader reader c in
      match r with
      | Ok (Some request) =>
          match request with
          | RequestMaterialize body => cl_negotiated c = true -> may s c body
          | _ => True
          end /\
          let '(s, (c, r)) := handle_request dm ds hm s c env request in
          match r with Ok _ => may_all s c envs | Err _ => True end
      | _ => True
      end
  end.

Lemma may_all_step s c env envs reader request :
  read_frame (cl_reader c) = (reader, Ok (Some request)) ->
  match request with
  | RequestMaterialize body => cl_negotiated c = true -> may s (set_reader reader c) body
  | _ => True
  end ->
  let h := handle_request dm ds hm s (set_reader reader c) env request in
  may_all h.1 h.2.1 envs -> may_all s c (env :: envs).
Proof.
  intros Hread Hmay h Hrest. cbn [may_all]. rewrite Hread. split; [done|]. fold h. by destruct h as [s1 [c1 []]].
Qed.

Lemma may_all_end s c env reader : read_frame (T := Request) (cl_reader c) = (reader, Ok None) -> may_all s c [env].
Proof. intros Hread. cbn [may_all]. by rewrite Hread. Qed.

Context (Hframe : materialize_frame hm) (Hruns : materialize_runs).

(** The run from [s] with the connection [c] to [s'] and [c'], in which no reader
    moves; a connection that failed may already be closing. *)
Definition request_run (s : IpcState) (c : Client) (h : Handled) : Prop :=
  let '(s', (c', r)) := h in
  cl_id c' = cl_id c /\
  forall reads conns leaked, conns !! cl_id c = Some (idle (cl_registered c)) ->
  exists leaked' k,
    rtc quiet (mkDaemon s reads conns leaked) (mkDaemon s' reads (<[cl_id c := k]> conns) leaked') /\
    (k = idle (cl_registered c') \/ (is_ok r = false /\ k = closing (cl_registered c'))).

Lemma request_run_reply s c c0 x :
  cl_id c0 = cl_id c -> cl_registered c0 = cl_registered c -> request_run s c (s, reply c0 x).
Proof.
  intros Hi Hr. pose proof (reply_client c0 x) as H. destruct (reply c0 x) as [c' r]. destruct H as (H1 & _ & _ & H2).
  split; [congruence|]. intros reads conns leaked Hc. exists leaked, (idle (cl_registered c')).
  split; [|by left]. rewrite H2, Hr, insert_id by done. apply rtc_refl.
Qed.

Lemma request_run_error s c code m : request_run s c (s, reply_error c code m).
Proof.
  pose proof (reply_error_client c code m) as H. destruct (reply_error c code m) as [c' r]. destruct H as (H1 & _ & _ & H2).
  split; [congruence|]. intros reads conns leaked Hc. exists leaked, (idle (cl_registered c')).
  split; [|by left]. rewrite H2, insert_id by done. apply rtc_refl.
Qed.

(** Steps first, then a reply to the client. *)
Lemma request_run_steps s c s' c0 (h : Client * IoResult ()) :
  cl_id c0 = cl_id c ->
  (forall reads conns leaked, conns !! cl_id c = Some (idle (cl_registered c)) ->
     rtc quiet (mkDaemon s reads conns leaked) (mkDaemon s' reads (<[cl_id c := idle (cl_registered c0)]> conns) leaked)) ->
  request_run s' c0 (s', h) -> request_run s c (s', h).
Proof.
  intros Hi Hsteps. destruct h as [c' r]. intros [H1 H2]. split; [congruence|]. intros reads conns leaked Hc.
  destruct (H2 reads (<[cl_id c := idle (cl_registered c0)]> conns) leaked) as (leaked' & k & Hk & Hkk).
  { rewrite Hi. apply lookup_insert_eq. }
  exists leaked', k. split; [|done]. etrans; [by apply Hsteps|]. by rewrite Hi, insert_insert_eq in Hk.
Qed.

Lemma register_run s c env : ids_room s -> request_run s c (handle_register s c env).
Proof.
  intros Hroom. unfold handle_register. destruct (Runtime_register_provider (st_runtime s)) as [rt id] eqn:Hreg.
  assert (Hstart : forall reads conns leaked token clone, conns !! cl_id c = Some (idle (cl_registered c)) ->
    quiet (mkDaemon s reads conns leaked) (mkDaemon (set_runtime rt s) reads
      (<[cl_id c := mkConnection (cl_registered c) [TodoRoute id token clone] false]> conns) leaked)).
  { intros reads conns leaked token clone Hc. pose proof (d_register s reads conns leaked _ _ token clone Hc Hroom) as H.
    rewrite Hreg in H. by split. }
  destruct (re_token env) as [token|e].
  2:{ split; [done|]. intros reads conns leaked Hc. eexists _, _. split; [|right; split; [done|reflexivity]].
      eapply rtc_l; [|apply rtc_refl]. pose proof (d_register_no_token s reads conns leaked _ _ Hc Hroom) as H. rewrite Hreg in H. by split. }
  unfold register_provider_route. destruct (re_clone env) as [[]|e] eqn:Hcl.
  - eapply request_run_steps; [| |by apply request_run_reply]; [done|]. intros reads conns leaked Hc.
    eapply rtc_l; [by apply (Hstart _ _ _ token (Ok ()))|].
    eapply rtc_l; [eapply work_still; [apply lookup_insert_eq|done|reflexivity]|].
    rewrite insert_insert_eq. apply rtc_refl.
  - split; [done|]. intros reads conns leaked Hc. eexists _, _. split; [|right; split; [done|reflexivity]].
    eapply rtc_l; [by apply (Hstart _ _ _ token (Err e))|].
    eapply rtc_l; [split; [eapply d_work; [apply lookup_insert_eq|done|reflexivity]|done]|].
    rewrite insert_insert_eq. apply rtc_refl.
Qed.

Lemma unregister_run s c raw token : request_run s c (handle_unregister s c raw token).
Proof.
  unfold handle_unregister. destruct (ProviderId_from_raw raw) as [id|] eqn:Hraw; [|apply request_run_error].
  assert (Hid : ProviderId_from_raw id = Some id).
  { unfold ProviderId_from_raw in *. destruct (Z.eqb_spec raw 0); [done|]. injection Hraw as <-. by destruct (Z.eqb_spec raw 0). }
  destruct (validate_provider_owner s id token) as [[]|e] eqn:Hval; [|apply request_run_error].
  destruct (Runtime_unregister_provider (st_runtime s) id) as [rt r] eqn:Hun.
  assert (Hstart : forall reads conns leaked, conns !! cl_id c = Some (idle (cl_registered c)) ->
    rtc quiet (mkDaemon s reads conns leaked) (mkDaemon (set_runtime rt s) reads
      (<[cl_id c := match r with
         | Ok _ => mkConnection (filter (fun i => i <> id) (cl_registered c)) (disconnect_todo id ++ []) false
         | Err _ => idle (cl_registered c) end]> conns) leaked)).
  { intros reads conns leaked Hc. eapply rtc_l; [split; [by eapply d_unregister|done]|].
    eapply rtc_l; [eapply work_still; [apply lookup_insert_eq|done|cbn [perform]; rewrite Hun; reflexivity]|].
    rewrite insert_insert_eq. destruct r; apply rtc_refl. }
  destruct r as [[]|e].
  - eapply request_run_steps; [| |by apply request_run_reply]; [done|]. intros reads conns leaked Hc.
    etrans; [by apply Hstart|]. etrans; [eapply disconnect_run; [done|apply lookup_insert_eq]|].
    rewrite insert_insert_eq. apply rtc_refl.
  - eapply (request_run_steps _ _ _ c); [done| |apply request_run_error]. intros reads conns leaked Hc. by apply Hstart.
Qed.

Lemma commit_run s c body :
  st_wf s -> body_typed body -> ids_room s -> request_run s c (handle_promise_commit s c body).
Proof.
  intros Hwf Hty Hroom. pose proof Hroom as [_ Hmax].
  assert (Hstart : forall route b, st_provider_routes s !! cb_provider_id body = Some route ->
    pr_owner_token route = cb_provider_owner_token body -> mo_ready_for_commits (st_mount_status s) = true ->
    builder_wf b -> nodes_typed (pb_nodes b) -> pb_provider_id b = cb_provider_id body ->
    forall reads conns leaked, conns !! cl_id c = Some (idle (cl_registered c)) ->
    rtc quiet (mkDaemon s reads conns leaked)
      (mkDaemon (set_runtime (Runtime_commit_promise (st_runtime s) b).1 s) reads
        (<[cl_id c := idle (cl_registered c)]> conns) leaked)).
  { intros route b Hro Htok Hready Hb Hbt Hp reads conns leaked Hc.
    eapply rtc_l; [split; [eapply (d_commit _ _ _ _ _ _ b (pr_owner_token route)); [done|done| |done]|done]|].
    { unfold validate_provider_owner. rewrite Hp, Hro. by rewrite Z.eqb_refl. }
    eapply rtc_l; [eapply work_still; [apply lookup_insert_eq|done|reflexivity]|].
    rewrite insert_insert_eq. apply rtc_refl. }
  destruct (handle_promise_commit_cases s c body Hwf Hty Hmax)
    as [(st & ->)|[[_ ->]|(route & b & H1 & H2 & H3 & _ & H4 & H5 & H6 & H7)]];
    [apply request_run_error..|].
  destruct H7 as [(st & _ & ->)|(tree & v & _ & _ & ->)];
    (eapply (request_run_steps _ _ _ c); [done|by eapply Hstart|]); [apply request_run_error|by apply request_run_reply].
Qed.

(** The same with the steps of readers. *)
Definition request_moves (s : IpcState) (c : Client) (h : Handled) : Prop :=
  let '(s', (c', r)) := h in
  cl_id c' = cl_id c /\
  forall reads conns leaked, tidy s reads -> others (delete (cl_id c) conns) ->
  conns !! cl_id c = Some (idle (cl_registered c)) ->
  exists reads' leaked' k,
    rtc dstep (mkDaemon s reads conns leaked) (mkDaemon s' reads' (<[cl_id c := k]> conns) leaked') /\
    own_reads reads reads' /\ tidy s' reads' /\
    (k = idle (cl_registered c') \/ (is_ok r = false /\ k = closing (cl_registered c'))).

Lemma request_run_moves s c h : request_run s c h -> request_moves s c h.
Proof.
  destruct h as [s' [c' r]]. intros [Hi Hrun]. split; [done|]. intros reads conns leaked Ht _ Hc.
  destruct (Hrun reads conns leaked Hc) as (leaked' & k & Hq & Hk). exists reads, leaked', k.
  split_and!; [by apply quiet_steps|done|by apply (tidy_quiet _ _ Hq)|done].
Qed.

(** Every request but a materialization leaves the readers alone. *)
Lemma handle_request_run s c env request :
  st_wf s -> request_typed request -> ids_room s ->
  (forall body, request = RequestMaterialize body -> cl_negotiated c = false) ->
  request_run s c (handle_request dm ds hm s c env request).
Proof.
  intros Hwf Hty Hroom Hno. destruct request; cbn [handle_request].
  - case_match; [by apply request_run_reply|apply request_run_error].
  - case_match; [|apply request_run_error].
    destruct (DaemonStatus_from_runtime_with_mount _ _ _ _); [by apply request_run_reply|].
    split; [done|]. intros reads conns leaked Hc. exists leaked, (idle (cl_registered c)).
    split; [rewrite insert_id by done; apply rtc_refl|by left].
  - case_match; [by apply request_run_reply|apply request_run_error].
  - case_match; [by apply register_run|apply request_run_error].
  - case_match; [by apply unregister_run|apply request_run_error].
  - case_match; [by apply commit_run|apply request_run_error].
  - rewrite (Hno body eq_refl). apply request_run_error.
  - apply request_run_error.
  - apply request_run_error.
  - case_match; [|apply request_run_error].
    pose proof (fun reads conns leaked => d_answer s reads conns leaked (cl_id c) (cl_registered c) body) as Hstep.
    destruct (complete_provider_read s (cl_registered c) body) as [s' r]. split; [done|].
    intros reads conns leaked Hc. exists leaked, (idle (cl_registered c)). split; [|by left].
    rewrite insert_id by done. eapply rtc_l; [split; [by apply Hstep|done]|apply rtc_refl].
Qed.

Lemma handle_request_moves s c env request :
  st_wf s -> request_typed request -> ids_room s ->
  match request with RequestMaterialize body => cl_negotiated c = true -> may s c body | _ => True end ->
  request_moves s c (handle_request dm ds hm s c env request).
Proof.
  intros Hwf Hty Hroom Hmay.
  assert (Hother : (forall body, request = RequestMaterialize body -> cl_negotiated c = false) ->
    request_moves s c (handle_request dm ds hm s c env request)).
  { intros Hno. by apply request_run_moves, handle_request_run. }
  destruct request as [| | | | | |body| | |]; try by apply Hother.
  destruct (cl_negotiated c) eqn:Hneg; [|by apply Hother]. clear Hother. cbn [handle_request]. rewrite Hneg.
  unfold request_moves. pose proof (Hruns s c body (Hmay eq_refl) Hwf Hroom) as Hm.
  destruct (hm s c body) as [s' [c' r]]. destruct Hm as (Hi & Hr & Hm). split; [done|].
  intros reads conns leaked Ht Ho Hc. destruct (Hm reads conns leaked Ht Ho) as (reads' & Hs & Hown & Ht').
  exists reads', leaked, (idle (cl_registered c')). split_and!; [|done|done|by left]. by rewrite Hr, insert_id.
Qed.

Lemma handle_requests_run envs s c s' c' r :
  decode_typed -> st_wf s ->
  rt_next_provider_id (st_runtime s) + len envs <= u64_max ->
  rt_next_promise_id (st_runtime s) + len envs <= u64_max ->
  may_all s c envs ->
  handle_client_requests dm ds hm s c envs = Some (s', (c', r)) ->
  cl_id c' = cl_id c /\
  (Forall (fun id => id <> 0) (cl_registered c) -> Forall (fun id => id <> 0) (cl_registered c')) /\
  forall reads conns leaked, tidy s reads -> others (delete (cl_id c) conns) ->
  conns !! cl_id c = Some (idle (cl_registered c)) ->
  exists reads' leaked', rtc dstep (mkDaemon s reads conns leaked)
    (mkDaemon s' reads' (<[cl_id c := closing (cl_registered c')]> conns) leaked') /\ own_reads reads reads'.
Proof.
  intros Hdec. revert s c. induction envs as [|env envs IH]; intros s c Hwf Hp Hq Hall; cbn [handle_client_requests may_all] in *; [done|].
  rewrite len_cons in Hp, Hq. pose proof (len_nonneg envs) as Hl.
  assert (Hclose : forall s c reads conns leaked, conns !! cl_id c = Some (idle (cl_registered c)) ->
    exists reads' leaked', rtc dstep (mkDaemon s reads conns leaked)
      (mkDaemon s reads' (<[cl_id c := closing (cl_registered c)]> conns) leaked') /\ own_reads reads reads').
  { intros s0 c0 reads conns leaked Hc. exists reads, leaked. split; [|done]. eapply rtc_l; [by apply d_close|apply rtc_refl]. }
  destruct (read_frame (cl_reader c)) as [reader [[request|]|e]] eqn:Hread.
  2,3: intros [= <- <- <-]; split; [done|]; split; [done|]; intros reads conns leaked _ _ Hc; by apply (Hclose s (set_reader reader c)).
  apply read_request_typed in Hread as [Hty _]; [|done].
  assert (Hroom : ids_room s) by (split; lia). destruct Hall as [Hmay Hall].
  pose proof (handle_request_moves s (set_reader reader c) env request Hwf Hty Hroom Hmay) as Hrun.
  pose proof (handle_request_effect dm ds hm s (set_reader reader c) env request Hframe Hwf Hty
    (proj1 Hroom) (proj2 Hroom)) as Heff.
  destruct (handle_request dm ds hm s (set_reader reader c) env request) as [s1 [c1 r1]]. destruct Hrun as [Hi Hrun].
  destruct Heff as [Hwf1 _ Hp1 Hq1 _ _ Hnz]. change (cl_id (set_reader reader c)) with (cl_id c) in *.
  change (cl_registered (set_reader reader c)) with (cl_registered c) in *. destruct r1 as [[]|e].
  - intros Hrest. apply IH in Hrest as (Hi' & Hnz' & Hrest); [|done|lia|lia|done].
    split; [congruence|]. split; [by auto|]. intros reads conns leaked Ht Ho Hc.
    destruct (Hrun reads conns leaked Ht Ho Hc) as (reads1 & leaked1 & k & Hk & O1 & Ht1 & [->|[? _]]); [|done].
    destruct (Hrest reads1 (<[cl_id c := idle (cl_registered c1)]> conns) leaked1 Ht1) as (reads2 & leaked2 & H2 & O2).
    { by rewrite Hi, delete_insert_eq. }
    { rewrite Hi. apply lookup_insert_eq. }
    exists reads2, leaked2. split; [|by etrans]. etrans; [exact Hk|]. by rewrite Hi, insert_insert_eq in H2.
  - intros [= <- <- <-]. split; [done|]. split; [done|]. intros reads conns leaked Ht Ho Hc.
    destruct (Hrun reads conns leaked Ht Ho Hc) as (reads1 & leaked1 & k & Hk & O1 & _ & [->|[_ ->]]); [|by exists reads1, leaked1].
    destruct (Hclose s1 c1 reads1 (<[cl_id c := idle (cl_registered c1)]> conns) leaked1) as (reads2 & leaked2 & H2 & O2).
    { rewrite Hi. apply lookup_insert_eq. }
    exists reads2, leaked2. split; [|by etrans]. etrans; [exact Hk|]. by rewrite Hi, insert_insert_eq in H2.
Qed.
End sequential.

(** ** The handler of materializations *)

(** There are request ids for a read per byte of the subtree. *)
Definition ids_suffice (s : IpcState) (body : MaterializeBody) : Prop :=
  exists k, 0 <= k /\ subtree_fits k body s /\ st_next_read_request_id s + k <= u64_max.

Section handler.
Context {F : Type} `{!FileSystem F, !Bincode Request, !Bincode Response}.
Context (env : Z -> ReadEnv) (process_id : Z).

(** [world] is the file system, and the counter of temporary names, as they are
    when the request is handled. *)
Definition materialize_in (world : IpcState -> Client -> MaterializeBody -> F * Z)
    (s : IpcState) (c : Client) (body : MaterializeBody) : Handled :=
  @materialize_branch F _ (routed env) _ _ process_id (world s c body).1 (world s c body).2 s c body.

Lemma reads_of_total entries : Forall (fun e => 0 <= me_size e) entries -> reads_of entries = total_bytes entries.
Proof. induction 1 as [|e l He Hl IH]; cbn; [done|]. fold (reads_of l) (total_bytes l). lia. Qed.

Lemma materialize_in_runs world :
  materialize_runs (materialize_in world) (fun s _ body => ids_suffice s body)
    (fun conns => forall i, Forall (realizable conns) (en_meanwhile (env i))).
Proof.
  intros s c body (k & Hk & Hfits & Hn) Hwf Hroom. unfold materialize_in, materialize_branch.
  destruct (world s c body) as [f temp]. cbn [fst snd]. set (w := mkWorld s f c temp).
  assert (Hany : @Tracking (routed env) (fun _ _ _ => True)) by (by split).
  destruct (@tracked_handle_some F _ _ _ (routed env) _ Hany process_id body w) as (_ & _ & Hi & _ & Hr & _).
  pose proof (fun R HR => @tracked_handle F _ _ _ (routed env) R HR process_id k body w Hk) as Htr.
  destruct (handle_materialize process_id body w) as [w' r]. split_and!; [done..|].
  intros reads conns leaked Ht Ho.
  assert (Henv : forall i, Forall (realizable conns) (en_meanwhile (env i))).
  { intros i. eapply Forall_impl; [apply Ho|]. apply realizable_delete. }
  destruct (Htr (reaches conns leaked) (reaches_tracking conns leaked env Henv)) as [Hreach _].
  { intros request plan w1 Hreq Hplan. destruct (plan_bytes k body request w w1 plan Hreq) as [Hpos Hle]; [apply Hwf|done..|].
    by rewrite reads_of_total. }
  destruct (Hreach reads Ht Hroom Hn) as (reads' & H1 & H0 & H2 & _). by exists reads'.
Qed.

Lemma materialize_in_frame world :
  (forall i, Forall env_calm (en_meanwhile (env i))) -> materialize_frame (materialize_in world).
Proof. intros Henv s c body. by apply (materialize_branch_frame env process_id). Qed.
End handler.

(** ** Properties *)

(** C21: the sequential model of a connection is one of the interleavings.  What
    [handle_client_with_state] computes, for any stream, any outcome of token,
    clone and host, and any file system, materializations included, is a run
    of the interleaved daemon from the same state: the connection is opened, its
    requests are served section by section, and it has closed, with the other
    connections as they were.  For the readers the same run is one of the system in
    which the routing of reads is verified, with the same threads: those under
    way at the start are where they were, and the new ones, which are the reads
    of the materializations, have returned.  The limits: the counters of
    providers and promises do not overflow, there are request ids for a read
    per byte of what is materialized, and while such a read waits, the threads
    of the other connections [conns] deliver answers, FUSE threads record what they
    have read and mark nodes, and the mount status may change, but nobody
    registers, commits or disconnects. *)
Theorem server_refines_daemon {F} `{!FileSystem F, !Bincode Request, !Bincode Response} env process_id
    (world : IpcState -> Client -> MaterializeBody -> F * Z) dm ds
    s id reader writer peer uid envs s' r reads conns leaked :
  let hm := materialize_in env process_id world in
  (forall i, Forall (realizable conns) (en_meanwhile (env i))) ->
  decode_typed -> st_wf s ->
  rt_next_provider_id (st_runtime s) + len envs <= u64_max ->
  rt_next_promise_id (st_runtime s) + len envs <= u64_max ->
  may_all dm ds hm (fun s _ body => ids_suffice s body) s (mkClient id reader writer false []) envs ->
  sys_inv (mkSystem s reads) -> (forall t, is_Some (reads !! t) -> is_Some (st_channels s !! t)) ->
  conns !! id = None ->
  handle_client_with_state dm ds hm s id reader writer peer uid envs = Some (s', r) ->
  exists reads' leaked', rtc dstep (mkDaemon s reads conns leaked) (mkDaemon s' reads' conns leaked') /\
    rtc step (mkSystem s reads) (mkSystem s' reads') /\ own_reads reads reads'.
Proof.
  intros hm Henv Hdec Hwf Hp Hq Hall Hinv Hthreads Hnew Hrun.
  cut (exists reads' leaked', rtc dstep (mkDaemon s reads conns leaked) (mkDaemon s' reads' conns leaked') /\ own_reads reads reads').
  { intros (reads' & leaked' & Hs & Hown). exists reads', leaked'. split_and!; [done|by apply dsteps_system in Hs|done]. }
  unfold handle_client_with_state in Hrun. destruct (validate_peer peer uid); [|injection Hrun as <- _; by exists reads, leaked].
  set (c := mkClient id reader writer false []) in *.
  destruct (handle_client_requests dm ds hm s c envs) as [[s1 [c1 r1]]|] eqn:Hreq; [|done]. injection Hrun as <- _.
  assert (Hframe : materialize_frame hm).
  { apply materialize_in_frame. intros i. by eapply realizable_calm. }
  destruct (handle_requests_run dm ds hm _ _ Hframe (materialize_in_runs env process_id world)
    envs s c s1 c1 r1 Hdec Hwf Hp Hq Hall Hreq) as (_ & Hnz & Hsteps).
  destruct (Hsteps reads (<[id := idle []]> conns) leaked) as (reads1 & leaked1 & H1 & Hown);
    [by apply tidy_start|by rewrite delete_insert_id|apply lookup_insert_eq|].
  exists reads1, leaked1. split; [|done]. eapply rtc_l; [by apply d_open|]. etrans; [exact H1|].
  rewrite insert_insert_eq. change (cl_id c) with id.
  rewrite <- (delete_insert_id conns id (closing (cl_registered c1))) at 2 by done.
  apply quiet_steps, closing_run; [by apply Hnz|apply lookup_insert_eq].
Qed.

(** A client that asks for a materialization and accepts every report, while the
    provider of the promise is connected. *)
Definition accepting_requests : Bincode Request :=
  table_codec [RequestHello IPC_PROTOCOL_VERSION API_VERSION; RequestMaterialize (sample_request_body FailBody);
               RequestMaterializeContinue].

Definition accepting_reader : Reader :=
  mkReader (concat (@message_frame _ accepting_requests <$>
    [RequestHello IPC_PROTOCOL_VERSION API_VERSION; RequestMaterialize (sample_request_body FailBody)] ++
    replicate 7 RequestMaterializeContinue)) None.

Definition sample_world_at (s : IpcState) (c : Client) (body : MaterializeBody) : ModelFs * Z := (sample_fs, 0).

Definition accepting_handler : IpcState -> Client -> MaterializeBody -> Handled :=
  @materialize_in ModelFs _ accepting_requests wire_responses sample_answers 7 sample_world_at.

Definition accepting_run : option (IpcState * IoResult ()) :=
  @handle_client_with_state accepting_requests wire_responses (Ok []) (Ok []) accepting_handler sample_ready_mount 8
    accepting_reader (mkWriter [] None) 1000 1000 (replicate 3 sample_env).

(** Whether it succeeded, and where the file is then. *)
Definition readme_at (s : IpcState) : option str :=
  t ← Runtime_promise (st_runtime s) (bs "promise-1");
  n ← PromiseTree_get t (bs "docs/readme.txt");
  pn_materialized_path n.

Definition accepting_outcome : bool * option str :=
  match accepting_run with Some (s, r) => (is_ok r, readme_at s) | None => (false, None) end.

Lemma accepting_may (may : IpcState -> Client -> MaterializeBody -> Prop) :
  (forall c, may sample_ready_mount c (sample_request_body FailBody)) ->
  @may_all accepting_requests wire_responses (Ok []) (Ok []) accepting_handler may sample_ready_mount
    (mkClient 8 accepting_reader (mkWriter [] None) false []) (replicate 3 sample_env).
Proof.
  intros H. cbn [replicate]. eapply may_all_step; [vm_compute; reflexivity|exact I|].
  eapply may_all_step; [vm_compute; reflexivity|intros _; apply H|].
  eapply may_all_end. vm_compute. reflexivity.
Qed.

(** The routes of the sample are those of its provider. *)
Lemma sample_ready_wf : st_wf sample_ready_mount.
Proof.
  destruct (sample_ready_ready 1000 ltac:(lia)) as [[Hwf _] _ _ _ _]. split; [exact Hwf|intros _; by exists (bs "/mnt")|].
  intros id route. change (st_provider_routes sample_ready_mount) with (<[1 := mkProviderRoute 7 42]> (∅ : gmap Z ProviderRoute)).
  intros [[<- _]|[_ Hid]]%lookup_insert_Some; [eexists; vm_compute; reflexivity|by rewrite lookup_empty in Hid].
Qed.

Lemma accepting_decode_typed : @decode_typed accepting_requests.
Proof.
  intros body request n. cbn. destruct body as [|b [|? ?]]; try done.
  destruct (Z.to_nat (byte_val b)) as [|[|[|[|i]]]]; cbn; try done; by intros [= <- _].
Qed.

Lemma sample_ready_still : sys_inv (mkSystem sample_ready_mount ∅).
Proof.
  split; cbn.
  - vm_compute. split; congruence.
  - intros t pc. by rewrite lookup_empty.
  - intros t t' pc pc'. by rewrite lookup_empty.
  - intros i p. change (st_pending_reads sample_ready_mount) with (∅ : gmap Z PendingRead). by rewrite lookup_empty.
Qed.

Lemma server_refines_daemon_witness :
  exists s' reads' leaked', accepting_run = Some (s', Ok tt) /\
    readme_at s' = Some (bs "/home/docs/readme.txt") /\
    rtc dstep (mkDaemon sample_ready_mount ∅ {[ 7%nat := idle [1] ]} ∅) (mkDaemon s' reads' {[ 7%nat := idle [1] ]} leaked') /\
    rtc step (mkSystem sample_ready_mount ∅) (mkSystem s' reads').
Proof.
  destruct (sample_ready_ready 1000 ltac:(lia)) as [[Hwf _] Hinv Hid Hp Hq].
  assert (Hend : accepting_outcome = (true, Some (bs "/home/docs/readme.txt"))) by (vm_compute; reflexivity).
  unfold accepting_outcome in Hend. destruct accepting_run as [[s' r]|] eqn:H; [|discriminate Hend].
  destruct (@server_refines_daemon ModelFs _ accepting_requests wire_responses sample_answers 7 sample_world_at (Ok []) (Ok [])
    sample_ready_mount 8 accepting_reader (mkWriter [] None) 1000 1000 (replicate 3 sample_env) s' r ∅ {[ 7%nat := idle [1] ]} ∅)
    as (reads' & leaked' & Hrun & Hsys & Hown).
  - intros i. repeat constructor. exists 7%nat. reflexivity.
  - exact accepting_decode_typed.
  - exact sample_ready_wf.
  - vm_compute. congruence.
  - vm_compute. congruence.
  - apply accepting_may. intros c. exists 1000. split; [lia|]. split; [exact (sample_subtree_fits FailBody)|exact Hid].
  - exact sample_ready_still.
  - intros t [pc Hpc]. rewrite lookup_empty in Hpc. discriminate Hpc.
  - reflexivity.
  - exact H.
  - injection Hend as Hok Hat. destruct r as [[]|e]; [|discriminate Hok].
    exists s', reads', leaked'. split; [reflexivity|]. split; [exact Hat|]. split; [exact Hrun|exact Hsys].
Defined.
