(* ===== verification/Ffi.v ===== *)
(** * The C interface

    [crates/fuse-promise-ffi/src/lib.rs]: the functions of the shared library,
    over the client functions of [Client].

    A pointer is an address, [0] being null, and a [CMemory] says which bytes
    can be read from an address on and what the function pointers do.  Reading
    outside of it is a [Fault], which no theorem excuses: a function that may
    be called is shown not to fault.  Handles ([fp_context *] and the like) are
    the objects they point to, or [None] for null.  An out-parameter is its
    contents, or [None] when it is null. *)

From S2P Require Import Prelude Types Paths Tree Messages Frame Commit Mount Effect Host Client.

(** ** Constants *)

Definition FP_OK : Z := 0.
Definition FP_ERR_INVALID_ARGUMENT : Z := 1.
Definition FP_ERR_UNAVAILABLE : Z := 2.
Definition FP_ERR_PERMISSION : Z := 3.
Definition FP_ERR_NOT_FOUND : Z := 4.
Definition FP_ERR_ALREADY_EXISTS : Z := 5.
Definition FP_ERR_PROVIDER_GONE : Z := 6.
Definition FP_ERR_IO : Z := 7.
Definition FP_ERR_TIMEOUT : Z := 8.
Definition FP_ERR_CANCELLED : Z := 9.
Definition FP_ERR_VERSION_MISMATCH : Z := 10.

Definition FP_CONFLICT_FAIL : Z := 0.
Definition FP_CONFLICT_OVERWRITE : Z := 1.
Definition FP_CONFLICT_RENAME : Z := 2.

Definition fp_status_string (status : Z) : str :=
  if status =? FP_OK then bs "ok"
  else if status =? FP_ERR_INVALID_ARGUMENT then bs "invalid argument"
  else if status =? FP_ERR_UNAVAILABLE then bs "unavailable"
  else if status =? FP_ERR_PERMISSION then bs "permission denied"
  else if status =? FP_ERR_NOT_FOUND then bs "not found"
  else if status =? FP_ERR_ALREADY_EXISTS then bs "already exists"
  else if status =? FP_ERR_PROVIDER_GONE then bs "provider gone"
  else if status =? FP_ERR_IO then bs "io error"
  else if status =? FP_ERR_TIMEOUT then bs "timeout"
  else if status =? FP_ERR_CANCELLED then bs "cancelled"
  else if status =? FP_ERR_VERSION_MISMATCH then bs "version mismatch"
  else bs "unknown status".

Definition status_to_ffi (status : Status) : Z :=
  match status with
  | StatusOk => FP_OK
  | InvalidArgument => FP_ERR_INVALID_ARGUMENT
  | Unavailable => FP_ERR_UNAVAILABLE
  | Permission => FP_ERR_PERMISSION
  | NotFound => FP_ERR_NOT_FOUND
  | AlreadyExists => FP_ERR_ALREADY_EXISTS
  | ProviderGone => FP_ERR_PROVIDER_GONE
  | Io => FP_ERR_IO
  | Timeout => FP_ERR_TIMEOUT
  | Cancelled => FP_ERR_CANCELLED
  | VersionMismatch => FP_ERR_VERSION_MISMATCH
  end.

Definition provider_read_status_from_ffi (status : Z) : ProviderReadStatus :=
  if status =? FP_OK then PrOk
  else if (status =? FP_ERR_INVALID_ARGUMENT) || (status =? FP_ERR_VERSION_MISMATCH) then PrInvalidArgument
  else if status =? FP_ERR_PERMISSION then PrPermission
  else if (status =? FP_ERR_NOT_FOUND) || (status =? FP_ERR_ALREADY_EXISTS) then PrNotFound
  else if (status =? FP_ERR_PROVIDER_GONE) || (status =? FP_ERR_UNAVAILABLE) then PrProviderGone
  else if status =? FP_ERR_TIMEOUT then PrTimeout
  else if status =? FP_ERR_CANCELLED then PrCancelled
  else if status =? FP_ERR_IO then PrIo
  else PrIo.

(** An [io::Error] whose inner error may be a [FfiStatusError]. *)
Inductive FfiError : Type :=
| IoFailure (error : IoError)
| FfiStatusError (status : Z).

Definition io_kind_to_ffi (kind : ErrorKind) : Z :=
  match kind with
  | KInvalidInput | KInvalidData => FP_ERR_VERSION_MISMATCH
  | KAlreadyExists => FP_ERR_ALREADY_EXISTS
  | KNotFound | KConnectionRefused | KAddrNotAvailable => FP_ERR_UNAVAILABLE
  | KBrokenPipe => FP_ERR_PROVIDER_GONE
  | KPermissionDenied => FP_ERR_PERMISSION
  | KTimedOut => FP_ERR_TIMEOUT
  | KInterrupted => FP_ERR_CANCELLED
  | _ => FP_ERR_IO
  end.

Definition io_to_ffi (error : FfiError) : Z :=
  match error with
  | FfiStatusError status => status
  | IoFailure error => io_kind_to_ffi (io_kind error)
  end.

(** ** Actions and their guard *)

(** How an action stops early: with a status, by a panic, or by reading memory
    that is not there. *)
Inductive Stop : Type :=
| Failed (status : Z)
| Panicked
| Fault.

Abbreviation Action := (result Stop).

(** A fault is not a value that can be caught: [None]. *)
Definition ffi_guard (action : Action Z) : option Z :=
  match action with
  | Ok status => Some status
  | Err (Failed status) => Some status
  | Err Panicked => Some FP_ERR_IO
  | Err Fault => None
  end.

Definition fail_io {A} (r : IoResult A) : Action A := map_err (fun e => Failed (io_to_ffi (IoFailure e))) r.
Definition fail_status {A} (r : Result A) : Action A := map_err (fun s => Failed (status_to_ffi s)) r.

(** ** Layout *)

(** Size and alignment on a 64-bit target. *)
Record CType : Type := mkCType { size_of : Z; align_of : Z }.

Definition c_u32 : CType := mkCType 4 4.
Definition c_u64 : CType := mkCType 8 8.
Definition c_i64 : CType := mkCType 8 8.
Definition c_pointer : CType := mkCType 8 8.

Definition align_up (value align : Z) : Z :=
  Z.land (value + align - 1) (Z.lxor usize_max (align - 1)).

Definition struct_field_end (previous_end : Z) (F : CType) : Z :=
  let offset := align_up previous_end (align_of F) in
  offset + size_of F.

Definition required_context_options_size : Z := struct_field_end (2 * size_of c_u32) c_pointer.

Definition required_provider_ops_size : Z := struct_field_end (size_of c_u32) c_pointer.

Definition required_node_attr_size : Z :=
  let mode_end := 2 * size_of c_u32 in
  let size_end := struct_field_end mode_end c_u64 in
  struct_field_end size_end c_i64.

Definition required_materialize_options_size : Z := 2 * size_of c_u32.

Definition materialize_progress_field_end : Z :=
  struct_field_end required_materialize_options_size c_pointer.

Definition materialize_progress_user_data_field_end : Z :=
  struct_field_end materialize_progress_field_end c_pointer.

(** ** Memory *)

(** [fp_read_request_t], its strings without their terminator. *)
Record fp_read_request_t : Type := mkReadRequest {
  fr_promise_id : str;
  fr_node_id : str;
  fr_relative_path : str;
  fr_offset : Z;
  fr_length : Z;
}.

(** What the callback leaves in [fp_read_response_t] and in the buffer. *)
Record fp_read_response_t : Type := mkReadResponse {
  fr_buffer : list byte;
  fr_buffer_len : Z;
  fr_bytes_written : Z;
}.

(** A call of the provider's callback: it returns a status, or unwinds.  Its
    first argument numbers the calls, as it may answer differently each time. *)
Abbreviation fp_provider_read_fn :=
  (Z -> fp_read_request_t -> fp_read_response_t -> Z -> option Z * fp_read_response_t) (only parsing).

Record fp_materialize_progress_t : Type := mkProgress {
  fm_struct_size : Z;
  fm_counters : MaterializeCounters;
}.

Abbreviation fp_materialize_progress_fn := (Z -> fp_materialize_progress_t -> Z -> Z) (only parsing).

Record CMemory : Type := mkCMemory {
  (** the bytes from an address to the end of the object it points into *)
  cm_bytes : Z -> option (list byte);
  cm_read_fn : Z -> fp_provider_read_fn;
  cm_progress_fn : Z -> fp_materialize_progress_fn;
}.

Definition le_value (bytes : list byte) : Z := foldr (fun b v => byte_val b + 256 * v) 0 bytes.

(** [n] bytes at [address + offset]. *)
Definition load (mem : CMemory) (address offset n : Z) : Action Z :=
  match cm_bytes mem address with
  | Some bytes =>
      if decide (0 <= offset /\ 0 <= n /\ offset + n <= len bytes)
      then Ok (le_value (slice bytes offset (offset + n)))
      else Err Fault
  | None => Err Fault
  end.

Definition load_u32 (mem : CMemory) (address offset : Z) : Action Z := load mem address offset 4.
Definition load_u64 (mem : CMemory) (address offset : Z) : Action Z := load mem address offset 8.
Definition load_pointer (mem : CMemory) (address offset : Z) : Action Z := load mem address offset 8.
Definition load_i64 (mem : CMemory) (address offset : Z) : Action Z :=
  v ← load mem address offset 8;
  Ok (if v <=? i64_max then v else v - (u64_max + 1)).

(** The bytes before the first NUL. *)
Fixpoint until_nul (bytes : list byte) : option str :=
  match bytes with
  | [] => None
  | b :: bytes => if decide (b = nul) then Some [] else cons b <$> until_nul bytes
  end.

Definition CStr_from_ptr (mem : CMemory) (address : Z) : Action str :=
  match cm_bytes mem address with
  | Some bytes => ok_or (until_nul bytes) Fault
  | None => Err Fault
  end.

(** ** Arguments *)

Definition invalid_argument {A} : Action A := Err (Failed FP_ERR_INVALID_ARGUMENT).

Definition cstr_to_str (mem : CMemory) (value : Z) : Action str :=
  if value =? 0 then invalid_argument
  else
    s ← CStr_from_ptr mem value;
    ok_or (to_str s) (Failed FP_ERR_INVALID_ARGUMENT).

Definition ffi_node_attr (mem : CMemory) (attr : Z) : Action NodeAttr :=
  if attr =? 0 then invalid_argument
  else
    struct_size ← load_u32 mem attr 0;
    if struct_size <? required_node_attr_size then invalid_argument
    else
      mode ← load_u32 mem attr 4;
      size ← load_u64 mem attr 8;
      mtime_nsec ← load_i64 mem attr 16;
      Ok (mkNodeAttr mode size mtime_nsec).

Definition ops_read (mem : CMemory) (ops : Z) : Action Z :=
  let offset := align_up (size_of c_u32) (align_of c_pointer) in
  load_pointer mem ops offset.

Record MaterializeOptions : Type := mkMaterializeOptions {
  op_conflict_policy : MaterializeConflictPolicy;
  op_progress : Z;
  op_progress_user_data : Z;
}.

Definition materialize_options (mem : CMemory) (options : Z) : Action MaterializeOptions :=
  if options =? 0 then Ok (mkMaterializeOptions PolicyFail 0 0)
  else
    struct_size ← load_u32 mem options 0;
    if struct_size <? required_materialize_options_size then invalid_argument
    else
      policy ← load_u32 mem options 4;
      conflict_policy ←
        (if policy =? FP_CONFLICT_FAIL then Ok PolicyFail
         else if policy =? FP_CONFLICT_OVERWRITE then Ok PolicyOverwrite
         else if policy =? FP_CONFLICT_RENAME then Ok PolicyRename
         else invalid_argument);
      progress ←
        (if materialize_progress_field_end <=? struct_size then load_pointer mem options 8 else Ok 0);
      progress_user_data ←
        (if materialize_progress_user_data_field_end <=? struct_size then load_pointer mem options 16 else Ok 0);
      Ok (mkMaterializeOptions conflict_policy progress progress_user_data).

Definition absolute_client_path (host : Host) (path : str) : IoResult str :=
  if is_absolute path then Ok path
  else (fun cwd => path_join cwd path) <$> ho_current_dir host.

Definition checked_target_dir (host : Host) (path : str) : Action str :=
  path ← (if is_absolute path then Ok path
          else (fun cwd => path_join cwd path) <$> fail_io (ho_current_dir host));
  metadata ← fail_io (ho_symlink_metadata host path);
  if is_symlink metadata || negb (is_dir metadata) then invalid_argument else Ok path.

Definition MAX_PROMISE_ID : str := bs "promise-18446744073709551615".

Definition commit_path_capacity_fits (mount_path : str) (out_path_len : Z) : bool :=
  let max_path := path_join mount_path MAX_PROMISE_ID in
  len (to_string_lossy max_path) <? out_path_len.

(** [out_path] holds [buffer]; writing past its end is a fault. *)
Definition write_c_string (buffer : list byte) (out_path_len : Z) (value : str) : Action (list byte) :=
  if decide (nul ∈ value) then invalid_argument
  else if out_path_len <=? len value then invalid_argument
  else if len buffer <=? len value then Err Fault
  else Ok (copy_into buffer 0 (value ++ [nul])).

(** ** Contexts *)

(** [ci_id] is the address of the [Arc], by which [Arc::ptr_eq] compares. *)
Record ContextInner : Type := mkContextInner {
  ci_id : Z;
  ci_socket_path : str;
  ci_mount_path : str;
}.

Record fp_context : Type := mkContext { fc_inner : ContextInner }.

Record RuntimePaths : Type := mkRuntimePaths {
  rp_mount_path : str;
  rp_socket_path : str;
}.

Definition default_runtime_paths (host : Host) : Action RuntimePaths :=
  mount_path ← fail_status (default_mount_path host);
  socket_path ← fail_status (default_control_socket_path host);
  Ok (mkRuntimePaths mount_path socket_path).

Definition runtime_paths_from_options (mem : CMemory) (host : Host) (options : Z) : Action RuntimePaths :=
  if options =? 0 then default_runtime_paths host
  else
    struct_size ← load_u32 mem options 0;
    if struct_size <? required_context_options_size then invalid_argument
    else
      api_version ← load_u32 mem options 4;
      if negb (api_version =? API_VERSION) then Err (Failed FP_ERR_VERSION_MISMATCH)
      else
        runtime_dir ← load_pointer mem options 8;
        if runtime_dir =? 0 then default_runtime_paths host
        else
          runtime_dir ← cstr_to_str mem runtime_dir;
          _ ← fail_status (validate_runtime_dir_path host runtime_dir);
          Ok (mkRuntimePaths (path_join runtime_dir (bs "fuse-promise"))
                (path_join runtime_dir (bs "fuse-promise.sock"))).

(** [arc] is the address of the new [Arc]. *)
Definition fp_context_open (mem : CMemory) (host : Host) (arc : Z) (options : Z)
    (out_context : option (option fp_context)) : option (option fp_context) * option Z :=
  match out_context with
  | None => (None, ffi_guard invalid_argument)
  | Some _ =>
      match runtime_paths_from_options mem host options with
      | Err stop => (Some None, ffi_guard (Err stop))
      | Ok paths =>
          (Some (Some (mkContext (mkContextInner arc (rp_socket_path paths) (rp_mount_path paths)))),
           ffi_guard (Ok FP_OK))
      end
  end.

(** ** Provider reads *)

(** [CString::new]. *)
Definition CString_new (s : str) : option str := if decide (nul ∈ s) then None else Some s.

Definition provider_read_error (request_id : Z) (status : ProviderReadStatus) : ProviderReadResponse :=
  mkProviderReadResponse request_id status [].

Definition dispatch_provider_read (call : Z) (request : ProviderReadRequest) (read : fp_provider_read_fn)
    (user_data : Z) : ProviderReadResponse :=
  match CString_new (rq_promise_id request) with
  | None => provider_read_error (rq_request_id request) PrInvalidArgument
  | Some promise_id =>
  match CString_new (rq_provider_node_id request) with
  | None => provider_read_error (rq_request_id request) PrInvalidArgument
  | Some node_id =>
  match CString_new (rq_relative_path request) with
  | None => provider_read_error (rq_request_id request) PrInvalidArgument
  | Some relative_path =>
      let bytes := replicate (Z.to_nat (rq_length request)) Byte.x00 in
      let c_request := mkReadRequest promise_id node_id relative_path (rq_offset request) (rq_length request) in
      let c_response := mkReadResponse bytes (len bytes) 0 in
      let '(returned, c_response) := read call c_request c_response user_data in
      let status := default FP_ERR_IO returned in
      let status := provider_read_status_from_ffi status in
      if decide (status <> PrOk) then provider_read_error (rq_request_id request) status
      else if fr_buffer_len c_response <? fr_bytes_written c_response
      then provider_read_error (rq_request_id request) PrInvalidArgument
      else
        mkProviderReadResponse (rq_request_id request) PrOk
          (take (Z.to_nat (fr_bytes_written c_response)) (fr_buffer c_response))
  end end end.

(** ** Providers *)

(** The thread that answers reads: what it calls, and on which connection. *)
Record ProviderHelper : Type := mkProviderHelper {
  he_connection : ProviderConnection;
  he_read : Z;
  he_user_data : Z;
}.

Record fp_provider : Type := mkProvider {
  fv_inner : ContextInner;
  fv_id : Z;
  fv_owner_token : Z;
  fv_helper : option ProviderHelper;
}.

(** Whether the stream could be cloned and the thread started. *)
Record SpawnEnv : Type := mkSpawnEnv {
  se_clone : IoResult ();
  se_spawn : IoResult ();
}.

Definition spawn_provider_helper (env : SpawnEnv) (connection : ProviderConnection) (read user_data : Z) :
    Action ProviderHelper :=
  _ ← fail_io (se_clone env);
  if read =? 0 then invalid_argument
  else
    _ ← map_err (fun _ => Failed FP_ERR_IO) (se_spawn env);
    Ok (mkProviderHelper connection read user_data).

Section connected.
Context `{!Bincode Request, !Bincode Response}.

(** The body of the thread, for at most [fuel] requests. *)
Fixpoint provider_helper_loop (fuel : nat) (read : fp_provider_read_fn) (user_data : Z) (call : Z) (s : Stream) :
    option Stream :=
  match fuel with
  | O => None
  | S fuel =>
      let '(s, r) := ProviderConnection_read_provider_read_request s in
      match r with
      | Ok (Some request) =>
          let response := dispatch_provider_read call request read user_data in
          let '(s, r) := ProviderConnection_write_provider_read_response response s in
          match r with
          | Err _ => Some s
          | Ok _ => provider_helper_loop fuel read user_data (call + 1) s
          end
      | _ => Some s
      end
  end.

Definition register_action (mem : CMemory) (host : Host) (env : SpawnEnv) (context : fp_context)
    (ops user_data : Z) (s : Stream) : Stream * Action fp_provider :=
  match load_u32 mem ops 0 with
  | Err stop => (s, Err stop)
  | Ok struct_size =>
  if struct_size <? required_provider_ops_size then (s, invalid_argument)
  else
  match ops_read mem ops with
  | Err stop => (s, Err stop)
  | Ok read =>
  if read =? 0 then (s, invalid_argument)
  else
    let inner := fc_inner context in
    let '(s, r) := connect_provider host (ci_socket_path inner) s in
    (s,
     connection ← fail_io r;
     id ← ok_or (ProviderId_from_raw (pc_provider_id connection)) (Failed FP_ERR_IO);
     helper ← spawn_provider_helper env connection read user_data;
     Ok (mkProvider inner id (pc_provider_owner_token connection) (Some helper)))
  end end.

Definition fp_provider_register (mem : CMemory) (host : Host) (env : SpawnEnv) (context : option fp_context)
    (ops user_data : Z) (out_provider : option (option fp_provider)) (s : Stream) :
    Stream * option (option fp_provider) * option Z :=
  match context, out_provider with
  | Some context, Some _ =>
      if ops =? 0 then (s, out_provider, ffi_guard invalid_argument)
      else
        let '(s, r) := register_action mem host env context ops user_data s in
        match r with
        | Err stop => (s, Some None, ffi_guard (Err stop))
        | Ok provider => (s, Some (Some provider), ffi_guard (Ok FP_OK))
        end
  | _, _ => (s, out_provider, ffi_guard invalid_argument)
  end.

(** [shutdown(Both)]: nothing more arrives and nothing more is accepted; the
    thread is then joined. *)
Definition ProviderHelper_shutdown (s : Stream) : Stream :=
  mkStream (mkReader [] None)
    (mkWriter (wr_bytes (sm_writer s)) (Some (0%nat, mkIoError KBrokenPipe (bs "Broken pipe")))).

Definition fp_provider_unregister (provider : option fp_provider) (s : Stream) : Stream :=
  match provider with
  | None => s
  | Some provider =>
      match fv_helper provider with
      | Some _ => ProviderHelper_shutdown s
      | None => s
      end
  end.
End connected.

(** ** Builders *)

(** The builder behind the mutex is gone once it has been committed. *)
Record fp_promise_builder : Type := mkBuilder {
  fb_inner : ContextInner;
  fb_provider_owner_token : Z;
  fb_builder : option PromiseBuilder;
}.

Definition fp_promise_builder_new (context : option fp_context) (provider : option fp_provider)
    (out_builder : option (option fp_promise_builder)) : option (option fp_promise_builder) * option Z :=
  match context, provider, out_builder with
  | Some context, Some provider, Some _ =>
      if negb (ci_id (fc_inner context) =? ci_id (fv_inner provider))
      then (Some None, ffi_guard invalid_argument)
      else
        (Some (Some (mkBuilder (fc_inner context) (fv_owner_token provider)
                       (Some (PromiseBuilder_new (fv_id provider))))),
         ffi_guard (Ok FP_OK))
  | _, _, _ => (out_builder, ffi_guard invalid_argument)
  end.

(** The arguments that [fp_promise_add_dir] and [fp_promise_add_file] share. *)
Definition node_arguments (mem : CMemory) (relative_path attr provider_node_id : Z) : Action (str * str * NodeAttr) :=
  relative_path ← cstr_to_str mem relative_path;
  provider_node_id ← cstr_to_str mem provider_node_id;
  attr ← ffi_node_attr mem attr;
  Ok (relative_path, provider_node_id, attr).

Definition set_builder (b : option PromiseBuilder) (builder : fp_promise_builder) : fp_promise_builder :=
  mkBuilder (fb_inner builder) (fb_provider_owner_token builder) b.

Definition fp_promise_add_dir (mem : CMemory) (builder : option fp_promise_builder)
    (relative_path attr provider_node_id : Z) : option fp_promise_builder * option Z :=
  match builder with
  | None => (None, ffi_guard invalid_argument)
  | Some handle =>
      match node_arguments mem relative_path attr provider_node_id with
      | Err stop => (builder, ffi_guard (Err stop))
      | Ok (relative_path, provider_node_id, attr) =>
          match fb_builder handle with
          | None => (builder, ffi_guard invalid_argument)
          | Some inner_builder =>
              let '(inner_builder, r) := PromiseBuilder_add_dir inner_builder relative_path attr provider_node_id in
              (Some (set_builder (Some inner_builder) handle),
               ffi_guard ((fun _ => FP_OK) <$> fail_status r))
          end
      end
  end.

Definition fp_promise_add_file (mem : CMemory) (builder : option fp_promise_builder)
    (relative_path attr provider_node_id : Z) : option fp_promise_builder * option Z :=
  match builder with
  | None => (None, ffi_guard invalid_argument)
  | Some handle =>
      match node_arguments mem relative_path attr provider_node_id with
      | Err stop => (builder, ffi_guard (Err stop))
      | Ok (relative_path, provider_node_id, attr) =>
          match fb_builder handle with
          | None => (builder, ffi_guard invalid_argument)
          | Some inner_builder =>
              let '(inner_builder, r) := PromiseBuilder_add_file inner_builder relative_path attr provider_node_id in
              (Some (set_builder (Some inner_builder) handle),
               ffi_guard ((fun _ => FP_OK) <$> fail_status r))
          end
      end
  end.

Section calls.
Context `{!Bincode Request, !Bincode Response}.

(** After the null checks: [buffer] is what [out_path] points to. *)
Definition commit_action (host : Host) (builder : fp_promise_builder) (buffer : list byte) (out_path_len : Z)
    (s : Stream) : Stream * fp_promise_builder * list byte * Action Z :=
  if len buffer <=? 0 then (s, builder, buffer, Err Fault)
  else
  let buffer := <[0%nat := nul]> buffer in
  if negb (commit_path_capacity_fits (ci_mount_path (fb_inner builder)) out_path_len)
  then (s, builder, buffer, invalid_argument)
  else
  match fb_builder builder with
  | None => (s, builder, buffer, invalid_argument)
  | Some inner_builder =>
      let request := PromiseCommitRequest_from_builder_with_owner_token inner_builder
                       (fb_provider_owner_token builder) in
      let '(s, r) := commit_promise host (ci_socket_path (fb_inner builder)) request s in
      match fail_io r with
      | Err stop => (s, builder, buffer, Err stop)
      | Ok response =>
          match write_c_string buffer out_path_len (to_string_lossy (pm_visible_path response)) with
          | Err stop => (s, builder, buffer, Err stop)
          | Ok buffer => (s, set_builder None builder, buffer, Ok FP_OK)
          end
      end
  end.

Definition fp_promise_commit (host : Host) (builder : option fp_promise_builder)
    (out_path : option (list byte)) (out_path_len : Z) (s : Stream) :
    Stream * option fp_promise_builder * option (list byte) * option Z :=
  match builder, out_path with
  | Some handle, Some buffer =>
      if out_path_len =? 0 then (s, builder, out_path, ffi_guard invalid_argument)
      else
        let '(s, handle, buffer, r) := commit_action host handle buffer out_path_len s in
        (s, Some handle, Some buffer, ffi_guard r)
  | _, _ => (s, builder, out_path, ffi_guard invalid_argument)
  end.

(** ** Materialization *)

(** [mem::size_of::<fp_materialize_progress_t>()]. *)
Definition size_of_progress : Z :=
  struct_field_end (foldl struct_field_end (size_of c_u32) (replicate 8 c_u64)) c_pointer.

(** [progress_callback] is [None] for a null function pointer; the first
    component counts the calls. *)
Definition dispatch_materialize_progress (progress_callback : option fp_materialize_progress_fn)
    (progress_user_data : Z) (calls : Z) (progress : MaterializeCounters) : Z * result FfiError () :=
  match progress_callback with
  | None => (calls, Ok tt)
  | Some progress_callback =>
      match CString_new (to_string_lossy (mc_target_path progress)) with
      | None => (calls, Err (IoFailure (mkIoError KInvalidInput (bs "invalid input parameter"))))
      | Some target_path =>
          let progress_body := mkProgress size_of_progress
            (mkMaterializeCounters target_path (mc_entries_done progress) (mc_entries_total progress)
               (mc_bytes_written progress) (mc_bytes_total progress) (mc_files_written progress)
               (mc_files_total progress) (mc_directories_created progress) (mc_directories_total progress)) in
          let status := progress_callback calls progress_body progress_user_data in
          (calls + 1, if status =? FP_OK then Ok tt else Err (FfiStatusError status))
      end
  end.

Definition materialize_arguments (mem : CMemory) (host : Host) (promise_path target_dir options : Z) :
    Action (MaterializeRequest * MaterializeOptions) :=
  promise_path ← cstr_to_str mem promise_path;
  promise_path ← fail_io (absolute_client_path host promise_path);
  target_dir ← cstr_to_str mem target_dir;
  target_dir ← checked_target_dir host target_dir;
  options ← materialize_options mem options;
  Ok (mkMaterializeRequest promise_path target_dir (op_conflict_policy options), options).

(** The number of progress callbacks made is returned as well. *)
Definition fp_materialize (fuel : nat) (mem : CMemory) (host : Host) (context : option fp_context)
    (promise_path target_dir options : Z) (s : Stream) : option (Stream * Z * option Z) :=
  match context with
  | None => Some (s, 0, ffi_guard invalid_argument)
  | Some context =>
      match materialize_arguments mem host promise_path target_dir options with
      | Err stop => Some (s, 0, ffi_guard (Err stop))
      | Ok (request, options) =>
          let callback := if op_progress options =? 0 then None else Some (cm_progress_fn mem (op_progress options)) in
          '(s, calls, r) ←
            materialize_file_with_progress IoFailure
              (dispatch_materialize_progress callback (op_progress_user_data options))
              fuel host (ci_socket_path (fc_inner context)) request s 0;
          Some (s, calls, ffi_guard (map_err (fun e => Failed (io_to_ffi e)) ((fun _ => FP_OK) <$> r)))
      end
  end.
End calls.
