(* ===== verification/FfiProps.v ===== *)
(** * The C interface: properties *)

From S2P Require Import Prelude Types Paths Cache Tree Runtime Messages Frame Wire Commit Mount IpcState Report Server Effect Host Client ClientServer Ffi.

(** ** Layout *)

Lemma align_up_spec v k :
  0 <= k <= 32 -> 0 <= v <= u32_max ->
  let a := 2 ^ k in v <= align_up v a < v + a /\ (a | align_up v a).
Proof.
  intros Hk Hv a. unfold u32_max in Hv.
  assert (Ha : 1 <= a <= 2 ^ 32) by (split; [apply Z.pow_le_mono_r with (b := 0); lia|apply Z.pow_le_mono_r; lia]).
  change (2 ^ 32) with 4294967296 in Ha.
  assert (Heq : align_up v a = a * ((v + a - 1) / a)).
  { unfold align_up. replace (a - 1) with (Z.ones k) by (rewrite Z.ones_equiv; unfold a; lia).
    replace (v + a - 1) with (v + Z.ones k) by (rewrite Z.ones_equiv; unfold a; lia).
    set (x := v + Z.ones k). assert (Hx : 0 <= x < 2 ^ 64).
    { unfold x. rewrite Z.ones_equiv. fold a. change (2 ^ 64) with 18446744073709551616. lia. }
    replace (Z.land x (Z.lxor usize_max (Z.ones k))) with (Z.ldiff x (Z.ones k)).
    - rewrite Z.ldiff_ones_r, Z.shiftl_mul_pow2, Z.shiftr_div_pow2 by lia. fold a. lia.
    - change usize_max with (Z.ones 64). apply Z.bits_inj'. intros n Hn.
      rewrite Z.ldiff_spec, Z.land_spec, Z.lxor_spec. destruct (Z.ltb_spec n 64).
      + rewrite (Z.ones_spec_low 64) by lia. done.
      + rewrite (Z.bits_above_log2 x n); [done|lia|]. destruct (Z.eq_dec x 0) as [->|]; [cbn; lia|].
        apply Z.log2_lt_pow2; [lia|]. eapply Z.lt_le_trans; [apply Hx|]. apply Z.pow_le_mono_r; lia. }
  rewrite Heq. split; [|by apply Z.divide_factor_l].
  pose proof (Z.div_mod (v + a - 1) a ltac:(lia)). pose proof (Z.mod_pos_bound (v + a - 1) a ltac:(lia)). lia.
Qed.

(** Structure sizes are those of the C compiler.  [align_up] gives the least
    multiple of the alignment that is not below the offset, for every power of
    two, so that the sizes that the library requires of a caller's structure
    are the ends of its fields in the C layout on a 64-bit target. *)
Theorem struct_layout_matches_c v k :
  0 <= k <= 32 -> 0 <= v <= u32_max ->
  ((2 ^ k | align_up v (2 ^ k)) /\ v <= align_up v (2 ^ k) /\
   forall m, (2 ^ k | m) -> v <= m -> align_up v (2 ^ k) <= m) /\
  required_context_options_size = 16 /\ required_provider_ops_size = 16 /\ required_node_attr_size = 24 /\
  required_materialize_options_size = 8 /\ materialize_progress_field_end = 16 /\
  materialize_progress_user_data_field_end = 24 /\ size_of_progress = 80.
Proof.
  intros Hk Hv. destruct (align_up_spec v k Hk Hv) as [Hr Hd]. split; [|by split_and!].
  split_and!; [done|lia|]. intros m [q ->] Hm. destruct Hd as [p Hp]. rewrite Hp in *.
  assert (Ha : 0 < 2 ^ k) by (apply Z.pow_pos_nonneg; lia).
  apply Z.mul_le_mono_nonneg_r; [lia|]. apply Z.lt_succ_r, (Z.mul_lt_mono_pos_r (2 ^ k)); lia.
Qed.

Lemma struct_layout_matches_c_witness : align_up 13 8 = 16 /\ (8 | align_up 13 8).
Proof.
  split; [vm_compute; reflexivity|].
  destruct (struct_layout_matches_c 13 3 ltac:(lia) ltac:(unfold u32_max; lia)) as [[H _] _]. exact H.
Defined.

(** ** Reading the caller's structures *)

(** A structure as a caller passes it: at least its [struct_size] bytes long. *)
Definition sized_struct (mem : CMemory) (p : Z) : Prop :=
  exists bytes, cm_bytes mem p = Some bytes /\ 4 <= len bytes /\ le_value (slice bytes 0 4) <= len bytes.

(** A terminated string. *)
Definition c_string (mem : CMemory) (p : Z) : Prop :=
  exists bytes, cm_bytes mem p = Some bytes /\ (nul ∈ bytes).

Lemma load_in_bounds mem p offset n bytes :
  cm_bytes mem p = Some bytes -> 0 <= offset -> 0 <= n -> offset + n <= len bytes ->
  load mem p offset n = Ok (le_value (slice bytes offset (offset + n))).
Proof. intros Hb ? ? ?. unfold load. by rewrite Hb, decide_True. Qed.

Lemma until_nul_total bytes : nul ∈ bytes -> is_Some (until_nul bytes).
Proof.
  induction bytes as [|b bytes IH]; intros Hin; [by apply elem_of_nil in Hin|]. cbn. case_decide; [eauto|].
  apply elem_of_cons in Hin as [Heq|Hin]; [by subst|]. destruct (IH Hin) as [s ->]. by eexists.
Qed.

Definition no_fault {A} (a : Action A) : Prop := a <> Err Fault.

Lemma no_fault_bind {A B} (m : Action A) (k : A -> Action B) :
  no_fault m -> (forall a, m = Ok a -> no_fault (k a)) -> no_fault (m ≫= k).
Proof. unfold no_fault. destruct m as [a|e]; cbn; [auto|]. intros H _ [= ->]. by apply H. Qed.

Lemma no_fault_cstr mem p : c_string mem p \/ p = 0 -> no_fault (cstr_to_str mem p).
Proof.
  intros Hp. unfold cstr_to_str. destruct (Z.eqb_spec p 0); [done|].
  destruct Hp as [(bytes & Hb & Hn)|]; [|done]. unfold CStr_from_ptr. rewrite Hb.
  destruct (until_nul_total bytes Hn) as [s ->]. cbn. by destruct (to_str s).
Qed.

Lemma no_fault_fail_status {A} (r : Result A) : no_fault (fail_status r).
Proof. by destruct r. Qed.

Lemma no_fault_fail_io {A} (r : IoResult A) : no_fault (fail_io r).
Proof. by destruct r. Qed.

Lemma no_fault_default_paths host : no_fault (default_runtime_paths host).
Proof.
  unfold default_runtime_paths. apply no_fault_bind; [apply no_fault_fail_status|intros m _].
  apply no_fault_bind; [apply no_fault_fail_status|done].
Qed.

(** ** One structure *)

Section one_struct.
Context (mem : CMemory) (p : Z) (bytes : list byte).
Context (Hb : cm_bytes mem p = Some bytes) (H4 : 4 <= len bytes) (Hsize : le_value (slice bytes 0 4) <= len bytes).

Lemma load_struct_size : load_u32 mem p 0 = Ok (le_value (slice bytes 0 4)).
Proof. by apply load_in_bounds. Qed.

Lemma no_fault_load offset n : 0 <= offset -> 0 <= n -> offset + n <= len bytes -> no_fault (load mem p offset n).
Proof. intros ? ? ?. by rewrite (load_in_bounds mem p offset n bytes). Qed.

(** One step through a chain of checks and reads. *)
Ltac reads :=
  repeat match goal with
  | |- no_fault (if _ =? _ then _ else _) => case_match; try done
  | |- no_fault (if negb (_ =? _) then _ else _) => case_match; try done
  | |- no_fault (if ?a <? ?b then _ else _) => destruct (Z.ltb_spec a b); [done|]
  | |- no_fault (if ?a <=? ?b then _ else _) => destruct (Z.leb_spec a b)
  | |- no_fault (load_i64 _ _ _) => unfold load_i64
  | |- no_fault (load_u32 _ _ 0) => by rewrite load_struct_size
  | |- no_fault (load_u32 _ _ _) => apply no_fault_load; lia
  | |- no_fault (load_u64 _ _ _) => apply no_fault_load; lia
  | |- no_fault (load_pointer _ _ _) => apply no_fault_load; lia
  | |- no_fault (load _ _ _ _) => apply no_fault_load; lia
  | |- no_fault (_ ≫= _) => apply no_fault_bind; [|intros ? ?]
  | H : load_u32 _ _ 0 = Ok _ |- _ => rewrite load_struct_size in H; injection H as <-
  | |- no_fault (Ok _) => done
  | |- no_fault invalid_argument => done
  end.

Lemma no_fault_node_attr : no_fault (ffi_node_attr mem p).
Proof. unfold ffi_node_attr. change required_node_attr_size with 24. reads. Qed.

Lemma no_fault_materialize_options : no_fault (materialize_options mem p).
Proof.
  unfold materialize_options. change required_materialize_options_size with 8.
  change materialize_progress_field_end with 16. change materialize_progress_user_data_field_end with 24. reads.
Qed.

Lemma no_fault_runtime_paths host :
  (forall dir, load_pointer mem p 8 = Ok dir -> c_string mem dir \/ dir = 0) ->
  no_fault (runtime_paths_from_options mem host p).
Proof.
  intros Hdir. unfold runtime_paths_from_options. change required_context_options_size with 16. reads;
    auto using no_fault_default_paths, no_fault_cstr, no_fault_fail_status.
Qed.

Lemma no_fault_ops_read size :
  load_u32 mem p 0 = Ok size -> required_provider_ops_size <= size -> no_fault (ops_read mem p).
Proof.
  change required_provider_ops_size with 16. unfold ops_read.
  change (align_up (size_of c_u32) (align_of c_pointer)) with 8. rewrite load_struct_size. intros [= <-] ?. reads.
Qed.
End one_struct.

(** A structure is read only as far as the caller says it goes.  For a
    pointer to a structure of which [struct_size] bytes exist, however few or
    many, no function of the library reads outside of it: too small a structure
    is refused, and the later fields of [fp_materialize_options_t] are read only when
    [struct_size] covers them; null pointers are refused or take the default. *)
Theorem struct_reads_in_bounds mem host p :
  sized_struct mem p \/ p = 0 ->
  (forall dir, load_pointer mem p 8 = Ok dir -> c_string mem dir \/ dir = 0) ->
  no_fault (ffi_node_attr mem p) /\ no_fault (materialize_options mem p) /\
  no_fault (runtime_paths_from_options mem host p) /\
  (p <> 0 -> no_fault (load_u32 mem p 0) /\
     forall size, load_u32 mem p 0 = Ok size -> required_provider_ops_size <= size -> no_fault (ops_read mem p)).
Proof.
  intros Hp Hdir. destruct (Z.eqb_spec p 0) as [->|Hnz].
  { unfold ffi_node_attr, materialize_options, runtime_paths_from_options. cbn.
    split_and!; [done|done|apply no_fault_default_paths|done]. }
  destruct Hp as [(bytes & Hb & H4 & Hsz)|]; [|done]. split_and!.
  - by eapply no_fault_node_attr.
  - by eapply no_fault_materialize_options.
  - by eapply no_fault_runtime_paths.
  - intros _. split; [by rewrite (load_struct_size mem p bytes)|by eapply no_fault_ops_read].
Qed.

(** Three objects: a structure that says it has twelve bytes, a complete
    [fp_materialize_options_t] and the string [hi]. *)
Definition sample_memory : CMemory :=
  mkCMemory (fun p => if p =? 16 then Some (u32_to_le_bytes 12 ++ u32_to_le_bytes 2 ++ u32_to_le_bytes 0)
                      else if p =? 64 then Some (u32_to_le_bytes 24 ++ u32_to_le_bytes 1 ++
                             u32_to_le_bytes 4096 ++ u32_to_le_bytes 0 ++ u32_to_le_bytes 7 ++ u32_to_le_bytes 0)
                      else if p =? 96 then Some (bs "hi" ++ [nul])
                      else None)
    (fun _ _ _ response _ => (Some 0, response)) (fun _ _ _ _ => 0).

Lemma struct_reads_in_bounds_witness :
  materialize_options sample_memory 16 = Ok (mkMaterializeOptions PolicyRename 0 0) /\
  materialize_options sample_memory 64 = Ok (mkMaterializeOptions PolicyOverwrite 4096 7) /\
  no_fault (ffi_node_attr sample_memory 16).
Proof.
  split_and!; [vm_compute; reflexivity..|].
  apply (struct_reads_in_bounds sample_memory sample_host 16).
  - left. eexists. split; [reflexivity|]. split; vm_compute; congruence.
  - intros dir H. vm_compute in H. discriminate H.
Defined.

(** ** Provider reads *)

(** A callback keeps to the buffer it was given. *)
Definition keeps_buffer (read : fp_provider_read_fn) : Prop :=
  forall call request response user_data,
    len (fr_buffer (read call request response user_data).2) = len (fr_buffer response) /\
    0 <= fr_bytes_written (read call request response user_data).2.

Lemma dispatch_answers call request read user_data :
  keeps_buffer read -> rq_request_id request <> 0 -> 0 <= rq_length request <= MAX_PROVIDER_READ_LEN ->
  response_answers request (dispatch_provider_read call request read user_data).
Proof.
  intros Hread Hid Hlen.
  assert (Herr : forall st, st <> PrOk -> response_answers request (provider_read_error (rq_request_id request) st)).
  { intros st Hst. by split_and!. }
  unfold dispatch_provider_read. do 3 (destruct (CString_new _); [|by apply Herr]).
  match goal with |- context [read ?c ?q ?r ?d] => pose proof (Hread c q r d) as [Hl Hw]; destruct (read c q r d) as [ret resp] end.
  cbn in Hl, Hw. case_decide as Hst; [by apply Herr|]. destruct (Z.ltb_spec (fr_buffer_len resp) (fr_bytes_written resp)); [by apply Herr|].
  unfold len in Hl. rewrite length_replicate in Hl.
  assert (Hb : len (take (Z.to_nat (fr_bytes_written resp)) (fr_buffer resp)) <= rq_length request)
    by (unfold len; rewrite length_take; lia).
  split_and!; cbn; try done. lia.
Qed.

(** C23: whatever the callback does, the answer is one the daemon accepts.  For
    every request the daemon can send and every callback that keeps to its
    buffer -- whatever status it returns, or if it unwinds, and whatever it
    leaves in the length fields -- [dispatch_provider_read] makes a response with the
    request's id, no longer than requested, and without bytes unless it
    succeeded: it passes the daemon's validation for that request.  The bytes
    are the first [bytes_written] of the buffer. *)
Theorem dispatch_provider_read_valid call request read user_data :
  keeps_buffer read -> rq_request_id request <> 0 -> 0 <= rq_length request <= MAX_PROVIDER_READ_LEN ->
  (nul ∉ rq_promise_id request) -> (nul ∉ rq_provider_node_id request) -> (nul ∉ rq_relative_path request) ->
  let response := dispatch_provider_read call request read user_data in
  validate_provider_read_response_for_request request response = Ok tt /\
  let '(returned, after) := read call
      (mkReadRequest (rq_promise_id request) (rq_provider_node_id request) (rq_relative_path request)
         (rq_offset request) (rq_length request))
      (mkReadResponse (replicate (Z.to_nat (rq_length request)) nul) (rq_length request) 0) user_data in
  (returned = Some FP_OK -> fr_bytes_written after <= fr_buffer_len after ->
   rs_status response = PrOk /\ rs_bytes response = take (Z.to_nat (fr_bytes_written after)) (fr_buffer after)) /\
  (returned = None -> rs_status response = PrIo) /\
  (forall status, returned = Some status -> status <> FP_OK ->
   rs_status response = provider_read_status_from_ffi status).
Proof.
  intros Hread Hid Hlen H1 H2 H3 response. split; [by apply validate_response_for_request_Ok, dispatch_answers|].
  unfold response, dispatch_provider_read, CString_new. rewrite !decide_False by done.
  replace (len (replicate (Z.to_nat (rq_length request)) Byte.x00)) with (rq_length request)
    by (unfold len; rewrite length_replicate; lia).
  change Byte.x00 with nul. destruct (read call _ _ user_data) as [returned after].
  split_and!.
  - intros -> Hle. cbn. destruct (Z.ltb_spec (fr_buffer_len after) (fr_bytes_written after)); [lia|]. done.
  - intros ->. done.
  - intros status -> Hst. cbn [default]. case_decide as Hd; [done|].
    exfalso. apply Hst. revert Hd. unfold provider_read_status_from_ffi.
    repeat (case_match; try done). intros _. by apply Z.eqb_eq.
Qed.

(** A provider of [hello] that claims more than the buffer holds after the
    first read. *)
Definition sample_read : fp_provider_read_fn := fun _ request response _ =>
  (Some FP_OK, mkReadResponse (take (length (fr_buffer response)) (bs "hello" ++ drop 5 (fr_buffer response)))
                 1000 (if fr_offset request =? 0 then 5 else 900)).

Lemma sample_read_keeps : keeps_buffer sample_read.
Proof.
  intros call request response user_data. cbn [sample_read snd fr_buffer fr_bytes_written]. split.
  - unfold len. rewrite length_take, length_app, length_drop. change (length (bs "hello")) with 5%nat. lia.
  - case_match; lia.
Qed.

Definition sample_read_request (offset : Z) : ProviderReadRequest :=
  mkProviderReadRequest 3 1 (bs "promise-1") (bs "a.txt") (bs "node") offset 8.

Lemma dispatch_provider_read_valid_witness :
  dispatch_provider_read 0 (sample_read_request 0) sample_read 0 = mkProviderReadResponse 3 PrOk (bs "hello") /\
  len (rs_bytes (dispatch_provider_read 1 (sample_read_request 5) sample_read 0)) = 8 /\
  validate_provider_read_response_for_request (sample_read_request 5)
    (dispatch_provider_read 1 (sample_read_request 5) sample_read 0) = Ok tt.
Proof.
  split_and!; [vm_compute; reflexivity..|].
  apply (dispatch_provider_read_valid 1 (sample_read_request 5) sample_read 0 sample_read_keeps).
  - discriminate.
  - vm_compute. split; congruence.
  - eapply bool_decide_eq_true_1. vm_compute. reflexivity.
  - eapply bool_decide_eq_true_1. vm_compute. reflexivity.
  - eapply bool_decide_eq_true_1. vm_compute. reflexivity.
Defined.

(** ** The provider's thread *)

Lemma from_body_request body request :
  0 <= qb_length body -> ProviderReadRequest_from_body body = Ok request ->
  rq_request_id request <> 0 /\ 0 <= rq_length request <= MAX_PROVIDER_READ_LEN /\
  rq_request_id request = qb_request_id body.
Proof.
  intros Hl (b & Hb & [= <-])%bind_Ok. apply ProviderReadRequest_into_body_Ok in Hb as ([] & p & _ & ->); [|done].
  cbn in *. split_and!; (done || lia).
Qed.

(** The frame of an answer. *)
Definition response_body (r : ProviderReadResponse) : ProviderReadResponseBody :=
  mkProviderReadResponseBody (rs_request_id r) (ProviderReadStatus_into_body (rs_status r)) (rs_bytes r).

Lemma into_body_answer request response :
  response_answers request response -> ProviderReadResponse_into_body response = Ok (response_body response).
Proof.
  intros (H1 & H2 & H3 & H4 & H5). unfold ProviderReadResponse_into_body.
  by rewrite (proj2 (ProviderReadResponse_validate_Ok response)).
Qed.

Lemma from_body_answer request response :
  response_answers request response -> ProviderReadResponse_from_body (response_body response) = Ok response.
Proof.
  intros (H1 & H2 & H3 & H4 & H5). unfold ProviderReadResponse_from_body, ProviderReadResponse_validated, response_body.
  cbn. replace (ProviderReadStatus_from_body _) with (rs_status response) by (by destruct (rs_status response)).
  destruct response as [id st bytes]. cbn in *. by rewrite (proj2 (ProviderReadResponse_validate_Ok (mkProviderReadResponse id st bytes))).
Qed.

Section thread.
Context `{!Bincode Request, !Bincode Response, !BincodeOk Request, !BincodeOk Response}.

(** The answers to a sequence of requests, the first of which is the
    callback's call number [call]. *)
Fixpoint answers (read : fp_provider_read_fn) (user_data call : Z) (requests : list ProviderReadRequest) :
    list ProviderReadResponse :=
  match requests with
  | [] => []
  | r :: requests => dispatch_provider_read call r read user_data :: answers read user_data (call + 1) requests
  end.

Definition request_frames (bodies : list ProviderReadRequestBody) : list byte :=
  concat ((fun b => message_frame (ResponseProviderReadRequest b)) <$> bodies).

Definition answer_frames (responses : list ProviderReadResponse) : list byte :=
  concat ((fun r => message_frame (RequestProviderReadResponse (response_body r))) <$> responses).

Lemma thread_reads body request rest w :
  encodable (ResponseProviderReadRequest body) -> ProviderReadRequest_from_body body = Ok request ->
  ProviderConnection_read_provider_read_request
    (mkStream (mkReader (message_frame (ResponseProviderReadRequest body) ++ rest) None) w) =
    (mkStream (mkReader rest None) w, Ok (Some request)).
Proof.
  intros He Hb. unfold ProviderConnection_read_provider_read_request, read_provider_read_request. cbn [sm_reader].
  rewrite read_message by done. cbn. by rewrite Hb.
Qed.

Lemma thread_writes request response rd out :
  response_answers request response -> encodable (RequestProviderReadResponse (response_body response)) ->
  ProviderConnection_write_provider_read_response response (mkStream rd (mkWriter out None)) =
    (mkStream rd (mkWriter (out ++ message_frame (RequestProviderReadResponse (response_body response))) None), Ok tt).
Proof.
  intros Ha He. unfold ProviderConnection_write_provider_read_response, write_provider_read_response.
  rewrite (into_body_answer request) by done. cbn. by rewrite write_message.
Qed.

Lemma helper_loop_answers read user_data bodies requests :
  keeps_buffer read ->
  Forall2 (fun b r => 0 <= qb_length b /\ in_u64 (qb_request_id b) /\ encodable (ResponseProviderReadRequest b) /\
             ProviderReadRequest_from_body b = Ok r) bodies requests ->
  forall call out,
  Forall (fun r => encodable (RequestProviderReadResponse (response_body r))) (answers read user_data call requests) ->
  exists fuel, provider_helper_loop fuel read user_data call
      (mkStream (mkReader (request_frames bodies) None) (mkWriter out None)) =
    Some (mkStream (mkReader [] None) (mkWriter (out ++ answer_frames (answers read user_data call requests)) None)).
Proof.
  intros Hread Hreq. induction Hreq as [|b r bodies requests (Hl & _ & He & Hb) Hreq IH]; intros call out Henc.
  - exists 1%nat. cbn. by rewrite app_nil_r.
  - cbn [answers] in *. inversion_clear Henc as [|? ? Hr Hrs].
    destruct (from_body_request b r Hl Hb) as (Hid & Hlen & _).
    pose proof (dispatch_answers call r read user_data Hread Hid Hlen) as Ha.
    destruct (IH (call + 1) (out ++ message_frame (RequestProviderReadResponse (response_body
      (dispatch_provider_read call r read user_data)))) Hrs) as [fuel Hf].
    exists (S fuel). cbn [provider_helper_loop]. change (request_frames (b :: bodies))
      with (message_frame (ResponseProviderReadRequest b) ++ request_frames bodies).
    rewrite (thread_reads b r) by done. rewrite (thread_writes r) by done. rewrite Hf.
    unfold answer_frames. cbn. by rewrite <- app_assoc.
Qed.

Lemma helper_loop_total fuel read user_data call s :
  (length (rd_bytes (sm_reader s)) < fuel)%nat -> is_Some (provider_helper_loop fuel read user_data call s).
Proof.
  revert call s. induction fuel as [|fuel IH]; intros call s Hf; [lia|]. cbn.
  unfold ProviderConnection_read_provider_read_request, read_provider_read_request.
  destruct (read_frame (sm_reader s)) as [rd [[m|]|e]] eqn:Hr; cbn; [|eauto..].
  apply read_frame_shrinks in Hr.
  match goal with |- is_Some (match ?x with _ => _ end) => destruct x as [[request|]|e]; [|eauto..] end.
  unfold ProviderConnection_write_provider_read_response. cbn [sm_writer sm_reader].
  destruct (write_provider_read_response _ _) as [w [[]|e]]; [|eauto]. apply IH. cbn. lia.
Qed.
End thread.

Lemma helper_loop_fuel `{!Bincode Request, !Bincode Response} fuel fuel' read user_data call s x :
  provider_helper_loop fuel read user_data call s = Some x -> (fuel <= fuel')%nat ->
  provider_helper_loop fuel' read user_data call s = Some x.
Proof.
  revert fuel' call s. induction fuel as [|fuel IH]; intros [|fuel'] call s; cbn; try done; [lia|].
  destruct (ProviderConnection_read_provider_read_request s) as [s1 [[r|]|e]]; try done.
  destruct (ProviderConnection_write_provider_read_response _ s1) as [s2 [[]|e]]; try done.
  intros H Hle. apply IH; [done|lia].
Qed.

(** Every answer to a request the daemon sends fits in a frame: a request asks
    for at most [MAX_PROVIDER_READ_LEN] bytes. *)
Lemma answers_encodable `{!Bincode Request, !BincodeCompact, !Bincode Response} read user_data bodies requests call :
  keeps_buffer read ->
  Forall2 (fun b r => 0 <= qb_length b /\ in_u64 (qb_request_id b) /\ encodable (ResponseProviderReadRequest b) /\
             ProviderReadRequest_from_body b = Ok r) bodies requests ->
  Forall (fun r => encodable (RequestProviderReadResponse (response_body r))) (answers read user_data call requests).
Proof.
  intros Hread Hreq. revert call.
  induction Hreq as [|b r bodies requests (Hl & Hu & _ & Hb) Hreq IH]; intros call; cbn; constructor; [|apply IH].
  destruct (from_body_request b r Hl Hb) as (Hid & Hlen & Hsame).
  destruct (dispatch_answers call r read user_data Hread Hid Hlen) as (H1 & _ & H3 & _).
  apply answer_encodable; cbn; [by rewrite H1, Hsame|lia].
Qed.

(** C22: the provider's thread serves the daemon.  The daemon writes any sequence
    of read requests to the provider's connection and closes it: every answer
    fits in a frame, and the thread terminates after it has called the callback once for each request, in order,
    and what the daemon then reads back is one answer per request, in order, each of
    which it accepts for its request. *)
Theorem provider_thread_serves
    `{!Bincode Request, !Bincode Response, !BincodeOk Request, !BincodeOk Response, !BincodeCompact}
    read user_data bodies requests :
  keeps_buffer read ->
  Forall2 (fun b r => 0 <= qb_length b /\ in_u64 (qb_request_id b) /\ encodable (ResponseProviderReadRequest b) /\
             ProviderReadRequest_from_body b = Ok r) bodies requests ->
  let responses := answers read user_data 0 requests in
  exists written,
    provider_helper_loop (S (length (request_frames bodies))) read user_data 0
      (mkStream (mkReader (request_frames bodies) None) (mkWriter [] None)) =
      Some (mkStream (mkReader [] None) (mkWriter written None)) /\
    read_frames (S (length written)) (mkReader written None) =
      Some ((fun r => RequestProviderReadResponse (response_body r)) <$> responses, Ok tt) /\
    Forall2 (fun request response =>
      ProviderReadResponse_from_body (response_body response) = Ok response /\
      validate_provider_read_response_for_request request response = Ok tt) requests responses.
Proof.
  intros Hread Hreq responses. pose proof (answers_encodable read user_data bodies requests 0 Hread Hreq) as Henc.
  destruct (helper_loop_answers read user_data bodies requests Hread Hreq 0 [] Henc) as [fuel Hf].
  fold responses in Hf. exists (answer_frames responses). cbn [app] in Hf. split_and!.
  - destruct (helper_loop_total (S (length (request_frames bodies))) read user_data 0
      (mkStream (mkReader (request_frames bodies) None) (mkWriter [] None))) as [x Hx]; [cbn; lia|].
    rewrite Hx. f_equal. apply (helper_loop_fuel _ (fuel + S (length (request_frames bodies)))) in Hx, Hf; [|lia..]. congruence.
  - pose proof (read_messages ((fun r => RequestProviderReadResponse (response_body r)) <$> responses)) as Hm.
    cbn zeta in Hm. rewrite <- list_fmap_compose in Hm. by apply Hm, Forall_fmap.
  - clear Hf Henc. unfold responses. generalize 0 as call. induction Hreq as [|b r bodies requests (Hl & _ & He & Hb) Hreq IH];
      intros call; cbn; constructor; [|apply IH].
    destruct (from_body_request b r Hl Hb) as (Hid & Hlen & _).
    pose proof (dispatch_answers call r read user_data Hread Hid Hlen) as Ha.
    split; [by eapply from_body_answer|by apply validate_response_for_request_Ok].
Qed.

Definition sample_bodies : list ProviderReadRequestBody :=
  (fun offset => mkProviderReadRequestBody 3 1 (bs "promise-1") (bs "a.txt") (bs "node") offset 8) <$> [0; 5].

Lemma provider_thread_serves_witness :
  exists written,
    @provider_helper_loop wire_requests wire_responses
      (S (length (@request_frames wire_responses sample_bodies))) sample_read 0 0
      (mkStream (mkReader (@request_frames wire_responses sample_bodies) None) (mkWriter [] None)) =
      Some (mkStream (mkReader [] None) (mkWriter written None)) /\ length written = 29%nat.
Proof.
  destruct (@provider_thread_serves wire_requests wire_responses wire_requests_ok wire_responses_ok
      wire_requests_compact
      sample_read 0 sample_bodies (sample_read_request <$> [0; 5]) sample_read_keeps) as (written & Hw & _ & _).
  - repeat apply Forall2_cons_2; try apply Forall2_nil_2;
      (split; [vm_compute; congruence|]; split; [split; vm_compute; congruence|];
       split; [eexists; split; [vm_compute; reflexivity|vm_compute; congruence]|vm_compute; reflexivity]).
  - exists written. split; [exact Hw|]. vm_compute in Hw. injection Hw as <-. vm_compute. reflexivity.
Defined.

(** ** Statuses *)

(** The status that a C caller sees when the daemon answers with [status]. *)
Definition status_seen (status : Status) (message : str) : Z :=
  io_to_ffi (IoFailure (error_to_io (mkErrorBody (status_to_error_code status) message))).

(** C35: which of the daemon's statuses reach a C caller.  Unavailable,
    permission, already exists, provider gone, cancelled, version mismatch and
    I/O error arrive as themselves; an invalid argument arrives as a version
    mismatch, something that was not found as unavailable, and a timeout as an
    I/O error: the caller is never told [FP_ERR_NOT_FOUND], [FP_ERR_TIMEOUT] or
    [FP_ERR_INVALID_ARGUMENT] by the daemon. *)
Theorem daemon_statuses_seen_by_c status message :
  (status_seen status message = status_to_ffi status <->
   status ∈ [Unavailable; Permission; AlreadyExists; ProviderGone; Io; Cancelled; VersionMismatch]) /\
  status_seen InvalidArgument message = FP_ERR_VERSION_MISMATCH /\
  status_seen NotFound message = FP_ERR_UNAVAILABLE /\ status_seen Timeout message = FP_ERR_IO /\
  ~ (status_seen status message ∈ [FP_OK; FP_ERR_INVALID_ARGUMENT; FP_ERR_NOT_FOUND; FP_ERR_TIMEOUT]).
Proof.
  split_and!; [|done..|].
  - rewrite <- (bool_decide_eq_true (status ∈ _)). by destruct status.
  - rewrite <- (bool_decide_eq_false (_ ∈ _)). by destruct status.
Qed.

(** ** Commits *)

Lemma promise_name_ascii k : Forall (fun b => byte_val b <= 127) (promise_name k).
Proof.
  unfold promise_name. apply Forall_app. split; [repeat constructor; vm_compute; congruence|].
  apply Forall_forall. intros b Hb%u64_to_string_digits. lia.
Qed.

(** Bytes that no promise's name has. *)
Lemma promise_name_without b k :
  bool_decide (b ∈ bs "promise-") = false -> ~ (48 <= byte_val b <= 57) -> b ∉ promise_name k.
Proof.
  intros H1 H2. unfold promise_name. rewrite elem_of_app. intros [H|H%u64_to_string_digits]; [|done].
  by apply bool_decide_eq_false in H1.
Qed.

Lemma promise_name_no_nul k : nul ∉ promise_name k.
Proof. apply promise_name_without; [reflexivity|vm_compute; intuition congruence]. Qed.

Lemma promise_name_no_slash k : slash ∉ promise_name k.
Proof. apply promise_name_without; [reflexivity|vm_compute; intuition congruence]. Qed.

(** A name under the mount, as text. *)
Lemma path_join_text mount name :
  utf8_valid mount = true -> Forall (fun b => byte_val b <= 127) name -> (slash ∉ name) ->
  to_string_lossy (path_join mount name) = path_join mount name /\
  exists sep, path_join mount name = mount ++ sep ++ name /\ (sep = [] \/ sep = [slash]) /\
    forall name', (slash ∉ name') -> path_join mount name' = mount ++ sep ++ name'.
Proof.
  intros Hm Hn Hs.
  assert (Habs : forall n, slash ∉ n -> is_absolute n = false).
  { intros [|c n] Hc; [done|]. unfold is_absolute. case_bool_decide; [|done]. set_solver. }
  assert (Hj : exists sep, (sep = [] \/ sep = [slash]) /\
    forall name', (slash ∉ name') -> path_join mount name' = mount ++ sep ++ name').
  { unfold path_join. destruct (last mount) as [c|] eqn:Hl.
    - case_decide; [exists []|exists [slash]]; (split; [by auto|]); intros name' ->%Habs; done.
    - apply last_None in Hl as ->. exists []. split; [by auto|]. by intros name' ->%Habs. }
  destruct Hj as (sep & Hsep & Hj). split; [|exists sep; auto]. rewrite Hj by done.
  apply to_string_lossy_utf8. apply utf8_valid_app; [done|]. apply utf8_valid_app; [|by apply utf8_valid_ascii].
  destruct Hsep as [->| ->]; reflexivity.
Qed.

(** The path of any promise fits where the longest one does. *)
Lemma capacity_suffices mount L k :
  utf8_valid mount = true -> 0 <= k <= u64_max -> commit_path_capacity_fits mount L = true ->
  len (to_string_lossy (path_join mount (promise_name k))) < L.
Proof.
  intros Hm Hk Hc. unfold commit_path_capacity_fits in Hc. apply Z.ltb_lt in Hc. revert Hc.
  change MAX_PROMISE_ID with (promise_name u64_max).
  destruct (path_join_text mount (promise_name u64_max)) as (-> & sep & -> & _ & Hj);
    [done|apply promise_name_ascii|apply promise_name_no_slash|].
  destruct (path_join_text mount (promise_name k)) as (-> & _); [done|apply promise_name_ascii|apply promise_name_no_slash|].
  rewrite (Hj (promise_name k)) by apply promise_name_no_slash. rewrite !len_app. unfold promise_name. rewrite !len_app.
  pose proof (u64_to_string_length k Hk). replace (len (u64_to_string u64_max)) with 20 by reflexivity. lia.
Qed.

Lemma until_nul_app v rest : nul ∉ v -> until_nul (v ++ nul :: rest) = Some v.
Proof.
  induction v as [|b v IH]; intros Hv; cbn; [done|]. apply not_elem_of_cons in Hv as [Hb Hv].
  rewrite decide_False by congruence. by rewrite IH.
Qed.

Lemma write_c_string_fits buffer L value :
  (nul ∉ value) -> len value < L -> L <= len buffer ->
  exists buffer', write_c_string buffer L value = Ok buffer' /\ until_nul buffer' = Some value /\ len buffer' = len buffer.
Proof.
  intros Hn Hv Hb. unfold write_c_string. rewrite decide_False by done.
  destruct (Z.leb_spec L (len value)); [lia|]. destruct (Z.leb_spec (len buffer) (len value)); [lia|].
  eexists. split; [done|]. split.
  - unfold copy_into. cbn. rewrite <- app_assoc. by apply until_nul_app.
  - apply len_copy_into; [done|]. rewrite len_app. change (len [nul]) with 1. lia.
Qed.

Lemma io_kind_to_ffi_error kind : io_kind_to_ffi kind <> FP_OK.
Proof. by destruct kind. Qed.

Lemma commit_outcome `{!Bincode Request, !Bincode Response} host handle buffer L s :
  0 <= L <= len buffer ->
  let '(s', builder', out, status) := fp_promise_commit host (Some handle) (Some buffer) L s in
  exists handle' buffer' st, builder' = Some handle' /\ out = Some buffer' /\ status = Some st /\
    len buffer' = len buffer /\
    (st = FP_OK -> is_Some (fb_builder handle) /\ handle' = set_builder None handle /\
       exists path, until_nul buffer' = Some path /\ len path < L) /\
    (st <> FP_OK -> handle' = handle /\ (buffer' = buffer \/ until_nul buffer' = Some [])) /\
    (L = 0 \/ commit_path_capacity_fits (ci_mount_path (fb_inner handle)) L = false \/ fb_builder handle = None ->
       st = FP_ERR_INVALID_ARGUMENT /\ s' = s).
Proof.
  intros HL. unfold fp_promise_commit. destruct (Z.eqb_spec L 0) as [->|HL0].
  { eexists _, _, _. split_and!; [done..|auto|auto]. }
  unfold commit_action. destruct (Z.leb_spec (len buffer) 0); [lia|].
  assert (Hempty : until_nul (<[0%nat := nul]> buffer) = Some []).
  { pose proof (len_pos_inv buffer ltac:(lia)). by destruct buffer. }
  assert (Hlen : len (<[0%nat := nul]> buffer) = len buffer) by (unfold len; by rewrite length_insert).
  set (buf := <[0%nat := nul]> buffer) in *.
  destruct (commit_path_capacity_fits _ L) eqn:Hcap; cbn [negb].
  2:{ eexists _, _, _. split_and!; [done..|auto|auto]. }
  destruct (fb_builder handle) as [b|] eqn:Hb.
  2:{ eexists _, _, _. split_and!; [done..|auto|auto]. }
  destruct (commit_promise _ _ _ s) as [s1 [response|e]]; cbn [fail_io map_err].
  2:{ eexists _, _, _. split_and!; [done..|by intros ?%io_kind_to_ffi_error|auto|].
      intros [?|[?|?]]; [lia|congruence|done]. }
  assert (Hno : L = 0 \/ true = false \/ Some b = None -> False) by naive_solver.
  set (path := to_string_lossy (pm_visible_path response)).
  destruct (decide (nul ∈ path)) as [Hn|Hn]; [|destruct (Z.leb_spec L (len path)) as [Hp|Hp]].
  - unfold write_c_string. rewrite decide_True by done. eexists _, _, _. split_and!; [done..|auto|intros []%Hno].
  - unfold write_c_string. rewrite decide_False by done. destruct (Z.leb_spec L (len path)); [|lia].
    eexists _, _, _. split_and!; [done..|auto|intros []%Hno].
  - destruct (write_c_string_fits buf L path Hn Hp ltac:(lia)) as (buffer' & -> & Hu & Hl).
    eexists _, _, _. split_and!; [done..|lia| |done|intros []%Hno].
    intros _. split_and!; [by eexists|done|]. eauto.
Qed.

(** C25: what a C caller can rely on of [fp_promise_commit], whatever the daemon
    does.  With a valid output buffer the call does not fault; the builder is
    consumed if and only if it returns [FP_OK], and then the buffer holds a
    terminated path; on any other status the builder can be used again and the
    buffer holds the empty string or was not touched.  A buffer too small for
    the longest promise path, or a builder that was consumed before, is refused
    before the daemon is contacted. *)
Theorem fp_promise_commit_outcome `{!Bincode Request, !Bincode Response} host handle buffer L s :
  0 <= L <= len buffer ->
  let '(s', builder', out, status) := fp_promise_commit host (Some handle) (Some buffer) L s in
  exists handle' buffer' st, builder' = Some handle' /\ out = Some buffer' /\ status = Some st /\
    len buffer' = len buffer /\
    (st = FP_OK -> is_Some (fb_builder handle) /\ handle' = set_builder None handle /\
       exists path, until_nul buffer' = Some path /\ len path < L) /\
    (st <> FP_OK -> handle' = handle /\ (buffer' = buffer \/ until_nul buffer' = Some [])) /\
    (L = 0 \/ commit_path_capacity_fits (ci_mount_path (fb_inner handle)) L = false \/ fb_builder handle = None ->
       st = FP_ERR_INVALID_ARGUMENT /\ s' = s).
Proof. apply commit_outcome. Qed.

Definition sample_builder : fp_promise_builder :=
  mkBuilder (mkContextInner 1 (bs "/run/s") client_mount) 42 (Some (built 1 sample_calls)).

Lemma fp_promise_commit_outcome_witness :
  exists s' handle' buffer',
    @fp_promise_commit sample_requests sample_responses sample_host (Some sample_builder) (Some (replicate 64 nul)) 20
      (mkStream (mkReader [] None) (mkWriter [] None)) =
      (s', Some handle', Some buffer', Some FP_ERR_INVALID_ARGUMENT) /\ handle' = sample_builder.
Proof.
  pose proof (@fp_promise_commit_outcome sample_requests sample_responses sample_host sample_builder (replicate 64 nul) 20
    (mkStream (mkReader [] None) (mkWriter [] None)) ltac:(vm_compute; split; congruence)) as H.
  destruct (fp_promise_commit _ _ _ _ _) as [[[s' b'] out] st].
  destruct H as (handle' & buffer' & st' & -> & -> & -> & _ & _ & Herr & Href).
  destruct Href as [-> _]; [right; left; vm_compute; reflexivity|].
  exists s', handle', buffer'. split; [reflexivity|]. apply Herr. discriminate.
Defined.

(** C13: publishing a promise through the C interface, from end to end.  A
    provider's builder and an output buffer large enough for the longest promise
    path, with the daemon mounted where the context expects it: the call
    returns [FP_OK], the buffer holds the path of the promise under the mount,
    terminated, the builder is consumed, and the daemon's runtime has the
    promise, with the nodes that were added, under the name in that path.  (The
    handshake, the commit and its answer fit in a frame, the socket is the user's
    own, and the path of the mount is UTF-8.) *)
Theorem fp_promise_commit_end_to_end `{!Bincode Request, !Bincode Response, !BincodeOk Request, !BincodeOk Response}
    dm ds hm host s id env provider_id token calls inner buffer L :
  let b := built provider_id calls in
  let mount := ci_mount_path inner in
  host_ok host (ci_socket_path inner) -> hello_ok -> Forall call_typed calls ->
  encodable (RequestPromiseCommit (PromiseCommitRequest_into_body (PromiseCommitRequest_from_builder_with_owner_token b token))) ->
  encodable (ResponsePromiseCommitted (committed_response s mount)) ->
  commit_allowed s provider_id token mount (len (btree_items (pb_nodes b))) ->
  utf8_valid mount = true -> (nul ∉ mount) -> commit_path_capacity_fits mount L = true -> L <= len buffer ->
  exists s' tree requests replies buffer',
    fp_promise_commit host (Some (mkBuilder inner token (Some b))) (Some buffer) L
      (mkStream (mkReader replies None) (mkWriter [] None)) =
      (mkStream (mkReader [] None) (mkWriter requests None), Some (mkBuilder inner token None), Some buffer', Some FP_OK) /\
    handle_client_requests dm ds hm s (mkClient id (mkReader requests None) (mkWriter [] None) false []) [env; env; env] =
      Some (s', (mkClient id (mkReader [] None) (mkWriter replies None) true [], Ok tt)) /\
    until_nul buffer' = Some (path_join mount (pt_promise_id tree)) /\
    rt_promises (st_runtime s') = <[pt_promise_id tree := tree]> (rt_promises (st_runtime s)) /\
    pt_provider_id tree = provider_id /\ pt_state tree = Available /\ same_nodes (pb_nodes b) (pt_nodes tree).
Proof.
  intros b mount Hhost Hhello Hcalls Hq Hr Hallowed Hutf Hnul Hcap HL.
  destruct (commit_promise_served dm ds hm host (ci_socket_path inner) s id env provider_id token calls mount
    Hhost Hhello Hcalls Hq Hr Hallowed) as (s' & tree & (requests & replies & Hc & Hs) & Hnew & Hins & Hp & Hst & _ & Hsame & Hwf' & _).
  fold b in Hc, Hsame.
  destruct (rw_promises _ (sw_runtime _ Hwf') (pt_promise_id tree) tree) as (_ & k & Hk & Hk1).
  { rewrite Hins. apply lookup_insert_eq. }
  pose proof (rw_promise_id _ (sw_runtime _ Hwf')) as Hmax.
  destruct (path_join_text mount (promise_name k) Hutf (promise_name_ascii k) (promise_name_no_slash k))
    as (Htext & sep & Hjoin & Hsep & _). rewrite Hk in *.
  pose proof (capacity_suffices mount L k Hutf ltac:(lia) Hcap) as Hfit.
  assert (Hclean : nul ∉ path_join mount (promise_name k)).
  { rewrite Hjoin, !elem_of_app. intros [?|[?|H]]; [done| |by apply promise_name_no_nul in H].
    destruct Hsep as [->| ->]; [by apply elem_of_nil in H|]. by apply list_elem_of_singleton in H. }
  assert (HL0 : 0 < L) by (pose proof (len_nonneg (to_string_lossy (path_join mount (promise_name k)))); lia).
  destruct (write_c_string_fits (<[0%nat := nul]> buffer) L (path_join mount (promise_name k)))
    as (buffer' & Hw & Hu & _); [done|by rewrite <- Htext|unfold len in *; rewrite length_insert; lia|].
  exists s', tree, requests, replies, buffer'. rewrite Hk. split_and!; try done.
  unfold fp_promise_commit. destruct (Z.eqb_spec L 0); [lia|]. unfold commit_action. cbn [fb_inner fb_builder fb_provider_owner_token].
  destruct (Z.leb_spec (len buffer) 0); [lia|]. fold mount. rewrite Hcap. cbn [negb]. rewrite Hc. cbn [fail_io map_err pm_visible_path].
  rewrite !Htext, Hw. done.
Qed.

Lemma fp_promise_commit_end_to_end_witness :
  exists s' tree requests replies buffer',
    @fp_promise_commit sample_requests sample_responses sample_host (Some sample_builder) (Some (replicate 64 nul)) 64
      (mkStream (mkReader replies None) (mkWriter [] None)) =
      (mkStream (mkReader [] None) (mkWriter requests None), Some (set_builder None sample_builder), Some buffer', Some FP_OK) /\
    until_nul buffer' = Some (path_join client_mount (pt_promise_id tree)) /\
    rt_promises (st_runtime s') !! pt_promise_id tree = Some tree.
Proof.
  destruct (@fp_promise_commit_end_to_end sample_requests sample_responses sample_requests_ok sample_responses_ok
    (Ok []) (Ok []) no_materialize sample_host ready_state 7 sample_env 1 42 sample_calls (fb_inner sample_builder)
    (replicate 64 nul) 64) as (s' & tree & requests & replies & buffer' & Hc & _ & Hu & Hp & _).
  - apply sample_host_ok.
  - exact sample_hello_ok.
  - exact sample_calls_typed.
  - apply (one_byte_encodable _ Byte.x01). vm_compute. reflexivity.
  - apply (one_byte_encodable _ Byte.x01). vm_compute. reflexivity.
  - exact sample_commit_allowed.
  - vm_compute. reflexivity.
  - eapply bool_decide_eq_true_1. vm_compute. reflexivity.
  - vm_compute. reflexivity.
  - vm_compute. congruence.
  - exists s', tree, requests, replies, buffer'. split; [exact Hc|]. split; [exact Hu|]. rewrite Hp. apply lookup_insert_eq.
Defined.

(** ** Materialization *)

(** The report as the callback gets it. *)
Definition progress_body (p : MaterializeCounters) : fp_materialize_progress_t :=
  mkProgress size_of_progress
    (mkMaterializeCounters (to_string_lossy (mc_target_path p)) (mc_entries_done p) (mc_entries_total p)
       (mc_bytes_written p) (mc_bytes_total p) (mc_files_written p) (mc_files_total p)
       (mc_directories_created p) (mc_directories_total p)).

Lemma dispatch_progress_callback callback user_data calls p :
  (nul ∉ to_string_lossy (mc_target_path p)) ->
  dispatch_materialize_progress (Some callback) user_data calls p =
    (calls + 1, if callback calls (progress_body p) user_data =? FP_OK then Ok tt
                else Err (FfiStatusError (callback calls (progress_body p) user_data))).
Proof. intros Hn. unfold dispatch_materialize_progress, CString_new. by rewrite decide_False. Qed.

(** The callback up to the first report that it does not accept. *)
Lemma feed_accepts callback user_data ps calls :
  Forall (fun p => nul ∉ to_string_lossy (mc_target_path p)) ps ->
  (forall i p, ps !! i = Some p -> callback (calls + Z.of_nat i) (progress_body p) user_data = FP_OK) ->
  feed (dispatch_materialize_progress (Some callback) user_data) calls ps = (calls + len ps, length ps, None).
Proof.
  intros Hps. revert calls. induction Hps as [|p ps Hp Hps IH]; intros calls Hok; cbn [feed length].
  - rewrite len_nil. by rewrite Z.add_0_r.
  - rewrite dispatch_progress_callback by done. pose proof (Hok 0%nat p eq_refl) as H0. rewrite Z.add_0_r in H0.
    rewrite H0. cbn. rewrite IH.
    + rewrite len_cons. do 2 f_equal. lia.
    + intros i q Hq. rewrite <- (Hok (S i) q Hq). f_equal. lia.
Qed.

Lemma feed_refuses callback user_data ps n p calls :
  Forall (fun p => nul ∉ to_string_lossy (mc_target_path p)) ps ->
  (forall i q, (i < n)%nat -> ps !! i = Some q -> callback (calls + Z.of_nat i) (progress_body q) user_data = FP_OK) ->
  ps !! n = Some p -> callback (calls + Z.of_nat n) (progress_body p) user_data <> FP_OK ->
  feed (dispatch_materialize_progress (Some callback) user_data) calls ps =
    (calls + Z.of_nat n + 1, n, Some (FfiStatusError (callback (calls + Z.of_nat n) (progress_body p) user_data))).
Proof.
  intros Hps. revert n calls. induction Hps as [|q ps Hq Hps IH]; intros n calls Hok Hn Hno; [done|].
  cbn [feed]. rewrite dispatch_progress_callback by done. destruct n as [|n].
  - injection Hn as ->. rewrite Z.add_0_r in *. by rewrite (proj2 (Z.eqb_neq _ _) Hno).
  - pose proof (Hok 0%nat q ltac:(lia) eq_refl) as H0. rewrite Z.add_0_r in H0. rewrite H0. cbn [Z.eqb FP_OK].
    rewrite (IH n (calls + 1)); try done.
    + replace (calls + 1 + Z.of_nat n) with (calls + Z.of_nat (S n)) by lia. done.
    + intros i r Hi Hr. rewrite <- (Hok (S i) r ltac:(lia) Hr). f_equal. lia.
    + by replace (calls + 1 + Z.of_nat n) with (calls + Z.of_nat (S n)) by lia.
Qed.

(** What the daemon sends during a materialization, and what the client has
    sent when it has accepted [n] reports. *)
Definition materialize_replies `{!Bincode Response} (ps : list MaterializeCounters) (final : Response) : list byte :=
  message_frame hello_response ++ progress_frames ps ++ message_frame final.

Definition materialize_sent `{!Bincode Request} (body : MaterializeBody) (n : nat) : list byte :=
  (message_frame hello_request ++ message_frame (RequestMaterialize body)) ++ continue_frames n.

(** C30: progress and cancellation through the C interface.  The daemon reports
    [ps] and then answers [final].  The callback is called once per report, in
    order, with the report's own numbers.  If it accepts them all, every report
    is acknowledged and the result is [FP_OK] exactly when the daemon answered that it
    is done; if it returns another status for a report, that one is
    answered with a cancellation, the callback is not called again, and the
    caller gets exactly the status that the callback returned. *)
Theorem fp_materialize_progress `{!Bincode Request, !Bincode Response, !BincodeOk Request, !BincodeOk Response}
    mem host context promise_path target_dir options request opts body ps final :
  let callback := cm_progress_fn mem (op_progress opts) in
  let replies := materialize_replies ps final in
  let run := fp_materialize (S (length replies)) mem host (Some context) promise_path target_dir options
    (mkStream (mkReader replies None) (mkWriter [] None)) in
  host_ok host (ci_socket_path (fc_inner context)) -> hello_ok ->
  materialize_arguments mem host promise_path target_dir options = Ok (request, opts) ->
  op_progress opts <> 0 -> MaterializeRequest_into_body request = Ok body ->
  encodable (RequestMaterialize body) -> encodable RequestMaterializeContinue -> encodable RequestMaterializeCancel ->
  Forall (fun p => encodable (ResponseMaterializeProgress p)) ps -> encodable final -> is_progress final = false ->
  Forall (fun p => nul ∉ to_string_lossy (mc_target_path p)) ps ->
  ((forall i p, ps !! i = Some p -> callback (Z.of_nat i) (progress_body p) (op_progress_user_data opts) = FP_OK) ->
   exists status, run = Some (mkStream (mkReader [] None) (mkWriter (materialize_sent body (length ps)) None), len ps, Some status) /\
     (status = FP_OK <-> exists counters, final = ResponseMaterialized counters)) /\
  (forall n p, ps !! n = Some p ->
   (forall i q, (i < n)%nat -> ps !! i = Some q ->
      callback (Z.of_nat i) (progress_body q) (op_progress_user_data opts) = FP_OK) ->
   let status := callback (Z.of_nat n) (progress_body p) (op_progress_user_data opts) in
   status <> FP_OK ->
   exists rest, run = Some (mkStream rest (mkWriter (materialize_sent body n ++ message_frame RequestMaterializeCancel) None),
     Z.of_nat n + 1, Some status)).
Proof.
  intros callback replies run Hhost Hhello Hargs Hcb Hbody He1 He2 He3 Hps Hfinal Hnot Hnul.
  assert (Hrun : run = '(s, calls, r) ← materialize_loop IoFailure
      (dispatch_materialize_progress (Some callback) (op_progress_user_data opts)) (S (length replies))
      (mkStream (mkReader (progress_frames ps ++ message_frame final ++ []) None)
         (mkWriter (message_frame hello_request ++ message_frame (RequestMaterialize body)) None)) 0;
    Some (s, calls, ffi_guard (map_err (fun e => Failed (io_to_ffi e)) ((fun _ => FP_OK) <$> r)))).
  { unfold run, fp_materialize. rewrite Hargs, (proj2 (Z.eqb_neq _ _) Hcb). fold callback. unfold replies, materialize_replies.
    erewrite materialize_sends by done. by rewrite app_nil_r. }
  pose proof (materialize_loop_protocol IoFailure (dispatch_materialize_progress (Some callback) (op_progress_user_data opts))
    ps final [] Hps Hfinal Hnot He2 He3 0 (message_frame hello_request ++ message_frame (RequestMaterialize body))) as Hloop.
  assert (Hlen : (length (progress_frames ps ++ message_frame final ++ []) < S (length replies))%nat).
  { unfold replies, materialize_replies. rewrite app_nil_r, !length_app. lia. }
  split.
  - intros Hok. rewrite (feed_accepts callback) in Hloop by done. destruct Hloop as (fuel & Hf).
    eapply materialize_loop_enough in Hf; [|exact Hlen]. rewrite Hrun, Hf. cbn. unfold materialize_sent, acks.
    rewrite (app_nil_r (continue_frames _)). destruct final; try done; cbn; (eexists; split; [done|]); (split; [first [by eauto|by intros ?%io_kind_to_ffi_error]|naive_solver]).
  - intros n p Hn Hok status Hno. rewrite (feed_refuses callback _ ps n p) in Hloop by done. destruct Hloop as (fuel & Hf).
    eapply materialize_loop_enough in Hf; [|exact Hlen]. rewrite Hrun, Hf. cbn. eexists. unfold materialize_sent, acks.
    by rewrite (app_assoc (message_frame hello_request ++ _) (continue_frames n)).
Qed.

(** A caller whose callback cancels at the second report. *)
Definition cancelling_memory : CMemory :=
  mkCMemory (fun p => if p =? 64 then Some (u32_to_le_bytes 24 ++ u32_to_le_bytes 1 ++
                             u32_to_le_bytes 4096 ++ u32_to_le_bytes 0 ++ u32_to_le_bytes 7 ++ u32_to_le_bytes 0)
                      else if p =? 96 then Some (bs "/run/fuse-promise/promise-1" ++ [nul])
                      else if p =? 128 then Some (bs "/tmp" ++ [nul])
                      else None)
    (fun _ _ _ response _ => (Some 0, response))
    (fun _ call _ _ => if call =? 1 then FP_ERR_CANCELLED else FP_OK).

Definition tmp_host : Host :=
  mkHost None (fun _ => Ok (mkPathMetadata PathDirectory 1000 448))
    (fun p => if decide (p = bs "/tmp") then Ok (mkPathMetadata PathDirectory 0 1023) else Ok (mkPathMetadata PathSocket 1000 448))
    1000 (Ok (bs "/home/me")) (fun _ => Ok tt).

Definition sample_report (n : Z) : MaterializeCounters := mkMaterializeCounters (bs "/tmp/promise-1") n 2 0 0 0 0 n 2.

Definition sample_final : Response :=
  ResponseMaterializeFailed (mkMaterializeFailedBody EcCancelled (bs "cancelled") (sample_report 1)).

Definition sample_materialize_body : MaterializeBody :=
  mkMaterializeBody (bs "/run/fuse-promise/promise-1") (bs "/tmp") OverwriteBody.

Definition cancel_requests : Bincode Request :=
  table_codec [hello_request; RequestMaterialize sample_materialize_body; RequestMaterializeContinue; RequestMaterializeCancel].

Definition cancel_responses : Bincode Response :=
  table_codec [hello_response; ResponseMaterializeProgress (sample_report 0); ResponseMaterializeProgress (sample_report 1); sample_final].

Lemma fp_materialize_progress_witness :
  let replies := @materialize_replies cancel_responses [sample_report 0; sample_report 1] sample_final in
  exists rest, @fp_materialize cancel_requests cancel_responses (S (length replies)) cancelling_memory tmp_host
      (Some (mkContext (fb_inner sample_builder))) 96 128 64 (mkStream (mkReader replies None) (mkWriter [] None)) =
    Some (mkStream rest (mkWriter (@materialize_sent cancel_requests sample_materialize_body 1 ++
            @message_frame Request cancel_requests RequestMaterializeCancel) None), 2, Some FP_ERR_CANCELLED).
Proof.
  destruct (@fp_materialize_progress cancel_requests cancel_responses
      ltac:(apply table_codec_ok; cbn; lia) ltac:(apply table_codec_ok; cbn; lia)
      cancelling_memory tmp_host (mkContext (fb_inner sample_builder)) 96 128 64
      (mkMaterializeRequest (bs "/run/fuse-promise/promise-1") (bs "/tmp") PolicyOverwrite)
      (mkMaterializeOptions PolicyOverwrite 4096 7) sample_materialize_body
      [sample_report 0; sample_report 1] sample_final) as [_ H].
  - split; [eexists; vm_compute; reflexivity|reflexivity].
  - split; eapply one_byte_encodable; vm_compute; reflexivity.
  - vm_compute. reflexivity.
  - discriminate.
  - vm_compute. reflexivity.
  - eapply one_byte_encodable; vm_compute; reflexivity.
  - eapply one_byte_encodable; vm_compute; reflexivity.
  - eapply one_byte_encodable; vm_compute; reflexivity.
  - repeat apply Forall_cons_2; try apply Forall_nil_2; eapply one_byte_encodable; vm_compute; reflexivity.
  - eapply one_byte_encodable; vm_compute; reflexivity.
  - reflexivity.
  - repeat apply Forall_cons_2; try apply Forall_nil_2; eapply bool_decide_eq_true_1; vm_compute; reflexivity.
  - apply (H 1%nat (sample_report 1) eq_refl).
    + intros [|i] q Hi Hq; [reflexivity|lia].
    + discriminate.
Defined.
