(* ===== verification/Handles.v ===== *)
(** * Handles of the C interface

    What [crates/fuse-promise-ffi/src/lib.rs] hands to C are addresses of boxes:
    contexts, providers and promise builders, which share the [ContextInner] of
    the context they were made from by an [Arc].  Here they live in a heap, with
    the strong count of every [Arc], and the functions of the interface are
    calls on addresses: a null address is checked by the code, an address that
    is not a live box of the right type is a fault, and so is a place for a new
    handle that has no room for one.  [CCall] has every function that takes a
    pointer, with all of its arguments.  The allocator is an input:
    it returns addresses that are not in use, and may reuse freed ones. *)

From stdpp Require Import gmultiset.
From S2P Require Import Prelude Types Paths Tree Messages Frame Host Client ClientServer Ffi FfiProps.

Inductive Box : Type :=
| BoxContext (context : fp_context)
| BoxProvider (provider : fp_provider)
| BoxBuilder (builder : fp_promise_builder).

(** The [Arc] that a box holds. *)
Definition box_inner (b : Box) : ContextInner :=
  match b with
  | BoxContext c => fc_inner c
  | BoxProvider p => fv_inner p
  | BoxBuilder b => fb_inner b
  end.

(** The boxes by address, and each [Arc] as often as its strong count. *)
Record Heap : Type := mkHeap {
  hp_boxes : gmap Z Box;
  hp_arcs : gmultiset Z;
}.

Definition empty_heap : Heap := mkHeap ∅ ∅.

(** [Box::into_raw(Box::new(b))], where [b] holds a new [Arc] or a clone. *)
Definition box_new (p : Z) (b : Box) (heap : Heap) : Heap :=
  mkHeap (<[p := b]> (hp_boxes heap)) ({[+ ci_id (box_inner b) +]} ⊎ hp_arcs heap).

(** [drop(Box::from_raw(p))]; the [Arc] is freed with its last owner. *)
Definition box_drop (p : Z) (b : Box) (heap : Heap) : Heap :=
  mkHeap (delete p (hp_boxes heap)) (hp_arcs heap ∖ {[+ ci_id (box_inner b) +]}).

Definition box_update (p : Z) (b : Box) (heap : Heap) : Heap := mkHeap (<[p := b]> (hp_boxes heap)) (hp_arcs heap).

(** ** Using an address: [Some None] for null, [None] for a fault *)

Definition as_context (heap : Heap) (p : Z) : option (option fp_context) :=
  if p =? 0 then Some None
  else match hp_boxes heap !! p with Some (BoxContext c) => Some (Some c) | _ => None end.

Definition as_provider (heap : Heap) (p : Z) : option (option fp_provider) :=
  if p =? 0 then Some None
  else match hp_boxes heap !! p with Some (BoxProvider c) => Some (Some c) | _ => None end.

Definition as_builder (heap : Heap) (p : Z) : option (option fp_promise_builder) :=
  if p =? 0 then Some None
  else match hp_boxes heap !! p with Some (BoxBuilder c) => Some (Some c) | _ => None end.

(** ** Releasing *)

Definition fp_context_close (context : Z) (heap : Heap) : option Heap :=
  c ← as_context heap context;
  Some (match c with None => heap | Some c => box_drop context (BoxContext c) heap end).

Definition fp_promise_builder_free (builder : Z) (heap : Heap) : option Heap :=
  b ← as_builder heap builder;
  Some (match b with None => heap | Some b => box_drop builder (BoxBuilder b) heap end).

(** [fp_provider_unregister] takes the box back, stops its thread and drops it. *)
Definition provider_release (provider : Z) (heap : Heap) (s : Stream) : option (Heap * Stream) :=
  p ← as_provider heap provider;
  Some (match p with None => heap | Some p => box_drop provider (BoxProvider p) heap end, fp_provider_unregister p s).

(** ** Calls *)

(** All functions but [fp_status_string], with the arguments of the header. *)
Inductive CCall : Type :=
| CContextOpen (options out_context : Z)
| CContextClose (context : Z)
| CProviderRegister (context ops user_data out_provider : Z)
| CProviderUnregister (provider : Z)
| CBuilderNew (context provider out_builder : Z)
| CAddDir (builder relative_path attr provider_node_id : Z)
| CAddFile (builder relative_path attr provider_node_id : Z)
| CCommit (builder : Z) (out_path : option (list byte)) (out_path_len : Z)
| CBuilderFree (builder : Z)
| CMaterialize (context promise_path target_dir options : Z).

(** What surrounds a call: the addresses that the allocator gives next, whether
    the thread starts, and the connection, if the call makes one. *)
Record CallEnv : Type := mkCallEnv {
  en_box : Z;
  en_arc : Z;
  en_spawn : SpawnEnv;
  en_stream : Stream;
}.

(** The new heap, the handle written to the output, the connection, the output
    buffer and the status; functions without a status give [FP_OK]. *)
Record Outcome : Type := mkOutcome {
  oc_heap : Heap;
  oc_handle : Z;
  oc_stream : Stream;
  oc_buffer : option (list byte);
  oc_status : Z;
}.

(** A place for a handle that the caller passes: [Some None] for null, [None] for a
    fault, when a function writes to an address that has no room for a pointer.
    [written] says whether it gets as far as writing. *)
Definition out_handle {A} (mem : CMemory) (p : Z) (written : bool) : option (option (option A)) :=
  if p =? 0 then Some None
  else if negb written then Some (Some None)
  else match cm_bytes mem p with
       | Some bytes => if size_of c_pointer <=? len bytes then Some (Some None) else None
       | None => None
       end.

(** The handle of a new box, or null. *)
Definition publish (p : Z) (b : option Box) (heap : Heap) (s : Stream) (status : Z) : Outcome :=
  match b with
  | Some b => mkOutcome (box_new p b heap) p s None status
  | None => mkOutcome heap 0 s None status
  end.

Definition update_builder (p : Z) (b : option fp_promise_builder) (heap : Heap) : Heap :=
  match b with Some b => box_update p (BoxBuilder b) heap | None => heap end.

Section calls.
Context `{!Bincode Request, !Bincode Response}.

Definition c_call (mem : CMemory) (host : Host) (env : CallEnv) (heap : Heap) (call : CCall) : option Outcome :=
  let s := en_stream env in
  match call with
  | CContextOpen options out_context =>
      out ← out_handle mem out_context true;
      let '(out, status) := fp_context_open mem host (en_arc env) options out in
      status ← status;
      Some (publish (en_box env) (BoxContext <$> mjoin out) heap s status)
  | CContextClose context =>
      heap ← fp_context_close context heap;
      Some (mkOutcome heap 0 s None FP_OK)
  | CProviderRegister context ops user_data out_provider =>
      c ← as_context heap context;
      out ← out_handle mem out_provider (negb (context =? 0) && negb (ops =? 0));
      let '(s, out, status) := fp_provider_register mem host (en_spawn env) c ops user_data out s in
      status ← status;
      Some (publish (en_box env) (BoxProvider <$> mjoin out) heap s status)
  | CProviderUnregister provider =>
      '(heap, s) ← provider_release provider heap s;
      Some (mkOutcome heap 0 s None FP_OK)
  | CBuilderNew context provider out_builder =>
      c ← as_context heap context;
      p ← as_provider heap provider;
      out ← out_handle mem out_builder (negb (context =? 0) && negb (provider =? 0));
      let '(out, status) := fp_promise_builder_new c p out in
      status ← status;
      Some (publish (en_box env) (BoxBuilder <$> mjoin out) heap s status)
  | CAddDir builder relative_path attr provider_node_id =>
      b ← as_builder heap builder;
      let '(b, status) := fp_promise_add_dir mem b relative_path attr provider_node_id in
      status ← status;
      Some (mkOutcome (update_builder builder b heap) 0 s None status)
  | CAddFile builder relative_path attr provider_node_id =>
      b ← as_builder heap builder;
      let '(b, status) := fp_promise_add_file mem b relative_path attr provider_node_id in
      status ← status;
      Some (mkOutcome (update_builder builder b heap) 0 s None status)
  | CCommit builder out_path out_path_len =>
      b ← as_builder heap builder;
      let '(s, b, out_path, status) := fp_promise_commit host b out_path out_path_len s in
      status ← status;
      Some (mkOutcome (update_builder builder b heap) 0 s out_path status)
  | CBuilderFree builder =>
      heap ← fp_promise_builder_free builder heap;
      Some (mkOutcome heap 0 s None FP_OK)
  | CMaterialize context promise_path target_dir options =>
      c ← as_context heap context;
      '(s, _, status) ← fp_materialize (S (length (rd_bytes (sm_reader s)))) mem host c promise_path target_dir options s;
      status ← status;
      Some (mkOutcome heap 0 s None status)
  end.
End calls.

(** ** Well-formed heaps *)

(** The owners of every [Arc]. *)
Definition owners (boxes : gmap Z Box) : gmultiset Z :=
  map_fold (fun _ b arcs => {[+ ci_id (box_inner b) +]} ⊎ arcs) ∅ boxes.

Definition box_ok (b : Box) : Prop :=
  match b with
  | BoxContext _ => True
  | BoxProvider p => is_Some (fv_helper p) /\ fv_id p <> 0
  | BoxBuilder b => match fb_builder b with Some b => builder_wf b | None => True end
  end.

(** Null is no box; every [Arc] is counted once per box that holds it; boxes with the
    same [Arc] agree on its contents; and every box is what its type says. *)
Record heap_ok (heap : Heap) : Prop := {
  ok_null : hp_boxes heap !! 0 = None;
  ok_arcs : hp_arcs heap = owners (hp_boxes heap);
  ok_shared : forall p q b c, hp_boxes heap !! p = Some b -> hp_boxes heap !! q = Some c ->
    ci_id (box_inner b) = ci_id (box_inner c) -> box_inner b = box_inner c;
  ok_box : forall p b, hp_boxes heap !! p = Some b -> box_ok b;
}.

(** What the allocator promises. *)
Definition fresh_env (env : CallEnv) (heap : Heap) : Prop :=
  en_box env <> 0 /\ hp_boxes heap !! en_box env = None /\ en_arc env ∉ hp_arcs heap.

Lemma owners_insert p b boxes :
  boxes !! p = None -> owners (<[p := b]> boxes) = {[+ ci_id (box_inner b) +]} ⊎ owners boxes.
Proof. intros Hp. unfold owners. rewrite map_fold_insert_L; [done|multiset_solver|done]. Qed.

Lemma owners_delete p b boxes :
  boxes !! p = Some b -> owners boxes = {[+ ci_id (box_inner b) +]} ⊎ owners (delete p boxes).
Proof. intros Hp. rewrite <- (owners_insert p) by apply lookup_delete_eq. by rewrite insert_delete_id. Qed.

Lemma owners_update p b b' boxes :
  boxes !! p = Some b -> box_inner b' = box_inner b -> owners (<[p := b']> boxes) = owners boxes.
Proof.
  intros Hp Hi. rewrite (owners_delete p b' (<[p := b']> boxes)) by apply lookup_insert_eq.
  by rewrite delete_insert_eq, Hi, <- owners_delete.
Qed.

Lemma elem_of_owners a boxes : a ∈ owners boxes <-> exists p b, boxes !! p = Some b /\ ci_id (box_inner b) = a.
Proof.
  induction boxes as [|p b boxes Hp IH] using map_ind; [unfold owners; rewrite map_fold_empty|rewrite owners_insert by done].
  - split; [multiset_solver|]. intros (p & b & Hb & _). by rewrite lookup_empty in Hb.
  - rewrite gmultiset_elem_of_disj_union, gmultiset_elem_of_singleton, IH. split.
    + intros [->|(q & c & Hc & <-)]; [exists p, b; by rewrite lookup_insert_eq|].
      exists q, c. by rewrite lookup_insert_ne by congruence.
    + intros (q & c & [[-> ->]|[_ Hc]]%lookup_insert_Some & <-); eauto.
Qed.

Lemma empty_heap_ok : heap_ok empty_heap.
Proof. by split; intros; cbn in *; simplify_map_eq. Qed.

(** The three ways in which a heap changes. *)
Lemma box_new_ok p b heap :
  heap_ok heap -> p <> 0 -> hp_boxes heap !! p = None -> box_ok b ->
  (forall q c, hp_boxes heap !! q = Some c -> ci_id (box_inner c) = ci_id (box_inner b) -> box_inner c = box_inner b) ->
  heap_ok (box_new p b heap).
Proof.
  intros Hok Hp0 Hp Hb Hin. split; cbn.
  - rewrite lookup_insert_ne by done. apply Hok.
  - rewrite owners_insert by done. by rewrite (ok_arcs _ Hok).
  - intros q r c d [[<- <-]|[_ Hc]]%lookup_insert_Some [[<- <-]|[_ Hd]]%lookup_insert_Some He; [done| | |by eapply Hok].
    + symmetry. by eapply Hin.
    + by eapply Hin.
  - intros q c [[<- <-]|[_ Hc]]%lookup_insert_Some; [done|by eapply Hok].
Qed.

Lemma box_drop_ok p b heap : heap_ok heap -> hp_boxes heap !! p = Some b -> heap_ok (box_drop p b heap).
Proof.
  intros Hok Hp. split; cbn.
  - rewrite lookup_delete_None. right. apply Hok.
  - rewrite (ok_arcs _ Hok), (owners_delete p b) by done. multiset_solver.
  - intros q r c d [_ Hc]%lookup_delete_Some [_ Hd]%lookup_delete_Some. by eapply Hok.
  - intros q c [_ Hc]%lookup_delete_Some. by eapply Hok.
Qed.

Lemma box_update_ok p b b' heap :
  heap_ok heap -> hp_boxes heap !! p = Some b -> box_inner b' = box_inner b -> box_ok b' -> heap_ok (box_update p b' heap).
Proof.
  intros Hok Hp Hi Hb. split; cbn.
  - rewrite lookup_insert_None. split; [apply Hok|]. intros ->. by rewrite (ok_null _ Hok) in Hp.
  - by rewrite (owners_update p b), (ok_arcs _ Hok).
  - intros q r c d [[<- <-]|[_ Hc]]%lookup_insert_Some [[<- <-]|[_ Hd]]%lookup_insert_Some; rewrite ?Hi; by eapply Hok.
  - intros q c [[<- <-]|[_ Hc]]%lookup_insert_Some; [done|by eapply Hok].
Qed.

(** ** What a call does to the heap *)

(** The handle that a call may change or release. *)
Definition call_target (call : CCall) : Z :=
  match call with
  | CContextOpen _ _ | CProviderRegister _ _ _ _ | CBuilderNew _ _ _ | CMaterialize _ _ _ _ => 0
  | CContextClose p | CProviderUnregister p | CAddDir p _ _ _ | CAddFile p _ _ _ | CCommit p _ _ | CBuilderFree p => p
  end.

(** Whether a call makes the box. *)
Definition made_by (call : CCall) (b : Box) : Prop :=
  match call, b with
  | CContextOpen _ _, BoxContext _ | CProviderRegister _ _ _ _, BoxProvider _ | CBuilderNew _ _ _, BoxBuilder _ => True
  | _, _ => False
  end.

Definition creates (call : CCall) : bool :=
  match call with CContextOpen _ _ | CProviderRegister _ _ _ _ | CBuilderNew _ _ _ => true | _ => false end.

Definition releases (call : CCall) : bool :=
  match call with CContextClose _ | CProviderUnregister _ | CBuilderFree _ => true | _ => false end.

Inductive effect (env : CallEnv) (heap : Heap) (call : CCall) (o : Outcome) : Prop :=
| effect_new b :
    made_by call b -> box_ok b -> oc_heap o = box_new (en_box env) b heap -> oc_handle o = en_box env ->
    oc_status o = FP_OK ->
    (ci_id (box_inner b) = en_arc env \/ exists q c, hp_boxes heap !! q = Some c /\ box_inner c = box_inner b) ->
    effect env heap call o
| effect_none :
    oc_heap o = heap -> oc_handle o = 0 -> (creates call = true -> oc_status o <> FP_OK) ->
    (releases call = true -> call_target call = 0) -> effect env heap call o
| effect_drop b :
    releases call = true -> hp_boxes heap !! call_target call = Some b -> oc_heap o = box_drop (call_target call) b heap ->
    oc_handle o = 0 -> effect env heap call o
| effect_update b b' :
    creates call = false -> releases call = false ->
    hp_boxes heap !! call_target call = Some (BoxBuilder b) ->
    oc_heap o = box_update (call_target call) (BoxBuilder b') heap -> oc_handle o = 0 ->
    fb_inner b' = fb_inner b -> fb_provider_owner_token b' = fb_provider_owner_token b ->
    (box_ok (BoxBuilder b) -> box_ok (BoxBuilder b')) -> effect env heap call o.

(** ** Failures are never reported as success *)

Definition refused {A} (a : Action A) : Prop := a <> Err (Failed FP_OK).

Lemma refused_bind {A B} (m : Action A) (k : A -> Action B) :
  refused m -> (forall a, refused (k a)) -> refused (m ≫= k).
Proof. unfold refused. destruct m as [a|e]; cbn; [auto|]. intros H _ [= ->]. by apply H. Qed.

Lemma refused_cast {A B} stop : refused (Err stop : Action A) -> refused (Err stop : Action B).
Proof. unfold refused. congruence. Qed.

Lemma refused_fail_io {A} (r : IoResult A) : refused (fail_io r).
Proof. destruct r as [a|e]; [done|]. unfold refused. cbn. intros [= H]. by apply io_kind_to_ffi_error in H. Qed.

Lemma refused_fail_status {A} (r : Result A) : r <> Err StatusOk -> refused (fail_status r).
Proof. destruct r as [a|e]; [done|]. unfold refused. by destruct e. Qed.

Lemma refused_load mem p offset n : refused (load mem p offset n).
Proof. unfold load, refused. by repeat case_match. Qed.

Lemma refused_cstr mem p : refused (cstr_to_str mem p).
Proof.
  unfold cstr_to_str. case_match; [done|]. apply refused_bind.
  - unfold CStr_from_ptr. case_match; [|done]. by destruct (until_nul _).
  - intros s. by destruct (to_str s).
Qed.

Lemma validate_runtime_dir_error host dir : validate_runtime_dir_path host dir <> Err StatusOk.
Proof. unfold validate_runtime_dir_path. case_match; [done|]. destruct (ho_metadata host dir); cbn; [|done]. by repeat case_match. Qed.

Lemma default_paths_error host :
  default_mount_path host <> Err StatusOk /\ default_control_socket_path host <> Err StatusOk.
Proof.
  unfold default_mount_path, default_control_socket_path. destruct (ho_xdg_runtime_dir host) as [dir|]; [|done].
  pose proof (validate_runtime_dir_error host dir). destruct (validate_runtime_dir_path host dir); cbn; [done|].
  split; congruence.
Qed.

Lemma refused_default_paths host : refused (default_runtime_paths host).
Proof.
  destruct (default_paths_error host). apply refused_bind; [by apply refused_fail_status|]. intros m.
  apply refused_bind; [by apply refused_fail_status|done].
Qed.

Lemma refused_runtime_paths mem host p : refused (runtime_paths_from_options mem host p).
Proof.
  unfold runtime_paths_from_options. case_match; [apply refused_default_paths|].
  apply refused_bind; [apply refused_load|intros size]. case_match; [done|].
  apply refused_bind; [apply refused_load|intros version]. case_match; [done|].
  apply refused_bind; [apply refused_load|intros dir]. case_match; [apply refused_default_paths|].
  apply refused_bind; [apply refused_cstr|intros d].
  apply refused_bind; [apply refused_fail_status, validate_runtime_dir_error|done].
Qed.

(** A guarded failure. *)
Lemma guard_refused {A} (stop : Stop) status :
  refused (Err stop : Action A) -> ffi_guard (Err stop) = Some status -> status <> FP_OK.
Proof. unfold refused. destruct stop as [st| |]; cbn; [|by intros _ [= <-]|done]. intros H [= <-] ->. by apply H. Qed.

Section calls.
Context `{!Bincode Request, !Bincode Response}.

(** What registering gives. *)
Lemma register_action_spec mem host env context ops user_data s s' r :
  register_action mem host env context ops user_data s = (s', r) ->
  refused r /\ forall p, r = Ok p -> fv_inner p = fc_inner context /\ box_ok (BoxProvider p).
Proof.
  unfold register_action. pose proof (refused_load mem ops 0 4) as Hl. unfold load_u32.
  destruct (load mem ops 0 4) as [size|stop]; [|intros [= <- <-]; by split; [apply (refused_cast stop Hl)|]].
  case_match; [by intros [= <- <-]|].
  pose proof (refused_load mem ops 8 8) as Hr. change (ops_read mem ops) with (load mem ops 8 8).
  destruct (load mem ops 8 8) as [read|stop]; [|intros [= <- <-]; by split; [apply (refused_cast stop Hr)|]].
  case_match eqn:Hread; [by intros [= <- <-]|].
  destruct (connect_provider _ _ s) as [s1 r1]. intros [= <- <-]. split.
  - apply refused_bind; [apply refused_fail_io|intros connection].
    apply refused_bind; [by destruct (ProviderId_from_raw _)|intros id].
    apply refused_bind; [|done]. unfold spawn_provider_helper. apply refused_bind; [apply refused_fail_io|intros _].
    case_match; [done|]. apply refused_bind; [by destruct (se_spawn env)|done].
  - intros p (connection & _ & (id & Hid & (helper & _ & [= <-])%bind_Ok)%bind_Ok)%bind_Ok. split; [done|]. split; [by eexists|].
    cbn. unfold ProviderId_from_raw in Hid. by destruct (Z.eqb_spec (pc_provider_id connection) 0); cbn in Hid; simplify_eq.
Qed.

(** Addresses that the code may use. *)
Lemma as_context_Some heap p c : as_context heap p = Some (Some c) -> hp_boxes heap !! p = Some (BoxContext c).
Proof. unfold as_context. repeat case_match; congruence. Qed.

Lemma as_provider_Some heap p c : as_provider heap p = Some (Some c) -> hp_boxes heap !! p = Some (BoxProvider c).
Proof. unfold as_provider. repeat case_match; congruence. Qed.

Lemma as_builder_Some heap p c : as_builder heap p = Some (Some c) -> hp_boxes heap !! p = Some (BoxBuilder c).
Proof. unfold as_builder. repeat case_match; congruence. Qed.

Lemma as_null heap p :
  as_context heap p = Some None \/ as_provider heap p = Some None \/ as_builder heap p = Some None -> p = 0.
Proof. unfold as_context, as_provider, as_builder. destruct (Z.eqb_spec p 0); [done|]. repeat case_match; naive_solver. Qed.

(** Calls on a builder leave it a builder of the same context and provider. *)
Definition same_handle (b b' : fp_promise_builder) : Prop :=
  fb_inner b' = fb_inner b /\ fb_provider_owner_token b' = fb_provider_owner_token b /\
  (box_ok (BoxBuilder b) -> box_ok (BoxBuilder b')).

Lemma same_handle_refl b : same_handle b b.
Proof. by split_and!. Qed.

Lemma same_handle_none b : same_handle b (set_builder None b).
Proof. by split_and!. Qed.

Lemma same_handle_add b inner rel attr pid kind :
  fb_builder b = Some inner -> same_handle b (set_builder (Some (PromiseBuilder_add_node inner rel attr pid kind).1) b).
Proof. intros Hb. split_and!; [done..|]. cbn. rewrite Hb. apply add_node_wf. Qed.

Lemma add_dir_same mem b path attr node b' status :
  fp_promise_add_dir mem (Some b) path attr node = (b', status) -> exists b1, b' = Some b1 /\ same_handle b b1.
Proof.
  unfold fp_promise_add_dir. destruct (node_arguments _ _ _ _) as [[[rel pid] a]|]; [|intros [= <- <-]; eauto using same_handle_refl].
  destruct (fb_builder b) as [inner|] eqn:Hb; [|intros [= <- <-]; eauto using same_handle_refl].
  unfold PromiseBuilder_add_dir. pose proof (same_handle_add b inner rel a pid Directory Hb) as Hs.
  destruct (PromiseBuilder_add_node _ _ _ _ _) as [inner' r]. intros [= <- <-]. eauto.
Qed.

Lemma add_file_same mem b path attr node b' status :
  fp_promise_add_file mem (Some b) path attr node = (b', status) -> exists b1, b' = Some b1 /\ same_handle b b1.
Proof.
  unfold fp_promise_add_file. destruct (node_arguments _ _ _ _) as [[[rel pid] a]|]; [|intros [= <- <-]; eauto using same_handle_refl].
  destruct (fb_builder b) as [inner|] eqn:Hb; [|intros [= <- <-]; eauto using same_handle_refl].
  unfold PromiseBuilder_add_file. pose proof (same_handle_add b inner rel a pid File Hb) as Hs.
  destruct (PromiseBuilder_add_node _ _ _ _ _) as [inner' r]. intros [= <- <-]. eauto.
Qed.

Lemma commit_same host b out n s s' b' out' status :
  fp_promise_commit host (Some b) out n s = (s', b', out', status) -> exists b1, b' = Some b1 /\ same_handle b b1.
Proof.
  unfold fp_promise_commit. destruct out as [buffer|]; [|intros [= <- <- <- <-]; eauto using same_handle_refl].
  destruct (n =? 0); [intros [= <- <- <- <-]; eauto using same_handle_refl|].
  destruct (commit_action host b buffer n s) as [[[s1 b1] buffer1] r] eqn:Hc. intros [= <- <- <- <-]. exists b1. split; [done|].
  revert Hc. unfold commit_action. case_match; [intros [= _ <- _ _]; apply same_handle_refl|].
  case_match; [intros [= _ <- _ _]; apply same_handle_refl|].
  destruct (fb_builder b) as [inner|]; [|intros [= _ <- _ _]; apply same_handle_refl].
  destruct (commit_promise _ _ _ s) as [s2 r2]. destruct (fail_io r2) as [response|]; [|intros [= _ <- _ _]; apply same_handle_refl].
  destruct (write_c_string _ _ _); intros [= _ <- _ _]; [apply same_handle_none|apply same_handle_refl].
Qed.

(** A function finds its output empty or writes null to it first. *)
Lemma out_handle_empty {A} mem p written (slot : option (option A)) :
  out_handle mem p written = Some slot -> mjoin slot = None.
Proof. unfold out_handle. repeat case_match; intros [= <-]; done. Qed.

Lemma update_effect env heap call o p (b : option fp_promise_builder) (b' : option fp_promise_builder) :
  creates call = false -> releases call = false -> call_target call = p -> as_builder heap p = Some b ->
  match b with Some b => exists b1, b' = Some b1 /\ same_handle b b1 | None => b' = None end ->
  oc_heap o = update_builder p b' heap -> oc_handle o = 0 -> effect env heap call o.
Proof.
  intros Hc Hr <- Hb Hs Ho Hh. destruct b as [b|].
  - apply as_builder_Some in Hb. destruct Hs as (b1 & -> & H1 & H2 & H3). by eapply effect_update.
  - subst b'. apply effect_none; [done..|congruence|congruence].
Qed.

Lemma publish_effect env heap call o (b : option Box) s status :
  creates call = true -> releases call = false -> o = publish (en_box env) b heap s status ->
  match b with
  | Some b => status = FP_OK /\ made_by call b /\ box_ok b /\
      (ci_id (box_inner b) = en_arc env \/ exists q c, hp_boxes heap !! q = Some c /\ box_inner c = box_inner b)
  | None => status <> FP_OK
  end -> effect env heap call o.
Proof.
  intros Hc Hr -> Hb. destruct b as [b|].
  - destruct Hb as (-> & H1 & H2 & H3). by eapply effect_new.
  - apply effect_none; [done..|congruence].
Qed.

Lemma c_call_effect mem host env heap call o :
  c_call mem host env heap call = Some o -> effect env heap call o.
Proof.
  intros H. destruct call as [options op|p|context ops ud op|p|context provider op|p path attr node|p path attr node|p out n|p|p path dir options];
    cbn [c_call] in H.
  - apply bind_Some in H as (slot & Hslot & H). destruct (fp_context_open _ _ _ _ _) as [out status] eqn:Ho.
    apply bind_Some in H as (st & -> & [= <-]).
    eapply publish_effect; [done..|]. unfold fp_context_open in Ho. destruct slot as [slot|]; [|by injection Ho as <- <-].
    pose proof (refused_runtime_paths mem host options) as Hf.
    destruct (runtime_paths_from_options _ _ _) as [paths|stop]; injection Ho as <- Hst.
    + subst st. cbn. by auto.
    + by eapply guard_refused.
  - apply bind_Some in H as (heap' & (c & Hc & [= <-])%bind_Some & [= <-]). destruct c as [c|].
    + by eapply effect_drop; [|by apply as_context_Some| |].
    + apply effect_none; [done..|]. intros _. eapply as_null; eauto.
  - apply bind_Some in H as (c & Hc & (slot & Hslot%out_handle_empty & H)%bind_Some).
    destruct (fp_provider_register _ _ _ _ _ _ _ _) as [[s' out] status] eqn:Ho.
    apply bind_Some in H as (st & -> & [= <-]). eapply publish_effect; [done..|]. unfold fp_provider_register in Ho.
    destruct c as [c|]; [|injection Ho as _ <- <-; by rewrite Hslot].
    destruct slot as [slot|]; [|by injection Ho as _ <- <-]. case_match; [injection Ho as _ <- <-; by rewrite Hslot|].
    destruct (register_action _ _ _ _ _ _ _) as [s1 r] eqn:Hr. apply register_action_spec in Hr as [Hf Hok].
    apply as_context_Some in Hc. destruct r as [p|stop]; injection Ho as _ <- Hst.
    + subst st. destruct (Hok p eq_refl) as [Hi Hb]. split; [done|split; [done|split; [exact Hb|]]].
      right. exists context, (BoxContext c). by split.
    + by eapply guard_refused.
  - apply bind_Some in H as ([heap' s'] & (c & Hc & [= <- <-])%bind_Some & [= <-]). destruct c as [c|].
    + by eapply effect_drop; [|by apply as_provider_Some| |].
    + apply effect_none; [done..|]. intros _. eapply as_null; eauto.
  - apply bind_Some in H as (c & Hc & (p & Hp & (slot & Hslot%out_handle_empty & H)%bind_Some)%bind_Some).
    destruct (fp_promise_builder_new _ _ _) as [out status] eqn:Ho. apply bind_Some in H as (st & -> & [= <-]).
    eapply publish_effect; [done..|]. unfold fp_promise_builder_new in Ho.
    destruct c as [c|]; [|injection Ho as <- <-; by rewrite Hslot]. destruct p as [p|]; [|injection Ho as <- <-; by rewrite Hslot].
    destruct slot as [slot|]; [|by injection Ho as <- <-].
    apply as_context_Some in Hc. case_match; injection Ho as <- <-; cbn; [done|].
    split; [done|split; [done|split; [apply builder_new_wf|eauto]]].
  - apply bind_Some in H as (b & Hb & H). destruct (fp_promise_add_dir _ _ _ _ _) as [b' status] eqn:Hd.
    apply bind_Some in H as (st & -> & [= <-]). eapply update_effect; [done|done|done|exact Hb| |done|done].
    destruct b as [b|]; [by eapply add_dir_same|by injection Hd as <- _].
  - apply bind_Some in H as (b & Hb & H). destruct (fp_promise_add_file _ _ _ _ _) as [b' status] eqn:Hd.
    apply bind_Some in H as (st & -> & [= <-]). eapply update_effect; [done|done|done|exact Hb| |done|done].
    destruct b as [b|]; [by eapply add_file_same|by injection Hd as <- _].
  - apply bind_Some in H as (b & Hb & H). destruct (fp_promise_commit _ _ _ _ _) as [[[s' b'] out'] status] eqn:Hd.
    apply bind_Some in H as (st & -> & [= <-]). eapply update_effect; [done|done|done|exact Hb| |done|done].
    destruct b as [b|]; [by eapply commit_same|by injection Hd as _ <- _ _].
  - apply bind_Some in H as (heap' & (c & Hc & [= <-])%bind_Some & [= <-]). destruct c as [c|].
    + by eapply effect_drop; [|by apply as_builder_Some| |].
    + apply effect_none; [done..|]. intros _. eapply as_null; eauto.
  - apply bind_Some in H as (c & Hc & ([[s' n] status] & _ & H)%bind_Some). apply bind_Some in H as (st & _ & [= <-]).
    by apply effect_none.
Qed.
End calls.

(** ** Sessions *)

(** The heaps that a C program can reach, whatever its calls, its memory, the
    host and the allocator. *)
Inductive session `{!Bincode Request, !Bincode Response} : Heap -> Prop :=
| session_start : session empty_heap
| session_call mem host env heap call o :
    session heap -> fresh_env env heap -> c_call mem host env heap call = Some o -> session (oc_heap o).

Lemma effect_ok env heap call o : heap_ok heap -> fresh_env env heap -> effect env heap call o -> heap_ok (oc_heap o).
Proof.
  intros Hok (Hp0 & Hp & Ha) He. destruct He as [b Hm Hb -> _ _ Hi| -> _ _ _|b _ Hb -> _|b b' _ _ Hb -> _ Hi _ Hbok].
  - apply box_new_ok; [done..|]. intros q c Hc Heq. destruct Hi as [Hi|(r & d & Hd & Hi)].
    + destruct Ha. rewrite (ok_arcs _ Hok), elem_of_owners. exists q, c. by rewrite Heq.
    + rewrite <- Hi. eapply ok_shared; [done..|congruence].
  - done.
  - by apply box_drop_ok.
  - eapply box_update_ok; [done..|]. apply Hbok. by eapply (ok_box _ Hok).
Qed.

Lemma session_ok `{!Bincode Request, !Bincode Response} heap : session heap -> heap_ok heap.
Proof.
  induction 1 as [|mem host env heap call o _ IH Hf Hc]; [apply empty_heap_ok|].
  eapply effect_ok; [done..|]. by eapply c_call_effect.
Qed.

(** What a caller sees of an effect. *)
Lemma effect_seen env heap call o :
  heap_ok heap -> fresh_env env heap -> effect env heap call o ->
  (creates call = true -> (oc_status o = FP_OK <-> oc_handle o <> 0)) /\
  (oc_handle o <> 0 -> hp_boxes heap !! oc_handle o = None /\
     exists b, made_by call b /\ hp_boxes (oc_heap o) !! oc_handle o = Some b) /\
  (releases call = true -> hp_boxes (oc_heap o) !! call_target call = None) /\
  (forall p, p <> call_target call -> p <> oc_handle o -> hp_boxes (oc_heap o) !! p = hp_boxes heap !! p).
Proof.
  intros Hok (Hp0 & Hp & _) [b Hm Hb -> -> -> _| -> -> Hc Hr|b Hr Hb -> ->|b b' Hc Hr Hb -> -> _ _ _].
  - split_and!; [done| | |].
    + intros _. split; [done|]. exists b. split; [done|apply lookup_insert_eq].
    + by destruct call, b.
    + intros p _ Hne. by apply lookup_insert_ne.
  - split_and!; [by intros ?%Hc|done| |done]. intros ->%Hr. apply Hok.
  - split_and!; [by destruct call|done|intros _; apply lookup_delete_eq|]. intros p Hne _. by apply lookup_delete_ne.
  - split_and!; [by rewrite Hc|done|by rewrite Hr|]. intros p Hne _. by apply lookup_insert_ne.
Qed.

(** ** Faults *)

Lemma guard_total a : no_fault a -> is_Some (ffi_guard a).
Proof. destruct a as [st|[st| |]]; cbn; eauto. intros H. by destruct H. Qed.

(** Pointers to structures and strings that a caller may pass. *)
Definition struct_or_null (mem : CMemory) (p : Z) : Prop := sized_struct mem p \/ p = 0.
Definition string_or_null (mem : CMemory) (p : Z) : Prop := c_string mem p \/ p = 0.

(** Where a function may write a handle. *)
Definition pointer_or_null (mem : CMemory) (p : Z) : Prop :=
  p = 0 \/ exists bytes, cm_bytes mem p = Some bytes /\ size_of c_pointer <= len bytes.

(** Arguments that respect the header's contract: handles are null or live and
    of the right type, pointers are null or valid. *)
Definition call_valid (mem : CMemory) (heap : Heap) (call : CCall) : Prop :=
  match call with
  | CContextOpen options out_context =>
      pointer_or_null mem out_context /\ struct_or_null mem options /\
      forall dir, load_pointer mem options 8 = Ok dir -> string_or_null mem dir
  | CContextClose context => is_Some (as_context heap context)
  | CProviderRegister context ops _ out_provider =>
      is_Some (as_context heap context) /\ pointer_or_null mem out_provider /\ struct_or_null mem ops
  | CProviderUnregister provider => is_Some (as_provider heap provider)
  | CBuilderNew context provider out_builder =>
      is_Some (as_context heap context) /\ is_Some (as_provider heap provider) /\ pointer_or_null mem out_builder
  | CAddDir builder path attr node | CAddFile builder path attr node =>
      is_Some (as_builder heap builder) /\ string_or_null mem path /\ struct_or_null mem attr /\ string_or_null mem node
  | CCommit builder out_path out_path_len =>
      is_Some (as_builder heap builder) /\ match out_path with Some buffer => 0 <= out_path_len <= len buffer | None => True end
  | CBuilderFree builder => is_Some (as_builder heap builder)
  | CMaterialize context promise_path target_dir options =>
      is_Some (as_context heap context) /\ string_or_null mem promise_path /\ string_or_null mem target_dir /\
      struct_or_null mem options
  end.

Lemma no_fault_paths mem host p :
  struct_or_null mem p -> (forall dir, load_pointer mem p 8 = Ok dir -> string_or_null mem dir) ->
  no_fault (runtime_paths_from_options mem host p).
Proof.
  intros [(bytes & Hb & H4 & Hs)| ->] Hd; [by eapply no_fault_runtime_paths|apply no_fault_default_paths].
Qed.

Lemma no_fault_node_arguments mem path attr node :
  string_or_null mem path -> struct_or_null mem attr -> string_or_null mem node ->
  no_fault (node_arguments mem path attr node).
Proof.
  intros Hp Ha Hn. apply no_fault_bind; [by apply no_fault_cstr|intros rel _].
  apply no_fault_bind; [by apply no_fault_cstr|intros id _]. apply no_fault_bind; [|done].
  destruct Ha as [(bytes & Hb & H4 & Hs)| ->]; [by eapply no_fault_node_attr|done].
Qed.

Lemma no_fault_materialize_arguments mem host path dir options :
  string_or_null mem path -> string_or_null mem dir -> struct_or_null mem options ->
  no_fault (materialize_arguments mem host path dir options).
Proof.
  intros Hp Hd Ho. apply no_fault_bind; [by apply no_fault_cstr|intros p1 _].
  apply no_fault_bind; [apply no_fault_fail_io|intros p2 _]. apply no_fault_bind; [by apply no_fault_cstr|intros d1 _].
  apply no_fault_bind.
  { apply no_fault_bind; [case_match; [done|]|intros p3 _].
    - by destruct (ho_current_dir host).
    - apply no_fault_bind; [apply no_fault_fail_io|intros md _]. by case_match. }
  intros d2 _. apply no_fault_bind; [|done].
  destruct Ho as [(bytes & Hb & H4 & Hs)| ->]; [by eapply no_fault_materialize_options|done].
Qed.

Lemma out_handle_total {A} mem p written : pointer_or_null mem p -> is_Some (out_handle (A := A) mem p written).
Proof.
  unfold out_handle. intros [->|(bytes & Hb & Hl)]; [by eexists|]. rewrite Hb, (proj2 (Z.leb_le _ _) Hl). repeat case_match; by eexists.
Qed.

Section no_fault.
Context `{!Bincode Request, !Bincode Response}.

Lemma no_fault_spawn env connection read user_data : no_fault (spawn_provider_helper env connection read user_data).
Proof.
  apply no_fault_bind; [apply no_fault_fail_io|intros _ _]. case_match; [done|].
  apply no_fault_bind; [by destruct (se_spawn env)|done].
Qed.

Lemma no_fault_register mem host env context ops user_data s :
  sized_struct mem ops -> no_fault (register_action mem host env context ops user_data s).2.
Proof.
  intros (bytes & Hb & H4 & Hs). unfold register_action.
  destruct (load_u32 mem ops 0) as [size|stop] eqn:Hsize; [|by rewrite (load_struct_size mem ops bytes) in Hsize].
  destruct (Z.ltb_spec size required_provider_ops_size) as [|Hreq]; [done|].
  pose proof (no_fault_ops_read mem ops bytes Hb H4 Hs size Hsize Hreq) as Hr.
  destruct (ops_read mem ops) as [read|stop]; [|intros [= ->]; by apply Hr]. case_match; [done|].
  destruct (connect_provider _ _ s) as [s1 r]. cbn.
  apply no_fault_bind; [apply no_fault_fail_io|intros connection _].
  apply no_fault_bind; [by destruct (ProviderId_from_raw _)|intros id _].
  apply no_fault_bind; [apply no_fault_spawn|done].
Qed.

(** A call whose status is known has an outcome. *)
Lemma outcome_total {B} (status : option Z) (k : Z -> B) : is_Some status -> is_Some (status ≫= fun st => Some (k st)).
Proof. intros [st ->]. by eexists. Qed.

Lemma status_of_error {A} (stop : Stop) : no_fault (Err stop : Action A) -> is_Some (ffi_guard (Err stop)).
Proof. destruct stop; cbn; eauto. intros H. by destruct H. Qed.

Lemma add_status (r : Result ()) : is_Some (ffi_guard ((fun _ => FP_OK) <$> fail_status r)).
Proof. destruct r; by eexists. Qed.

Lemma c_call_total mem host env heap call :
  call_valid mem heap call -> is_Some (c_call mem host env heap call).
Proof.
  destruct call as [options op|p|context ops ud op|p|context provider op|p path attr node|p path attr node|p out n|p|p path dir options]; cbn [c_call call_valid].
  - intros ([slot Hop]%(out_handle_total mem op true (A := fp_context)) & Ho & Hd). rewrite Hop. cbn.
    destruct slot; [|by eexists]. cbn. pose proof (no_fault_paths mem host options Ho Hd) as Hn.
    destruct (runtime_paths_from_options _ _ _) as [paths|stop]; [by eexists|]. apply outcome_total.
    by eapply status_of_error.
  - intros [c Hc]. unfold fp_context_close. rewrite Hc. by eexists.
  - intros ([c Hc] & Hop & Ho). rewrite Hc. cbn.
    destruct (out_handle_total (A := fp_provider) mem op (negb (context =? 0) && negb (ops =? 0)) Hop) as [slot ->]. cbn.
    destruct c as [c|], slot as [slot|]; cbn; try by eexists.
    destruct (Z.eqb_spec ops 0); [by eexists|]. destruct Ho as [Ho|]; [|done].
    pose proof (no_fault_register mem host (en_spawn env) c ops ud (en_stream env) Ho) as Hn.
    destruct (register_action _ _ _ _ _ _ _) as [s1 [p|stop]]; [by eexists|]. apply outcome_total. by eapply status_of_error.
  - intros [c Hc]. unfold provider_release. rewrite Hc. by eexists.
  - intros ([c Hc] & [p Hp] & Hop). rewrite Hc. cbn. rewrite Hp. cbn.
    destruct (out_handle_total (A := fp_promise_builder) mem op (negb (context =? 0) && negb (provider =? 0)) Hop) as [slot ->]. cbn.
    destruct c, p, slot; cbn; try by eexists. destruct (ci_id _ =? ci_id _); by eexists.
  - intros ([b Hb] & Hpath & Ha & Hnode). rewrite Hb. cbn. destruct b as [b|]; [|by eexists]. cbn.
    pose proof (no_fault_node_arguments mem path attr node Hpath Ha Hnode) as Hn.
    destruct (node_arguments _ _ _ _) as [[[rel id] a]|stop]; [|apply outcome_total; by eapply status_of_error].
    destruct (fb_builder b); [|by eexists]. destruct (PromiseBuilder_add_dir _ _ _ _). apply outcome_total, add_status.
  - intros ([b Hb] & Hpath & Ha & Hnode). rewrite Hb. cbn. destruct b as [b|]; [|by eexists]. cbn.
    pose proof (no_fault_node_arguments mem path attr node Hpath Ha Hnode) as Hn.
    destruct (node_arguments _ _ _ _) as [[[rel id] a]|stop]; [|apply outcome_total; by eapply status_of_error].
    destruct (fb_builder b); [|by eexists]. destruct (PromiseBuilder_add_file _ _ _ _). apply outcome_total, add_status.
  - intros [[b Hb] Ho]. rewrite Hb. cbn. destruct b as [b|]; [|by eexists]. destruct out as [buffer|]; [|by eexists].
    pose proof (commit_outcome host b buffer n (en_stream env) Ho) as Hc.
    destruct (fp_promise_commit _ _ _ _ _) as [[[s1 b1] out1] st]. apply outcome_total.
    destruct Hc as (? & ? & ? & _ & _ & -> & _). by eexists.
  - intros [c Hc]. unfold fp_promise_builder_free. rewrite Hc. by eexists.
  - intros ([c Hc] & Hp & Hd & Ho). rewrite Hc. cbn. destruct c as [c|]; [|by eexists]. cbn.
    pose proof (no_fault_materialize_arguments mem host path dir options Hp Hd Ho) as Hn.
    destruct (materialize_arguments _ _ _ _ _) as [[request o]|stop]; [|cbn; apply outcome_total; by eapply status_of_error].
    match goal with |- context [materialize_file_with_progress ?w ?f ?n ?h ?sp ?q ?s ?u] =>
      destruct (materialize_with_progress_total w f n h sp q s u ltac:(lia)) as [[[s' k] r] ->] end.
    cbn. destruct r; by eexists.
Qed.
End no_fault.

(** ** Properties *)

(** C12: handles keep their types.  After any sequence of calls, with whatever
    arguments, memory, daemon and allocator, every handle that is still live is
    a box of one type: a provider has its thread and a nonzero id, a builder that was not
    committed is well formed; the strong count of every shared context is the number of
    live handles that hold it, so that it is freed with the last one and not
    before; and two handles with the same [Arc] are of the same context, even
    when addresses are reused.  A further call returns a handle if and only if it returns
    [FP_OK], and then it is a new one of the right type; a released handle is
    gone; and no other handle than the one named is touched, so that builders
    and providers outlive the context they came from. *)
Theorem handles_typed `{!Bincode Request, !Bincode Response} heap :
  session heap ->
  heap_ok heap /\
  forall mem host env call o, fresh_env env heap -> c_call mem host env heap call = Some o ->
    (creates call = true -> (oc_status o = FP_OK <-> oc_handle o <> 0)) /\
    (oc_handle o <> 0 -> hp_boxes heap !! oc_handle o = None /\
       exists b, made_by call b /\ hp_boxes (oc_heap o) !! oc_handle o = Some b) /\
    (releases call = true -> hp_boxes (oc_heap o) !! call_target call = None) /\
    (forall p, p <> call_target call -> p <> oc_handle o -> hp_boxes (oc_heap o) !! p = hp_boxes heap !! p).
Proof.
  intros Hs%session_ok. split; [done|]. intros mem host env call o Hf Hc.
  eapply effect_seen; [done..|]. by eapply c_call_effect.
Qed.

(** C24: no call faults on arguments that respect the contract.  When the handles
    passed are null or live and of the right type, the strings are null or
    terminated, structures are null or as long as they say, output pointers are
    null or have room for a handle, and the output buffer has the length that is
    passed with it, every function that takes a pointer, materialization
    included, returns, and with a status if it has one, whatever the values are,
    null pointers of every kind included, and whatever the daemon and the system
    answer. *)
Theorem calls_never_fault `{!Bincode Request, !Bincode Response} mem host env heap call :
  call_valid mem heap call ->
  exists o, c_call mem host env heap call = Some o.
Proof. apply c_call_total. Qed.

(** A context at 8, opened with the defaults, and then closed. *)
Definition idle_stream : Stream := mkStream (mkReader [] None) (mkWriter [] None).

Definition sample_call_env (box arc : Z) : CallEnv := mkCallEnv box arc (mkSpawnEnv (Ok tt) (Ok tt)) idle_stream.

Definition sample_context : fp_context :=
  mkContext (mkContextInner 4 (bs "/run/user/1000/fuse-promise.sock") (bs "/run/user/1000/fuse-promise")).

Definition sample_heap : Heap := box_new 8 (BoxContext sample_context) empty_heap.

Definition sample_closed : Outcome := mkOutcome (box_drop 8 (BoxContext sample_context) sample_heap) 0 idle_stream None FP_OK.

Lemma sample_heap_reached : @session sample_requests sample_responses sample_heap.
Proof.
  apply (@session_call sample_requests sample_responses sample_memory sample_host (sample_call_env 8 4) empty_heap (CContextOpen 0 16)
    (mkOutcome sample_heap 8 idle_stream None FP_OK)); [constructor| |reflexivity].
  split_and!; [done|done|]. apply gmultiset_not_elem_of_empty.
Qed.

Lemma sample_fresh : fresh_env (sample_call_env 24 5) sample_heap.
Proof.
  split_and!; [done|done|]. change (5 ∉ ({[+ 4 +]} ⊎ ∅ : gmultiset Z)).
  rewrite gmultiset_elem_of_disj_union, gmultiset_elem_of_singleton. intros [?|H]; [lia|].
  by apply gmultiset_not_elem_of_empty in H.
Qed.

Lemma handles_typed_witness :
  @c_call sample_requests sample_responses sample_memory sample_host (sample_call_env 24 5) sample_heap (CContextClose 8) = Some sample_closed /\
  hp_boxes (oc_heap sample_closed) !! 8 = None.
Proof.
  split; [reflexivity|].
  destruct (@handles_typed sample_requests sample_responses sample_heap sample_heap_reached) as [_ H].
  apply (H sample_memory sample_host (sample_call_env 24 5) (CContextClose 8) sample_closed); [|reflexivity|reflexivity].
  exact sample_fresh.
Defined.

(** Options that end before the progress fields, and memory that does as well. *)
Lemma calls_never_fault_witness :
  let call := CMaterialize 8 96 96 16 in
  call_valid sample_memory sample_heap call /\
  exists o, @c_call sample_requests sample_responses sample_memory sample_host (sample_call_env 24 5) sample_heap call = Some o.
Proof.
  intros call. assert (Hv : call_valid sample_memory sample_heap call).
  { assert (Hs : string_or_null sample_memory 96).
    { left. exists (bs "hi" ++ [nul]). split; [reflexivity|]. apply elem_of_app. right. apply list_elem_of_singleton. reflexivity. }
    split_and!; [vm_compute; eexists; reflexivity|exact Hs|exact Hs|].
    left. eexists. split; [reflexivity|]. split; vm_compute; congruence. }
  split; [exact Hv|].
  apply (@calls_never_fault sample_requests sample_responses sample_memory sample_host (sample_call_env 24 5) sample_heap call Hv).
Defined.
