(* ===== verification/Publish.v ===== *)
(** * From a commit to a read

    The parts together: a C program that provides files commits a promise
    through the client functions; somebody opens a file of it under the mount;
    the FUSE adapter asks the provider, whose callback answers through the C
    library; the reader gets the bytes of the file, whatever other threads do in
    the meantime that does not concern this read or its provider's connection. *)

From S2P Require Import Prelude Types Paths Cache Tree Runtime ReadPlan Content Messages Frame Commit Mount IpcState Routing Router Report Server Effect Host Client ClientServer FuseAdapter FuseNamespace Ffi FfiProps.

(** ** Resolving a path under the mount *)

(** What the kernel does with a path: one lookup per name. *)
Fixpoint fuse_walk (s : IpcState) (uid gid ino : Z) (names : list str) : result Errno FileAttr :=
  match names with
  | [] => fuse_getattr s uid gid ino
  | name :: names =>
      attr ← fuse_lookup s uid gid ino name;
      fuse_walk s uid gid (fa_ino attr) names
  end.

Section walk.
Context (s : IpcState) (uid gid : Z) (pid : str) (t : PromiseTree).
Context (Hwf : rt_wf (st_runtime s)) (Ht : rt_promises (st_runtime s) !! pid = Some t).

(** The ancestors of a node are directories. *)
Lemma ancestor_node ps qs m :
  Forall safe_component (ps ++ qs) -> pt_nodes t !! join_slash (ps ++ qs) = Some m ->
  exists n, pt_nodes t !! join_slash ps = Some n /\ (qs <> [] -> pn_kind n = Directory).
Proof.
  destruct (rw_tree _ Hwf _ _ Ht) as [Htw _].
  revert m. induction qs as [|q qs IH] using rev_ind; intros m Hs Hm.
  { rewrite app_nil_r in Hm. exists m. by split. }
  rewrite app_assoc in Hs, Hm. apply Forall_app in Hs as [Hs Hq]. rewrite Forall_singleton in Hq.
  destruct (twf_parent _ _ Htw _ _ Hm) as (n & Hn & Hk).
  { intros He%join_slash_nil; [by destruct (ps ++ qs)|apply Forall_app; by rewrite Forall_singleton]. }
  rewrite parent_path_snoc in Hn by auto with fp. destruct qs as [|q' qs].
  - rewrite app_nil_r in Hn. eauto.
  - destruct (IH n Hs Hn) as (n' & Hn' & Hk'). exists n'. split; [done|]. intros _. by apply Hk'.
Qed.

Lemma walk_below ps qs n m :
  Forall safe_component (ps ++ qs) -> Forall (fun q => utf8_valid q = true) qs ->
  pt_nodes t !! join_slash ps = Some n -> pt_nodes t !! join_slash (ps ++ qs) = Some m ->
  fuse_walk s uid gid (pn_inode n) qs = Ok (node_attr m uid gid).
Proof.
  revert ps n. induction qs as [|q qs IH]; intros ps n Hs Hu Hn Hm.
  - rewrite app_nil_r in Hm. rewrite Hn in Hm. injection Hm as ->. cbn. unfold fuse_getattr.
    by rewrite (lookup_inode_node (st_runtime s) pid t (join_slash ps) m).
  - rewrite cons_middle, app_assoc in Hs, Hm. destruct (ancestor_node (ps ++ [q]) qs m Hs Hm) as (c & Hc & _).
    pose proof Hs as [[Hps Hq]%Forall_app _]%Forall_app. rewrite Forall_singleton in Hq. apply Forall_cons in Hu as [Hu Hus].
    destruct (ancestor_node ps [q] c) as (n' & Hn' & Hk); [by apply Forall_app; rewrite Forall_singleton|done|].
    rewrite Hn in Hn'. injection Hn' as <-. cbn [fuse_walk]. unfold fuse_lookup, to_str. rewrite Hu.
    assert (Hl : Runtime_lookup_child (st_runtime s) (pn_inode n) q = Ok (PromiseNodeEntry pid c)).
    { apply (lookup_child_node (st_runtime s) pid t (join_slash ps) n); [done..|by apply Hk|].
      exists c. rewrite child_path_join by done. by split_and!. }
    rewrite Hl. cbn. by apply (IH (ps ++ [q])).
Qed.

(** A path of the promise, from the root of the mount. *)
Lemma walk_node parts m :
  Forall safe_component parts -> Forall (fun q => utf8_valid q = true) parts ->
  pt_nodes t !! join_slash parts = Some m ->
  fuse_walk s uid gid FUSE_ROOT_INODE (pid :: parts) = Ok (node_attr m uid gid).
Proof.
  intros Hs Hu Hm. destruct (ancestor_node [] parts m Hs Hm) as (n & Hn & _).
  destruct (rw_promises _ Hwf _ _ Ht) as [_ (k & Hk & _)].
  cbn [fuse_walk]. unfold fuse_lookup, to_str. rewrite Hk, utf8_valid_ascii, <- Hk by apply promise_name_ascii.
  assert (Hl : Runtime_lookup_child (st_runtime s) FUSE_ROOT_INODE pid = Ok (PromiseNodeEntry pid n))
    by (apply lookup_child_root; eauto).
  rewrite Hl. cbn. by apply (walk_below [] parts).
Qed.
End walk.

(** ** What others may do to a read *)

(** Anything but answering the read or failing it. *)
Definition spares (r : ProviderReadRequest) (op : EnvOp) : Prop :=
  match op with
  | EnvComplete _ response => rb_request_id response <> rq_request_id r
  | EnvFailReads provider_id _ => provider_id <> rq_provider_id r
  | EnvRoute _ _ _ | EnvRemoveRoute _ | EnvRuntime _ | EnvMount _ => True
  end.

(** The read is pending, alone on its channel, and nothing has been sent. *)
Record pending_alone (s : IpcState) (id : Z) (p : PendingRead) : Prop := {
  pa_pending : st_pending_reads s !! id = Some p;
  pa_channel : st_channels s !! pd_sender p = Some [];
  pa_alone : forall i q, st_pending_reads s !! i = Some q -> pd_sender q = pd_sender p -> i = id;
}.

Lemma complete_alone s id p registered response :
  pending_alone s id p -> rb_request_id response <> id -> pending_alone (complete_provider_read s registered response).1 id p.
Proof.
  intros [Hp Hc Ha] Hne. unfold complete_provider_read.
  destruct (ProviderReadResponse_from_body response) as [resp|] eqn:Hb; [|done].
  apply bind_unit_Ok in Hb as [_ [= <-]]. cbn [rs_request_id].
  destruct (st_pending_reads s !! rb_request_id response) as [q|] eqn:Hq; [|done]. cbn [fst].
  assert (Hs : pd_sender q <> pd_sender p) by (intros Hs; by apply Hne, (Ha _ q)).
  split; cbn; [by rewrite lookup_delete_ne|by rewrite lookup_insert_ne|].
  intros i q' [_ Hi]%lookup_delete_Some. by apply Ha.
Qed.

Lemma fail_reads_alone s id p provider_id kind :
  pending_alone s id p -> provider_id <> pd_provider_id p ->
  pending_alone (fail_provider_pending_reads s provider_id kind) id p.
Proof.
  intros [Hp Hc Ha] Hne. unfold fail_provider_pending_reads.
  match goal with |- pending_alone (foldl _ ?s0 ?l) _ _ =>
    change (pending_alone (deliver (Err (disconnect_error kind)) l s0) id p); set (failed := l); set (s1 := s0) end.
  destruct (deliver_fields (Err (disconnect_error kind)) failed s1) as (Hf & _). split; rewrite ?Hf.
  - cbn. by apply map_lookup_filter_Some.
  - rewrite deliver_other; [done|]. intros [i q] [Hi Hin]%list_elem_of_filter Hs. cbn in Hi, Hs.
    apply elem_of_btree_items in Hin. assert (i = id) as -> by by eapply Ha. congruence.
  - intros i q [Hi _]%map_lookup_filter_Some. by apply Ha.
Qed.

Lemma run_envs_alone s r p ops :
  pending_alone s (rq_request_id r) p -> pd_provider_id p = rq_provider_id r -> Forall (spares r) ops ->
  pending_alone (run_envs s ops) (rq_request_id r) p.
Proof.
  intros Hs Hp Hops. revert s Hs. induction Hops as [|op ops Hop Hops IH]; intros s Hs; [done|].
  change (run_envs s (op :: ops)) with (run_envs (run_env s op) ops). apply IH.
  destruct op; cbn in Hop |- *; [by apply complete_alone|apply fail_reads_alone; congruence|by destruct Hs..].
Qed.

(** ** A provider behind the C library *)

Section attached.
Context (content : CacheKey -> Z -> option byte).
Context (read : fp_provider_read_fn) (user_data : Z).
Context (others : ProviderReadRequest -> list EnvOp).

(** The provider's thread answers a request with what its callback does, and
    before the answer arrives other threads do [others] in the daemon. *)
Definition provider_answer (request : ProviderReadRequest) : ProviderReadResponse :=
  dispatch_provider_read (rq_request_id request) request read user_data.

Definition attached_env (request : ProviderReadRequest) : ReadEnv :=
  mkReadEnv (Ok tt)
    (others request ++ [EnvComplete [rq_provider_id request] (response_body (provider_answer request))]).

Definition attached : Router := routed_by attached_env.

(** A callback that has the files: it stays in its buffer, gives bytes of the
    file it is asked for, and all of them when they exist. *)
Record callback_serves : Prop := {
  cs_buffer : keeps_buffer read;
  cs_honest : forall call q r after, read call q r user_data = (Some FP_OK, after) ->
    fr_bytes_written after <= fr_buffer_len after ->
    bytes_sound content (mkCacheKey (fr_promise_id q) (fr_relative_path q)) (fr_offset q)
      (take (Z.to_nat (fr_bytes_written after)) (fr_buffer after));
  cs_complete : forall call q r, len (fr_buffer r) = fr_length q ->
    (forall i, 0 <= i < fr_length q ->
       is_Some (content (mkCacheKey (fr_promise_id q) (fr_relative_path q)) (fr_offset q + i))) ->
    exists after, read call q r user_data = (Some FP_OK, after) /\ fr_bytes_written after = fr_length q /\
      fr_length q <= fr_buffer_len after;
}.

Lemma attached_runtime_ops r : env_runtime_ops (en_meanwhile (attached_env r)) = env_runtime_ops (others r).
Proof. cbn. unfold env_runtime_ops. rewrite omap_app. cbn. by rewrite app_nil_r. Qed.

Lemma attached_ok op_ok budget :
  1 <= budget -> (forall id, op_ok (OpUnregisterProvider id)) ->
  (forall r, Forall op_ok (env_runtime_ops (others r)) /\ len (env_runtime_ops (others r)) <= budget) ->
  @RouterOk attached ipc_inv op_ok budget.
Proof. intros Hb Hu Ho. apply routed_by_ok; [done..|]. intros r. rewrite attached_runtime_ops. apply Ho. Qed.

Lemma status_from_ffi_ok returned :
  provider_read_status_from_ffi (default FP_ERR_IO returned) = PrOk -> returned = Some FP_OK.
Proof.
  unfold provider_read_status_from_ffi. destruct returned as [st|]; [|done]. cbn [default from_option id].
  case_match eqn:Hz; [by intros _; apply Z.eqb_eq in Hz; subst|]. by repeat case_match.
Qed.

Lemma from_body_same r r' : ProviderReadResponse_from_body (response_body r) = Ok r' -> r' = r.
Proof.
  unfold ProviderReadResponse_from_body, ProviderReadResponse_validated, response_body. cbn.
  intros [_ [= <-]]%bind_unit_Ok. destruct r as [i st b]. by destruct st.
Qed.

(** A successful answer is what the callback wrote. *)
Lemma provider_answer_ok r :
  rs_status (provider_answer r) = PrOk ->
  exists after,
    read (rq_request_id r)
      (mkReadRequest (rq_promise_id r) (rq_provider_node_id r) (rq_relative_path r) (rq_offset r) (rq_length r))
      (mkReadResponse (replicate (Z.to_nat (rq_length r)) nul) (len (replicate (Z.to_nat (rq_length r)) nul)) 0) user_data
      = (Some FP_OK, after) /\
    fr_bytes_written after <= fr_buffer_len after /\
    rs_bytes (provider_answer r) = take (Z.to_nat (fr_bytes_written after)) (fr_buffer after).
Proof.
  unfold provider_answer, dispatch_provider_read, CString_new. change Byte.x00 with nul.
  do 3 (case_decide; [done|]). destruct (read _ _ _ _) as [returned after].
  case_decide as Hst; [done|]. apply status_from_ffi_ok in Hst as ->.
  destruct (Z.ltb_spec (fr_buffer_len after) (fr_bytes_written after)); [done|]. intros _. eauto.
Qed.

Context (Hserves : callback_serves).

Lemma attached_honest : (forall r, Forall (spares r) (others r)) -> @provider_honest content attached.
Proof.
  intros Hspare s r s' resp Hrun (Hid & _) Hst.
  apply route_response_source in Hrun as (registered & body & Hin & Hb). cbn in Hin.
  apply elem_of_app in Hin as [Hin|Hin].
  { specialize (Hspare r). rewrite Forall_forall in Hspare. apply Hspare in Hin. cbn in Hin. destruct Hin.
    apply bind_unit_Ok in Hb as [_ [= <-]]. exact Hid. }
  apply list_elem_of_singleton in Hin as [= -> ->]. apply from_body_same in Hb as ->.
  destruct (provider_answer_ok r Hst) as (after & Hread & Hle & ->).
  apply (cs_honest Hserves _ _ _ _ Hread Hle).
Qed.

Lemma provider_answer_full r :
  request_ok r -> (nul ∉ rq_relative_path r) ->
  (forall i, 0 <= i < rq_length r ->
     is_Some (content (mkCacheKey (rq_promise_id r) (rq_relative_path r)) (rq_offset r + i))) ->
  rs_status (provider_answer r) = PrOk /\ len (rs_bytes (provider_answer r)) = rq_length r.
Proof.
  intros [Hid Hpid [_ Hp] [_ Hn] Hl Hr] Hpath Hc. unfold provider_answer, dispatch_provider_read, CString_new.
  rewrite !decide_False by done. change Byte.x00 with nul. set (buffer := replicate _ nul).
  set (q := mkReadRequest _ _ _ _ _). set (resp := mkReadResponse _ _ _).
  assert (Hbuf : len (fr_buffer resp) = rq_length r).
  { unfold resp, buffer, len. cbn. rewrite length_replicate. lia. }
  destruct (cs_complete Hserves (rq_request_id r) q resp Hbuf Hc) as (after & Hread & Hw & Hbl).
  pose proof (cs_buffer Hserves (rq_request_id r) q resp user_data) as [Hkeep _].
  rewrite Hread in *. cbn in Hkeep, Hw, Hbl |- *. destruct (Z.ltb_spec (fr_buffer_len after) (fr_bytes_written after)); [lia|].
  rewrite decide_False by (intros Hno; by apply Hno). cbn in Hbuf |- *. split; [done|].
  unfold len in *. rewrite length_take. lia.
Qed.
End attached.

(** ** A read that reaches its provider *)

Lemma next_id_unused s : ipc_inv s -> st_pending_reads s !! st_next_read_request_id s = None.
Proof.
  intros (reads & Hinv & _). destruct (st_pending_reads s !! _) as [p|] eqn:Hp; [|done].
  destruct (si_pending _ Hinv _ _ Hp) as (pc & Hpc & _ & Hreq & Hid).
  destruct (si_thread _ Hinv _ _ Hpc) as (_ & Hlt & _). cbn in Hlt, Hid. rewrite <- Hreq, <- Hid in Hlt. lia.
Qed.

(** Recording a read leaves it alone on its channel. *)
Lemma route_insert_alone s r :
  (forall i q, st_pending_reads s !! i = Some q -> is_Some (st_channels s !! pd_sender q)) ->
  pending_alone (route_insert s r (new_channel s)).1 (rq_request_id r) (mkPendingRead (rq_provider_id r) r (new_channel s)).
Proof.
  intros Hch. split; cbn; [apply lookup_insert_eq..|]. intros i q [[<- _]|[_ Hq]]%lookup_insert_Some Hs; [done|].
  apply Hch, new_channel_fresh in Hq. congruence.
Qed.

Lemma pending_channels s i q : ipc_inv s -> st_pending_reads s !! i = Some q -> is_Some (st_channels s !! pd_sender q).
Proof. intros (reads & Hinv & Hch) Hq. destruct (si_pending _ Hinv _ _ Hq) as (pc & Hpc & _). apply Hch. by eexists. Qed.

(** The answer of the connected provider is what the call returns. *)
Lemma attached_answers read user_data others s r route :
  request_ok r -> safe_path (rq_relative_path r) -> keeps_buffer read -> Forall (spares r) (others r) ->
  (forall i q, st_pending_reads s !! i = Some q -> is_Some (st_channels s !! pd_sender q)) ->
  st_provider_routes s !! rq_provider_id r = Some route -> st_pending_reads s !! rq_request_id r = None ->
  exists s', @router_read (attached read user_data others) s r = (s', Ok (provider_answer read user_data r)).
Proof.
  intros Hok Hsafe Hk Hspare Hch Hroute Hnew. unfold router_read, attached, routed_by, route_provider_read.
  assert (Hbody : ProviderReadRequest_into_body r = Ok (body_of r (rq_relative_path r))).
  { apply ProviderReadRequest_into_body_Ok; [destruct Hok; lia|]. split; [done|]. eexists. by rewrite normalize_safe_id. }
  unfold route_lookup. rewrite Hbody. cbn [mbind result_bind]. rewrite Hroute. cbn [ok_or mbind result_bind].
  pose proof (route_insert_alone s r Hch) as Halone.
  assert (Hins : (route_insert s r (new_channel s)).2 = Ok tt) by (unfold route_insert; cbn; by rewrite Hnew).
  destruct (route_insert s r (new_channel s)) as [s1 r1]. cbn [fst snd] in Halone, Hins. subst r1.
  cbn [attached_env en_write en_meanwhile]. unfold run_envs. rewrite foldl_app. cbn [foldl run_env]. fold (run_envs s1 (others r)).
  apply (run_envs_alone _ _ _ (others r)) in Halone as [Hp Hc _]; [|done..]. cbn in Hc.
  pose proof (dispatch_answers (rq_request_id r) r read user_data Hk (ro_id _ Hok)
    ltac:(destruct Hok; lia)) as Hans. fold (provider_answer read user_data r) in Hans.
  unfold complete_provider_read. rewrite (from_body_answer r) by done.
  pose proof Hans as (-> & _). rewrite Hp. cbn [pd_provider_id pd_request pd_sender fst].
  rewrite bool_decide_eq_true_2 by set_solver. rewrite (proj2 (validate_response_for_request_Ok _ _) Hans).
  unfold recv_timeout, drop_received. rewrite send_channels, decide_True by done. cbn. rewrite Hc. cbn. eauto.
Qed.

(** ** The request that a read makes *)

(** Chunks that a provider can be asked for at once. *)
Definition chunks_servable (rt : Runtime) : Prop :=
  match rt_cache_policy rt with ReadThrough cs => cs <= MAX_PROVIDER_READ_LEN | NoCache => True end.

Lemma planned_request s ino offset size pid t n s1 req ro rl :
  rt_wf (st_runtime s) -> in_u64 offset -> in_u32 size ->
  Runtime_lookup_inode (st_runtime s) ino = Ok (PromiseNodeEntry pid n) ->
  file_of (st_runtime s) pid (pn_relative_path n) t n ->
  fuse_plan_read s ino offset size = (s1, Ok (Some (FuseProvider req ro rl))) ->
  rq_request_id req = st_next_read_request_id s /\ rq_provider_id req = pt_provider_id t /\
  rq_provider_node_id req = pn_provider_node_id n /\
  (rq_length req <= size \/ exists cs, rt_cache_policy (st_runtime s) = ReadThrough cs /\ rq_length req <= cs).
Proof.
  intros Hwf Hoff Hsz Hlook Hf. pose proof Hoff as [Hoff0 _]. unfold fuse_plan_read. rewrite Hlook. cbn [map_err].
  rewrite (plan_read_file _ _ _ _ _ _ _ Hwf Hf Hoff0 Hsz). cbv zeta.
  set (L := clamp (attr_size (pn_attr n)) offset size).
  destruct (Z.eqb_spec L 0) as [|HL]; cbn [map_err]; [done|].
  destruct (pn_materialized_path n); cbn [map_err]; [done|].
  destruct (CachePolicy_chunk_size _ ≫= _); cbn [map_err]; [done|].
  case_decide as Hst; cbn [map_err]; [|done]. set (pp := mkProviderReadPlan _ _ _ _ _ _).
  assert (Hpp : Runtime_plan_provider_read (st_runtime s) pid (pn_relative_path n) offset size = Ok pp).
  { rewrite (plan_provider_read_file _ _ _ t n) by done. fold L.
    replace ((size =? 0) || (attr_size (pn_attr n) <=? offset)) with false
      by (unfold L, clamp in HL; destruct Hsz; symmetry; apply orb_false_iff; lia).
    by rewrite decide_True. }
  pose proof (plan_coalesced_covers _ _ _ _ _ _ Hwf Hoff Hsz Hpp) as Hcov.
  destruct (Runtime_plan_coalesced_provider_read (st_runtime s) pp) as [c|e]; cbn [map_err]; [|done].
  destruct Hcov as (_ & _ & _ & _ & Hprov & _ & _ & Hnode & _ & Hlen). intros [= <- <- <- <-]. cbn.
  split_and!; [done|by rewrite Hprov|by rewrite Hnode|].
  destruct Hlen as [->|(cs & Hcs & _ & Hle)]; [left|right; eauto]. cbn. unfold L, clamp. destruct Hsz. lia.
Qed.

(** A provider that is connected and has the file answers every read of it. *)
Lemma attached_answers_fully content read user_data others s ino offset size pid t n route :
  callback_serves content read user_data ->
  rt_wf (st_runtime s) -> ipc_inv s -> in_u64 offset -> in_u32 size ->
  Runtime_lookup_inode (st_runtime s) ino = Ok (PromiseNodeEntry pid n) ->
  file_of (st_runtime s) pid (pn_relative_path n) t n ->
  st_provider_routes s !! pt_provider_id t = Some route -> pt_provider_id t <> 0 -> token_ok (pn_provider_node_id n) ->
  chunks_servable (st_runtime s) -> (forall r, Forall (spares r) (others r)) ->
  (forall i, 0 <= i < attr_size (pn_attr n) -> is_Some (content (mkCacheKey pid (pn_relative_path n)) i)) ->
  @provider_answers_fully (attached read user_data others) s ino offset size.
Proof.
  intros Hserves Hwf Hinv Hoff Hsz Hlook Hf Hroute Hpz Htok Hcs Hspare Hc s1 req ro rl Hplan.
  pose proof (min_u32 _ Hsz) as Hsz'.
  destruct (planned_request _ _ _ _ _ _ _ _ _ _ _ Hwf Hoff Hsz' Hlook Hf Hplan) as (Hid & Hprov & Hnode & Hlen).
  pose proof (fuse_plan_read_spec s ino offset _ Hwf Hoff Hsz') as Hspec. rewrite Hplan in Hspec.
  destruct Hspec as (pid' & t' & n' & Hlook' & _ & Hsafe & HL & -> & _ & Hpid & Hpath & Hro & Hsum & -> & Hcover & [Ho _] & Hend).
  rewrite Hlook in Hlook'. injection Hlook' as <- <-.
  destruct (file_of_canonical _ _ _ _ _ Hwf Hf) as (_ & _ & Hn & [_ Hmax]).
  destruct (rw_promises _ Hwf _ _ (proj1 Hf)) as [_ (k & Hk & _)].
  pose proof Hinv as (reads & Hsys & _). pose proof (si_next _ Hsys) as Hnext. cbn in Hnext.
  assert (Hok : request_ok req).
  { split; rewrite ?Hid, ?Hprov, ?Hpid, ?Hnode; [lia|done| |done| |lia].
    - rewrite Hk. split; [by destruct (promise_name k) eqn:E|apply promise_name_no_nul].
    - unfold chunks_servable in Hcs. destruct Hlen as [Hlen|(cs & Heq & Hlen)]; [|rewrite Heq in Hcs]; lia. }
  destruct (attached_answers read user_data others (next_provider_read_request_id s).1 req route Hok) as (s2 & Hrun).
  - by rewrite Hpath.
  - apply Hserves.
  - apply Hspare.
  - intros i q. apply (pending_channels s i q Hinv).
  - by rewrite Hprov.
  - rewrite Hid. exact (next_id_unused s Hinv).
  - exists s2, (provider_answer read user_data req). split; [done|].
    apply (provider_answer_full content); [done..| |].
    + rewrite Hpath. destruct Hsafe as (parts & Hs & ->). by apply join_nul.
    + intros i Hi. rewrite Hpid, Hpath. apply Hc. lia.
Qed.

(** ** Requests that the router refuses *)

Lemma into_body_error r e : ProviderReadRequest_into_body r = Err e -> io_kind e = KInvalidData.
Proof.
  unfold ProviderReadRequest_into_body, validate_relative_path, validate_nonzero, validate_provider_id, validate_token, validate_read_range.
  destruct (normalize_relative_path _); cbn; [|by intros [= <-]]. repeat (case_match; cbn; try by intros [= <-]); done.
Qed.

Lemma route_refuses env s r :
  0 <= rq_length r -> ~ request_ok r ->
  exists e, route_provider_read env s r = (s, Err e) /\ io_error_to_errno e = EINVAL.
Proof.
  intros Hl Hno. unfold route_provider_read, route_lookup. destruct (ProviderReadRequest_into_body r) as [body|e] eqn:Hb.
  - by apply ProviderReadRequest_into_body_Ok in Hb as [? _].
  - exists e. split; [done|]. unfold io_error_to_errno. by rewrite (into_body_error _ _ Hb).
Qed.

(** Whether a node is accepted does not depend on its provider node id, as long as there is one. *)
Lemma add_node_any_id b rel attr kind id1 id2 :
  id1 <> [] -> id2 <> [] ->
  (PromiseBuilder_add_node b rel attr id1 kind).2 = (PromiseBuilder_add_node b rel attr id2 kind).2.
Proof. intros H1 H2. unfold PromiseBuilder_add_node. rewrite !decide_False by done. by repeat case_match. Qed.

(** ** The state after a commit *)

Section committed.
Context (content : CacheKey -> Z -> option byte) (budget : Z) (Hbudget : 0 <= budget).
Context `{!Router, !RouterOk ipc_inv (op_good content) budget}.
Context (s : IpcState) (b : PromiseBuilder) (Htyped : op_typed (OpCommitPromise b)).
Context (Hready : ready content ipc_inv budget 4 s).

Lemma committed_ready : ready content ipc_inv budget 3 (set_runtime (Runtime_commit_promise (st_runtime s) b).1 s).
Proof.
  destruct Hready as [Hs Hi Hid Hp Hq]. change (Runtime_commit_promise (st_runtime s) b).1 with (run_op (st_runtime s) (OpCommitPromise b)).
  destruct (run_op_ids (st_runtime s) (OpCommitPromise b) (rs_wf _ _ Hs)) as [H1 H2]; [lia..|].
  split; cbn [st_runtime set_runtime st_next_read_request_id] in *; [|by apply set_runtime_ipc_inv|lia..].
  by apply run_op_sound; [done|lia|lia|].
Qed.

Lemma committed_policy : rt_cache_policy (Runtime_commit_promise (st_runtime s) b).1 = rt_cache_policy (st_runtime s).
Proof.
  destruct Hready as [Hs _ _ _ Hq]. pose proof (rw_promise_id _ (rs_wf _ _ Hs)).
  pose proof (commit_promise_cases (st_runtime s) b ltac:(lia) ltac:(lia)) as Hc.
  destruct (Runtime_commit_promise (st_runtime s) b) as [rt' r].
  by destruct Hc as [(_ & -> & _)|(_ & nid & ino & _ & _ & [(e & _ & ->)|(_ & _ & _ & ->)])].
Qed.
End committed.

Lemma insert_honest content read_at rt rt' tree :
  materialized_honest content read_at rt -> rt_promises rt' = <[pt_promise_id tree := tree]> (rt_promises rt) ->
  unmaterialized (pt_nodes tree) -> materialized_honest content read_at rt'.
Proof.
  intros Hm Hins Hun pid path t n p offset length bytes (Ht & Hg & Hk) Hp. rewrite Hins in Ht.
  apply lookup_insert_Some in Ht as [[<- <-]|[_ Ht]]; [|by eapply Hm].
  apply bind_Some in Hg as (q & _ & Hn). specialize (Hun q n Hn). cbn in Hun. congruence.
Qed.

(** ** Properties *)


(** C37: what a commit accepts and a read then refuses.  A builder, and so the
    daemon, takes any provider node id that is not empty; but a read of a file
    whose node id contains a NUL byte fails with [EINVAL] whenever the provider
    would have to be asked, whatever the provider does, and so does one that is
    widened to a cache chunk larger than [MAX_PROVIDER_READ_LEN]. *)
Theorem accepted_but_unreadable env read_at s ino offset size pid t n s1 req ro rl :
  rt_wf (st_runtime s) -> in_u64 offset -> in_u32 size ->
  Runtime_lookup_inode (st_runtime s) ino = Ok (PromiseNodeEntry pid n) ->
  file_of (st_runtime s) pid (pn_relative_path n) t n ->
  fuse_plan_read s ino offset (Z.min size MAX_PROVIDER_READ_LEN) = (s1, Ok (Some (FuseProvider req ro rl))) ->
  (nul ∈ pn_provider_node_id n) \/ MAX_PROVIDER_READ_LEN < rq_length req ->
  (@fuse_read (routed_by env) read_at s ino offset size).2 = Err EINVAL /\
  forall b rel attr id', id' <> [] ->
    (PromiseBuilder_add_file b rel attr (pn_provider_node_id n)).2 = (PromiseBuilder_add_file b rel attr id').2.
Proof.
  intros Hwf Hoff Hsz Hlook Hf Hplan Hbad. pose proof (min_u32 _ Hsz) as Hsz'.
  destruct (planned_request _ _ _ _ _ _ _ _ _ _ _ Hwf Hoff Hsz' Hlook Hf Hplan) as (_ & _ & Hnode & _).
  pose proof (fuse_plan_read_spec s ino offset _ Hwf Hoff Hsz') as Hspec. rewrite Hplan in Hspec.
  destruct Hspec as (pid' & t' & n' & _ & _ & _ & HL & _ & _ & _ & _ & Hro & _ & -> & Hcover & _).
  assert (Hno : ~ request_ok req) by (intros [_ _ _ [_ Hn] Hl _]; rewrite Hnode in Hn; naive_solver lia).
  split.
  - unfold fuse_read. cbv zeta. rewrite Hplan. unfold router_read, routed_by.
    by destruct (route_refuses (env req) s1 req ltac:(lia) Hno) as (e & -> & <-).
  - intros b rel attr id' Hid'. apply add_node_any_id; [|done].
    destruct (rw_tree _ Hwf _ _ (proj1 Hf)) as [Htw _].
    destruct (file_of_canonical _ _ _ _ _ Hwf Hf) as (_ & _ & Hn & _).
    apply (twf_node _ _ Htw _ _ Hn). intros Hroot. destruct (twf_root _ _ Htw) as (m & Hm & Hk & _).
    rewrite Hroot, Hm in Hn. injection Hn as ->. destruct Hf as (_ & _ & Hk'). congruence.
Qed.

(** A provider of one file, whatever the promise is called. *)
Definition readme_text : list byte := bs "Hello world.".

Definition readme_content (key : CacheKey) (i : Z) : option byte :=
  if decide (ck_relative_path key = bs "docs/readme.txt") then zlookup readme_text i else None.

Definition readme_read : fp_provider_read_fn := fun _ q r _ =>
  if decide (fr_length q = 0 \/ fr_relative_path q = bs "docs/readme.txt" /\ 0 <= fr_offset q /\ 0 <= fr_length q /\
               fr_offset q + fr_length q <= len readme_text)
  then (Some FP_OK, mkReadResponse
          (take (length (fr_buffer r))
             (slice readme_text (fr_offset q) (fr_offset q + fr_length q) ++ drop (Z.to_nat (fr_length q)) (fr_buffer r)))
          (fr_length q) (fr_length q))
  else (Some FP_ERR_NOT_FOUND, mkReadResponse (fr_buffer r) (fr_buffer_len r) 0).

Lemma slice_none {A} (l : list A) a : slice l a (a + 0) = [].
Proof. unfold slice. replace (a + 0 - a) with 0 by lia. done. Qed.

Lemma readme_serves : callback_serves readme_content readme_read 0.
Proof.
  split.
  - intros call q r ud. unfold readme_read. case_decide as Hd; cbn [snd fr_buffer fr_bytes_written]; [|split; [done|lia]].
    assert (Hl : 0 <= fr_length q) by naive_solver lia. split; [|done]. unfold len. f_equal. rewrite length_take, length_app, length_drop.
    enough (length (slice readme_text (fr_offset q) (fr_offset q + fr_length q)) = Z.to_nat (fr_length q)) by lia.
    destruct Hd as [->|(_ & Ho & _ & He)]; [by rewrite slice_none|].
    pose proof (len_slice readme_text (fr_offset q) (fr_offset q + fr_length q) ltac:(lia)) as H. unfold len in H, He. lia.
  - intros call q r after. unfold readme_read. case_decide as Hd; [|done]. intros [= <-] _. cbn [fr_buffer fr_bytes_written].
    destruct Hd as [->|(Hp & Ho & Hl & He)]; [intros i b; change (Z.to_nat 0) with 0%nat; by rewrite take_0, zlookup_nil|].
    rewrite take_take.
    pose proof (len_slice readme_text (fr_offset q) (fr_offset q + fr_length q) ltac:(lia) ltac:(lia)) as Hs. unfold len in Hs.
    rewrite take_app_le by lia. apply bytes_sound_take.
    apply (bytes_sound_slice readme_content _ 0); [done|]. intros i b Hi. unfold readme_content. by rewrite decide_True.
  - intros call q r Hbuf Hc. unfold readme_read. rewrite decide_True; [by eexists|].
    pose proof (len_nonneg (fr_buffer r)). destruct (decide (fr_length q = 0)) as [|Hne]; [by left|right].
    unfold readme_content in Hc. cbn [ck_relative_path] in Hc. case_decide as Hp; [|by destruct (Hc 0 ltac:(lia))].
    pose proof (proj1 (zlookup_is_Some _ _) (Hc 0 ltac:(lia))). pose proof (proj1 (zlookup_is_Some _ _) (Hc (fr_length q - 1) ltac:(lia))).
    split_and!; [done|lia..].
Qed.

Lemma ready_state_ready : ready readme_content ipc_inv 1 4 ready_state.
Proof.
  split; [split| |vm_compute; congruence..].
  - apply ready_state_wf.
  - apply map_Forall_empty.
  - apply (prune_inv _ ∅). apply (reachable_inv Runtime_new).
    eapply rtc_l; [apply (step_env_runtime _ _ OpRegisterProvider)|].
    eapply rtc_l; [apply (step_env_route _ _ 1 42 7 (Ok tt))|].
    eapply rtc_l; [apply (step_env_mount _ _ (IpcMountStatus_commit_ready (bs "/run/fuse-promise")))|apply rtc_refl].
Qed.

(** Another provider registers while a read waits. *)
Definition sample_others : list EnvOp := [EnvRuntime OpRegisterProvider; EnvRoute 2 43 8].


(** A file whose node id has a NUL byte in it. *)
Definition odd_calls : list AddCall := [mkAddCall File (bs "a") (mkNodeAttr 420 5 0) [Byte.x61; nul]].

Definition odd_mount : IpcState := set_runtime (run_ops Runtime_new [OpRegisterProvider; OpCommitPromise (built 1 odd_calls)]) (IpcState_new Runtime_new).

Lemma accepted_but_unreadable_witness :
  (@fuse_read (routed_by (attached_env readme_read 0 (fun _ => []))) (fun _ _ _ => Ok []) odd_mount 3 0 5).2 = Err EINVAL.
Proof.
  assert (Hwf : rt_wf (st_runtime odd_mount)).
  { unfold odd_mount. cbn [st_runtime set_runtime]. apply run_ops_wf; [|vm_compute; reflexivity].
    repeat apply Forall_cons_2; [exact I| |apply Forall_nil_2]. apply commit_typed. repeat constructor; vm_compute; congruence. }
  set (n := mkPromiseNode 2 3 (bs "a") (Some []) (bs "a") [Byte.x61; nul] None File (mkNodeAttr 420 5 0)).
  destruct (rt_promises (st_runtime odd_mount) !! bs "promise-1") as [t|] eqn:Ht; [|vm_compute in Ht; discriminate Ht].
  destruct (@accepted_but_unreadable (attached_env readme_read 0 (fun _ => [])) (fun _ _ _ => Ok []) odd_mount 3 0 5
    (bs "promise-1") t n (next_provider_read_request_id odd_mount).1
    (mkProviderReadRequest 1 1 (bs "promise-1") (bs "a") [Byte.x61; nul] 0 5) 0 5) as [H _].
  - exact Hwf.
  - split; vm_compute; congruence.
  - split; vm_compute; congruence.
  - vm_compute. reflexivity.
  - split; [exact Ht|]. split; [|reflexivity]. vm_compute in Ht. injection Ht as <-. vm_compute. reflexivity.
  - vm_compute. reflexivity.
  - left. apply elem_of_cons. right. apply list_elem_of_singleton. reflexivity.
  - exact H.
Defined.
