(* ===== verification/Programs.v ===== *)
(** * The two programs

    [crates/fuse-promise-daemon/src/main.rs] with [start] and [mount_status] of
    its adapter, [tools/fpctl/src/main.rs], and the build script of the C
    library, [crates/fuse-promise-ffi/build.rs].  A run of a program is a
    function of its arguments and of the host; what it prints and its exit code
    are an [Output]. *)

From S2P Require Import Prelude Types Paths Runtime Messages Frame Mount IpcState Report Effect Host Client.

#[export] Instance MaterializeConflictPolicy_eq_decision : EqDecision MaterializeConflictPolicy.
Proof. solve_decision. Defined.

Record Output : Type := mkOutput {
  ou_stdout : str;
  ou_stderr : str;
  ou_code : Z;
}.

(** [println!] and [eprintln!] before the rest of the run. *)
Definition print_line (text : str) (o : Output) : Output := mkOutput (line text ++ ou_stdout o) (ou_stderr o) (ou_code o).
Definition print_error (text : str) (o : Output) : Output := mkOutput (ou_stdout o) (line text ++ ou_stderr o) (ou_code o).

Definition exit_code (code : Z) : Output := mkOutput [] [] code.

(** [text]s on lines of their own, then the rest. *)
Definition print_lines (texts : list str) (o : Output) : Output := foldr print_line o texts.

(** ** The adapter's entry points *)

Module Daemon.

(** [adapter_status_to_io] of the adapter, which keeps the kind. *)
Definition adapter_status_to_io (status : Status) : IoError :=
  mkIoError
    (match status with
     | InvalidArgument => KInvalidInput
     | Permission => KPermissionDenied
     | AlreadyExists => KAlreadyExists
     | NotFound => KNotFound
     | _ => OtherKind
     end) (Status_as_str status).

Section daemon.
(** [backend] is the feature [fuse-mount-backend]; [spawn_mount2] is [fuser]'s,
    and stands for the mounted session. *)
Context (backend : bool).
Context (create_dir : str -> Z -> M Host IoError ()).
Context (spawn_mount2 : str -> M Host IoError ()).

(** [Some] is a mount. *)
Definition start (mount_path : str) : M Host IoError (option ()) :=
  if backend then
    map_error adapter_status_to_io (prepare_mount_dir create_dir mount_path);;
    spawn_mount2 mount_path;;
    mret (Some tt)
  else mret None.

(** ** The daemon *)

Inductive Arguments : Type :=
| Run (foreground : bool) (cache_policy : CachePolicy)
| Help
| PolicyRefused (status : Status)
| Unknown (arg : str).

Fixpoint parse_arguments (args : list str) (foreground : bool) (cache_policy : CachePolicy) : Arguments :=
  match args with
  | [] => Run foreground cache_policy
  | arg :: args =>
      if decide (arg = bs "-h" \/ arg = bs "--help") then Help
      else if decide (arg = bs "--foreground") then parse_arguments args true cache_policy
      else if decide (arg = bs "--cache=no-cache" \/ arg = bs "--cache-policy=no-cache")
      then parse_arguments args foreground NoCache
      else if decide (arg = bs "--cache=read-through" \/ arg = bs "--cache-policy=read-through")
      then match CachePolicy_read_through DEFAULT_READ_THROUGH_CHUNK_SIZE with
           | Ok policy => parse_arguments args foreground policy
           | Err status => PolicyRefused status
           end
      else Unknown arg
  end.

Definition daemon_help : list str :=
  [ bs "usage: fuse-promised [--foreground] [--cache=no-cache|read-through]"; [];
    bs "Starts the user-session Promise filesystem daemon.";
    bs "FUSE mounting requires building the daemon with the fuse-mount feature." ].

(** [serve] is [serve_state]: it returns when the socket fails. *)
Context (serve : IpcState -> M Host IoError ()).

Definition daemon_prefix (text : str) : str := bs "fuse-promised: " ++ text.

Definition daemon_fail (text : str) (code : Z) : Output := print_error (daemon_prefix text) (exit_code code).

(** Once the paths are known.  The state that is served, if any, is returned
    as well. *)
Definition run_daemon (cache_policy : CachePolicy) (path : str) (host : Host) : Host * option IpcState * Output :=
  match Runtime_with_cache_policy cache_policy with
  | Err status => (host, None, daemon_fail (Status_as_str status) 1)
  | Ok runtime =>
      let announce := print_line (bs "cache_policy=" ++ CachePolicy_as_str (rt_cache_policy runtime)) in
      let ipc_state := IpcState_new runtime in
      let '(host, r) := start path host in
      match r with
      | Err error =>
          (host, None, announce (daemon_fail (bs "failed to mount " ++ to_string_lossy path ++ bs ": " ++ io_message error) 1))
      | Ok fuse_mount =>
          let mount_status := mount_status backend path (bool_decide (is_Some fuse_mount)) in
          let ipc_state := set_mount_status ipc_state mount_status in
          let '(host, r) := serve ipc_state host in
          (host, Some ipc_state,
           announce (print_lines [bs "mount=" ++ mo_mount mount_status; bs "fuse_adapter=" ++ mo_fuse_adapter mount_status]
             (match r with
              | Ok _ => exit_code 0
              | Err error => daemon_fail (io_message error) 1
              end)))
      end
  end.

Definition daemon_main (args : list str) (host : Host) : Host * option IpcState * Output :=
  match parse_arguments args false NoCache with
  | Help => (host, None, print_lines daemon_help (exit_code 0))
  | PolicyRefused status => (host, None, daemon_fail (Status_as_str status) 1)
  | Unknown arg => (host, None, print_error (daemon_prefix (bs "unknown argument: " ++ arg)) (print_lines daemon_help (exit_code 2)))
  | Run foreground cache_policy =>
      match default_mount_path host with
      | Err status => (host, None, daemon_fail (Status_as_str status) 1)
      | Ok path =>
          let announce := print_lines [bs "fuse-promised"; bs "mount_path=" ++ to_string_lossy path] in
          match default_control_socket_path host with
          | Err status => (host, None, announce (daemon_fail (Status_as_str status) 1))
          | Ok socket_path =>
              let '(host, served, o) := run_daemon cache_policy path host in
              (host, served,
               announce (print_line (bs "socket_path=" ++ to_string_lossy socket_path)
                 (if (foreground : bool) then print_line (bs "mode=foreground") o else o)))
          end
      end
  end.
End daemon.
End Daemon.

(** ** [fpctl] *)

Module Fpctl.

Definition fpctl_help : list str :=
  [ bs "usage: fpctl <command>"; []; bs "commands:";
    bs "  status    Query the user-session daemon status";
    bs "  list      List daemon-owned promises and nodes";
    bs "  materialize [--progress] [--overwrite|--rename] <promise-path> <target-dir>" ].

Definition fpctl_prefix (text : str) : str := bs "fpctl: " ++ text.
Definition fpctl_fail (text : str) : Output := print_error (fpctl_prefix text) (exit_code 1).
Definition usage_error (text : str) : Output := print_error (fpctl_prefix text) (print_lines fpctl_help (exit_code 2)).

(** [print!] *)
Definition print (text : str) (o : Output) : Output := mkOutput (text ++ ou_stdout o) (ou_stderr o) (ou_code o).

Definition fpctl_absolute_client_path (host : Host) (path : str) : IoResult str :=
  if is_absolute path then Ok path
  else (fun cwd => path_join cwd path) <$> ho_current_dir host.

Definition fpctl_checked_target_dir (host : Host) (path : str) : IoResult str :=
  path ← (if is_absolute path then Ok path else (fun cwd => path_join cwd path) <$> ho_current_dir host);
  metadata ← ho_symlink_metadata host path;
  if is_symlink metadata then Err (mkIoError KInvalidInput (bs "target directory must not be a symlink"))
  else if negb (is_dir metadata) then Err (mkIoError KInvalidInput (bs "target directory is not a directory"))
  else Ok path.

(** The command line after [materialize]. *)
Record MaterializeArgs : Type := mkMaterializeArgs {
  ma_conflict_policy : MaterializeConflictPolicy;
  ma_show_progress : bool;
  ma_promise_path : str;
  ma_target_dir : str;
}.

Definition starts_with_dashes (arg : str) : bool := bool_decide (take 2 arg = bs "--").

(** The options up to the first argument that is not one, and what follows. *)
Fixpoint parse_options (args : list str) (conflict_policy : MaterializeConflictPolicy) (show_progress : bool) :
    result str (MaterializeConflictPolicy * bool * option str * list str) :=
  match args with
  | [] => Ok (conflict_policy, show_progress, None, [])
  | arg :: args =>
      if decide (arg = bs "--overwrite" /\ conflict_policy = PolicyFail)
      then parse_options args PolicyOverwrite show_progress
      else if decide (arg = bs "--rename" /\ conflict_policy = PolicyFail)
      then parse_options args PolicyRename show_progress
      else if decide (arg = bs "--overwrite" \/ arg = bs "--rename")
      then Err (bs "materialize conflict option was already set")
      else if decide (arg = bs "--progress") then parse_options args conflict_policy true
      else if starts_with_dashes arg then Err (bs "unknown materialize option: " ++ arg)
      else Ok (conflict_policy, show_progress, Some arg, args)
  end.

Definition parse_materialize (args : list str) : result str MaterializeArgs :=
  r ← parse_options args PolicyFail false;
  let '(conflict_policy, show_progress, promise_path, args) := r in
  match promise_path with
  | None => Err (bs "materialize requires a promise path")
  | Some promise_path =>
      match args with
      | [] => Err (bs "materialize requires a target directory")
      | [target_dir] => Ok (mkMaterializeArgs conflict_policy show_progress promise_path target_dir)
      | _ :: extra :: _ => Err (bs "unexpected argument: " ++ extra)
      end
  end.

Section fpctl.
Context `{!Bincode Request, !Bincode Response}.

Definition fpctl_status (host : Host) (s : Stream) : Stream * Output :=
  match default_control_socket_path host with
  | Err status => (s, fpctl_fail (Status_as_str status))
  | Ok socket_path =>
      let '(s, r) := query_status host socket_path s in
      (s,
       match r with
       | Ok response => print response (exit_code 0)
       | Err _ =>
           match default_mount_path host with
           | Ok path =>
               print_lines
                 [ bs "mount_path=" ++ to_string_lossy path; bs "socket_path=" ++ to_string_lossy socket_path;
                   bs "daemon=not-connected"; bs "mount=not-mounted"; bs "fuse_adapter=not-implemented";
                   bs "cache_policy=" ++ CachePolicy_as_str NoCache ] (exit_code 0)
           | Err status => fpctl_fail (Status_as_str status)
           end
       end)
  end.

Definition fpctl_list (host : Host) (s : Stream) : Stream * Output :=
  match default_control_socket_path host with
  | Err status => (s, fpctl_fail (Status_as_str status))
  | Ok socket_path =>
      let '(s, r) := query_inspect host socket_path s in
      (s,
       match r with
       | Ok response => print response (exit_code 0)
       | Err error => fpctl_fail (io_message error)
       end)
  end.

(** The lines that the progress callback has printed. *)
Definition show (show_progress : bool) (shown : str) (progress : MaterializeCounters) : str * IoResult () :=
  (if show_progress then shown ++ line (MaterializeProgressReport_encode_text progress) else shown, Ok tt).

Definition fpctl_materialize (fuel : nat) (host : Host) (args : MaterializeArgs) (s : Stream) : option (Stream * Output) :=
  match default_control_socket_path host with
  | Err status => Some (s, fpctl_fail (Status_as_str status))
  | Ok socket_path =>
  match fpctl_absolute_client_path host (ma_promise_path args) with
  | Err error => Some (s, fpctl_fail (io_message error))
  | Ok source_path =>
  match fpctl_checked_target_dir host (ma_target_dir args) with
  | Err error => Some (s, fpctl_fail (io_message error))
  | Ok target_dir =>
      '(s, shown, r) ←
        materialize_file_with_progress id (show (ma_show_progress args)) fuel host socket_path
          (mkMaterializeRequest source_path target_dir (ma_conflict_policy args)) s [];
      Some (s,
        let o := match r with
                 | Ok response => print (MaterializeResponse_encode_text response) (exit_code 0)
                 | Err error => fpctl_fail (io_message error)
                 end in
        mkOutput (ou_stdout o) (shown ++ ou_stderr o) (ou_code o))
  end end end.

Definition fpctl_main (fuel : nat) (args : list str) (host : Host) (s : Stream) : option (Stream * Output) :=
  match args with
  | [] => Some (fpctl_status host s)
  | command :: args =>
      if decide (command = bs "status") then
        match args with
        | extra :: _ => Some (s, usage_error (bs "unexpected argument: " ++ extra))
        | [] => Some (fpctl_status host s)
        end
      else if decide (command = bs "list") then
        match args with
        | extra :: _ => Some (s, usage_error (bs "unexpected argument: " ++ extra))
        | [] => Some (fpctl_list host s)
        end
      else if decide (command = bs "materialize") then
        match parse_materialize args with
        | Err message => Some (s, usage_error message)
        | Ok args => fpctl_materialize fuel host args s
        end
      else if decide (command = bs "-h" \/ command = bs "--help" \/ command = bs "help")
      then Some (s, print_lines fpctl_help (exit_code 0))
      else Some (s, usage_error (bs "unknown command: " ++ command))
  end.
End fpctl.
End Fpctl.

(** ** The build script of the C library *)

Module Build.

(** What the script prints for the linker; [None] is its panic.  The arguments
    are the two environment variables. *)
Definition build_main (target_os soname_major : option str) : option (list str) :=
  let rerun := bs "cargo:rerun-if-env-changed=FUSE_PROMISE_SONAME_MAJOR" in
  if decide (target_os = Some (bs "linux")) then
    let soname_major := default (bs "0") soname_major in
    if bool_decide (soname_major = []) || negb (forallb (fun b => bool_decide (48 <= byte_val b <= 57)) soname_major)
    then None
    else Some [rerun; bs "cargo:rustc-link-arg-cdylib=-Wl,-soname,libfusepromise.so." ++ soname_major]
  else Some [rerun].

Example build_default : build_main (Some (bs "linux")) None =
  Some [bs "cargo:rerun-if-env-changed=FUSE_PROMISE_SONAME_MAJOR"; bs "cargo:rustc-link-arg-cdylib=-Wl,-soname,libfusepromise.so.0"].
Proof. reflexivity. Qed.

Example build_refuses : build_main (Some (bs "linux")) (Some (bs "1.2")) = None.
Proof. reflexivity. Qed.
End Build.

(** ** The daemon's start *)

Lemma with_cache_policy_spec policy rt :
  policy_typed policy -> Runtime_with_cache_policy policy = Ok rt -> rt_cache_policy rt = policy /\ rt_wf rt.
Proof.
  intros Hp. unfold Runtime_with_cache_policy.
  pose proof (set_cache_policy_wf Runtime_new policy new_wf) as Hw. unfold Runtime_set_cache_policy in *.
  destruct (CachePolicy_validated policy) as [q|e] eqn:Hv; [|done].
  apply CachePolicy_validated_Ok in Hv as [-> _]; [|done]. intros [= <-]. split; [by case_decide|by apply Hw].
Qed.

Lemma parse_arguments_policy args foreground policy foreground' policy' :
  Daemon.parse_arguments args foreground policy = Daemon.Run foreground' policy' ->
  policy_typed policy -> policy_typed policy'.
Proof.
  revert foreground policy. induction args as [|arg args IH]; intros foreground policy; cbn [Daemon.parse_arguments].
  - by intros [= <- <-].
  - intros Hrun Hp. repeat case_decide; try done; by (eapply IH; [exact Hrun|]).
Qed.

Lemma start_mounted create_dir spawn_mount2 path host h1 mount :
  Daemon.start true create_dir spawn_mount2 path host = (h1, Ok mount) ->
  mount = Some tt /\ exists h, prepare_mount_dir create_dir path host = (h, Ok tt) /\ spawn_mount2 path h = (h1, Ok tt).
Proof.
  intros H. cbn in H. inv_run H. apply map_error_run in Hm. destruct a, a0. injection H as <- <-. eauto.
Qed.

(** ** [fpctl]'s command line *)

Lemma parse_options_Ok args policy progress policy' progress' path rest :
  Fpctl.parse_options args policy progress = Ok (policy', progress', Some path, rest) ->
  exists options, args = options ++ path :: rest /\
    Forall (fun x => x ∈ [bs "--overwrite"; bs "--rename"; bs "--progress"]) options /\
    (length (filter (fun x => x ∈ [bs "--overwrite"; bs "--rename"]) options) <= if decide (policy = PolicyFail) then 1 else 0)%nat /\
    (progress' = true <-> progress = true \/ bs "--progress" ∈ options) /\
    (policy' = PolicyOverwrite <-> policy = PolicyOverwrite \/ bs "--overwrite" ∈ options) /\
    (policy' = PolicyRename <-> policy = PolicyRename \/ bs "--rename" ∈ options).
Proof.
  assert (Hor : bs "--overwrite" <> bs "--rename") by discriminate.
  assert (Hop : bs "--overwrite" <> bs "--progress") by discriminate.
  assert (Hrp : bs "--rename" <> bs "--progress") by discriminate.
  revert policy progress. induction args as [|arg args IH]; intros policy progress; cbn [Fpctl.parse_options]; [done|].
  set (o := bs "--overwrite") in *. set (r := bs "--rename") in *. set (p := bs "--progress") in *. clearbody o r p.
  case_decide as Ho; [|case_decide as Hr; [|case_decide as Hc; [done|case_decide as Hp; [|case_match; [done|]]]]].
  - destruct Ho as [-> ->]. intros (options & -> & H1 & H2 & H3 & H4 & H5)%IH. exists (o :: options).
    rewrite decide_False in H2 by done. rewrite filter_cons_True, !elem_of_cons by set_solver. rewrite H3, H4, H5.
    split_and!; [done|constructor; [set_solver|done]|cbn; case_decide; [lia|done]|naive_solver..].
  - destruct Hr as [-> ->]. intros (options & -> & H1 & H2 & H3 & H4 & H5)%IH. exists (r :: options).
    rewrite decide_False in H2 by done. rewrite filter_cons_True, !elem_of_cons by set_solver. rewrite H3, H4, H5.
    split_and!; [done|constructor; [set_solver|done]|cbn; case_decide; [lia|done]|naive_solver..].
  - subst arg. intros (options & -> & H1 & H2 & H3 & H4 & H5)%IH. exists (p :: options).
    rewrite filter_cons_False, !elem_of_cons by set_solver. rewrite H3, H4, H5.
    split_and!; [done|constructor; [set_solver|done]|done|naive_solver..].
  - intros [= <- <- <- <-]. exists []. rewrite !elem_of_nil. split_and!; [done|constructor|cbn; lia|naive_solver..].
Qed.

Lemma parse_materialize_Ok args a :
  Fpctl.parse_materialize args = Ok a ->
  exists options, args = options ++ [Fpctl.ma_promise_path a; Fpctl.ma_target_dir a] /\
    Forall (fun x => x ∈ [bs "--overwrite"; bs "--rename"; bs "--progress"]) options /\
    (length (filter (fun x => x ∈ [bs "--overwrite"; bs "--rename"]) options) <= 1)%nat /\
    (Fpctl.ma_show_progress a = true <-> bs "--progress" ∈ options) /\
    (Fpctl.ma_conflict_policy a = PolicyOverwrite <-> bs "--overwrite" ∈ options) /\
    (Fpctl.ma_conflict_policy a = PolicyRename <-> bs "--rename" ∈ options).
Proof.
  intros ([[[policy progress] [path|]] rest] & Hp & H)%bind_Ok; [|done].
  apply parse_options_Ok in Hp as (options & -> & H1 & H2 & H3 & H4 & H5).
  destruct rest as [|target [|extra rest]]; try done. injection H as <-. exists options. cbn.
  split_and!; [done|done|done|naive_solver..].
Qed.

Lemma materialize_code `{!Bincode Request, !Bincode Response} fuel host a s s' o :
  Fpctl.fpctl_materialize fuel host a s = Some (s', o) -> ou_code o <> 2.
Proof.
  unfold Fpctl.fpctl_materialize. destruct (default_control_socket_path host); [|by intros [= <- <-]].
  destruct (Fpctl.fpctl_absolute_client_path _ _); [|by intros [= <- <-]].
  destruct (Fpctl.fpctl_checked_target_dir _ _); [|by intros [= <- <-]].
  intros ([[s1 shown] r] & _ & [= <- <-])%bind_Some. by destruct r.
Qed.

Lemma fpctl_main_usage `{!Bincode Request, !Bincode Response} fuel args host s s' o :
  Fpctl.fpctl_main fuel args host s = Some (s', o) -> ou_code o = 2 ->
  s' = s /\ ou_stdout o = ou_stdout (print_lines Fpctl.fpctl_help (exit_code 2)).
Proof.
  assert (Hstatus : ou_code (Fpctl.fpctl_status host s).2 <> 2).
  { unfold Fpctl.fpctl_status. destruct (default_control_socket_path host); [|done].
    destruct (query_status _ _ s) as [s1 [r|e]]; [done|]. by destruct (default_mount_path host). }
  assert (Hlist : ou_code (Fpctl.fpctl_list host s).2 <> 2).
  { unfold Fpctl.fpctl_list. destruct (default_control_socket_path host); [|done]. by destruct (query_inspect _ _ s) as [s1 [r|e]]. }
  unfold Fpctl.fpctl_main. intros Hm Hcode.
  assert (Hs : Some (Fpctl.fpctl_status host s) = Some (s', o) -> s' = s /\ ou_stdout o = ou_stdout (print_lines Fpctl.fpctl_help (exit_code 2)))
    by (intros [= H]; by rewrite H in Hstatus).
  assert (Hl : Some (Fpctl.fpctl_list host s) = Some (s', o) -> s' = s /\ ou_stdout o = ou_stdout (print_lines Fpctl.fpctl_help (exit_code 2)))
    by (intros [= H]; by rewrite H in Hlist).
  assert (Hu : forall text, Some (s, Fpctl.usage_error text) = Some (s', o) ->
    s' = s /\ ou_stdout o = ou_stdout (print_lines Fpctl.fpctl_help (exit_code 2))) by (by intros text [= <- <-]).
  destruct args as [|command args]; [by auto|]. case_decide; [destruct args; eauto|]. case_decide; [destruct args; eauto|].
  case_decide; [|case_decide; [by injection Hm as <- <-|eauto]].
  destruct (Fpctl.parse_materialize args); [by apply materialize_code in Hm|eauto].
Qed.

(** ** Properties *)

(** C34: the daemon offers commits only when it has mounted.  Whatever its
    arguments and whatever the system calls do: a state is served only after
    the arguments were understood and the paths found; it is ready for commits
    exactly when the daemon was built with the FUSE backend, and then the mount
    point was a private directory of the user's, the mount succeeded, and the visible
    paths are under it; its runtime is well formed and has the cache policy
    that was asked for.  When nothing is served the exit code is zero only for
    a request for help. *)
Theorem daemon_ready_only_when_mounted backend create_dir spawn_mount2 serve args host :
  let '(host', served, o) := Daemon.daemon_main backend create_dir spawn_mount2 serve args host in
  match served with
  | Some s =>
      exists foreground policy path,
        Daemon.parse_arguments args false NoCache = Daemon.Run foreground policy /\
        default_mount_path host = Ok path /\ rt_cache_policy (st_runtime s) = policy /\ rt_wf (st_runtime s) /\
        (mo_ready_for_commits (st_mount_status s) = true <-> backend = true) /\
        (backend = true -> mo_mount_path (st_mount_status s) = Some path /\
           exists h1 h2, prepare_mount_dir create_dir path host = (h1, Ok tt) /\
             private_dir h1 (ho_symlink_metadata h1) path /\ spawn_mount2 path h1 = (h2, Ok tt))
  | None => ou_code o = 0 -> Daemon.parse_arguments args false NoCache = Daemon.Help
  end.
Proof.
  unfold Daemon.daemon_main. destruct (Daemon.parse_arguments args false NoCache) as [foreground policy| |st|arg] eqn:Hargs; [|done..].
  destruct (default_mount_path host) as [path|st]; [|done].
  destruct (default_control_socket_path host) as [socket|st]; [|done].
  unfold Daemon.run_daemon. destruct (Runtime_with_cache_policy policy) as [rt|st] eqn:Hrt; [|by destruct foreground].
  destruct (Daemon.start backend create_dir spawn_mount2 path host) as [h1 [mount|e]] eqn:Hstart; [|by destruct foreground].
  destruct (serve _ h1) as [h2 r]. exists foreground, policy, path.
  destruct (with_cache_policy_spec policy rt (parse_arguments_policy _ _ _ _ _ Hargs I) Hrt) as [Hp Hwf].
  split_and!; try done.
  - destruct backend; cbn in Hstart.
    + by apply start_mounted in Hstart as [-> _].
    + by injection Hstart as _ <-.
  - intros ->. cbn in Hstart. apply start_mounted in Hstart as (-> & h & Hprep & Hspawn). split; [done|].
    exists h, h1. split_and!; try done. by eapply prepare_mount_dir_private.
Qed.

(** [fpctl] contacts the daemon only for a command it understands.  A command
    line that is not understood exits with code 2, prints nothing but the usage,
    and sends nothing; at most one conflict option is accepted, wherever it
    stands among the options; and [status] reports success as long as the
    runtime directory is usable, whether or not a daemon answers. *)
Theorem fpctl_usage `{!Bincode Request, !Bincode Response} fuel args host s :
  (forall s' o, Fpctl.fpctl_main fuel args host s = Some (s', o) -> ou_code o = 2 ->
     s' = s /\ ou_stdout o = ou_stdout (print_lines Fpctl.fpctl_help (exit_code 2))) /\
  (forall a, Fpctl.parse_materialize args = Ok a ->
     exists options, args = options ++ [Fpctl.ma_promise_path a; Fpctl.ma_target_dir a] /\
       Forall (fun x => x ∈ [bs "--overwrite"; bs "--rename"; bs "--progress"]) options /\
       (length (filter (fun x => x ∈ [bs "--overwrite"; bs "--rename"]) options) <= 1)%nat /\
       (Fpctl.ma_show_progress a = true <-> bs "--progress" ∈ options) /\
       (Fpctl.ma_conflict_policy a = PolicyOverwrite <-> bs "--overwrite" ∈ options) /\
       (Fpctl.ma_conflict_policy a = PolicyRename <-> bs "--rename" ∈ options)) /\
  (forall path, default_mount_path host = Ok path -> ou_code (Fpctl.fpctl_status host s).2 = 0).
Proof.
  split_and!.
  - intros s' o Hm Hcode. by apply (fpctl_main_usage fuel args host s).
  - intros a Ha. by apply parse_materialize_Ok.
  - intros path Hp. unfold Fpctl.fpctl_status. destruct (default_control_socket_path host) as [socket|e] eqn:Hs.
    + destruct (query_status host socket s) as [s1 [r|e]]; [done|]. by rewrite Hp.
    + exfalso. revert Hp Hs. unfold default_mount_path, default_control_socket_path.
      destruct (ho_xdg_runtime_dir host); [|done]. by destruct (validate_runtime_dir_path _ _).
Qed.
