(* ===== verification/RuntimeTests.v ===== *)
(** * The unit tests of the runtime crate, run on the model

    The tests of [crates/fuse-promise-runtime/src/lib.rs], each as a computation
    of the model's definitions: [None] is a panic, and [Some tt] a test that
    passes.  The temporary directories of the tests are moments of a [Host]. *)

From S2P Require Import Prelude Types Paths Cache Tree Runtime ReadPlan Messages Effect Host.

(** ** [assert!], [assert_eq!], [unwrap] *)

Abbreviation Test := (option ()).

Definition assert (b : bool) : Test := if b then Some tt else None.
Definition assert_eq {A} `{!EqDecision A} (a b : A) : Test := assert (bool_decide (a = b)).
Definition unwrap {E A} (r : result E A) : option A := ok r.

#[local] Instance ProviderReadPlan_eq_decision : EqDecision ProviderReadPlan.
Proof. solve_decision. Defined.
#[local] Instance MaterializedReadPlan_eq_decision : EqDecision MaterializedReadPlan.
Proof. solve_decision. Defined.
#[local] Instance ReadPlan_eq_decision : EqDecision ReadPlan.
Proof. solve_decision. Defined.
#[local] Instance CoalescedProviderReadPlan_eq_decision : EqDecision CoalescedProviderReadPlan.
Proof. solve_decision. Defined.
#[local] Instance DirectoryEntry_eq_decision : EqDecision DirectoryEntry.
Proof. solve_decision. Defined.
#[local] Instance RuntimeEntry_eq_decision : EqDecision RuntimeEntry.
Proof. solve_decision. Defined.

(** ** The helpers of the tests *)

Definition sample_file_builder (provider : ProviderId) (remote_file : str) : option PromiseBuilder :=
  let builder := PromiseBuilder_new provider in
  let '(builder, r) := PromiseBuilder_add_dir builder (bs "docs") (mkNodeAttr 493 0 0) (bs "remote-dir-1") in
  _ ← unwrap r;
  let '(builder, r) := PromiseBuilder_add_file builder (bs "docs/readme.txt") (mkNodeAttr 420 12 0) remote_file in
  _ ← unwrap r;
  Some builder.

Definition runtime_with_file : option (Runtime * ProviderId) :=
  let runtime := Runtime_new in
  let '(runtime, provider) := Runtime_register_provider runtime in
  builder ← sample_file_builder provider (bs "remote-file-1");
  let '(runtime, r) := Runtime_commit_promise runtime builder in
  _ ← unwrap r;
  Some (runtime, provider).

(** ** Policies and paths *)

Definition runtime_defaults_to_explicit_no_cache_policy : Test :=
  _ ← assert_eq (rt_cache_policy Runtime_new) NoCache;
  _ ← assert_eq (CachePolicy_as_str (rt_cache_policy Runtime_new)) (bs "no-cache");
  _ ← assert_eq (CachePolicy_read_through 0) (Err InvalidArgument);
  let '(runtime, r) := Runtime_set_cache_policy Runtime_new (ReadThrough 0) in
  _ ← assert_eq r (Err InvalidArgument);
  assert (negb (is_ok (Runtime_with_cache_policy (ReadThrough 0)))).

Definition normalizes_safe_relative_paths : Test :=
  a ← unwrap (normalize_relative_path (bs "./a/b"));
  _ ← assert_eq a (bs "a/b");
  b ← unwrap (normalize_relative_path (bs "a//b"));
  assert_eq b (bs "a/b").

Definition rejects_unsafe_paths : Test :=
  _ ← assert_eq (normalize_relative_path (bs "/a")) (Err InvalidArgument);
  _ ← assert_eq (normalize_relative_path (bs "../a")) (Err InvalidArgument);
  assert_eq (normalize_relative_path (bs "a/../b")) (Err InvalidArgument).

(** ** Trees *)

Definition builder_requires_declared_parent_directories : Test :=
  let '(runtime, provider) := Runtime_register_provider Runtime_new in
  let builder := PromiseBuilder_new provider in
  let attr := mkNodeAttr 420 4 0 in
  let '(builder, r) := PromiseBuilder_add_file builder (bs "missing/file.txt") attr (bs "node-1") in
  _ ← assert_eq r (Err NotFound);
  let '(builder, r) := PromiseBuilder_add_dir builder (bs "missing") (mkNodeAttr 493 0 0) (bs "dir-1") in
  _ ← unwrap r;
  let '(builder, r) := PromiseBuilder_add_file builder (bs "missing/file.txt") attr (bs "node-1") in
  _ ← unwrap r;
  let '(runtime, r) := Runtime_commit_promise runtime builder in
  tree ← unwrap r;
  _ ← assert_eq (pt_promise_id tree) (bs "promise-1");
  _ ← assert_eq (pt_state tree) Available;
  _ ← assert (bool_decide (is_Some (PromiseTree_get tree (bs "missing/file.txt"))));
  children ← pt_children tree !! bs "missing";
  assert_eq (btree_set_items children) [bs "missing/file.txt"].

Definition promise_tree_returns_stable_subtree_nodes : Test :=
  let '(runtime, provider) := Runtime_register_provider Runtime_new in
  builder ← sample_file_builder provider (bs "remote-file-1");
  let '(builder, r) := PromiseBuilder_add_dir builder (bs "docs/guides") (mkNodeAttr 493 0 0) (bs "remote-dir-2") in
  _ ← unwrap r;
  let '(builder, r) :=
    PromiseBuilder_add_file builder (bs "docs/guides/setup.txt") (mkNodeAttr 420 5 0) (bs "remote-file-2") in
  _ ← unwrap r;
  let '(runtime, r) := Runtime_commit_promise runtime builder in
  tree ← unwrap r;
  nodes ← PromiseTree_subtree_nodes tree (bs "docs");
  nodes ← unwrap nodes;
  assert_eq (pn_relative_path <$> nodes)
    [bs "docs"; bs "docs/guides"; bs "docs/guides/setup.txt"; bs "docs/readme.txt"].

(** ** Providers and commits *)

Definition provider_disconnect_marks_existing_promises_unavailable : Test :=
  let '(runtime, provider) := Runtime_register_provider Runtime_new in
  let '(runtime, r) := Runtime_commit_promise runtime (PromiseBuilder_new provider) in
  tree ← unwrap r;
  let '(runtime, r) := Runtime_unregister_provider runtime provider in
  _ ← unwrap r;
  session ← Runtime_provider runtime provider;
  _ ← assert_eq (ps_state session) Disconnected;
  promise ← Runtime_promise runtime (pt_promise_id tree);
  assert_eq (pt_state promise) PromiseProviderGone.

(** [insert] on a set returns whether the value is new. *)
Definition insert_new (acc : option (gset Z * gset Z)) (node : PromiseNode) : option (gset Z * gset Z) :=
  acc ← acc;
  let '(node_ids, inodes) := acc in
  _ ← assert (bool_decide (pn_node_id node ∉ node_ids));
  _ ← assert (bool_decide (pn_inode node ∉ inodes));
  _ ← assert (negb (pn_inode node =? FUSE_ROOT_INODE));
  Some ({[ pn_node_id node ]} ∪ node_ids, {[ pn_inode node ]} ∪ inodes).

Definition commit_assigns_daemon_global_node_ids_and_inodes : Test :=
  let '(runtime, provider) := Runtime_register_provider Runtime_new in
  builder ← sample_file_builder provider (bs "remote-file-1");
  let '(runtime, r) := Runtime_commit_promise runtime builder in
  first ← unwrap r;
  builder ← sample_file_builder provider (bs "remote-file-2");
  let '(runtime, r) := Runtime_commit_promise runtime builder in
  second ← unwrap r;
  let nodes := btree_values (pt_nodes first) ++ btree_values (pt_nodes second) in
  sets ← foldl insert_new (Some (∅, ∅)) nodes;
  let '(node_ids, inodes) := sets in
  _ ← assert (bool_decide (node_ids = list_to_set [1; 2; 3; 4; 5; 6]));
  assert (bool_decide (inodes = list_to_set [2; 3; 4; 5; 6; 7])).

Definition promise_node (entry : RuntimeEntry) : option (str * PromiseNode) :=
  match entry with
  | PromiseNodeEntry promise_id node => Some (promise_id, node)
  | MountRoot => None
  end.

Definition resolves_runtime_entries_by_inode_and_child_name : Test :=
  x ← runtime_with_file;
  let '(runtime, _) := x in
  root_entries ← unwrap (Runtime_read_dir runtime FUSE_ROOT_INODE);
  _ ← assert_eq (length root_entries) 1%nat;
  entry ← root_entries !! 0%nat;
  _ ← assert_eq (de_name entry) (bs "promise-1");
  _ ← assert_eq (de_kind entry) Directory;
  entry ← unwrap (Runtime_lookup_child runtime FUSE_ROOT_INODE (bs "promise-1"));
  x ← promise_node entry;
  let '(promise_id, promise_root) := x in
  _ ← assert_eq promise_id (bs "promise-1");
  _ ← assert_eq (pn_relative_path promise_root) [];
  entry ← unwrap (Runtime_lookup_child runtime (pn_inode promise_root) (bs "docs"));
  x ← promise_node entry;
  let '(_, docs) := x in
  _ ← assert_eq (pn_relative_path docs) (bs "docs");
  _ ← assert_eq (pn_kind docs) Directory;
  docs_entries ← unwrap (Runtime_read_dir runtime (pn_inode docs));
  _ ← assert_eq docs_entries [mkDirectoryEntry (bs "readme.txt") 4 File];
  entry ← unwrap (Runtime_lookup_child runtime (pn_inode docs) (bs "readme.txt"));
  x ← promise_node entry;
  let '(_, file) := x in
  entry ← unwrap (Runtime_lookup_inode runtime (pn_inode file));
  _ ← assert_eq (RuntimeEntry_inode entry) (pn_inode file);
  _ ← assert_eq (Runtime_read_dir runtime (pn_inode file)) (Err InvalidArgument);
  assert_eq (Runtime_lookup_child runtime FUSE_ROOT_INODE (bs "bad/name")) (Err InvalidArgument).

Definition commit_fails_after_provider_unregisters : Test :=
  let '(runtime, provider) := Runtime_register_provider Runtime_new in
  let '(runtime, r) := Runtime_unregister_provider runtime provider in
  _ ← unwrap r;
  let '(runtime, r) := Runtime_commit_promise runtime (PromiseBuilder_new provider) in
  match r with Err e => assert_eq e ProviderGone | Ok _ => None end.

Definition unregister_rejects_unknown_provider : Test :=
  provider ← ProviderId_from_raw 99;
  let '(runtime, r) := Runtime_unregister_provider Runtime_new provider in
  assert_eq r (Err NotFound).

(** ** Read planning *)

(** [ProviderReadPlan] for the file of [runtime_with_file]. *)
Definition readme_plan (provider : ProviderId) (offset length : Z) : ProviderReadPlan :=
  mkProviderReadPlan provider (bs "promise-1") (bs "docs/readme.txt") (bs "remote-file-1") offset length.

Definition plan_readme (runtime : Runtime) (offset length : Z) : Result ReadPlan :=
  Runtime_plan_read runtime (bs "promise-1") (bs "docs/readme.txt") offset length.

Definition plans_provider_owned_file_reads : Test :=
  x ← runtime_with_file;
  let '(runtime, provider) := x in
  plan ← unwrap (plan_readme runtime 2 8);
  assert_eq plan (RequestPlan (readme_plan provider 2 8)).

Definition read_planning_caps_at_eof : Test :=
  x ← runtime_with_file;
  let '(runtime, provider) := x in
  plan ← unwrap (plan_readme runtime 10 8);
  _ ← assert_eq plan (RequestPlan (readme_plan provider 10 2));
  plan ← unwrap (plan_readme runtime 12 8);
  _ ← assert_eq plan Eof;
  plan ← unwrap (plan_readme runtime 0 0);
  assert_eq plan Eof.

Definition read_planning_rejects_missing_or_non_file_nodes : Test :=
  x ← runtime_with_file;
  let '(runtime, _) := x in
  _ ← assert_eq (Runtime_plan_read runtime (bs "promise-1") (bs "docs/missing.txt") 0 1) (Err NotFound);
  _ ← assert_eq (Runtime_plan_read runtime (bs "promise-1") (bs "docs") 0 1) (Err InvalidArgument);
  assert_eq (Runtime_plan_read runtime (bs "missing-promise") (bs "docs/readme.txt") 0 1) (Err NotFound).

Definition read_planning_rejects_disconnected_provider : Test :=
  x ← runtime_with_file;
  let '(runtime, _) := x in
  provider ← ProviderId_from_raw 1;
  let '(runtime, r) := Runtime_unregister_provider runtime provider in
  _ ← unwrap r;
  assert_eq (plan_readme runtime 0 1) (Err ProviderGone).

(** The first lines of the tests of the cache. *)
Definition with_read_through (runtime : Runtime) (chunk_size : Z) : option Runtime :=
  policy ← unwrap (CachePolicy_read_through chunk_size);
  let '(runtime, r) := Runtime_set_cache_policy runtime policy in
  _ ← unwrap r;
  Some runtime.

Definition record_readme (runtime : Runtime) (offset : Z) (bytes : list byte) : option Runtime :=
  let '(runtime, r) := Runtime_record_cached_read runtime (bs "promise-1") (bs "docs/readme.txt") offset bytes in
  _ ← unwrap r;
  Some runtime.

Definition read_through_cache_hit_survives_provider_disconnect : Test :=
  x ← runtime_with_file;
  let '(runtime, provider) := x in
  runtime ← with_read_through runtime 4;
  runtime ← record_readme runtime 2 (bs "cdefgh");
  plan ← unwrap (plan_readme runtime 3 4);
  _ ← assert_eq plan (CachedPlan (bs "defg"));
  _ ← assert_eq (plan_readme runtime 1 4) (Ok (RequestPlan (readme_plan provider 1 4)));
  let '(runtime, r) := Runtime_unregister_provider runtime provider in
  _ ← unwrap r;
  plan ← unwrap (plan_readme runtime 3 4);
  _ ← assert_eq plan (CachedPlan (bs "defg"));
  assert_eq (plan_readme runtime 1 4) (Err ProviderGone).

Definition sequential_prefetch_plans_next_uncached_range : Test :=
  x ← runtime_with_file;
  let '(runtime, provider) := x in
  runtime ← with_read_through runtime 4;
  let prefetch runtime offset :=
    unwrap (Runtime_plan_sequential_prefetch runtime (bs "promise-1") (bs "docs/readme.txt") offset 4) in
  plan ← prefetch runtime 0;
  _ ← assert_eq plan (Some (readme_plan provider 4 4));
  runtime ← record_readme runtime 4 (bs "efgh");
  plan ← prefetch runtime 0;
  _ ← assert_eq plan None;
  plan ← prefetch runtime 8;
  assert_eq plan None.

Definition read_through_coalesces_provider_reads_to_cache_chunk : Test :=
  x ← runtime_with_file;
  let '(runtime, provider) := x in
  runtime ← with_read_through runtime 8;
  plan ← unwrap (Runtime_plan_coalesced_provider_read runtime (readme_plan provider 2 3));
  assert_eq plan (mkCoalescedProviderReadPlan (readme_plan provider 0 8) 2 3).

Definition no_cache_keeps_provider_reads_exact : Test :=
  x ← runtime_with_file;
  let '(runtime, provider) := x in
  let exact := readme_plan provider 2 3 in
  plan ← unwrap (Runtime_plan_coalesced_provider_read runtime exact);
  assert_eq plan (mkCoalescedProviderReadPlan exact 0 3).

Definition mark_readme (runtime : Runtime) (path : str) : option Runtime :=
  let '(runtime, r) := Runtime_mark_node_materialized runtime (bs "promise-1") (bs "docs/readme.txt") path in
  _ ← unwrap r;
  Some runtime.

Definition materialized_read_plan_takes_priority_over_cache : Test :=
  x ← runtime_with_file;
  let '(runtime, _) := x in
  let materialized_path := bs "/tmp/fuse-promise-materialized/readme.txt" in
  runtime ← with_read_through runtime 4;
  runtime ← record_readme runtime 4 (bs "cached");
  runtime ← mark_readme runtime materialized_path;
  plan ← unwrap (plan_readme runtime 4 6);
  assert_eq plan (MaterializedPlan (mkMaterializedReadPlan materialized_path 4 6)).

Definition materialized_file_read_planning_survives_provider_disconnect : Test :=
  x ← runtime_with_file;
  let '(runtime, _) := x in
  let materialized_path := bs "/tmp/fuse-promise-materialized/readme.txt" in
  runtime ← mark_readme runtime materialized_path;
  provider ← ProviderId_from_raw 1;
  let '(runtime, r) := Runtime_unregister_provider runtime provider in
  _ ← unwrap r;
  plan ← unwrap (plan_readme runtime 4 20);
  assert_eq plan (MaterializedPlan (mkMaterializedReadPlan materialized_path 4 8)).

(** ** Directories *)

(** A host of user 1000 with these paths. *)
Definition host_with (paths : gmap str PathMetadata) : Host :=
  let stat path := from_option Ok (Err (mkIoError KNotFound (bs "No such file or directory"))) (paths !! path) in
  mkHost None stat stat 1000 (Ok (bs "/")) (fun _ => Err (mkIoError KNotFound [])).

Definition directory_with (mode : Z) : PathMetadata := mkPathMetadata PathDirectory 1000 mode.

Definition validates_safe_runtime_directory : Test :=
  let host := host_with {[ bs "/tmp/dir" := directory_with 448 ]} in
  assert_eq (validate_runtime_dir_path host (bs "/tmp/dir")) (Ok tt).

Definition rejects_unsafe_runtime_directory_paths : Test :=
  let host := host_with (<[bs "/tmp/dir" := directory_with 493]> {[ bs "/tmp/file" := mkPathMetadata PathOther 1000 384 ]}) in
  _ ← assert_eq (validate_runtime_dir_path host (bs "relative")) (Err InvalidArgument);
  _ ← assert_eq (validate_runtime_dir_path host (bs "/tmp/dir")) (Err Permission);
  assert_eq (validate_runtime_dir_path host (bs "/tmp/file")) (Err InvalidArgument).

(** [mkdir] on such a host. *)
Definition mkdir_in (paths : gmap str PathMetadata) (path : str) (mode : Z) : M Host IoError () := fun _ =>
  (host_with (<[path := directory_with mode]> paths), Ok tt).

Definition prepares_private_mount_directory : Test :=
  let paths := {[ bs "/tmp/dir" := directory_with 448 ]} in
  let mount_path := path_join (bs "/tmp/dir") (bs "fuse-promise") in
  let '(host, r) := prepare_mount_dir (mkdir_in paths) mount_path (host_with paths) in
  _ ← assert_eq r (Ok tt);
  metadata ← unwrap (ho_symlink_metadata host mount_path);
  _ ← assert (is_dir metadata);
  _ ← assert_eq (Z.land (pa_mode metadata) 511) 448;
  assert_eq (pa_uid metadata) (ho_current_uid host).

Definition rejects_unsafe_mount_directory_paths : Test :=
  let paths :=
    <[bs "/tmp/dir/unsafe" := directory_with 493]> (<[bs "/tmp/dir/file" := mkPathMetadata PathOther 1000 420]>
      (<[bs "/tmp/dir/symlink" := mkPathMetadata PathSymlink 1000 511]> {[ bs "/tmp/dir" := directory_with 448 ]})) in
  let prepare path := (prepare_mount_dir (mkdir_in paths) path (host_with paths)).2 in
  _ ← assert_eq (prepare (bs "relative")) (Err InvalidArgument);
  _ ← assert_eq (prepare (bs "/tmp/dir/unsafe")) (Err Permission);
  _ ← assert_eq (prepare (bs "/tmp/dir/file")) (Err InvalidArgument);
  assert_eq (prepare (bs "/tmp/dir/symlink")) (Err InvalidArgument).

Definition validates_mode_and_directory_size : Test :=
  let '(runtime, provider) := Runtime_register_provider Runtime_new in
  let builder := PromiseBuilder_new provider in
  let '(builder, r) := PromiseBuilder_add_file builder (bs "bad") (mkNodeAttr 33188 1 0) (bs "bad") in
  _ ← assert_eq r (Err InvalidArgument);
  let '(builder, r) := PromiseBuilder_add_dir builder (bs "nonempty-dir") (mkNodeAttr 493 1 0) (bs "dir") in
  _ ← assert_eq r (Err InvalidArgument);
  let '(builder, r) := PromiseBuilder_add_file builder (bs "negative-mtime") (mkNodeAttr 420 1 (-1)) (bs "bad") in
  assert_eq r (Err InvalidArgument).

(** ** All of them pass *)

Definition runtime_tests : list Test := [
  runtime_defaults_to_explicit_no_cache_policy; normalizes_safe_relative_paths; rejects_unsafe_paths;
  builder_requires_declared_parent_directories; promise_tree_returns_stable_subtree_nodes;
  provider_disconnect_marks_existing_promises_unavailable; commit_assigns_daemon_global_node_ids_and_inodes;
  resolves_runtime_entries_by_inode_and_child_name; commit_fails_after_provider_unregisters;
  unregister_rejects_unknown_provider; plans_provider_owned_file_reads; read_planning_caps_at_eof;
  read_planning_rejects_missing_or_non_file_nodes; read_planning_rejects_disconnected_provider;
  read_through_cache_hit_survives_provider_disconnect; sequential_prefetch_plans_next_uncached_range;
  read_through_coalesces_provider_reads_to_cache_chunk; no_cache_keeps_provider_reads_exact;
  materialized_read_plan_takes_priority_over_cache; materialized_file_read_planning_survives_provider_disconnect;
  validates_safe_runtime_directory; rejects_unsafe_runtime_directory_paths; prepares_private_mount_directory;
  rejects_unsafe_mount_directory_paths; validates_mode_and_directory_size].

Example runtime_tests_pass : Forall (fun test => test = Some tt) runtime_tests.
Proof. repeat (constructor; [vm_compute; reflexivity|]). constructor. Qed.
