(* ===== verification/IpcTests.v ===== *)
(** * The unit tests of the IPC crate, run on the model

    The tests of [crates/fuse-promise-ipc/src/lib.rs], as computations of the
    model's definitions, with the codecs of [Wire] for [bincode] and the file
    system of [ModelFs] for temporary directories.

    A test that talks to a connection thread is a [Session]: the messages it has
    sent so far.  The thread is sequential and its circumstances are fixed, so
    that what it answers to a message is the last response of the connection
    when the messages up to that one have been sent. *)

From S2P Require Import Prelude Types Paths Cache Tree Runtime ReadPlan Messages Frame Wire Commit Mount IpcState Routing Report Server Router Content FuseAdapter Effect Fs Materialize ModelFs MaterializeSample Host RuntimeTests Client.

#[local] Existing Instance wire_requests.
#[local] Existing Instance wire_responses.

(** ** [str::contains] *)

Fixpoint contains (s pattern : str) : bool :=
  bool_decide (pattern `prefix_of` s) || match s with [] => false | _ :: s => contains s pattern end.

(** ** Status texts *)

Definition status_encoding_is_key_value_text : Test :=
  let status := mkDaemonStatus 1 (bs "/run/user/1000/fuse-promise") (bs "/run/user/1000/fuse-promise.sock")
    (bs "connected") (bs "not-mounted") (bs "not-implemented") (bs "no-cache") 2 3 in
  let encoded := DaemonStatus_encode status in
  _ ← assert (bool_decide (line (bs "ok") `prefix_of` encoded));
  _ ← assert (contains encoded (line (bs "api_version=1")));
  _ ← assert (contains encoded (line (bs "cache_policy=no-cache")));
  _ ← assert (contains encoded (line (bs "providers=2")));
  assert (contains encoded (line (bs "promises=3"))).

(** [XDG_RUNTIME_DIR] is a private temporary directory. *)
Definition xdg_host : Host :=
  mkHost (Some (bs "/tmp/dir")) (fun _ => Ok (directory_with 448)) (fun _ => Ok (directory_with 448)) 1000
    (Ok (bs "/")) (fun _ => Ok tt).

Definition status_reports_read_through_cache_policy : Test :=
  policy ← unwrap (CachePolicy_read_through 4096);
  runtime ← unwrap (Runtime_with_cache_policy policy);
  status ← unwrap (DaemonStatus_from_runtime (default_mount_path xdg_host) (default_control_socket_path xdg_host) runtime);
  _ ← assert_eq (ds_cache_policy status) (bs "read-through");
  assert (contains (DaemonStatus_encode status) (line (bs "cache_policy=read-through"))).

(** ** Frames *)

Definition framed_response_round_trips : Test :=
  let body := mkStatusBody 1 (bs "/run/user/1000/fuse-promise") (bs "/run/user/1000/fuse-promise.sock")
    (bs "connected") (bs "not-mounted") (bs "not-implemented") (bs "no-cache") 2 3 in
  let '(w, r) := write_frame (mkWriter [] None) (ResponseStatus body) in
  _ ← unwrap r;
  let '(_, r) := read_frame (mkReader (wr_bytes w) None) in
  decoded ← unwrap r;
  assert_eq decoded (Some (ResponseStatus body)).

Definition read_frame_rejects_oversize_payload : Test :=
  let frame := u32_to_le_bytes (MAX_FRAME_LEN + 1) in
  let '(_, r) := @read_frame Request _ (mkReader frame None) in
  match r with
  | Err error => assert_eq (io_kind error) KInvalidData
  | Ok _ => None
  end.

(** ** Connections *)

Record Session : Type := mkSession {
  se_state : IpcState;
  se_sent : list Request;
}.

Definition session_reader (se : Session) : Reader := mkReader (concat (message_frame <$> se_sent se)) None.
Definition session_envs (se : Session) : list RegisterEnv := replicate (S (length (se_sent se))) (mkRegisterEnv (Ok 42) (Ok tt)).

(** The thread once it has handled what was sent: the state it shares, its
    variables and its result. *)
Definition served_so_far (se : Session) : option (IpcState * (Client * IoResult ())) :=
  handle_client_requests (default_mount_path xdg_host) (default_control_socket_path xdg_host) no_materialize
    (se_state se) (mkClient 7 (session_reader se) (mkWriter [] None) false []) (session_envs se).

(** [write_frame(&mut client, ..)] and [read_frame(&mut client)]. *)
Definition exchange (se : Session) (request : Request) : option (Session * Response) :=
  let se := mkSession (se_state se) (se_sent se ++ [request]) in
  x ← served_so_far se;
  let bytes := wr_bytes (cl_writer x.2.1) in
  y ← read_frames (S (length bytes)) (mkReader bytes None);
  _ ← unwrap y.2;
  response ← last y.1;
  Some (se, response).

(** [drop(client)] and [server_thread.join().unwrap().unwrap()]. *)
Definition drop_client (se : Session) : option IpcState :=
  x ← handle_client_with_state (default_mount_path xdg_host) (default_control_socket_path xdg_host) no_materialize
        (se_state se) 7 (session_reader se) (mkWriter [] None) 1000 1000 (session_envs se);
  _ ← unwrap x.2;
  Some x.1.

Definition handle_client (runtime : Runtime) : Session := mkSession (IpcState_new runtime) [].

Definition send_hello (se : Session) : option Session :=
  x ← exchange se (RequestHello IPC_PROTOCOL_VERSION API_VERSION);
  _ ← assert_eq x.2 (ResponseHello IPC_PROTOCOL_VERSION API_VERSION);
  Some x.1.

Definition registered_provider (response : Response) : option (Z * Z) :=
  match response with
  | ResponseProviderRegistered provider_id provider_owner_token => Some (provider_id, provider_owner_token)
  | _ => None
  end.

(** The hello and the registration with which most tests begin. *)
Definition hello_and_register (se : Session) : option (Session * (Z * Z)) :=
  se ← send_hello se;
  x ← exchange se RequestProviderRegister;
  provider ← registered_provider x.2;
  Some (x.1, provider).

Definition mounted_state (runtime : Runtime) : IpcState :=
  set_mount_status (IpcState_new runtime) (IpcMountStatus_commit_ready (bs "/tmp/fuse-promise")).

Definition handle_mounted (runtime : Runtime) : Session := mkSession (mounted_state runtime) [].

Definition sample_commit_request (provider_id provider_owner_token : Z) : PromiseCommitRequest :=
  mkPromiseCommitRequest provider_id provider_owner_token
    [mkPromiseNodeSpec SpecDirectory (bs "docs") (bs "remote-dir-1") (mkPromiseNodeAttr 493 0 0);
     mkPromiseNodeSpec SpecFile (bs "docs/readme.txt") (bs "remote-file-1") (mkPromiseNodeAttr 420 12 0)].

Definition commit_of (provider_id provider_owner_token : Z) : Request :=
  RequestPromiseCommit (PromiseCommitRequest_into_body (sample_commit_request provider_id provider_owner_token)).

Definition error_response (code : ErrorCode) (message : str) : Response := ResponseError (mkErrorBody code message).

Definition client_and_server_negotiate_status : Test :=
  let '(runtime, _) := Runtime_register_provider Runtime_new in
  let client := handle_client runtime in
  x ← exchange client (RequestHello IPC_PROTOCOL_VERSION API_VERSION);
  let '(client, hello) := x in
  _ ← assert_eq hello (ResponseHello IPC_PROTOCOL_VERSION API_VERSION);
  x ← exchange client RequestStatus;
  let '(client, response) := x in
  status ← (match response with ResponseStatus status => Some status | _ => None end);
  _ ← assert_eq (sb_providers status) 1;
  _ ← assert_eq (sb_promises status) 0;
  _ ← assert_eq (sb_daemon status) (bs "connected");
  _ ← assert_eq (sb_cache_policy status) (bs "no-cache");
  _ ← drop_client client;
  Some tt.

Definition status_uses_shared_mount_state : Test :=
  let state := set_mount_status (IpcState_new Runtime_new) (IpcMountStatus_mounted (bs "/tmp/fuse-promise")) in
  client ← send_hello (mkSession state []);
  x ← exchange client RequestStatus;
  let '(client, response) := x in
  status ← (match response with ResponseStatus status => Some status | _ => None end);
  _ ← assert_eq (sb_mount status) (bs "mounted");
  _ ← assert_eq (sb_fuse_adapter status) (bs "enabled");
  _ ← assert_eq (sb_cache_policy status) (bs "no-cache");
  _ ← drop_client client;
  Some tt.

Definition server_rejects_bad_hello_version : Test :=
  x ← exchange (handle_client Runtime_new) (RequestHello (IPC_PROTOCOL_VERSION + 1) API_VERSION);
  let '(client, response) := x in
  _ ← assert_eq response (error_response EcVersionMismatch (bs "unsupported IPC protocol or API version"));
  _ ← drop_client client;
  Some tt.

Definition server_rejects_status_before_hello : Test :=
  x ← exchange (handle_client Runtime_new) RequestStatus;
  let '(client, response) := x in
  _ ← assert_eq response (error_response EcInvalidRequest (bs "client must send hello before status"));
  _ ← drop_client client;
  Some tt.

(** ** Providers *)

Definition provider_register_and_unregister_mutate_runtime : Test :=
  x ← hello_and_register (handle_client Runtime_new);
  let '(client, (provider_id, provider_owner_token)) := x in
  _ ← assert_eq provider_id 1;
  x ← exchange client (RequestProviderUnregister provider_id provider_owner_token);
  let '(client, response) := x in
  _ ← assert_eq response ResponseProviderUnregistered;
  state ← drop_client client;
  provider_id ← ProviderId_from_raw provider_id;
  provider ← Runtime_provider (st_runtime state) provider_id;
  assert_eq (ps_state provider) Disconnected.

Definition provider_unregister_rejects_unknown_provider : Test :=
  client ← send_hello (handle_client Runtime_new);
  x ← exchange client (RequestProviderUnregister 99 1);
  let '(client, response) := x in
  _ ← assert_eq response (error_response EcNotFound (bs "not found"));
  _ ← drop_client client;
  Some tt.

Definition provider_unregister_rejects_wrong_owner_token : Test :=
  x ← hello_and_register (handle_client Runtime_new);
  let '(client, (provider_id, provider_owner_token)) := x in
  x ← exchange client (RequestProviderUnregister provider_id (Z.lxor provider_owner_token 1));
  let '(client, response) := x in
  _ ← assert_eq response (error_response EcPermission (bs "permission denied"));
  _ ← drop_client client;
  Some tt.

(** ** Commits *)

Definition committed_response_1 : Response :=
  ResponsePromiseCommitted (mkPromiseCommittedBody (bs "promise-1") (bs "/tmp/fuse-promise/promise-1")).

Definition promise_commit_mutates_runtime : Test :=
  x ← hello_and_register (handle_mounted Runtime_new);
  let '(client, (provider_id, provider_owner_token)) := x in
  x ← exchange client (commit_of provider_id provider_owner_token);
  let '(client, response) := x in
  _ ← assert_eq response committed_response_1;
  state ← drop_client client;
  let runtime := st_runtime state in
  tree ← Runtime_promise runtime (bs "promise-1");
  _ ← assert (bool_decide (is_Some (PromiseTree_get tree (bs "docs/readme.txt"))));
  assert_eq (Runtime_promise_count runtime) 1.

Definition inspect_reports_committed_runtime_tree : Test :=
  x ← hello_and_register (handle_mounted Runtime_new);
  let '(client, (provider_id, provider_owner_token)) := x in
  x ← exchange client (commit_of provider_id provider_owner_token);
  let '(client, _) := x in
  x ← exchange client RequestInspect;
  let '(client, response) := x in
  inspect ← (match response with ResponseInspect inspect => Some inspect | _ => None end);
  _ ← assert_eq (ib_providers inspect) 1;
  _ ← assert_eq (length (ib_promises inspect)) 1%nat;
  promise ← ib_promises inspect !! 0%nat;
  _ ← assert_eq (ip_promise_id promise) (bs "promise-1");
  _ ← assert_eq (ip_state promise) (bs "available");
  _ ← assert_eq (length (ip_nodes promise)) 3%nat;
  _ ← assert (contains (InspectBody_encode_text inspect) (bs "path=docs/readme.txt"));
  _ ← drop_client client;
  Some tt.

Definition promise_commit_rejects_unmounted_state_without_mutating_runtime : Test :=
  x ← hello_and_register (handle_client Runtime_new);
  let '(client, (provider_id, provider_owner_token)) := x in
  x ← exchange client (commit_of provider_id provider_owner_token);
  let '(client, response) := x in
  _ ← assert_eq response (error_response EcUnavailable (bs "unavailable"));
  state ← drop_client client;
  assert_eq (Runtime_promise_count (st_runtime state)) 0.

Definition promise_commit_rejects_unknown_provider : Test :=
  client ← send_hello (handle_mounted Runtime_new);
  x ← exchange client (commit_of 99 1);
  let '(client, response) := x in
  _ ← assert_eq response (error_response EcNotFound (bs "not found"));
  state ← drop_client client;
  assert_eq (Runtime_promise_count (st_runtime state)) 0.

Definition promise_commit_rejects_wrong_provider_owner_token : Test :=
  x ← hello_and_register (handle_mounted Runtime_new);
  let '(client, (provider_id, provider_owner_token)) := x in
  x ← exchange client (commit_of provider_id (Z.lxor provider_owner_token 1));
  let '(client, response) := x in
  _ ← assert_eq response (error_response EcPermission (bs "permission denied"));
  state ← drop_client client;
  assert_eq (Runtime_promise_count (st_runtime state)) 0.

Definition set_node (g : PromiseNodeBody -> PromiseNodeBody) (request : PromiseCommitBody) : PromiseCommitBody :=
  mkPromiseCommitBody (cb_provider_id request) (cb_provider_owner_token request)
    (match cb_nodes request with [] => [] | node :: nodes => g node :: nodes end).

Definition invalid_commit_request (mutate : PromiseCommitBody -> PromiseCommitBody) : PromiseCommitBody :=
  mutate (PromiseCommitRequest_into_body (sample_commit_request 1 1)).

Definition with_path (path : str) (n : PromiseNodeBody) : PromiseNodeBody :=
  mkPromiseNodeBody (nb_kind n) path (nb_provider_node_id n) (nb_mode n) (nb_size n) (nb_mtime_nsec n).

Definition invalid_requests : list PromiseCommitBody := [
  invalid_commit_request (set_node (with_path (bs "/docs")));
  invalid_commit_request (set_node (with_path (bs "docs/../bad")));
  invalid_commit_request (set_node (with_path (bs "do" ++ [nul] ++ bs "cs")));
  invalid_commit_request (fun r => mkPromiseCommitBody (cb_provider_id r) (cb_provider_owner_token r)
                                     (cb_nodes r ++ take 1 (cb_nodes r)));
  invalid_commit_request (fun r => mkPromiseCommitBody (cb_provider_id r) (cb_provider_owner_token r)
                                     (tail (cb_nodes r)));
  invalid_commit_request (set_node (fun n => mkPromiseNodeBody FileBody (nb_relative_path n) (nb_provider_node_id n)
                                               (nb_mode n) (nb_size n) (nb_mtime_nsec n)));
  invalid_commit_request (set_node (fun n => mkPromiseNodeBody (nb_kind n) (nb_relative_path n) (nb_provider_node_id n)
                                               33261 (nb_size n) (nb_mtime_nsec n)));
  invalid_commit_request (set_node (fun n => mkPromiseNodeBody (nb_kind n) (nb_relative_path n) (nb_provider_node_id n)
                                               (nb_mode n) 1 (nb_mtime_nsec n)));
  invalid_commit_request (set_node (fun n => mkPromiseNodeBody (nb_kind n) (nb_relative_path n) (nb_provider_node_id n)
                                               (nb_mode n) (nb_size n) (-1)));
  invalid_commit_request (set_node (fun n => mkPromiseNodeBody (nb_kind n) (nb_relative_path n) []
                                               (nb_mode n) (nb_size n) (nb_mtime_nsec n)))].

(** The body of the loop over the cases. *)
Definition invalid_case (request : PromiseCommitBody) : Test :=
  x ← hello_and_register (handle_mounted Runtime_new);
  let '(client, (provider_id, provider_owner_token)) := x in
  x ← exchange client (RequestPromiseCommit (mkPromiseCommitBody provider_id provider_owner_token (cb_nodes request)));
  let '(client, response) := x in
  _ ← assert (match response with
              | ResponseError (mkErrorBody (EcInvalidRequest | EcNotFound | EcAlreadyExists) _) => true
              | _ => false
              end);
  state ← drop_client client;
  assert_eq (Runtime_promise_count (st_runtime state)) 0.

Definition promise_commit_rejects_invalid_metadata_without_mutating_runtime : Test :=
  foldr (fun request rest => _ ← invalid_case request; rest) (Some tt) invalid_requests.

(** ** The end of a connection *)

Definition provider_connection_drop_marks_provider_disconnected : Test :=
  x ← hello_and_register (handle_client Runtime_new);
  let '(client, (provider_id, _)) := x in
  state ← drop_client client;
  provider_id ← ProviderId_from_raw provider_id;
  provider ← Runtime_provider (st_runtime state) provider_id;
  assert_eq (ps_state provider) Disconnected.

Definition provider_connection_drop_marks_owned_promises_provider_gone : Test :=
  x ← hello_and_register (handle_mounted Runtime_new);
  let '(client, (provider_id, provider_owner_token)) := x in
  x ← exchange client (commit_of provider_id provider_owner_token);
  let '(client, response) := x in
  _ ← assert_eq response committed_response_1;
  state ← drop_client client;
  promise ← Runtime_promise (st_runtime state) (bs "promise-1");
  assert_eq (pt_state promise) PromiseProviderGone.

(** ** The client functions *)

(** A host with a control socket that can be connected to. *)
Definition socket_host : Host :=
  mkHost None (fun _ => Ok (mkPathMetadata PathSocket 1000 384)) (fun _ => Ok (mkPathMetadata PathSocket 1000 384)) 1000
    (Ok (bs "/")) (fun _ => Ok tt).

(** A client function against a connection thread: its messages are those of
    the session, and it reads what the thread answers to them. *)
Definition client_call {A} (se : Session) (requests : list Request) (f : M Stream IoError A) :
    option (Session * A) :=
  let se := mkSession (se_state se) (se_sent se ++ requests) in
  before ← served_so_far (mkSession (se_state se) (take (length (se_sent se) - length requests) (se_sent se)));
  after ← served_so_far se;
  let answered := wr_bytes (cl_writer after.2.1) in
  let '(stream, r) := f (mkStream (mkReader (drop (length (wr_bytes (cl_writer before.2.1))) answered) None) (mkWriter [] None)) in
  a ← unwrap r;
  _ ← assert_eq (wr_bytes (sm_writer stream)) (concat (message_frame <$> requests));
  Some (se, a).

Definition connect_requests : list Request := [RequestHello IPC_PROTOCOL_VERSION API_VERSION; RequestProviderRegister].

Definition provider_helpers_use_unix_socket : Test :=
  x ← client_call (handle_client Runtime_new) connect_requests (connect_provider socket_host (bs "/tmp/s.sock"));
  let '(server, provider) := x in
  x ← client_call server [RequestProviderUnregister (Client.pc_provider_id provider) (Client.pc_provider_owner_token provider)]
        (ProviderConnection_unregister provider);
  let '(server, _) := x in
  state ← drop_client server;
  provider_id ← ProviderId_from_raw (Client.pc_provider_id provider);
  session ← Runtime_provider (st_runtime state) provider_id;
  assert_eq (ps_state session) Disconnected.

Definition commit_helper_uses_unix_socket : Test :=
  x ← client_call (handle_mounted Runtime_new) connect_requests (connect_provider socket_host (bs "/tmp/s.sock"));
  let '(provider_server, provider) := x in
  connected ← served_so_far provider_server;
  let request := sample_commit_request (Client.pc_provider_id provider) (Client.pc_provider_owner_token provider) in
  x ← client_call (mkSession connected.1 [])
        [RequestHello IPC_PROTOCOL_VERSION API_VERSION; RequestPromiseCommit (PromiseCommitRequest_into_body request)]
        (commit_promise socket_host (bs "/tmp/s.sock") request);
  let '(commit_server, response) := x in
  _ ← assert_eq (pm_promise_id response) (bs "promise-1");
  _ ← assert_eq (pm_visible_path response) (bs "/tmp/fuse-promise/promise-1");
  state ← drop_client commit_server;
  let state := disconnect_registered_providers state (cl_registered connected.2.1) in
  tree ← Runtime_promise (st_runtime state) (bs "promise-1");
  assert (bool_decide (is_Some (PromiseTree_get tree (bs "docs/readme.txt")))).

Definition promise_commit_request_from_builder_omits_root_node : Test :=
  provider_id ← ProviderId_from_raw 7;
  let builder := PromiseBuilder_new provider_id in
  let '(builder, r) := PromiseBuilder_add_dir builder (bs "docs") (mkNodeAttr 493 0 0) (bs "remote-dir-1") in
  _ ← unwrap r;
  let '(builder, r) :=
    PromiseBuilder_add_file builder (bs "docs/readme.txt") (mkNodeAttr 420 12 123) (bs "remote-file-1") in
  _ ← unwrap r;
  let request := PromiseCommitRequest_from_builder_with_owner_token builder 42 in
  _ ← assert_eq (Messages.pc_provider_id request) 7;
  _ ← assert_eq (Messages.pc_provider_owner_token request) 42;
  _ ← assert_eq (length (pc_nodes request)) 2%nat;
  first ← pc_nodes request !! 0%nat;
  second ← pc_nodes request !! 1%nat;
  _ ← assert (match sp_kind first with SpecDirectory => true | SpecFile => false end);
  _ ← assert_eq (sp_relative_path first) (bs "docs");
  _ ← assert (match sp_kind second with SpecFile => true | SpecDirectory => false end);
  assert_eq (sp_relative_path second) (bs "docs/readme.txt").

(** ** Routed reads *)

(** A provider's connection: [read_provider_read_request] on the frame that the
    router writes. *)
Definition provider_receives (request : ProviderReadRequest) : option ProviderReadRequest :=
  let '(w, r) := write_provider_read_request (mkWriter [] None) request in
  _ ← unwrap r;
  let '(_, r) := read_provider_read_request (mkReader (wr_bytes w) None) in
  request ← unwrap r;
  request.

(** [write_provider_read_response], and the frame as the daemon's thread reads it. *)
Definition provider_answers (response : ProviderReadResponse) : option ProviderReadResponseBody :=
  let '(w, r) := write_provider_read_response (mkWriter [] None) response in
  _ ← unwrap r;
  let '(_, r) := read_frame (mkReader (wr_bytes w) None) in
  request ← unwrap r;
  match request with
  | Some (RequestProviderReadResponse body) => Some body
  | _ => None
  end.

Definition routes_provider_read_requests_to_registered_provider_connection : Test :=
  x ← hello_and_register (handle_client Runtime_new);
  let '(provider, (provider_id, _)) := x in
  server ← served_so_far provider;
  let '(state, (connection, _)) := server in
  let routed_request := mkProviderReadRequest 99 provider_id (bs "promise-1") (bs "docs/readme.txt") (bs "remote-file-1") 3 6 in
  request ← provider_receives routed_request;
  _ ← assert_eq (rq_request_id request) 99;
  _ ← assert_eq (rq_provider_id request) provider_id;
  _ ← assert_eq (rq_offset request) 3;
  body ← provider_answers (mkProviderReadResponse (rq_request_id request) PrOk (bs "answer"));
  let '(state, r) :=
    route_provider_read (mkReadEnv (Ok tt) [EnvComplete (cl_registered connection) body]) state routed_request in
  response ← unwrap r;
  _ ← assert_eq (rs_status response) PrOk;
  _ ← assert_eq (rs_bytes response) (bs "answer");
  _ ← drop_client provider;
  Some tt.

Definition route_provider_read_rejects_wrong_provider_response_connection : Test :=
  x ← hello_and_register (handle_client Runtime_new);
  let '(provider_one, (provider_one_id, _)) := x in
  server_one ← served_so_far provider_one;
  x ← hello_and_register (mkSession server_one.1 []);
  let '(provider_two, _) := x in
  server_two ← served_so_far provider_two;
  let '(state, (connection_two, _)) := server_two in
  let routed_request := mkProviderReadRequest 12345 provider_one_id (bs "promise-1") (bs "docs/readme.txt") (bs "remote-file-1") 0 1 in
  request ← provider_receives routed_request;
  _ ← assert_eq (rq_request_id request) 12345;
  let body := mkProviderReadResponseBody 12345 PbOk [] in
  _ ← unwrap (complete_provider_read (route_insert state routed_request (new_channel state)).1
                (cl_registered connection_two) body).2;
  let '(state, r) :=
    route_provider_read (mkReadEnv (Ok tt) [EnvComplete (cl_registered connection_two) body]) state routed_request in
  match r with
  | Err error => assert_eq (io_kind error) KPermissionDenied
  | Ok _ => None
  end.

(** ** Read messages *)

(** [sample_read_request]. *)
Definition test_read_request : ProviderReadRequest :=
  mkProviderReadRequest 7 1 (bs "promise-1") (bs "docs//readme.txt") (bs "remote-file-1") 0 12.

Definition is_err {E A} (r : result E A) : bool := negb (is_ok r).

Definition provider_read_messages_round_trip : Test :=
  decoded ← provider_receives test_read_request;
  _ ← assert_eq (rq_relative_path decoded) (bs "docs/readme.txt");
  _ ← assert_eq (rq_length decoded) 12;
  let response := mkProviderReadResponse (rq_request_id decoded) PrOk (bs "hello") in
  _ ← unwrap (validate_provider_read_response_for_request decoded response);
  let '(w, r) := write_provider_read_response (mkWriter [] None) response in
  _ ← unwrap r;
  let '(_, r) := read_provider_read_response (mkReader (wr_bytes w) None) in
  r ← unwrap r;
  decoded_response ← r;
  _ ← assert_eq (rs_request_id decoded_response) (rs_request_id response);
  _ ← assert_eq (rs_status decoded_response) (rs_status response);
  assert_eq (rs_bytes decoded_response) (rs_bytes response).

Definition read_refused (request : ProviderReadRequest) : Test :=
  assert (is_err (write_provider_read_request (mkWriter [] None) request).2).

Definition provider_read_request_rejects_invalid_ranges : Test :=
  let request := test_read_request in
  let with_range offset length :=
    mkProviderReadRequest (rq_request_id request) (rq_provider_id request) (rq_promise_id request)
      (rq_relative_path request) (rq_provider_node_id request) offset length in
  _ ← read_refused (with_range 0 0);
  _ ← read_refused (with_range 0 (MAX_PROVIDER_READ_LEN + 1));
  read_refused (with_range u64_max 12).

Definition provider_read_request_rejects_invalid_identity_fields : Test :=
  let request := test_read_request in
  let with_identity request_id provider_id promise_id relative_path :=
    mkProviderReadRequest request_id provider_id promise_id relative_path (rq_provider_node_id request)
      (rq_offset request) (rq_length request) in
  _ ← read_refused (with_identity 0 1 (bs "promise-1") (bs "docs//readme.txt"));
  _ ← read_refused (with_identity 7 0 (bs "promise-1") (bs "docs//readme.txt"));
  _ ← read_refused (with_identity 7 1 [] (bs "docs//readme.txt"));
  read_refused (with_identity 7 1 (bs "promise-1") (bs "../bad")).

Definition provider_read_response_is_checked_against_request : Test :=
  let request := test_read_request in
  let response := mkProviderReadResponse (rq_request_id request + 1) PrOk (bs "hello") in
  _ ← assert (is_err (validate_provider_read_response_for_request request response));
  let response := mkProviderReadResponse (rq_request_id request) PrOk (replicate (Z.to_nat (rq_length request) + 1) Byte.x01) in
  _ ← assert (is_err (validate_provider_read_response_for_request request response));
  let response := mkProviderReadResponse (rq_request_id request) PrProviderGone (bs "bad") in
  assert (is_err (write_provider_read_response (mkWriter [] None) response).2).

Definition provider_gone_error_preserves_io_kind : Test :=
  let error := error_to_io (mkErrorBody EcProviderGone (bs "provider gone")) in
  assert_eq (io_kind error) KBrokenPipe.

(** ** Materialization *)

(** A temporary directory, and [fs::write], [fs::read], [fs::create_dir],
    [fs::symlink_metadata] on it. *)
Definition tempdir : ModelFs :=
  mkModelFs (<[bs "/" := 1]> {[ bs "/tmp/dir" := 2 ]})
    (<[1 := (mkFsObject FsDirectory [] 493 (mkTimespec 0 0), 0)]>
      {[ 2 := (mkFsObject FsDirectory [] 448 (mkTimespec 0 0), 1) ]}) [].

Definition run_fs {A} (m : M ModelFs IoError A) (f : ModelFs) : option (ModelFs * A) :=
  let '(f, r) := m f in a ← unwrap r; Some (f, a).

Definition fs_write (path : str) (bytes : list byte) : M ModelFs IoError () :=
  file ← open_new path 420;
  file_write_all file bytes.

Definition fs_read (f : ModelFs) (path : str) : option (list byte) :=
  id ← fs_at f path;
  fo_bytes <$> fs_obj f id.

Definition identity_at (f : ModelFs) (path : str) : option FileIdentity :=
  x ← run_fs (symlink_metadata path) f; Some (md_identity x.2).

Definition exists_at (f : ModelFs) (path : str) : bool := bool_decide (is_Some (fs_at f path)).

Definition materialized_chunk_reads_local_ranges_and_rejects_short_backing_file : Test :=
  x ← run_fs (fs_write (bs "/tmp/dir/readme.txt") (line (bs "hello from fuse-promise"))) tempdir;
  let '(dir, _) := x in
  let '(dir, r) := read_local_materialized_chunk (bs "/tmp/dir/readme.txt") 6 4 dir in
  bytes ← unwrap r;
  _ ← assert_eq bytes (bs "from");
  let '(dir, r) := read_local_materialized_chunk (bs "/tmp/dir/readme.txt") 20 8 dir in
  assert_eq r (Err Io).

Definition always_continue (u : ()) (progress : MaterializeProgress) : () * Result () := (u, Ok tt).

Definition materialize_existing_target_is_not_owned_for_cleanup : Test :=
  x ← run_fs (fs_write (bs "/tmp/dir/readme.txt") (bs "existing")) tempdir;
  let '(dir, _) := x in
  let entry := mkMaterializeEntryPlan (bs "docs/readme.txt") (bs "/tmp/dir/readme.txt") File 1 420 0 in
  let '(w, r) := @write_materialized_file ModelFs () _ (routed sample_answers) 7 (bs "promise-1") entry PolicyFail
    (fun _ => mret tt) (mkWorld (IpcState_new Runtime_new) dir tt 0) in
  match r with
  | Ok _ => None
  | Err error =>
      _ ← assert_eq (we_status error) AlreadyExists;
      _ ← assert (negb (bool_decide (is_Some (we_target error))));
      assert_eq (fs_read (w_fs w) (bs "/tmp/dir/readme.txt")) (Some (bs "existing"))
  end.

Definition materialize_cleanup_removes_only_matching_target_identity : Test :=
  let target_path := bs "/tmp/dir/readme.txt" in
  let original_path := bs "/tmp/dir/original-readme.txt" in
  x ← run_fs (fs_write target_path (bs "ours")) tempdir;
  original_identity ← identity_at x.1 target_path;
  x ← run_fs (rename target_path original_path) x.1;
  x ← run_fs (fs_write target_path (bs "external")) x.1;
  let dir := cleanup_created_targets [mkCreatedTarget target_path original_identity TargetFile true] x.1 in
  _ ← assert_eq (fs_read dir target_path) (Some (bs "external"));
  _ ← assert_eq (fs_read dir original_path) (Some (bs "ours"));
  let dir := cleanup_created_targets [mkCreatedTarget original_path original_identity TargetFile true] dir in
  assert (negb (exists_at dir original_path)).

(** The file system of the model lets a user remove entries whatever the mode of
    the directory; what is seen here is that the clean-up removes the tree. *)
Definition materialize_cleanup_restores_directory_permissions : Test :=
  let root_path := bs "/tmp/dir/docs" in
  let child_path := bs "/tmp/dir/docs/guides" in
  let file_path := bs "/tmp/dir/docs/guides/setup.txt" in
  x ← run_fs (create_dir root_path 511;; create_dir child_path 511;; fs_write file_path (bs "setup")) tempdir;
  root ← identity_at x.1 root_path;
  child ← identity_at x.1 child_path;
  file ← identity_at x.1 file_path;
  x ← run_fs (set_permissions root_path 365;; set_permissions child_path 365) x.1;
  let dir := cleanup_created_targets
    [mkCreatedTarget root_path root TargetDirectory true; mkCreatedTarget child_path child TargetDirectory true;
     mkCreatedTarget file_path file TargetFile true] x.1 in
  assert (negb (exists_at dir root_path)).

Definition directory_materialize_reports_structured_partial_failure : Test :=
  x ← runtime_with_file;
  let '(runtime, _) := x in
  let state := mounted_state runtime in
  let body := mkMaterializeBody (bs "/tmp/fuse-promise/promise-1/docs") (bs "/tmp/dir") FailBody in
  let '(w, r) := @materialize_node_in_state ModelFs () _ (routed sample_answers) 7 always_continue body (mkWorld state tempdir tt 0) in
  match r with
  | Ok _ => None
  | Err error =>
      progress ← oe_progress error;
      _ ← assert_eq (mg_target_path progress) (bs "/tmp/dir/docs");
      _ ← assert_eq (mg_directories_created progress) 1;
      _ ← assert_eq (mg_files_written progress) 0;
      _ ← assert_eq (mg_bytes_written progress) 0;
      assert (negb (exists_at (w_fs w) (bs "/tmp/dir/docs")))
  end.

(** ** All of them pass *)

Definition ipc_tests : list Test := [
  status_encoding_is_key_value_text; status_reports_read_through_cache_policy; framed_response_round_trips;
  read_frame_rejects_oversize_payload; client_and_server_negotiate_status; status_uses_shared_mount_state;
  server_rejects_bad_hello_version; server_rejects_status_before_hello;
  provider_register_and_unregister_mutate_runtime; provider_unregister_rejects_unknown_provider;
  provider_unregister_rejects_wrong_owner_token; promise_commit_mutates_runtime;
  inspect_reports_committed_runtime_tree; promise_commit_rejects_unmounted_state_without_mutating_runtime;
  promise_commit_rejects_unknown_provider; promise_commit_rejects_wrong_provider_owner_token;
  promise_commit_rejects_invalid_metadata_without_mutating_runtime;
  provider_connection_drop_marks_provider_disconnected;
  provider_connection_drop_marks_owned_promises_provider_gone; provider_helpers_use_unix_socket;
  routes_provider_read_requests_to_registered_provider_connection;
  route_provider_read_rejects_wrong_provider_response_connection; commit_helper_uses_unix_socket;
  promise_commit_request_from_builder_omits_root_node; provider_read_messages_round_trip;
  provider_read_request_rejects_invalid_ranges; provider_read_request_rejects_invalid_identity_fields;
  provider_read_response_is_checked_against_request;
  materialized_chunk_reads_local_ranges_and_rejects_short_backing_file;
  materialize_existing_target_is_not_owned_for_cleanup;
  materialize_cleanup_removes_only_matching_target_identity; materialize_cleanup_restores_directory_permissions;
  provider_gone_error_preserves_io_kind; directory_materialize_reports_structured_partial_failure].

Example ipc_tests_pass : Forall (fun test => test = Some tt) ipc_tests.
Proof. repeat (constructor; [vm_compute; reflexivity|]). constructor. Qed.
