(* ===== verification/FfiTests.v ===== *)
(** * The unit tests of the C interface, run on the model

    The tests of [crates/fuse-promise-ffi/src/lib.rs], as computations of the
    model's definitions.  Structs and strings lie in a memory of bytes, handles
    on the heap of [Handles], and the daemon of the last test is a connection
    thread of [IpcTests]. *)

From S2P Require Import Prelude Types Paths Cache Tree Runtime Messages Frame Wire Commit Mount IpcState Report Server Effect Host RuntimeTests Client ClientServer IpcTests Ffi FfiProps Handles.

#[local] Existing Instance wire_requests.
#[local] Existing Instance wire_responses.

(** ** Reads *)

(** [sample_read_request]. *)
Definition callback_request : ProviderReadRequest :=
  mkProviderReadRequest 42 1 (bs "promise-1") (bs "docs/readme.txt") (bs "remote-file-1") 7 8.

Definition test_read_callback (call : Z) (request : fp_read_request_t) (response : fp_read_response_t) (user_data : Z) :
    option Z * fp_read_response_t :=
  if negb (user_data =? 0) then (Some FP_ERR_INVALID_ARGUMENT, response)
  else if negb (bool_decide (fr_promise_id request = bs "promise-1"))
       || negb (bool_decide (fr_node_id request = bs "remote-file-1"))
       || negb (bool_decide (fr_relative_path request = bs "docs/readme.txt"))
       || negb (fr_offset request =? 7) || negb (fr_length request =? 8)
  then (Some FP_ERR_INVALID_ARGUMENT, response)
  else
    let bytes := bs "abc" in
    if fr_buffer_len response <? len bytes then (Some FP_ERR_INVALID_ARGUMENT, response)
    else (Some FP_OK, mkReadResponse (copy_into (fr_buffer response) 0 bytes) (fr_buffer_len response) (len bytes)).

Definition dispatch_provider_read_calls_c_callback : Test :=
  let request := callback_request in
  let response := dispatch_provider_read 0 request test_read_callback 0 in
  _ ← assert_eq (rs_request_id response) (rq_request_id request);
  _ ← assert_eq (rs_status response) PrOk;
  assert_eq (rs_bytes response) (bs "abc").

(** What the daemon writes is what the thread reads, and the other way round. *)
Definition provider_helper_dispatches_socket_read_requests : Test :=
  _ ← unwrap (spawn_provider_helper (mkSpawnEnv (Ok tt) (Ok tt)) (mkProviderConnection 1 1) 4096 0);
  let request := callback_request in
  let '(daemon, r) := write_provider_read_request (mkWriter [] None) request in
  _ ← unwrap r;
  thread ← provider_helper_loop 2 test_read_callback 0 0 (mkStream (mkReader (wr_bytes daemon) None) (mkWriter [] None));
  let '(_, r) := read_provider_read_response (mkReader (wr_bytes (sm_writer thread)) None) in
  r ← unwrap r;
  response ← r;
  _ ← assert_eq (rs_request_id response) (rq_request_id request);
  _ ← assert_eq (rs_status response) PrOk;
  assert_eq (rs_bytes response) (bs "abc").

Definition provider_gone_io_maps_to_provider_gone_status : Test :=
  assert_eq (io_to_ffi (IoFailure (mkIoError KBrokenPipe (bs "provider gone")))) FP_ERR_PROVIDER_GONE.

(** ** Layout *)

(** [repr(C)]: the offsets of the fields, the size and the alignment. *)
Definition offsets (fields : list CType) : list Z :=
  (foldl (fun '(os, e) F => (os ++ [align_up e (align_of F)], struct_field_end e F)) ([], 0) fields).1.

Definition struct_align (fields : list CType) : Z := foldr Z.max 1 (align_of <$> fields).

Definition struct_size (fields : list CType) : Z :=
  align_up (foldl struct_field_end 0 fields) (struct_align fields).

Definition context_options_fields : list CType := [c_u32; c_u32; c_pointer].
Definition read_request_fields : list CType := [c_pointer; c_pointer; c_pointer; c_u64; c_u32].
Definition read_response_fields : list CType := [c_pointer; c_u64; c_u64].
Definition provider_ops_fields : list CType := [c_u32; c_pointer].
Definition node_attr_fields : list CType := [c_u32; c_u32; c_u64; c_i64].
Definition materialize_progress_fields : list CType := [c_u32] ++ replicate 8 c_u64 ++ [c_pointer].
Definition materialize_options_fields : list CType := [c_u32; c_u32; c_pointer; c_pointer].

Definition laid_out (fields : list CType) (size align : Z) (os : list Z) : Test :=
  _ ← assert_eq (struct_size fields) size;
  _ ← assert_eq (struct_align fields) align;
  assert_eq (offsets fields) os.

Definition public_abi_constants_and_layout_match_header : Test :=
  _ ← assert_eq API_VERSION 1;
  _ ← assert_eq (size_of c_u32) 4;
  _ ← assert_eq
        [FP_OK; FP_ERR_INVALID_ARGUMENT; FP_ERR_UNAVAILABLE; FP_ERR_PERMISSION; FP_ERR_NOT_FOUND;
         FP_ERR_ALREADY_EXISTS; FP_ERR_PROVIDER_GONE; FP_ERR_IO; FP_ERR_TIMEOUT; FP_ERR_CANCELLED;
         FP_ERR_VERSION_MISMATCH] [0; 1; 2; 3; 4; 5; 6; 7; 8; 9; 10];
  _ ← assert_eq [FP_CONFLICT_FAIL; FP_CONFLICT_OVERWRITE; FP_CONFLICT_RENAME] [0; 1; 2];
  _ ← laid_out context_options_fields 16 8 [0; 4; 8];
  _ ← laid_out read_request_fields 40 8 [0; 8; 16; 24; 32];
  _ ← laid_out read_response_fields 24 8 [0; 8; 16];
  _ ← laid_out provider_ops_fields 16 8 [0; 8];
  _ ← laid_out node_attr_fields 24 8 [0; 4; 8; 16];
  _ ← laid_out materialize_progress_fields 80 8 [0; 8; 16; 24; 32; 40; 48; 56; 64; 72];
  laid_out materialize_options_fields 24 8 [0; 4; 8; 16].

(** The sizes that the functions require are the sizes of the structs. *)
Example required_sizes_match_layout :
  required_context_options_size = struct_size context_options_fields /\
  required_provider_ops_size = struct_size provider_ops_fields /\
  required_node_attr_size = struct_size node_attr_fields /\
  materialize_progress_user_data_field_end = struct_size materialize_options_fields /\
  size_of_progress = struct_size materialize_progress_fields.
Proof. vm_compute. split_and!; reflexivity. Qed.

(** ** Null pointers *)

Definition closed_stream : Stream := mkStream (mkReader [] None) (mkWriter [] None).
Definition empty_memory : CMemory := mkCMemory (fun _ => None) (fun _ => test_read_callback) (fun _ _ _ _ => FP_OK).

Definition rejects (status : option Z) : Test := assert_eq status (Some FP_ERR_INVALID_ARGUMENT).

Definition public_entrypoints_reject_nulls_without_unwinding : Test :=
  let mem := empty_memory in
  let host := socket_host in
  let s := closed_stream in
  _ ← assert (negb (bool_decide (fp_status_string FP_ERR_INVALID_ARGUMENT = [])));
  _ ← rejects (fp_context_open mem host 1 0 None).2;
  _ ← fp_context_close 0 empty_heap;
  _ ← rejects (fp_provider_register mem host (mkSpawnEnv (Ok tt) (Ok tt)) None 0 0 None s).2;
  _ ← provider_release 0 empty_heap s;
  _ ← rejects (fp_promise_builder_new None None None).2;
  _ ← rejects (fp_promise_add_dir mem None 0 0 0).2;
  _ ← rejects (fp_promise_add_file mem None 0 0 0).2;
  _ ← rejects (fp_promise_commit host None None 0 s).2;
  _ ← fp_promise_builder_free 0 empty_heap;
  x ← fp_materialize 1 mem host None 0 0 0 s;
  rejects x.2.

(** ** Commits *)

(** No socket exists. *)
Definition promise_commit_unavailable_keeps_builder_retriable : Test :=
  provider_id ← ProviderId_from_raw 1;
  pending_builder ← sample_file_builder provider_id (bs "remote-file-1");
  let inner := mkContextInner 1 (bs "/tmp/fuse-promise-missing.sock") (bs "/tmp/fuse-promise") in
  let builder := mkBuilder inner 1 (Some pending_builder) in
  let out_path := replicate 512 Byte.x01 in
  let '(_, builder, out_path, status) := fp_promise_commit (host_with ∅) (Some builder) (Some out_path) 512 closed_stream in
  _ ← assert_eq status (Some FP_ERR_UNAVAILABLE);
  out_path ← out_path;
  _ ← assert_eq (out_path !! 0%nat) (Some nul);
  builder ← builder;
  assert (bool_decide (is_Some (fb_builder builder))).

(** The structs and strings of the last test. *)
Definition terminated (s : str) : list byte := s ++ [nul].
Definition runtime_dir : str := bs "/tmp/run".
Definition context_options : list byte := le_bytes 4 (struct_size context_options_fields) ++ le_bytes 4 API_VERSION ++ le_bytes 8 2000.
Definition provider_ops : list byte := le_bytes 8 (struct_size provider_ops_fields) ++ le_bytes 8 4096.
Definition attr_bytes (mode size : Z) : list byte :=
  le_bytes 4 (struct_size node_attr_fields) ++ le_bytes 4 mode ++ le_bytes 8 size ++ le_bytes 8 0.

Definition test_memory : CMemory := mkCMemory
  (fun address =>
    (<[1000 := context_options]> (<[2000 := terminated runtime_dir]> (<[3000 := provider_ops]>
     (<[4000 := terminated (bs "docs")]> (<[4100 := attr_bytes 493 0]> (<[4200 := terminated (bs "remote-dir-1")]>
     (<[5000 := terminated (bs "docs/readme.txt")]> (<[5100 := attr_bytes 420 12]>
       (<[5200 := terminated (bs "remote-file-1")]> {[ 6000 := le_bytes 8 0 ]}))))))))
     : gmap Z (list byte)) !! address)
  (fun _ => test_read_callback) (fun _ _ _ _ => FP_OK).

(** The runtime directory and the control socket in it. *)
Definition daemon_host : Host :=
  mkHost (Some runtime_dir) (fun _ => Ok (directory_with 448))
    (fun path => Ok (if decide (path = runtime_dir) then directory_with 448 else mkPathMetadata PathSocket 1000 448)) 1000
    (Ok (bs "/")) (fun _ => Ok tt).

(** A call that makes a connection to a thread that serves [state]: its
    messages are [requests], and the state and the registered providers after it. *)
Definition call_daemon (env : Stream -> CallEnv) (state : IpcState) (requests : list Request) (heap : Heap) (call : CCall) :
    option (Outcome * IpcState * list ProviderId) :=
  server ← served_so_far (mkSession state requests);
  let bytes := wr_bytes (cl_writer server.2.1) in
  outcome ← c_call test_memory daemon_host (env (mkStream (mkReader bytes None) (mkWriter [] None))) heap call;
  _ ← assert_eq (wr_bytes (sm_writer (oc_stream outcome))) (concat (message_frame <$> requests));
  Some (outcome, server.1, cl_registered server.2.1).

Definition alloc (box : Z) (s : Stream) : CallEnv := mkCallEnv box 1 (mkSpawnEnv (Ok tt) (Ok tt)) s.
Definition local_call (box : Z) (heap : Heap) (call : CCall) : option Outcome :=
  c_call test_memory daemon_host (alloc box closed_stream) heap call.

Definition promise_commit_success_returns_visible_path : Test :=
  let mount_path := path_join runtime_dir (bs "fuse-promise") in
  let state := set_mount_status (IpcState_new Runtime_new) (IpcMountStatus_commit_ready mount_path) in
  o ← local_call 8 empty_heap (CContextOpen 1000 6000);
  let context := oc_handle o in
  _ ← assert_eq (oc_status o) FP_OK;
  _ ← assert (negb (context =? 0));
  x ← call_daemon (alloc 16) state connect_requests (oc_heap o) (CProviderRegister context 3000 0 6000);
  let '(o, state, registered) := x in
  let provider := oc_handle o in
  _ ← assert_eq (oc_status o) FP_OK;
  _ ← assert (negb (provider =? 0));
  o ← local_call 24 (oc_heap o) (CBuilderNew context provider 6000);
  let builder := oc_handle o in
  _ ← assert_eq (oc_status o) FP_OK;
  _ ← assert (negb (builder =? 0));
  o ← local_call 32 (oc_heap o) (CAddDir builder 4000 4100 4200);
  _ ← assert_eq (oc_status o) FP_OK;
  o ← local_call 32 (oc_heap o) (CAddFile builder 5000 5100 5200);
  _ ← assert_eq (oc_status o) FP_OK;
  x ← call_daemon (alloc 32) state [RequestHello IPC_PROTOCOL_VERSION API_VERSION; commit_of 1 42] (oc_heap o)
        (CCommit builder (Some (replicate 512 nul)) 512);
  let '(o, state, _) := x in
  _ ← assert_eq (oc_status o) FP_OK;
  out_path ← oc_buffer o;
  visible_path ← until_nul out_path;
  _ ← assert_eq visible_path (path_join mount_path (bs "promise-1"));
  o ← local_call 32 (oc_heap o) (CCommit builder (Some out_path) 512);
  _ ← assert_eq (oc_status o) FP_ERR_INVALID_ARGUMENT;
  o ← local_call 32 (oc_heap o) (CBuilderFree builder);
  o ← local_call 32 (oc_heap o) (CProviderUnregister provider);
  o ← local_call 32 (oc_heap o) (CContextClose context);
  assert (bool_decide (hp_boxes (oc_heap o) = ∅)).

(** ** All of them pass *)

Definition ffi_tests : list Test := [
  dispatch_provider_read_calls_c_callback; provider_helper_dispatches_socket_read_requests;
  provider_gone_io_maps_to_provider_gone_status; public_abi_constants_and_layout_match_header;
  public_entrypoints_reject_nulls_without_unwinding; promise_commit_unavailable_keeps_builder_retriable;
  promise_commit_success_returns_visible_path].

Example ffi_tests_pass : Forall (fun test => test = Some tt) ffi_tests.
Proof. repeat (constructor; [vm_compute; reflexivity|]). constructor. Qed.
